(* ===== verification/_CoqProject ===== *)
-Q . S2P
Prelude.v
Text.v
Doubles.v
Readers.v
ReaderRep.v
Validator.v
Streams.v
World.v
Pattern.v
Reading.v
Numbers.v
Register.v
Checkers.v
Random.v
Opts.v
Generator.v
Scorer.v
TextSpec.v
ReaderSpec.v
StreamSpec.v
QuitSpec.v
ProcessSpec.v
RegisterSpec.v
TokenSpec.v
NumbersSpec.v
StrictSpec.v
ValidatorSpec.v
PatternSpec.v
PatternParse.v
FloatSpec.v
RoundSpec.v
RandomSpec.v
ToleranceSpec.v
OptsSpec.v
ExponentSpec.v
GeneratorSpec.v
CheckersSpec.v
RealsSpec.v
ScorerSpec.v
BoundsSpec.v
LinesSpec.v
GoText.v
GoTextSpec.v
Model.v
OutputLimiter.v
OutputSpec.v
Sandbox.v
SandboxSpec.v
Brackets.v
Container.v
ContainerSpec.v
Execution.v
ExecutionSpec.v
Language.v
LanguageSpec.v
Checker.v
CheckerSpec.v
CheckerCache.v
CacheSpec.v
Judge.v
JudgeSpec.v
Resource.v
ResourceSpec.v
Settings.v
SettingsSpec.v
Startup.v
StartupSpec.v
Transport.v
TransportSpec.v
Server.v
ServerSpec.v
Service.v
ServiceInv.v
ServiceExec.v
StackSpec.v
ServiceWork.v
ServiceSeq.v
EndToEnd.v
ServiceSpec.v
ConcurrentSpec.v
