(* ===== verification/Prelude.v ===== *)
(** * Afterglow Judge Engine

    The judge compiles a submission, runs it in containers on test cases and
    decides each case with a checker, a C++ program on top of [testlib.h] that
    runs in a container too.  This library models both halves, the checkers
    with the whole of [testlib.h] and the judge's own logic in Go, and proves
    what they compute, up to the verdicts a running service answers with, as
    functions of what the submissions print, under any interleaving of concurrent
    requests (EndToEnd.v, ServiceSpec.v, ConcurrentSpec.v).

    ** The parts of the program and their files

    testlib ([src/support/testlib.h]), from the bottom up.  [X.v] holds the
    definitions, named as in the source, and [XSpec.v] what is proved of them.
    - Text.v: string helpers.  Doubles.v: [double] as the Standard Library's
      [spec_float] 53 1024, comparison with tolerance, printing.
    - Readers.v: the abstract class [InputStreamReader] as a type class with
      its three implementations.  ReaderRep.v: the contract [ReaderRep] that
      the stream functions are proved against, discharged by the string and
      the buffered reader.  The reader over a plain [FILE*] does not satisfy it
      (byte 255 ends its text); StrictSpec.v has its own view of it.
    - Streams.v: [struct InStream] and the functions that touch only it.
    - Validator.v, Pattern.v: the classes [Validator] and [pattern].
    - World.v: the globals of the process as a record [World], the monad [M]
      of a process ([MRet] a value, or [MHalt] with an exit code), and
      [quit].  Undefined behaviour and exhausted fuel are [HStuck], so that a
      theorem that gives an exit code excludes both.
    - Reading.v, Numbers.v: tokens, lines, numbers, and their bounded, named
      and repeated forms.
    - Register.v: registration, points, and [run_program], a whole run with
      the destructor of [TestlibFinalizeGuard] at its end.
    - Checkers.v: the [main]s of the eleven programs of
      [src/support/checkers].
    - Random.v, Opts.v, Generator.v: [random_t], command line options,
      generators.  Scorer.v: serialized test results, scorers.

    The judge ([src/internal]).
    - GoText.v: what the code uses of Go's text packages.
    - Model.v: [model/types.go].
    - OutputLimiter.v, Sandbox.v, Container.v (with Brackets.v for [defer]):
      [sandbox], one command in a container, its events and its verdict.
    - Execution.v: [execution], workspaces, compilation and runs; its class
      [Executor] is the interface the service is proved against.
    - Language.v, Checker.v, CheckerCache.v, Judge.v: [service].
    - Resource.v: [resource], the bundled files and the external root.
    - Settings.v, Startup.v: [cmd/server], the environment variables, the
      construction of all parts and the preflight of the host.
    - Transport.v, Server.v: [transport/httptransport], the handler of one
      request, and [Run] with its goroutine and its graceful end.
    - Service.v: the handlers of concurrent requests, from the body to the
      answer, over what they share: the executor, the weighted semaphore
      [concurrencySem], the compile cache and its single-flight group.
    Concurrency is a step relation whose executions are all interleavings: the
    two writers on one output budget ([OutputLimiter.step]), executions on the
    CPU pool ([Container.pool_step]), callers of the compile cache
    ([CheckerCache.cache_step]), test cases ([Judge.case_step]), the server and
    the requests it serves ([Server.server_step]), and the requests with each
    other ([Service.service_step], built from the steps of the cache and of the
    cases).  A call of the executor is one step there, so that calls that
    overlap in time have an order; that each takes a slot and a CPU of its own
    and gives them back is proved of Execution.v and Container.v.

    ** What is proved

    - Verdicts.  CheckersSpec.v and LinesSpec.v give the exit code of each
      checker as a function of the bytes of the two files; EndToEnd.v composes
      it with the judge; JudgeSpec.v and TransportSpec.v have the meaning of a
      whole answer, up to the HTTP response, and that every interleaving of
      the cases ends with the same results.  ServiceSpec.v puts all of it
      together for a server that started and a sequence of requests.
    - Concurrent requests.  ServiceInv.v: the invariant of [service_step], where every
      handler is and what it was answered with.  ServiceExec.v: the calls of the
      executor that the service makes, their containers, and that every result
      comes from calls that were made.  StackSpec.v: the executor over the
      sandbox of the repository, its history of calls, and what a case reports
      of the containers that ran.  ServiceWork.v: a measure that
      every step decreases, and progress.  ServiceSeq.v: the phases put
      together are the sequential handler, and one request at a time is one of
      the schedules.  ConcurrentSpec.v: for a server that started, the verdicts
      under every interleaving, that every request is answered, that with a
      deterministic executor concurrency cannot be observed, that every
      container is one a request calls for and is confined, and that what a
      case reports is what was measured in the containers of its own calls.
    - Tolerance.  RoundSpec.v (the rounding of [SpecFloat] and its predecessor), ToleranceSpec.v
      and RealsSpec.v: what the three floating-point checkers accept, in terms
      of the decimals that the two files spell.
    - Processes.  QuitSpec.v: the exit code of [quit].  ProcessSpec.v,
      RegisterSpec.v, TokenSpec.v: the views of a running checker (bytes,
      tokens) that the proofs about checkers use.  BoundsSpec.v:
      bounded reading and scores.  StrictSpec.v, ValidatorSpec.v: strict
      reading as parsers, and a validator that accepts exactly its format.
      GeneratorSpec.v: a generator from its command line to the tests it
      writes.
    - Readers.  ReaderSpec.v: the buffered reader refines the text of its file.
    - Numbers and patterns.  NumbersSpec.v: accepted integers are exactly the
      printed ones.  PatternSpec.v, PatternParse.v, RandomSpec.v: the parser
      ends and builds well-formed patterns; matching and generation are
      sound for the language of a pattern; the rejection loops of [random_t]
      end, and every overload of [next] gives a value of its range or fails;
      permutations and partitions are what they should be.
      FloatSpec.v, OptsSpec.v, ExponentSpec.v: options and their values.
      ScorerSpec.v, TextSpec.v: round trips; the points of a test result are
      read back rounded to thousandths.
    - The sandbox.  OutputSpec.v, ContainerSpec.v: budget and pool invariants,
      resources given back on every path.  SandboxSpec.v: a verdict is
      justified by what happened.  ExecutionSpec.v, LanguageSpec.v,
      CheckerSpec.v, CacheSpec.v: isolation, limits without overflow, safe
      paths, the cache.
    - The server.  ResourceSpec.v: what a request can make the service read.
      SettingsSpec.v, StartupSpec.v: the settings, and a start that ends with
      an error or with parts that are ready.  ServerSpec.v: the server stops,
      and only with no request left.

    ** Fuel and bounds

    Loops over input have as fuel a bound on the characters the reader can
    still deliver ([rd_fuel]); the view lemmas show that it suffices.  [quit]
    recurses at most six deep.  The rejection loops of [random_t] have the
    period [2 ^ 48] of the generator as fuel, which suffices because the
    generator visits every state (RandomSpec.v).  Files are at most
    [FILE_LIMIT] (the size [init] accepts) and tokens at most [TOKEN_LIMIT]
    bytes, the limits of testlib itself; machine integers are [Z] with the
    range or the wrap-around written out.

    ** Not modelled

    - Code that is not in the repository is a parameter with laws: the
      executor's host answers, the LRU cache, SHA-256, file systems, the
      containerd client, Unicode tables beyond ASCII, [std::pow].
    - The JSON decoder and encoder, the routes of [ServeMux], the wording of
      log lines, the random name of a container: the Go library's work around
      the request.
    - Of testlib: the branches for Windows, Borland and Visual C++, the other
      judges' exit code tables, allocation, and the text buffer of [va_list]
      formatting (messages are formatted from a list of arguments).
    - [std::exit] called by the finalize guard, a static object, while it is
      destroyed: formally undefined, and modelled as glibc behaves.
    - The permissions of a workspace beyond the mode bits of its files.
    - [distinct] with rejection ends with probability one only: its theorem
      is about the results it returns, and about the table variant.

    This file is the prelude: the scope of the string notation, machine
    integers and characters, and the lemmas and hints that all parts share. *)

From Stdlib Require Export Ascii String ZArith Lia.
From stdpp Require Export base option list strings gmap countable.

#[global] Open Scope Z_scope.
#[global] Open Scope list_scope.

(** ** Text

    [std::string], [char] buffers and Go strings are sequences of bytes. *)

Abbreviation bytes := (list ascii).

Declare Scope judge_scope.
Delimit Scope judge_scope with judge.
#[global] Open Scope judge_scope.

Notation "$ x" := (list_ascii_of_string x%string)
  (at level 1, x at level 0, format "$ x") : judge_scope.

(** Length of a string as a C++ [size_t] or Go [int]. *)
Definition zlen {A} (l : list A) : Z := Z.of_nat (length l).

(** [take]/[drop] with a machine-integer count, cheap to evaluate when the
    count is far beyond the end of the list. *)
Definition ztake {A} (n : Z) (l : list A) : list A :=
  if zlen l <=? n then l else take (Z.to_nat n) l.

Definition zdrop {A} (n : Z) (l : list A) : list A :=
  if zlen l <=? n then [] else drop (Z.to_nat n) l.

(** Indexing with a machine integer; [None] out of range. *)
Definition znth {A} (l : list A) (i : Z) : option A :=
  if (i <? 0) || (zlen l <=? i) then None else l !! Z.to_nat i.

(** ** Characters

    On the x86-64 Linux targets of this project [char] is a signed 8-bit
    integer: a byte above 127 promotes to a negative [int]. *)

Definition ascii_code (c : ascii) : Z := Z.of_N (N_of_ascii c).

Definition char_to_int (c : ascii) : Z :=
  let n := ascii_code c in if n <? 128 then n else n - 256.

(** The conversion [char(x)] of an [int]: the low 8 bits. *)
Definition int_to_char (x : Z) : ascii := ascii_of_N (Z.to_N (x mod 256)).

(** ** Machine integers *)

Definition INT_MAX : Z := 2147483647.
Definition INT_MIN : Z := -2147483648.
Definition LLONG_MAX : Z := 9223372036854775807.
Definition LLONG_MIN : Z := -9223372036854775808.
Definition ULLONG_MAX : Z := 18446744073709551615.

(** Wrap-around of unsigned and two's complement [w]-bit integers. *)
Definition uwrap (w x : Z) : Z := x mod 2 ^ w.
Definition swrap (w x : Z) : Z := (x + 2 ^ (w - 1)) mod 2 ^ w - 2 ^ (w - 1).

(** ** Computations that can fail

    [inl message] is a call of [__testlib_fail(message)]. *)

Abbreviation exc A := (bytes + A)%type.

Definition ebind {A B} (m : exc A) (k : A -> exc B) : exc B :=
  match m with
  | inl msg => inl msg
  | inr a => k a
  end.

Notation "'let?' x := m 'in' k" := (ebind m (fun x => k))
  (at level 10, x pattern, m at level 100, k at level 200) : judge_scope.

(** ** Automation *)

#[global] Arguments Z.eqb : simpl never.
#[global] Arguments Z.leb : simpl never.
#[global] Arguments Z.ltb : simpl never.
#[global] Arguments Z.of_nat : simpl never.
#[global] Arguments Z.add : simpl never.
#[global] Arguments Z.sub : simpl never.
#[global] Arguments Z.mul : simpl never.
#[global] Arguments Z.pow : simpl never.
#[global] Arguments list_ascii_of_string : simpl never.

Create HintDb judge.
Create Rewrite HintDb judge_rw.

(** Splits the boolean tests of the code and turns them into arithmetic. *)
Ltac case_test :=
  match goal with
  | |- context [Z.eqb ?a ?b] => destruct (Z.eqb_spec a b)
  | |- context [Z.leb ?a ?b] => destruct (Z.leb_spec a b)
  | |- context [Z.ltb ?a ?b] => destruct (Z.ltb_spec a b)
  end.

Ltac destruct_match :=
  match goal with
  | |- context [match ?x with _ => _ end] => destruct x eqn:?
  | H : context [match ?x with _ => _ end] |- _ => destruct x eqn:?
  end.

(** Evaluates the decidable tests that [done] can settle. *)
Ltac decide_tests :=
  repeat match goal with
  | |- context [bool_decide ?P] =>
      first [rewrite (bool_decide_true P) by done | rewrite (bool_decide_false P) by done]
  end.

(** ** List lemmas *)

Section Lists.
Context {A : Type}.
Implicit Types l k : list A.

Lemma zlen_nonneg l : 0 <= zlen l.
Proof. unfold zlen; lia. Qed.

Lemma zlen_app l k : zlen (l ++ k) = zlen l + zlen k.
Proof. unfold zlen; rewrite length_app; lia. Qed.

Lemma zlen_cons x l : zlen (x :: l) = 1 + zlen l.
Proof. unfold zlen; simpl; lia. Qed.

Lemma zlen_nil : zlen (@nil A) = 0.
Proof. reflexivity. Qed.

Lemma ztake_take n l : 0 <= n -> ztake n l = take (Z.to_nat n) l.
Proof.
  intros Hn; unfold ztake, zlen. case_test; [|done].
  rewrite take_ge; [done | lia].
Qed.

Lemma zdrop_drop n l : 0 <= n -> zdrop n l = drop (Z.to_nat n) l.
Proof.
  intros Hn; unfold zdrop, zlen. case_test; [|done].
  rewrite drop_ge; [done | lia].
Qed.

Lemma ztake_zdrop n l : 0 <= n -> ztake n l ++ zdrop n l = l.
Proof. intros Hn; rewrite ztake_take, zdrop_drop by done. apply take_drop. Qed.

Lemma zlen_replicate n (x : A) : zlen (replicate n x) = Z.of_nat n.
Proof. unfold zlen; by rewrite length_replicate. Qed.

Lemma ztake_ge n l : zlen l <= n -> ztake n l = l.
Proof. unfold ztake; case_test; [done | lia]. Qed.

Lemma zlen_ztake n l : 0 <= n -> zlen (ztake n l) = Z.min n (zlen l).
Proof. intros; rewrite ztake_take by done. unfold zlen; rewrite length_take; lia. Qed.
End Lists.

(** ** Machine integers in range *)

Lemma uwrap_small w x : 0 <= x < 2 ^ w -> uwrap w x = x.
Proof. apply Z.mod_small. Qed.

Lemma swrap_small w x : 1 <= w -> - 2 ^ (w - 1) <= x < 2 ^ (w - 1) -> swrap w x = x.
Proof.
  intros Hw Hx. unfold swrap. rewrite Z.mod_small; [lia|].
  replace (2 ^ w) with (2 * 2 ^ (w - 1)) by (rewrite <- Z.pow_succ_r by lia; f_equal; lia). lia.
Qed.

Lemma uwrap_range w x : 0 <= w -> 0 <= uwrap w x < 2 ^ w.
Proof. intros. apply Z.mod_pos_bound. lia. Qed.

Lemma swrap_range w x : 1 <= w -> - 2 ^ (w - 1) <= swrap w x < 2 ^ (w - 1).
Proof.
  intros Hw. unfold swrap. pose proof (Z.mod_pos_bound (x + 2 ^ (w - 1)) (2 ^ w) ltac:(lia)).
  replace (2 ^ w) with (2 * 2 ^ (w - 1)) in * by (rewrite <- Z.pow_succ_r by lia; f_equal; lia). lia.
Qed.

(** ** Character lemmas *)

Lemma ascii_code_range c : 0 <= ascii_code c < 256.
Proof.
  unfold ascii_code. pose proof (N_ascii_bounded c). lia.
Qed.

Lemma char_to_int_range c : -128 <= char_to_int c <= 127.
Proof.
  unfold char_to_int. pose proof (ascii_code_range c). case_test; lia.
Qed.

Lemma int_to_char_to_int c : int_to_char (char_to_int c) = c.
Proof.
  unfold int_to_char, char_to_int. pose proof (ascii_code_range c) as H.
  assert (E : (if ascii_code c <? 128 then ascii_code c else ascii_code c - 256) mod 256
              = ascii_code c).
  { case_test; [by rewrite Z.mod_small by lia|].
    rewrite <- (Z.mod_add _ 1) by lia. rewrite Z.mod_small; lia. }
  rewrite E. unfold ascii_code. rewrite N2Z.id. apply ascii_N_embedding.
Qed.

Lemma char_to_int_inj c d : char_to_int c = char_to_int d -> c = d.
Proof.
  intros H. rewrite <- (int_to_char_to_int c), <- (int_to_char_to_int d). by rewrite H.
Qed.

#[export] Hint Rewrite @zlen_app @zlen_cons @zlen_nil : judge_rw.
#[export] Hint Resolve char_to_int_range ascii_code_range zlen_nonneg : judge.

(** ** Sums over a finite map

    [msum f m] adds [f] over the values of [m]: how many processes of a table
    hold something, and how much work they have left. *)

Section MapSum.
Context `{Countable K} {A : Type}.
Implicit Types (m : gmap K A) (f : A -> nat).

Definition msum f m : nat := sum_list_with (fun kx => f kx.2) (map_to_list m).

Lemma msum_empty f : msum f ∅ = 0%nat.
Proof. done. Qed.

Lemma msum_insert_new f m i x : m !! i = None -> msum f (<[i := x]> m) = (f x + msum f m)%nat.
Proof. intros Hi. unfold msum. by rewrite (map_to_list_insert m i x Hi). Qed.

Lemma msum_delete f m i x : m !! i = Some x -> (msum f (delete i m) + f x = msum f m)%nat.
Proof.
  intros Hi. rewrite <- (insert_delete_id m i x Hi) at 2.
  rewrite msum_insert_new by apply lookup_delete_eq. lia.
Qed.

Lemma msum_insert f m i x y : m !! i = Some y -> (msum f (<[i := x]> m) + f y = msum f m + f x)%nat.
Proof.
  intros Hi. rewrite <- insert_delete_eq, msum_insert_new by apply lookup_delete_eq.
  pose proof (msum_delete f m i y Hi). lia.
Qed.

Lemma msum_elem f m i x : m !! i = Some x -> (f x <= msum f m)%nat.
Proof. intros Hi. pose proof (msum_delete f m i x Hi). lia. Qed.

Lemma msum_pos f m : (0 < msum f m)%nat -> exists i x, m !! i = Some x /\ (0 < f x)%nat.
Proof.
  induction m as [|i x m Hi IH] using map_ind; [by rewrite msum_empty; lia|].
  rewrite msum_insert_new by done. intros Hp. destruct (f x) as [|n] eqn:E.
  - destruct (IH Hp) as (j & y & Hj & Hy). exists j, y. split; [|done].
    rewrite lookup_insert_ne; [done|]. intros ->. congruence.
  - exists i, x. rewrite lookup_insert_eq, E. split; [done|lia].
Qed.

(** Values that change all at once. *)
Lemma msum_fmap_le f (h : A -> A) m : (forall x, (f (h x) <= f x)%nat) -> (msum f (h <$> m) <= msum f m)%nat.
Proof.
  intros Hh. induction m as [|i x m Hi IH] using map_ind; [by rewrite fmap_empty|].
  rewrite fmap_insert, !msum_insert_new; [|done|by rewrite lookup_fmap, Hi]. specialize (Hh x). lia.
Qed.
End MapSum.
