(* ===== verification/Text.v ===== *)
(** * Text utilities of testlib ([src/support/testlib.h])

    Case conversion, trimming, shortening, decimal printing, English ordinal
    suffixes, splitting and joining, message brackets and XML escaping: the
    string helpers that the readers, the verdict messages and the checkers
    share.  [std::string] is [bytes]; indices are machine integers. *)

From S2P Require Import Prelude.

(** ** C strings *)

(** [s.c_str()] as its reader sees it: up to the first NUL. *)
Fixpoint c_str (s : bytes) : bytes :=
  match s with
  | [] => []
  | c :: s' => if decide (c = zero) then [] else c :: c_str s'
  end.

(** [s.find(ch)], and [s.find(sub, from)] as a position or [npos]. *)
Fixpoint find_char (ch : ascii) (s : bytes) : option Z :=
  match s with
  | [] => None
  | c :: s' => if decide (c = ch) then Some 0 else Z.succ <$> find_char ch s'
  end.

Fixpoint is_prefix (p s : bytes) : bool :=
  match p, s with
  | [], _ => true
  | a :: p', b :: s' => bool_decide (a = b) && is_prefix p' s'
  | _ :: _, [] => false
  end.

Fixpoint find_sub (sub s : bytes) : option Z :=
  if is_prefix sub s then Some 0
  else match s with
       | [] => None
       | _ :: s' => Z.succ <$> find_sub sub s'
       end.

Definition find_from (sub s : bytes) (from : Z) : option Z :=
  Z.add from <$> find_sub sub (zdrop from s).

(** [s.substr(pos, n)] for a position inside the string. *)
Definition substr (s : bytes) (pos n : Z) : bytes := ztake n (zdrop pos s).

(** ** Character classes *)

Definition lf_char : ascii := int_to_char 10.
Definition cr_char : ascii := int_to_char 13.

Definition LF : Z := 10.
Definition CR : Z := 13.
Definition TAB : Z := 9.
Definition SPACE : Z := 32.
Definition EOFC : Z := 255.

Definition isEof (c : Z) : bool := c =? EOFC.
Definition isEoln (c : Z) : bool := (c =? LF) || (c =? CR).
Definition isBlanks (c : Z) : bool :=
  (c =? LF) || (c =? CR) || (c =? SPACE) || (c =? TAB).

(** ['0' <= c && c <= '9'] on a [char]. *)
Definition is_digit (c : ascii) : bool :=
  (48 <=? char_to_int c) && (char_to_int c <=? 57).

(** ** Case conversion *)

Definition upperCase (s : bytes) : bytes :=
  (fun c => let x := char_to_int c in
            if (97 <=? x) && (x <=? 122) then int_to_char (x - 97 + 65) else c) <$> s.

Definition lowerCase (s : bytes) : bytes :=
  (fun c => let x := char_to_int c in
            if (65 <=? x) && (x <=? 90) then int_to_char (x - 65 + 97) else c) <$> s.

(** ** Trimming *)

(** The first index at which the predicate fails. *)
Fixpoint count_while (P : ascii -> bool) (s : bytes) : Z :=
  match s with
  | [] => 0
  | c :: s' => if P c then 1 + count_while P s' else 0
  end.

Definition blank_char (c : ascii) : bool := isBlanks (char_to_int c).

Definition trim (s : bytes) : bytes :=
  if bool_decide (s = []) then s
  else
    let left := count_while blank_char s in
    if zlen s <=? left then []
    else
      let right := zlen s - 1 - count_while blank_char (reverse s) in
      if right <? 0 then [] else substr s left (right - left + 1).

(** ** Shortening *)

Definition __testlib_part (s : bytes) : bytes :=
  let t := (fun c => if decide (c = zero) then "~"%char else c) <$> s in
  if zlen t <=? 64 then t
  else substr t 0 30 ++ $"..." ++ substr t (zlen s - 31) 31.

Definition compress (s : bytes) : bytes := __testlib_part s.

(** ** Printing integers *)

Definition digit_char (d : Z) : ascii := int_to_char (48 + d).

(** The digits of a non-zero [n], least significant first, as the loop
    [while (n != 0)] appends them; C++ division truncates towards zero. *)
Fixpoint vtos_loop (fuel : nat) (n : Z) : bytes :=
  match fuel with
  | O => []
  | S fuel =>
      if n =? 0 then []
      else let digit := Z.rem n 10 in
           let digit := if digit <? 0 then - digit else digit in
           digit_char digit :: vtos_loop fuel (Z.quot n 10)
  end.

Definition dec_fuel (n : Z) : nat := S (Z.to_nat (Z.log2 (Z.abs n))).

(** [vtos(n)] at an integral type. *)
Definition vtos (n : Z) : bytes :=
  if n =? 0 then $"0"
  else let negative := n <? 0 in
       let s := reverse (vtos_loop (dec_fuel n) n) in
       if negative then $"-" ++ s else s.

Definition toString (n : Z) : bytes := vtos n.

Fixpoint strip_zeroes (fuel : nat) (n : Z) (count : Z) : Z * Z :=
  match fuel with
  | O => (n, count)
  | S fuel => if Z.rem n 10 =? 0 then strip_zeroes fuel (Z.quot n 10) (count + 1)
              else (n, count)
  end.

(** The signed and the unsigned overload agree on non-negative values. *)
Definition toHumanReadableString (n : Z) : bytes :=
  if n =? 0 then vtos n
  else
    let '(n_, trailingZeroCount) := strip_zeroes (dec_fuel n) n 0 in
    if 7 <=? trailingZeroCount then
      if n_ =? 1 then $"10^" ++ vtos trailingZeroCount
      else if n_ =? -1 then $"-10^" ++ vtos trailingZeroCount
      else vtos n_ ++ $"*10^" ++ vtos trailingZeroCount
    else vtos n.

Definition englishEnding (x : Z) : bytes :=
  let x := Z.rem x 100 in
  if Z.quot x 10 =? 1 then $"th"
  else if Z.rem x 10 =? 1 then $"st"
  else if Z.rem x 10 =? 2 then $"nd"
  else if Z.rem x 10 =? 3 then $"rd"
  else $"th".

(** Works on the reversed text: its head is [value[value.length() - 1]]. *)
Fixpoint strip_trailing_zeroes (r : bytes) : bytes :=
  match r with
  | c :: r' => if decide (c = "0"%char) then
                 if bool_decide ("."%char ∈ r) then strip_trailing_zeroes r' else r
               else r
  | [] => []
  end.

Definition removeDoubleTrailingZeroes (value : bytes) : bytes :=
  let r := strip_trailing_zeroes (reverse value) in
  match r with
  | c :: _ => if decide (c = "."%char) then reverse r ++ $"0" else reverse r
  | [] => []
  end.

(** ** Splitting and joining *)

Fixpoint split_loop (isSep : ascii -> bool) (s item : bytes) : list bytes :=
  match s with
  | [] => [item]
  | c :: s' => if isSep c then item :: split_loop isSep s' []
               else split_loop isSep s' (item ++ [c])
  end.

Definition split_char (s : bytes) (separator : ascii) : list bytes :=
  split_loop (fun c => bool_decide (c = separator)) s [].

(** The table [std::vector<bool> isSeparator(256)], indexed by unsigned char. *)
Definition separator_table (separators : bytes) : list bool :=
  foldl (fun table c => <[N.to_nat (N_of_ascii c) := true]> table) (replicate 256 false) separators.

Definition in_table (table : list bool) (c : ascii) : bool :=
  default false (table !! N.to_nat (N_of_ascii c)).

Definition split_string (s separators : bytes) : list bytes :=
  if bool_decide (separators = []) then [s]
  else split_loop (in_table (separator_table separators)) s [].

Fixpoint tokenize_loop (isSep : ascii -> bool) (s item : bytes) : list bytes :=
  match s with
  | [] => if bool_decide (item = []) then [] else [item]
  | c :: s' =>
      if isSep c
      then (if bool_decide (item = []) then [] else [item]) ++ tokenize_loop isSep s' []
      else tokenize_loop isSep s' (item ++ [c])
  end.

Definition tokenize_char (s : bytes) (separator : ascii) : list bytes :=
  tokenize_loop (fun c => bool_decide (c = separator)) s [].

Definition tokenize_string (s separators : bytes) : list bytes :=
  if bool_decide (separators = []) then [s]
  else tokenize_loop (in_table (separator_table separators)) s [].

(** [join(first, last, separator)] over a range of strings. *)
Definition join (items : list bytes) (separator : bytes) : bytes :=
  (foldl (fun '(ss, repeated) i =>
            ((if repeated : bool then ss ++ separator else ss) ++ i, true))
         ([], false) items).1.

(** [join(collection)]. *)
Definition join_spaces (items : list bytes) : bytes := join items [" "%char].

(** ** Message brackets *)

Definition OPEN_BRACKET : ascii := int_to_char 11.
Definition CLOSE_BRACKET : ascii := int_to_char 17.

(** Position of the only occurrence of [ch]: [-1] when there is none and
    [INT_MAX] when there are several. *)
Fixpoint scan_bracket (ch : ascii) (message : bytes) (i pos : Z) : Z :=
  match message with
  | [] => pos
  | c :: m => scan_bracket ch m (i + 1)
                (if decide (c = ch) then (if pos =? -1 then i else INT_MAX) else pos)
  end.

Definition bracketed (openPos closePos : Z) : bool :=
  negb (openPos =? -1) && negb (openPos =? INT_MAX)
  && negb (closePos =? -1) && negb (closePos =? INT_MAX) && (openPos <? closePos).

Definition __testlib_appendMessage (message extra : bytes) : bytes :=
  let openPos := scan_bracket OPEN_BRACKET message 0 (-1) in
  let closePos := scan_bracket CLOSE_BRACKET message 0 (-1) in
  if bracketed openPos closePos then
    let outside := match find_from extra message openPos with
                   | None => true
                   | Some index => closePos <=? index
                   end in
    if outside then substr message 0 closePos ++ $", " ++ extra ++ zdrop closePos message
    else message
  else message ++ $" " ++ [OPEN_BRACKET] ++ extra ++ [CLOSE_BRACKET].

Definition __testlib_toPrintableMessage (message : bytes) : bytes :=
  let openPos := scan_bracket OPEN_BRACKET message 0 (-1) in
  let closePos := scan_bracket CLOSE_BRACKET message 0 (-1) in
  if bracketed openPos closePos
  then <[Z.to_nat closePos := ")"%char]> (<[Z.to_nat openPos := "("%char]> message)
  else message.

(** What [xmlSafeWrite(file, msg)] writes to the file; [msg] is a C string. *)
Definition xmlSafeWrite (msg : bytes) : bytes :=
  mbind (fun c =>
    if decide (c = "&"%char) then $"&amp;"
    else if decide (c = "<"%char) then $"&lt;"
    else if decide (c = ">"%char) then $"&gt;"
    else if decide (c = "034"%char) then $"&quot;"
    else if (0 <=? char_to_int c) && (char_to_int c <=? 31) then $"."
    else [c]) (c_str msg).

Example vtos_min : vtos LLONG_MIN = $"-9223372036854775808".
Proof. reflexivity. Qed.
Example human_1e9 : toHumanReadableString 1000000000 = $"10^9".
Proof. reflexivity. Qed.
Example ending_113 : englishEnding 113 = $"th".
Proof. reflexivity. Qed.
Example trim_ex : trim ($"  ab c ") = $"ab c".
Proof. reflexivity. Qed.
