(* ===== verification/Doubles.v ===== *)
(** * Doubles: IEEE 754 binary64 in testlib ([src/support/testlib.h])

    [double] is the Standard Library's [spec_float] at precision 53 and
    exponent bound 1024: every operation rounds to nearest even, as the
    x86-64 SSE2 arithmetic the checkers are compiled to.  A [spec_float] has
    one NaN, so the payload and the sign of a NaN are not represented; no
    comparison depends on them, and the text [%f] prints for one is [nan].

    The file also holds the part of the C library the checkers use on
    doubles: the [%lf%s] conversions of [sscanf] (the C library's scanner and
    its correctly rounded [strtod]), and [printf]'s [%d], [%s], [%.Nf]. *)

From Stdlib Require Import SpecFloat.
From S2P Require Import Prelude Text.

Abbreviation double := spec_float.

(** ** Arithmetic *)

Definition dadd : double -> double -> double := SFadd 53 1024.
Definition dsub : double -> double -> double := SFsub 53 1024.
Definition dmul : double -> double -> double := SFmul 53 1024.
Definition ddiv : double -> double -> double := SFdiv 53 1024.
Definition dopp : double -> double := SFopp.
Definition dlt : double -> double -> bool := SFltb.
Definition dle : double -> double -> bool := SFleb.
Definition deq : double -> double -> bool := SFeqb.

(** An integer converted to [double]. *)
Definition double_of_Z (n : Z) : double := binary_normalize 53 1024 n 0 false.

(** The correctly rounded value of the decimal [(-1)^neg * m * 10^e].  A
    decimal with [adj] digits before its point is infinite beyond [10^310]
    and zero below [10^-330]; the bounds keep the evaluation small. *)
Definition decimal (neg : bool) (m e : Z) : double :=
  if m <=? 0 then S754_zero neg
  else
    let adj := zlen (vtos m) + e in
    if 310 <? adj then S754_infinity neg
    else if adj <? -330 then S754_zero neg
    else if 0 <=? e then binary_normalize 53 1024 ((if neg then -1 else 1) * (m * 10 ^ e)) 0 neg
    else SFdiv 53 1024 (S754_finite neg (Z.to_pos m) 0)
                       (S754_finite false (Z.to_pos (10 ^ (- e))) 0).

(** The literals [1E-15], [1E-9], [1E300] of the source. *)
Definition E (e : Z) : double := decimal false 1 e.
Definition dzero : double := S754_zero false.
Definition done_ : double := double_of_Z 1.

(** The truncation of a conversion to an integer type; [None] for NaN and the
    infinities. *)
Definition dtrunc (x : double) : option Z :=
  match x with
  | S754_zero _ => Some 0
  | S754_finite s m e =>
      let q := if 0 <=? e then Zpos m * 2 ^ e else Zpos m / 2 ^ (- e) in
      Some (if s then - q else q)
  | _ => None
  end.

(** ** Helpers of testlib *)

Definition dabs (x : double) : double := if dlt dzero x then x else dopp x.
Definition dmin (a b : double) : double := if dlt a b then a else b.
Definition dmax (a b : double) : double := if dlt b a then a else b.

Definition __testlib_prelimIsNaN (r : double) : bool :=
  negb (deq r r) && negb (dlt r done_) && negb (dlt done_ r).

(** The bit pattern of the default NaN, or of its negation. *)
Definition nan_bits (r : double) : bool :=
  match r with S754_nan => true | _ => false end.

Definition __testlib_isNaN (r : double) : bool :=
  __testlib_prelimIsNaN r || nan_bits r || nan_bits (dopp r).

Definition __testlib_isInfinite (r : double) : bool :=
  dlt (E 300) r || dlt r (dopp (E 300)).

Definition doubleCompare (expected result MAX_DOUBLE_ERROR : double) : bool :=
  let MAX_DOUBLE_ERROR := dadd MAX_DOUBLE_ERROR (E (-15)) in
  if __testlib_isNaN expected then __testlib_isNaN result
  else if __testlib_isInfinite expected then
    if dlt dzero expected then dlt dzero result && __testlib_isInfinite result
    else dlt result dzero && __testlib_isInfinite result
  else if __testlib_isNaN result || __testlib_isInfinite result then false
  else if dle (dabs (dsub result expected)) MAX_DOUBLE_ERROR then true
  else
    let lo := dmul expected (dsub done_ MAX_DOUBLE_ERROR) in
    let hi := dmul expected (dadd done_ MAX_DOUBLE_ERROR) in
    let minv := dmin lo hi in
    let maxv := dmax lo hi in
    dle minv result && dle result maxv.

Definition doubleDelta (expected result : double) : double :=
  let absolute := dabs (dsub result expected) in
  if dlt (E (-9)) (dabs expected) then
    let relative := dabs (ddiv absolute expected) in
    dmin absolute relative
  else absolute.

(** ** [strtod] and [sscanf(buffer, "%lf%s", ...)] *)

(** The value of a run of digits, and what follows it. *)
Fixpoint scan_digits (s : bytes) (acc count : Z) : Z * Z * bytes :=
  match s with
  | c :: s' => if is_digit c
               then scan_digits s' (acc * 10 + (char_to_int c - 48)) (count + 1)
               else (acc, count, s)
  | [] => (acc, count, [])
  end.

Definition is_sign (c : ascii) : bool := bool_decide (c = "+"%char) || bool_decide (c = "-"%char).
Definition is_e (c : ascii) : bool := bool_decide (c = "e"%char) || bool_decide (c = "E"%char).

Definition scan_sign (s : bytes) : bool * bytes :=
  match s with
  | c :: s' => if is_sign c then (bool_decide (c = "-"%char), s') else (false, s)
  | [] => (false, [])
  end.

(** The value of the longest prefix that is a decimal number; [None] when
    there is no digit to convert. *)
Definition strtod (s : bytes) : option double :=
  let '(neg, s1) := scan_sign s in
  let '(ip, ni, s2) := scan_digits s1 0 0 in
  let '(m, nf, s3) :=
    match s2 with
    | c :: s2' => if decide (c = "."%char)
                  then let '(m, n, s3) := scan_digits s2' ip 0 in (m, n, s3)
                  else (ip, 0, s2)
    | [] => (ip, 0, s2)
    end in
  if ni + nf =? 0 then None
  else
    let e := match s3 with
             | c :: s3' => if is_e c then
                             let '(eneg, s4) := scan_sign s3' in
                             let '(ev, ne, _) := scan_digits s4 0 0 in
                             if ne =? 0 then 0 else if eneg : bool then - ev else ev
                           else 0
             | [] => 0
             end in
    Some (decimal neg m (e - nf)).

(** The characters the scanner of [%lf] takes: after an optional sign, digits,
    one point, one exponent mark once a digit was seen, and a sign right
    after that mark.  [last_e] says that the previous character is the mark. *)
Fixpoint scan_lf (s : bytes) (got_digit got_dot got_e last_e : bool) : bytes * bytes :=
  match s with
  | [] => ([], [])
  | c :: s' =>
      if is_digit c then
        let '(t, r) := scan_lf s' true got_dot got_e false in (c :: t, r)
      else if got_e && last_e && is_sign c then
        let '(t, r) := scan_lf s' got_digit got_dot got_e false in (c :: t, r)
      else if got_digit && negb got_e && is_e c then
        let '(t, r) := scan_lf s' got_digit true true true in (c :: t, r)
      else if bool_decide (c = "."%char) && negb got_dot then
        let '(t, r) := scan_lf s' got_digit true got_e false in (c :: t, r)
      else ([], s)
  end.

(** [scanned], the double and the suffix. The buffer holds no blank here. *)
Definition sscanf_lf_s (buffer : bytes) : Z * double * bytes :=
  let '(signs, body) := match buffer with
                        | c :: b => if is_sign c then ([c], b) else ([], buffer)
                        | [] => ([], [])
                        end in
  let '(t, suffix) := scan_lf body false false false false in
  match strtod (signs ++ t) with
  | Some d => ((if bool_decide (suffix = []) then 1 else 2), d, suffix)
  | None => (0, dzero, [])
  end.

(** ** [printf] *)

(** [m * 2^e] rounded to an integer, ties to even. *)
Definition round_half_even (m e : Z) : Z :=
  if 0 <=? e then m * 2 ^ e
  else
    let d := 2 ^ (- e) in
    let q := m / d in
    let r := m mod d in
    if 2 * r <? d then q
    else if d <? 2 * r then q + 1
    else if Z.even q then q else q + 1.

Definition pad_left (n : Z) (s : bytes) : bytes :=
  replicate (Z.to_nat (n - zlen s)) "0"%char ++ s.

(** [%.Nf]. *)
Definition fmt_fixed (N : Z) (x : double) : bytes :=
  match x with
  | S754_nan => $"nan"
  | S754_infinity s => (if s then $"-" else []) ++ $"inf"
  | S754_zero s => (if s then $"-" else []) ++ $"0" ++
      (if 0 <? N then $"." ++ replicate (Z.to_nat N) "0"%char else [])
  | S754_finite s m e =>
      let q := round_half_even (Zpos m * 10 ^ N) e in
      let digits := pad_left (N + 1) (vtos q) in
      let k := zlen digits - N in
      (if s then $"-" else []) ++ ztake k digits ++
      (if 0 <? N then $"." ++ zdrop k digits else [])
  end.

(** [n / d] rounded to an integer, ties to even. *)
Definition round_ratio (n d : Z) : Z :=
  let q := n / d in
  let r := n mod d in
  if 2 * r <? d then q
  else if d <? 2 * r then q + 1
  else if Z.even q then q else q + 1.

(** The least [j >= 0] with [m * 10 ^ j >= d]. *)
Fixpoint leading_places (fuel : nat) (m d j : Z) : Z :=
  match fuel with
  | O => j
  | S fuel => if d <=? m then j else leading_places fuel (m * 10) d (j + 1)
  end.

(** The digits of a fraction without the zeroes at their end. *)
Fixpoint skip_zeroes (r : bytes) : bytes :=
  match r with
  | c :: r' => if decide (c = "0"%char) then skip_zeroes r' else r
  | [] => []
  end.

Definition fraction (digits : bytes) : bytes :=
  match skip_zeroes (reverse digits) with
  | [] => []
  | r => $"." ++ reverse r
  end.

(** [operator<<] of an output stream: [%g] with six significant digits.  The
    decimal exponent of the value is between [-325] and [309]. *)
Definition fmt_general (x : double) : bytes :=
  match x with
  | S754_nan => $"nan"
  | S754_infinity s => (if s then $"-" else []) ++ $"inf"
  | S754_zero s => (if s then $"-" else []) ++ $"0"
  | S754_finite s m e =>
      let n := Zpos m * 2 ^ Z.max e 0 in
      let d := 2 ^ Z.max (- e) 0 in
      let X := if d <=? n then zlen (vtos (n / d)) - 1 else - leading_places 330 n d 0 in
      let q := round_ratio (n * 10 ^ Z.max (5 - X) 0) (d * 10 ^ Z.max (X - 5) 0) in
      let '(q, X) := if q =? 10 ^ 6 then (10 ^ 5, X + 1) else (q, X) in
      let digits := vtos q in
      (if s then $"-" else []) ++
      (if (X <? -4) || (6 <=? X) then
         ztake 1 digits ++ fraction (zdrop 1 digits) ++ $"e" ++ (if X <? 0 then $"-" else $"+")
         ++ pad_left 2 (vtos (Z.abs X))
       else if X <? 0 then $"0" ++ fraction (replicate (Z.to_nat (- X - 1)) "0"%char ++ digits)
       else ztake (X + 1) digits ++ fraction (zdrop (X + 1) digits))
  end.

Inductive farg :=
| FInt (n : Z)
| FStr (s : bytes)
| FDbl (x : double).

(** The conversions the checkers' formats use; an argument list that does not
    fit its format is undefined in C and prints nothing here. *)
Fixpoint format_loop (fmt : bytes) (args : list farg) : bytes :=
  match fmt with
  | [] => []
  | c :: f =>
      if decide (c = "%"%char) then
        match f with
        | d :: f1 =>
            if decide (d = "d"%char) then
              match args with
              | FInt n :: args => vtos n ++ format_loop f1 args
              | _ => []
              end
            else if decide (d = "s"%char) then
              match args with
              | FStr s :: args => c_str s ++ format_loop f1 args
              | _ => []
              end
            else if decide (d = "%"%char) then "%"%char :: format_loop f1 args
            else if decide (d = "."%char) then
              match f1 with
              | p :: f2 =>
                  match f2 with
                  | g :: f3 =>
                      if decide (g = "f"%char) then
                        match args with
                        | FDbl x :: args => fmt_fixed (char_to_int p - 48) x ++ format_loop f3 args
                        | _ => []
                        end
                      else (* two-digit precision, as in [%.10f] *)
                        match f3, args with
                        | _ :: f4, FDbl x :: args =>
                            fmt_fixed ((char_to_int p - 48) * 10 + (char_to_int g - 48)) x
                            ++ format_loop f4 args
                        | _, _ => []
                        end
                  | [] => []
                  end
              | [] => []
              end
            else []
        | [] => []
        end
      else c :: format_loop f args
  end.

(** [FMT_TO_RESULT]: [vsnprintf] into the 16777216-byte buffer, read back as a
    C string. *)
Definition testlib_format_ (fmt : bytes) (args : list farg) : bytes :=
  c_str (ztake 16777215 (format_loop fmt args)).

Example fmt_pi : testlib_format_ ($"%d%s: %.5f %.10f%%")
   [FInt 3; FStr ($"rd"); FDbl (decimal false 314159265 (-8)); FDbl (decimal true 25 (-2))]
   = $"3rd: 3.14159 -0.2500000000%".
Proof. vm_compute. reflexivity. Qed.
Example scan_1e : sscanf_lf_s ($"1e") = (1, done_, []).
Proof. vm_compute. reflexivity. Qed.
Example scan_2pts : (sscanf_lf_s ($"-1.5.2")).2 = $".2".
Proof. vm_compute. reflexivity. Qed.
Example cmp_ex : doubleCompare (decimal false 1 6) (decimal false 10000009 (-1)) (E (-6)) = true.
Proof. vm_compute. reflexivity. Qed.
Example general_ex : (fun '(m, e) => fmt_general (decimal (m <? 0) (Z.abs m) e)) <$>
    [(1, 0); (-125, -1); (1, 6); (123456789, 0); (999999999, -3); (1, -5); (12, -5); (1, -300); (9999995, -1)]
  = [ $"1"; $"-12.5"; $"1e+06"; $"1.23457e+08"; $"1e+06"; $"1e-05"; $"0.00012"; $"1e-300"; $"1e+06" ].
Proof. vm_compute. reflexivity. Qed.
