(* ===== verification/Readers.v ===== *)
(** * Input stream readers ([src/support/testlib.h], [InputStreamReader])

    The abstract base class is the type class [InputStreamReader]; the three
    implementations over a string, over a [FILE*] with undo vectors and over a
    [FILE*] with a two-megabyte buffer are instances of it.  Virtual dispatch
    through the base pointer is the sum type [Reader].

    A call can return, call [__testlib_fail] with a message, or be undefined
    (a read of a buffer cell that was never written).

    What a reader promises is the class [ReaderRep] of the file [ReaderRep.v]. *)

From S2P Require Import Prelude Text.

(** ** Results of reader calls *)

Inductive rres (A : Type) :=
| RRet (a : A)
| RFail (msg : bytes)
| RUndef.
Arguments RRet {A} a.
Arguments RFail {A} msg.
Arguments RUndef {A}.

Definition rbind {A B} (m : rres A) (k : A -> rres B) : rres B :=
  match m with
  | RRet a => k a
  | RFail msg => RFail msg
  | RUndef => RUndef
  end.

Notation "'let%' x := m 'in' k" := (rbind m (fun x => k))
  (at level 10, x pattern, m at level 100, k at level 200) : judge_scope.

(** The virtual functions of [InputStreamReader]. *)
Class InputStreamReader (R : Type) := {
  rd_setTestCase : Z -> R -> rres R;
  rd_getReadChars : R -> rres (list Z);
  rd_curChar : R -> rres (Z * R);
  rd_nextChar : R -> rres (Z * R);
  rd_skipChar : R -> rres R;
  rd_unreadChar : Z -> R -> rres R;
  rd_getName : R -> bytes;
  rd_eof : R -> rres (bool * R);
  rd_close : R -> R;
  rd_getLine : R -> Z;
  (** Not in the class: a bound on the characters the reader can still
      deliver, the fuel of the reading loops. *)
  rd_fuel : R -> nat
}.

Definition __TESTLIB_MAX_TEST_CASE : Z := 1073741823.

(** ** [StringInputStreamReader] *)

Module StringReader.
Record t := Mk { s : bytes; pos : Z }.

Definition setTestCase (_ : Z) (_ : t) : rres t :=
  RFail ($"setTestCase not implemented in StringInputStreamReader").
Definition getReadChars (_ : t) : rres (list Z) :=
  RFail ($"getReadChars not implemented in StringInputStreamReader").

Definition curChar (r : t) : rres (Z * t) :=
  if zlen (s r) <=? pos r then RRet (EOFC, r)
  else match znth (s r) (pos r) with
       | Some c => RRet (char_to_int c, r)
       | None => RUndef
       end.

Definition nextChar (r : t) : rres (Z * t) :=
  if zlen (s r) <=? pos r then RRet (EOFC, Mk (s r) (pos r + 1))
  else match znth (s r) (pos r) with
       | Some c => RRet (char_to_int c, Mk (s r) (pos r + 1))
       | None => RUndef
       end.

Definition skipChar (r : t) : rres t := RRet (Mk (s r) (pos r + 1)).

Definition unreadChar (c : Z) (r : t) : rres t :=
  if pos r =? 0 then RFail ($"StringInputStreamReader::unreadChar(int): pos == 0.")
  else
    let p := pos r - 1 in
    if p <? zlen (s r)
    then RRet (Mk (<[Z.to_nat p := int_to_char c]> (s r)) p)
    else RRet (Mk (s r) p).

Definition getName (r : t) : bytes := __testlib_part (s r).
Definition getLine (_ : t) : Z := -1.
Definition eof (r : t) : rres (bool * t) := RRet (zlen (s r) <=? pos r, r).
Definition close (r : t) : t := r.
Definition fuel (r : t) : nat := S (Z.to_nat (zlen (s r) - pos r)).
End StringReader.

#[export] Instance string_reader : InputStreamReader StringReader.t := {|
  rd_setTestCase := StringReader.setTestCase;
  rd_getReadChars := StringReader.getReadChars;
  rd_curChar := StringReader.curChar;
  rd_nextChar := StringReader.nextChar;
  rd_skipChar := StringReader.skipChar;
  rd_unreadChar := StringReader.unreadChar;
  rd_getName := StringReader.getName;
  rd_eof := StringReader.eof;
  rd_close := StringReader.close;
  rd_getLine := StringReader.getLine;
  rd_fuel := StringReader.fuel |}.

(** ** A [FILE*] opened for reading: the bytes not yet delivered and its
    end-of-file and error indicators. *)

Record FILE := MkFILE { content : bytes; at_eof : bool; has_error : bool }.

Definition EOF : Z := -1.

(** [::getc]: an [unsigned char] or [EOF], which sets the indicator. *)
Definition libc_getc (f : FILE) : Z * FILE :=
  match content f with
  | c :: rest => (ascii_code c, MkFILE rest (at_eof f) (has_error f))
  | [] => (EOF, MkFILE [] true (has_error f))
  end.

(** [fread(_, 1, n, f)]. *)
Definition libc_fread (n : Z) (f : FILE) : bytes * FILE :=
  let chunk := ztake n (content f) in
  (chunk, MkFILE (zdrop n (content f)) (at_eof f || (zlen chunk <? n)) (has_error f)).

(** ** [FileInputStreamReader] *)

Module FileReader.
Record t := Mk {
  file : option FILE;
  name : bytes;
  line : Z;
  undoChars : list Z;   (* top of the vector first *)
  readChars : list Z;   (* most recent first *)
  undoReadChars : list Z }.

Definition postprocessGetc (getcResult : Z) : Z :=
  if negb (getcResult =? EOF) then getcResult else EOFC.

(** [feof(NULL)] and [::getc(NULL)] are undefined. *)
Definition feof (r : t) : rres bool :=
  match file r with Some f => RRet (at_eof f) | None => RUndef end.

Definition getc (r : t) : rres (Z * t) :=
  match undoChars r, undoReadChars r with
  | [], _ =>
      match file r with
      | Some f =>
          let '(c, f) := libc_getc f in
          let line' := if c =? LF then line r + 1 else line r in
          RRet (c, Mk (Some f) (name r) line' [] (c :: readChars r) (undoReadChars r))
      | None => RUndef
      end
  | c :: undo, rc :: undoRead =>
      let line' := if c =? LF then line r + 1 else line r in
      RRet (c, Mk (file r) (name r) line' undo (rc :: readChars r) undoRead)
  | _ :: _, [] => RUndef
  end.

Definition ungetc (c : Z) (r : t) : t :=
  let '(readC, undoRead) :=
    match readChars r with
    | rc :: rest => (rest, rc :: undoReadChars r)
    | [] => ([], undoReadChars r)
    end in
  let line' := if c =? LF then line r - 1 else line r in
  Mk (file r) (name r) line' (c :: undoChars r) readC undoRead.

Definition setTestCase (testCase : Z) (r : t) : rres t :=
  if (testCase <? 0) || (__TESTLIB_MAX_TEST_CASE <? testCase)
  then RFail ($"testCase expected fit in [1," ++ vtos __TESTLIB_MAX_TEST_CASE
              ++ $"], but " ++ vtos testCase ++ $" doesn't")
  else RRet (Mk (file r) (name r) (line r) (undoChars r)
                ((testCase + 256) :: readChars r) (undoReadChars r)).

Definition getReadChars (r : t) : rres (list Z) := RRet (reverse (readChars r)).

Definition curChar (r : t) : rres (Z * t) :=
  let% e := feof r in
  if (e : bool) then RRet (EOFC, r)
  else let% (c, r) := getc r in RRet (postprocessGetc c, ungetc c r).

Definition nextChar (r : t) : rres (Z * t) :=
  let% e := feof r in
  if (e : bool) then RRet (EOFC, r)
  else let% (c, r) := getc r in RRet (postprocessGetc c, r).

Definition skipChar (r : t) : rres t := let% (_, r) := getc r in RRet r.
Definition unreadChar (c : Z) (r : t) : rres t := RRet (ungetc c r).
Definition getName (r : t) : bytes := name r.
Definition getLine (r : t) : Z := line r.

Definition eof (r : t) : rres (bool * t) :=
  match file r with
  | None => RRet (true, r)
  | Some f =>
      if at_eof f then RRet (true, r)
      else
        let% (c, r) := nextChar r in
        let% e := feof r in
        if (c =? EOFC) || ((c =? EOF) && (e : bool)) then RRet (true, r)
        else let% r := unreadChar c r in RRet (false, r)
  end.

Definition close (r : t) : t :=
  Mk None (name r) (line r) (undoChars r) (readChars r) (undoReadChars r).

Definition fuel (r : t) : nat :=
  S (length (undoChars r) + match file r with Some f => length (content f) | None => O end).
End FileReader.

#[export] Instance file_reader : InputStreamReader FileReader.t := {|
  rd_setTestCase := FileReader.setTestCase;
  rd_getReadChars := FileReader.getReadChars;
  rd_curChar := FileReader.curChar;
  rd_nextChar := FileReader.nextChar;
  rd_skipChar := FileReader.skipChar;
  rd_unreadChar := FileReader.unreadChar;
  rd_getName := FileReader.getName;
  rd_eof := FileReader.eof;
  rd_close := FileReader.close;
  rd_getLine := FileReader.getLine;
  rd_fuel := FileReader.fuel |}.

(** ** [BufferedFileInputStreamReader] *)

Definition BUFFER_SIZE : Z := 2000000.
Definition MAX_UNREAD_COUNT : Z := BUFFER_SIZE / 2.

(** [memcpy]/[memset] into an array of cells. *)
Fixpoint write_at {A} (cells : gmap Z A) (i : Z) (l : list A) : gmap Z A :=
  match l with
  | [] => cells
  | x :: l => write_at (<[i := x]> cells) (i + 1) l
  end.

Module BufferedReader.
Record t := Mk {
  file : option FILE;
  name : bytes;
  line : Z;
  buffer : gmap Z ascii;
  isEof : gmap Z bool;
  bufferPos : Z;
  bufferSize : Z }.

Definition refill (r : t) : rres (bool * t) :=
  match file r with
  | None => RFail ($"BufferedFileInputStreamReader: file == NULL (" ++ name r ++ $")")
  | Some f =>
      if bufferSize r <=? bufferPos r then
        let '(chunk, f) := libc_fread (BUFFER_SIZE - MAX_UNREAD_COUNT) f in
        let readSize := zlen chunk in
        if (readSize <? BUFFER_SIZE - MAX_UNREAD_COUNT) && has_error f
        then RFail ($"BufferedFileInputStreamReader: unable to read (" ++ name r ++ $")")
        else RRet (0 <? readSize,
                   Mk (Some f) (name r) (line r)
                      (write_at (buffer r) MAX_UNREAD_COUNT chunk)
                      (write_at (isEof r) MAX_UNREAD_COUNT (replicate (length chunk) false))
                      MAX_UNREAD_COUNT (MAX_UNREAD_COUNT + readSize))
      else RRet (true, r)
  end.

Definition increment (r : t) : rres (ascii * t) :=
  match buffer r !! bufferPos r with
  | Some c =>
      RRet (c, Mk (file r) (name r) (if char_to_int c =? LF then line r + 1 else line r)
                  (buffer r) (isEof r) (bufferPos r + 1) (bufferSize r))
  | None => RUndef
  end.

Definition make (file : FILE) (name : bytes) : t :=
  Mk (Some file) name 1 ∅ ∅ MAX_UNREAD_COUNT MAX_UNREAD_COUNT.

Definition setTestCase (_ : Z) (_ : t) : rres t :=
  RFail ($"setTestCase not implemented in BufferedFileInputStreamReader").
Definition getReadChars (_ : t) : rres (list Z) :=
  RFail ($"getReadChars not implemented in BufferedFileInputStreamReader").

Definition curChar (r : t) : rres (Z * t) :=
  let% (ok, r) := refill r in
  if negb (ok : bool) then RRet (EOFC, r)
  else match isEof r !! bufferPos r, buffer r !! bufferPos r with
       | Some true, _ => RRet (EOFC, r)
       | Some false, Some c => RRet (char_to_int c, r)
       | _, _ => RUndef
       end.

Definition nextChar (r : t) : rres (Z * t) :=
  let% (ok, r) := refill r in
  if negb (ok : bool) then RRet (EOFC, r)
  else match isEof r !! bufferPos r with
       | Some true => RRet (EOFC, r)
       | Some false => let% (c, r) := increment r in RRet (char_to_int c, r)
       | None => RUndef
       end.

Definition skipChar (r : t) : rres t := let% (_, r) := increment r in RRet r.

Definition unreadChar (c : Z) (r : t) : rres t :=
  let p := bufferPos r - 1 in
  if p <? 0 then RFail ($"BufferedFileInputStreamReader::unreadChar(int): bufferPos < 0")
  else RRet (Mk (file r) (name r) (if c =? LF then line r - 1 else line r)
                (<[p := int_to_char c]> (buffer r)) (<[p := (c =? EOFC)]> (isEof r))
                p (bufferSize r)).

Definition getName (r : t) : bytes := name r.
Definition getLine (r : t) : Z := line r.

Definition eof (r : t) : rres (bool * t) :=
  let% (ok, r) := refill r in
  if negb (ok : bool) then RRet (true, r)
  else let% (c, r) := curChar r in RRet (EOFC =? c, r).

Definition close (r : t) : t :=
  Mk None (name r) (line r) (buffer r) (isEof r) (bufferPos r) (bufferSize r).

Definition fuel (r : t) : nat :=
  S (Z.to_nat (bufferSize r - bufferPos r)
     + match file r with Some f => length (content f) | None => O end).
End BufferedReader.

#[export] Instance buffered_reader : InputStreamReader BufferedReader.t := {|
  rd_setTestCase := BufferedReader.setTestCase;
  rd_getReadChars := BufferedReader.getReadChars;
  rd_curChar := BufferedReader.curChar;
  rd_nextChar := BufferedReader.nextChar;
  rd_skipChar := BufferedReader.skipChar;
  rd_unreadChar := BufferedReader.unreadChar;
  rd_getName := BufferedReader.getName;
  rd_eof := BufferedReader.eof;
  rd_close := BufferedReader.close;
  rd_getLine := BufferedReader.getLine;
  rd_fuel := BufferedReader.fuel |}.

(** ** Dispatch through [InputStreamReader *reader] *)

Inductive Reader :=
| RString (r : StringReader.t)
| RFile (r : FileReader.t)
| RBuffered (r : BufferedReader.t).

Definition wrap {A R} (inj : R -> Reader) (m : rres (A * R)) : rres (A * Reader) :=
  rbind m (fun '(a, r) => RRet (a, inj r)).
Definition wrap1 {R} (inj : R -> Reader) (m : rres R) : rres Reader :=
  rbind m (fun r => RRet (inj r)).

#[export] Instance reader_dispatch : InputStreamReader Reader := {|
  rd_setTestCase n r := match r with
    | RString r => wrap1 RString (rd_setTestCase n r)
    | RFile r => wrap1 RFile (rd_setTestCase n r)
    | RBuffered r => wrap1 RBuffered (rd_setTestCase n r) end;
  rd_getReadChars r := match r with
    | RString r => rd_getReadChars r
    | RFile r => rd_getReadChars r
    | RBuffered r => rd_getReadChars r end;
  rd_curChar r := match r with
    | RString r => wrap RString (rd_curChar r)
    | RFile r => wrap RFile (rd_curChar r)
    | RBuffered r => wrap RBuffered (rd_curChar r) end;
  rd_nextChar r := match r with
    | RString r => wrap RString (rd_nextChar r)
    | RFile r => wrap RFile (rd_nextChar r)
    | RBuffered r => wrap RBuffered (rd_nextChar r) end;
  rd_skipChar r := match r with
    | RString r => wrap1 RString (rd_skipChar r)
    | RFile r => wrap1 RFile (rd_skipChar r)
    | RBuffered r => wrap1 RBuffered (rd_skipChar r) end;
  rd_unreadChar c r := match r with
    | RString r => wrap1 RString (rd_unreadChar c r)
    | RFile r => wrap1 RFile (rd_unreadChar c r)
    | RBuffered r => wrap1 RBuffered (rd_unreadChar c r) end;
  rd_getName r := match r with
    | RString r => rd_getName r | RFile r => rd_getName r | RBuffered r => rd_getName r end;
  rd_eof r := match r with
    | RString r => wrap RString (rd_eof r)
    | RFile r => wrap RFile (rd_eof r)
    | RBuffered r => wrap RBuffered (rd_eof r) end;
  rd_close r := match r with
    | RString r => RString (rd_close r)
    | RFile r => RFile (rd_close r)
    | RBuffered r => RBuffered (rd_close r) end;
  rd_getLine r := match r with
    | RString r => rd_getLine r | RFile r => rd_getLine r | RBuffered r => rd_getLine r end;
  rd_fuel r := match r with
    | RString r => rd_fuel r | RFile r => rd_fuel r | RBuffered r => rd_fuel r end |}.
