(* ===== verification/ReaderRep.v ===== *)
(** * The contract of an input stream reader

    [ReaderRep] is the interface the stream functions rely on: [rep r l n]
    says that the bytes still to be read are [l] and that [n] further
    characters can be put back.  The buffered reader (a refinement of the
    plain byte sequence by a two-megabyte window with end-of-file marks) and
    the string reader are instances. *)

From S2P Require Import Prelude Text Readers.

(** ** The contract of a reader *)

(** What [curChar]/[nextChar] return in front of the bytes [l]. *)
Definition head_int (l : bytes) : Z :=
  match l with
  | [] => EOFC
  | c :: _ => char_to_int c
  end.

(** Nested put-backs the stream functions rely on: [eoln] needs two. *)
Definition max_pushback : nat := 8.

Class ReaderRep (R : Type) `{InputStreamReader R} := {
  rep : R -> bytes -> nat -> Prop;
  ready : R -> Prop;
  rep_weaken r l n m : rep r l n -> (m <= n)%nat -> rep r l m;
  rep_fuel r l n : rep r l n -> (length l < rd_fuel r)%nat;
  rep_cur r l n : rep r l n ->
    exists r', rd_curChar r = RRet (head_int l, r') /\ rep r' l n /\ (l <> [] -> ready r');
  rep_next_cons r c l n : rep r (c :: l) n -> (n < max_pushback)%nat ->
    exists r', rd_nextChar r = RRet (char_to_int c, r') /\ rep r' l (S n);
  rep_next_nil r n : rep r [] n ->
    exists r', rd_nextChar r = RRet (EOFC, r') /\ rep r' [] 0 /\
      (forall m, n = S m -> exists r'', rd_unreadChar EOFC r' = RRet r'' /\ rep r'' [] m);
  rep_skip r c l n : rep r (c :: l) n -> ready r -> (n < max_pushback)%nat ->
    exists r', rd_skipChar r = RRet r' /\ rep r' l (S n);
  rep_unread r c l n : rep r l (S n) ->
    exists r', rd_unreadChar (char_to_int c) r = RRet r' /\ rep r' (c :: l) n;
  rep_eof r l n : rep r l n ->
    exists r', rd_eof r = RRet (bool_decide (l = []), r') /\ rep r' l n
}.

Lemma char_not_EOFC c : (char_to_int c =? EOFC) = false.
Proof. pose proof (char_to_int_range c). apply Z.eqb_neq. unfold EOFC. lia. Qed.

Lemma head_int_EOFC l : (head_int l =? EOFC) = bool_decide (l = []).
Proof. destruct l as [|c l]; [done|]. simpl. by rewrite char_not_EOFC. Qed.

(** *** Arrays *)

Lemma lookup_write_at {A} (cells : gmap Z A) (l : list A) i j :
  write_at cells i l !! j =
  if decide (i <= j < i + zlen l) then l !! Z.to_nat (j - i) else cells !! j.
Proof.
  revert cells i. induction l as [|x l IH]; intros cells i; simpl.
  - rewrite decide_False; [done|]. unfold zlen; simpl; lia.
  - rewrite IH, zlen_cons. case_decide as H1; case_decide as H2; try lia.
    + replace (Z.to_nat (j - i)) with (S (Z.to_nat (j - (i + 1)))) by lia. done.
    + destruct (decide (j = i)) as [->|]; [|lia].
      rewrite Z.sub_diag, lookup_insert_eq. done.
    + rewrite lookup_insert_ne; [done|]. pose proof (zlen_nonneg l). lia.
Qed.

(** *** The buffered reader implements the contract *)

Section BufferedRep.
Import BufferedReader.

(** The cells from [bufferPos] hold the characters [a] and then [m]
    end-of-file marks, which are there only when the file is exhausted. *)
Record buf_view (r : t) (f : FILE) (a : bytes) (m : nat) (l : bytes) (n : nat) : Prop := BufView {
  bv_open : file r = Some f;
  bv_ok : has_error f = false;
  bv_cap : Z.of_nat n <= bufferPos r;
  bv_max : (n <= max_pushback)%nat;
  bv_size : zlen a + Z.of_nat m = bufferSize r - bufferPos r;
  bv_chars : forall i c, a !! i = Some c ->
    buffer r !! (bufferPos r + Z.of_nat i) = Some c /\
    isEof r !! (bufferPos r + Z.of_nat i) = Some false;
  bv_marks : forall i, (i < m)%nat ->
    isEof r !! (bufferPos r + zlen a + Z.of_nat i) = Some true;
  bv_end : (0 < m)%nat -> content f = [];
  bv_left : l = a ++ content f }.

Definition buf_rep (r : t) (l : bytes) (n : nat) : Prop :=
  exists f a m, buf_view r f a m l n.

Definition buf_ready (r : t) : Prop := bufferPos r < bufferSize r.

Lemma buf_rep_weaken r l n m : buf_rep r l n -> (m <= n)%nat -> buf_rep r l m.
Proof.
  intros (f & a & k & []) ?. exists f, a, k. by constructor; try done; lia.
Qed.

Lemma buf_rep_fuel r l n : buf_rep r l n -> (length l < fuel r)%nat.
Proof.
  intros (f & a & m & []). unfold fuel. rewrite bv_open0. subst l.
  rewrite length_app. unfold zlen in *. lia.
Qed.

(** After [refill] the buffer is non-empty, unless the file is exhausted. *)
Lemma refill_spec r l n : buf_rep r l n ->
  exists (b : bool) r', refill r = RRet (b, r') /\ buf_rep r' l n /\
    (if b then bufferPos r' < bufferSize r' else l = []).
Proof.
  intros (f & a & m & V). pose proof V as []. unfold refill. rewrite bv_open0.
  destruct (Z.leb_spec (bufferSize r) (bufferPos r)) as [Hge|Hlt].
  2: { exists true, r. split; [done|]. split; [by exists f, a, m|]. simpl. lia. }
  assert (a = [] /\ m = O) as [-> ->].
  { destruct a as [|x a']; [|rewrite zlen_cons in *; pose proof (zlen_nonneg a'); lia].
    unfold zlen in *; simpl in *. split; [done|lia]. }
  simpl in bv_left0. subst l.
  set (N := BUFFER_SIZE - MAX_UNREAD_COUNT).
  assert (HN : 0 < N) by done.
  unfold libc_fread. rewrite bv_ok0, andb_false_r.
  eexists _, _. split; [done|].
  assert (Hsplit : content f = ztake N (content f) ++ zdrop N (content f))
    by (rewrite ztake_zdrop; [done|lia]).
  split.
  - eexists _, (ztake N (content f)), O. constructor; simpl; try done; try lia.
    + transitivity 8; [|done]. unfold max_pushback in *. lia.
    + intros i c Hi.
      assert (Hlen : Z.of_nat i < zlen (ztake N (content f)))
        by (apply lookup_lt_Some in Hi; unfold zlen; lia).
      rewrite !lookup_write_at, zlen_replicate.
      rewrite !decide_True by (unfold zlen in *; lia).
      replace (Z.to_nat (MAX_UNREAD_COUNT + Z.of_nat i - MAX_UNREAD_COUNT)) with i by lia.
      split; [done|]. apply lookup_replicate. split; [done|]. unfold zlen in Hlen. lia.
  - simpl. destruct (Z.ltb_spec 0 (zlen (ztake N (content f)))) as [Hpos|Hz].
    + lia.
    + rewrite Hsplit. destruct (ztake N (content f)) as [|x t] eqn:Et.
      2: { rewrite zlen_cons in Hz. pose proof (zlen_nonneg t). lia. }
      unfold ztake in Et. destruct (zlen (content f) <=? N) eqn:El.
      * unfold zdrop. by rewrite El.
      * destruct (content f) as [|y k] eqn:Ec; [by vm_compute in El|].
        destruct (Z.to_nat N) as [|N'] eqn:EN; [lia|]. done.
Qed.

(** What the current cell holds when the window is not exhausted. *)
Lemma window_head r l n : buf_rep r l n -> buf_ready r ->
  match l with
  | c :: _ => buffer r !! bufferPos r = Some c /\ isEof r !! bufferPos r = Some false
  | [] => isEof r !! bufferPos r = Some true
  end.
Proof.
  unfold buf_ready. intros (f & a & m & []) Hlt. subst l. destruct a as [|c a]; simpl.
  - assert (Hm : (0 < m)%nat) by (unfold zlen in *; simpl in *; lia).
    rewrite bv_end0 by done. specialize (bv_marks0 O Hm).
    by rewrite zlen_nil, !Z.add_0_r in bv_marks0.
  - specialize (bv_chars0 O c eq_refl). by rewrite Z.add_0_r in bv_chars0.
Qed.

(** A non-empty window in front of a real character starts with it. *)
Lemma window_cons r f a m c l n : buf_view r f a m (c :: l) n -> buf_ready r ->
  exists a', a = c :: a' /\ l = a' ++ content f.
Proof.
  unfold buf_ready. intros [] Hlt. destruct a as [|c' a']; simpl in *.
  - rewrite bv_end0 in bv_left0 by (unfold zlen in *; simpl in *; lia). done.
  - injection bv_left0 as -> ->. by exists a'.
Qed.

Lemma increment_spec r c l n : buf_rep r (c :: l) n -> buf_ready r -> (n < max_pushback)%nat ->
  exists r', increment r = RRet (c, r') /\ buf_rep r' l (S n).
Proof.
  intros H Hr Hn. pose proof (window_head _ _ _ H Hr) as [Hb _].
  destruct H as (f & a & m & V). destruct (window_cons _ _ _ _ _ _ _ V Hr) as (a' & -> & ->).
  destruct V. unfold increment. rewrite Hb. eexists. split; [done|].
  exists f, a', m. rewrite zlen_cons in *. constructor; simpl; try done; try lia.
  - intros i d Hi. specialize (bv_chars0 (S i) d Hi).
    by replace (bufferPos r + 1 + Z.of_nat i) with (bufferPos r + Z.of_nat (S i)) by lia.
  - intros i Hi. specialize (bv_marks0 i Hi).
    by replace (bufferPos r + 1 + zlen a' + Z.of_nat i)
      with (bufferPos r + (1 + zlen a') + Z.of_nat i) by lia.
Qed.

Lemma buf_curChar_spec r l n : buf_rep r l n ->
  exists r', curChar r = RRet (head_int l, r') /\ buf_rep r' l n /\ (l <> [] -> buf_ready r').
Proof.
  intros H. destruct (refill_spec _ _ _ H) as (b & r' & E & H' & Hb).
  exists r'. unfold curChar. rewrite E. simpl. destruct b; simpl.
  - pose proof (window_head _ _ _ H' Hb) as Hw. destruct l as [|c l].
    + by rewrite Hw.
    + destruct Hw as [-> ->]. done.
  - by subst l.
Qed.

Lemma buf_nextChar_spec r c l n : buf_rep r (c :: l) n -> (n < max_pushback)%nat ->
  exists r', nextChar r = RRet (char_to_int c, r') /\ buf_rep r' l (S n).
Proof.
  intros H Hn. destruct (refill_spec _ _ _ H) as (b & r' & E & H' & Hb).
  unfold nextChar. rewrite E. simpl. destruct b; simpl; [|done].
  pose proof (window_head _ _ _ H' Hb) as [_ ->].
  destruct (increment_spec _ _ _ _ H' Hb Hn) as (r2 & -> & ?). by exists r2.
Qed.

(** Putting a character back, also in front of end-of-file marks. *)
Lemma buf_unread_spec r c l n : buf_rep r l (S n) ->
  exists r', unreadChar (char_to_int c) r = RRet r' /\ buf_rep r' (c :: l) n.
Proof.
  intros (f & a & m & []). unfold unreadChar. destruct (Z.ltb_spec (bufferPos r - 1) 0); [lia|].
  eexists. split; [done|]. exists f, (c :: a), m.
  rewrite char_not_EOFC, int_to_char_to_int. constructor; simpl; try done; try lia.
  - rewrite zlen_cons. lia.
  - intros [|i] d Hi; simpl in Hi.
    + injection Hi as ->. by rewrite Z.add_0_r, !lookup_insert_eq.
    + rewrite !lookup_insert_ne by lia.
      replace (bufferPos r - 1 + Z.of_nat (S i)) with (bufferPos r + Z.of_nat i) by lia. auto.
  - intros i Hi. pose proof (zlen_nonneg a). rewrite zlen_cons, lookup_insert_ne by lia.
    replace (bufferPos r - 1 + (1 + zlen a) + Z.of_nat i)
      with (bufferPos r + zlen a + Z.of_nat i) by lia. auto.
  - by subst l.
Qed.

Lemma buf_unread_eof r n : buf_rep r [] (S n) ->
  exists r', unreadChar EOFC r = RRet r' /\ buf_rep r' [] n.
Proof.
  intros (f & a & m & []). symmetry in bv_left0. apply app_nil in bv_left0 as [-> Hc].
  rewrite zlen_nil in *. unfold unreadChar. destruct (Z.ltb_spec (bufferPos r - 1) 0); [lia|].
  eexists. split; [done|]. exists f, [], (S m). constructor; simpl; try done; try lia.
  - rewrite zlen_nil. lia.
  - rewrite zlen_nil. intros i Hi. destruct i as [|i].
    + by rewrite !Z.add_0_r, lookup_insert_eq.
    + rewrite lookup_insert_ne by lia.
      replace (bufferPos r - 1 + 0 + Z.of_nat (S i)) with (bufferPos r + 0 + Z.of_nat i) by lia.
      apply bv_marks0. lia.
Qed.

Lemma buf_next_eof r n : buf_rep r [] n ->
  exists r', nextChar r = RRet (EOFC, r') /\ buf_rep r' [] 0 /\
    (forall m, n = S m -> exists r'', unreadChar EOFC r' = RRet r'' /\ buf_rep r'' [] m).
Proof.
  intros H. destruct (refill_spec _ _ _ H) as (b & r' & E & H' & Hb).
  exists r'. unfold nextChar. rewrite E. simpl.
  assert (Hk : forall m, n = S m -> exists r'', unreadChar EOFC r' = RRet r'' /\ buf_rep r'' [] m)
    by (intros m ->; by apply buf_unread_eof).
  assert (H0 : buf_rep r' [] 0) by (eapply buf_rep_weaken; [done|lia]).
  destruct b; simpl; [|done]. pose proof (window_head _ _ _ H' Hb) as ->. done.
Qed.

Lemma buf_eof_spec r l n : buf_rep r l n ->
  exists r', eof r = RRet (bool_decide (l = []), r') /\ buf_rep r' l n.
Proof.
  intros H. destruct (refill_spec _ _ _ H) as (b & r' & E & H' & Hb).
  unfold eof. rewrite E. simpl. destruct b; simpl; [|subst l; eauto].
  destruct (buf_curChar_spec _ _ _ H') as (r2 & -> & H2 & _). simpl.
  rewrite Z.eqb_sym, head_int_EOFC. eauto.
Qed.
End BufferedRep.

#[export, refine] Instance buffered_rep : ReaderRep BufferedReader.t := {|
  rep := buf_rep; ready := buf_ready |}.
Proof.
  - apply buf_rep_weaken.
  - apply buf_rep_fuel.
  - apply buf_curChar_spec.
  - apply buf_nextChar_spec.
  - apply buf_next_eof.
  - intros r c l n H Hr Hn. simpl. unfold BufferedReader.skipChar.
    destruct (increment_spec _ _ _ _ H Hr Hn) as (r' & -> & ?). by exists r'.
  - apply buf_unread_spec.
  - apply buf_eof_spec.
Defined.

(** A freshly opened file. *)
Lemma buffered_make f name : has_error f = false -> rep (BufferedReader.make f name) (content f) 8.
Proof.
  intros Hf. exists f, [], O. constructor; simpl; try done; lia.
Qed.

(** *** The string reader implements the contract *)

Section StringRep.
Import StringReader.

Definition str_rep (r : t) (l : bytes) (n : nat) : Prop :=
  Z.of_nat n <= pos r /\ (n <= max_pushback)%nat /\
  ((0 < n)%nat -> pos r <= zlen (s r)) /\ l = drop (Z.to_nat (pos r)) (s r).

Lemma str_at r c l n : str_rep r (c :: l) n ->
  (zlen (s r) <=? pos r) = false /\ znth (s r) (pos r) = Some c /\
  l = drop (Z.to_nat (pos r + 1)) (s r).
Proof.
  intros (Hp & _ & _ & E). symmetry in E.
  assert (Hlt : (Z.to_nat (pos r) < length (s r))%nat).
  { destruct (decide (length (s r) <= Z.to_nat (pos r))%nat); [|lia].
    by rewrite drop_ge in E by lia. }
  assert (Hlen : (zlen (s r) <=? pos r) = false) by (unfold zlen; lia).
  unfold znth. rewrite Hlen. destruct (Z.ltb_spec (pos r) 0); [lia|]. simpl.
  replace (Z.to_nat (pos r + 1)) with (S (Z.to_nat (pos r))) by lia.
  destruct (s r !! Z.to_nat (pos r)) as [d|] eqn:Ed.
  2: { apply lookup_ge_None in Ed. lia. }
  rewrite (drop_S _ d) in E by done. by injection E as -> ->.
Qed.

Lemma str_end r n : str_rep r [] n -> (zlen (s r) <=? pos r) = true.
Proof.
  intros (Hp & _ & _ & E). symmetry in E. apply (f_equal length) in E.
  rewrite length_drop in E. simpl in E. unfold zlen. lia.
Qed.

Lemma str_advance r c l n : str_rep r (c :: l) n -> (n < max_pushback)%nat ->
  str_rep (Mk (s r) (pos r + 1)) l (S n).
Proof.
  intros H Hn. destruct (str_at _ _ _ _ H) as (Hlen & _ & ->). destruct H as (Hp & _ & _ & _).
  apply Z.leb_gt in Hlen. unfold str_rep; simpl. repeat split; lia.
Qed.

Lemma str_unread r c l n : str_rep r l (S n) ->
  exists r', unreadChar (char_to_int c) r = RRet r' /\ str_rep r' (c :: l) n.
Proof.
  intros (Hp & Hn & Hle & ->). unfold unreadChar. destruct (Z.eqb_spec (pos r) 0); [lia|].
  destruct (Z.ltb_spec (pos r - 1) (zlen (s r))) as [Hlt|Hge]; [|lia].
  eexists; split; [done|]. unfold str_rep; simpl.
  split; [lia|]. split; [lia|]. split.
  { intros _. unfold zlen in *. rewrite length_insert. lia. }
  rewrite int_to_char_to_int.
  rewrite (drop_S _ c (Z.to_nat (pos r - 1)))
    by (apply list_lookup_insert_eq; unfold zlen in *; lia).
  rewrite drop_insert_lt by lia. f_equal. f_equal. lia.
Qed.

Lemma str_next_eof r n : str_rep r [] n ->
  exists r', nextChar r = RRet (EOFC, r') /\ str_rep r' [] 0 /\
    (forall m, n = S m -> exists r'', unreadChar EOFC r' = RRet r'' /\ str_rep r'' [] m).
Proof.
  intros H. pose proof (str_end _ _ H) as Hend. destruct H as (Hp & Hn & Hle & E).
  unfold nextChar. rewrite Hend. eexists. split; [done|].
  symmetry in E. pose proof (f_equal length E) as El. rewrite length_drop in El. simpl in El.
  split.
  - unfold str_rep; simpl. repeat split; try lia. symmetry. apply nil_length_inv.
    rewrite length_drop. lia.
  - intros m ->. unfold unreadChar; simpl. destruct (Z.eqb_spec (pos r + 1) 0); [lia|].
    assert ((pos r + 1 - 1 <? zlen (s r)) = false) as -> by (unfold zlen in *; lia).
    eexists. split; [done|]. unfold str_rep; simpl.
    replace (pos r + 1 - 1) with (pos r) by lia. repeat split; lia || done || auto.
Qed.
End StringRep.

#[export, refine] Instance string_rep : ReaderRep StringReader.t := {|
  rep := str_rep; ready := fun _ => True |}.
Proof.
  - intros r l n m (?&?&?&?) ?. unfold str_rep. repeat split; auto; lia.
  - intros r l n (?&?&?&->). simpl. unfold StringReader.fuel, zlen. rewrite length_drop. lia.
  - intros r l n H. simpl. unfold StringReader.curChar. destruct l as [|c l].
    + rewrite (str_end _ _ H). eauto.
    + destruct (str_at _ _ _ _ H) as (-> & -> & _). eauto.
  - intros r c l n H Hn. simpl. unfold StringReader.nextChar.
    pose proof (str_advance _ _ _ _ H Hn).
    destruct (str_at _ _ _ _ H) as (-> & -> & _). eauto.
  - apply str_next_eof.
  - intros r c l n H _ Hn. simpl. eexists. split; [done|]. by eapply str_advance.
  - apply str_unread.
  - intros r l n H. simpl. unfold StringReader.eof. destruct l as [|c l].
    + rewrite (str_end _ _ H). eauto.
    + destruct (str_at _ _ _ _ H) as (-> & _). eauto.
Defined.

#[global] Opaque buffered_rep string_rep.

(** *** Dispatch preserves the contract

    Readers over a plain [FILE*] (standard input) are left out: they take a
    byte 255 for the end of the file. *)

Definition reader_rep (r : Reader) (l : bytes) (n : nat) : Prop :=
  match r with
  | RString r => rep r l n
  | RBuffered r => rep r l n
  | RFile _ => False
  end.

Definition reader_ready (r : Reader) : Prop :=
  match r with
  | RString r => ready r
  | RBuffered r => ready r
  | RFile _ => False
  end.

(** Runs one virtual call: [E] is the equation the dynamic type's law gives. *)
Ltac dispatched E :=
  simpl in E |- *; unfold wrap, wrap1;
  first [rewrite E | unfold StringReader.skipChar in E; injection E as <-]; simpl; eauto 10.

#[export, refine] Instance dispatch_rep : ReaderRep Reader := {|
  rep := reader_rep; ready := reader_ready |}.
Proof.
  - intros [r| |r] l n m H ?; [|done|]; simpl in *; by eapply rep_weaken.
  - intros [r| |r] l n H; [|done|]; simpl in H; exact (rep_fuel _ _ _ H).
  - intros [r| |r] l n H; [|done|]; simpl in H; destruct (rep_cur _ _ _ H) as (r' & E & ? & ?); dispatched E.
  - intros [r| |r] c l n H Hn; [|done|]; simpl in H;
      destruct (rep_next_cons _ _ _ _ H Hn) as (r' & E & ?); dispatched E.
  - intros [r| |r] n H; [|done|]; simpl in H; destruct (rep_next_nil _ _ H) as (r' & E & ? & Hu);
      dispatched E; eexists; (split; [done|]); (split; [done|]);
      intros m ->; destruct (Hu m eq_refl) as (r'' & E' & ?); dispatched E'.
  - intros [r| |r] c l n H Hr Hn; [|done|]; simpl in H;
      destruct (rep_skip _ _ _ _ H Hr Hn) as (r' & E & ?); dispatched E.
  - intros [r| |r] c l n H; [|done|]; simpl in H;
      destruct (rep_unread _ c _ _ H) as (r' & E & ?); dispatched E.
  - intros [r| |r] l n H; [|done|]; simpl in H; destruct (rep_eof _ _ _ H) as (r' & E & ?); dispatched E.
Defined.
