(* ===== verification/Validator.v ===== *)
(** * The validator object ([src/support/testlib.h], [class Validator])

    The bookkeeping a validator keeps while it reads a test: which bounds of a
    variable were hit, which bounds were constant, which features were
    announced and hit, and the markup of the characters read.  An operation
    that calls [__testlib_fail] returns [inl] of the message. *)

From stdpp Require Import sorting.
From S2P Require Import Prelude Text.

Definition VALIDATOR_MAX_VARIABLE_COUNT : Z := 255.

(** [std::map] and [std::set] iterate in the order of [std::string::compare],
    which compares unsigned characters. *)
Fixpoint bytes_leb (a b : bytes) : bool :=
  match a, b with
  | [], _ => true
  | _ :: _, [] => false
  | x :: a', y :: b' =>
      (ascii_code x <? ascii_code y) || ((ascii_code x =? ascii_code y) && bytes_leb a' b')
  end.

Definition bytes_le (a b : bytes) : Prop := bytes_leb a b = true.
Definition entry_le {V} (x y : bytes * V) : Prop := bytes_le x.1 y.1.

#[export] Instance bytes_le_dec : RelDecision bytes_le := fun a b => decide (bytes_leb a b = true).
#[export] Instance entry_le_dec {V} : RelDecision (@entry_le V) := fun x y => decide (bytes_le x.1 y.1).

Definition sorted_entries {V} (m : gmap bytes V) : list (bytes * V) :=
  merge_sort entry_le (map_to_list m).

Definition sorted_elements (s : gset bytes) : list bytes := merge_sort bytes_le (elements s).

Record ValidatorBoundsHit := BoundsHit { minHit : bool; maxHit : bool }.

(** [__testlib_max] on [bool] is disjunction. *)
Definition merge (self other : ValidatorBoundsHit) (ignoreMinBound ignoreMaxBound : bool)
  : ValidatorBoundsHit :=
  BoundsHit (minHit self || minHit other || ignoreMinBound)
            (maxHit self || maxHit other || ignoreMaxBound).

Record ConstantBound := MkConstantBound { value : bytes; broken : bool }.

(** [adjust(t)] where [t_string] is [std::to_string(t)]. *)
Definition adjust (b : ConstantBound) (t_string : bytes) : ConstantBound :=
  if 32 <=? zlen t_string then MkConstantBound [] true
  else
    let b := if negb (broken b) && bool_decide (value b = [])
             then MkConstantBound t_string (broken b) else b in
    if negb (broken b) && negb (bool_decide (value b = t_string))
    then MkConstantBound [] true else b.

Definition has_value (b : ConstantBound) : bool :=
  negb (bool_decide (value b = [])) && negb (broken b) && (zlen (value b) <? 32).

Record ConstantBounds := MkConstantBounds { lowerBound : ConstantBound; upperBound : ConstantBound }.

Definition no_bounds : ConstantBounds :=
  MkConstantBounds (MkConstantBound [] false) (MkConstantBound [] false).

Record Validator := MkValidator {
  _initialized : bool;
  _testset : bytes;
  _group : bytes;
  _testOverviewLogFileName : bytes;
  _testMarkupFileName : bytes;
  _testCase : Z;
  _testCaseFileName : bytes;
  _boundsHitByVariableName : gmap bytes ValidatorBoundsHit;
  _constantBoundsByVariableName : gmap bytes ConstantBounds;
  _features : gset bytes;
  _hitFeatures : gset bytes;
  _variables : gset bytes }.

Definition new_validator : Validator :=
  MkValidator false ($"tests") [] [] [] (-1) [] ∅ ∅ ∅ ∅ ∅.

Definition set_boundsHit m v := MkValidator (_initialized v) (_testset v) (_group v)
  (_testOverviewLogFileName v) (_testMarkupFileName v) (_testCase v) (_testCaseFileName v)
  m (_constantBoundsByVariableName v) (_features v) (_hitFeatures v) (_variables v).
Definition set_constantBounds m v := MkValidator (_initialized v) (_testset v) (_group v)
  (_testOverviewLogFileName v) (_testMarkupFileName v) (_testCase v) (_testCaseFileName v)
  (_boundsHitByVariableName v) m (_features v) (_hitFeatures v) (_variables v).
Definition set_features fs hs v := MkValidator (_initialized v) (_testset v) (_group v)
  (_testOverviewLogFileName v) (_testMarkupFileName v) (_testCase v) (_testCaseFileName v)
  (_boundsHitByVariableName v) (_constantBoundsByVariableName v) fs hs (_variables v).
Definition set_variables vs v := MkValidator (_initialized v) (_testset v) (_group v)
  (_testOverviewLogFileName v) (_testMarkupFileName v) (_testCase v) (_testCaseFileName v)
  (_boundsHitByVariableName v) (_constantBoundsByVariableName v) (_features v) (_hitFeatures v) vs.
Definition set_options init ts gr lf mf tc tf v := MkValidator init ts gr lf mf tc tf
  (_boundsHitByVariableName v) (_constantBoundsByVariableName v) (_features v) (_hitFeatures v)
  (_variables v).

(** ** Names *)

Definition isVariableNameBoundsAnalyzable (variableName : bytes) : bool :=
  forallb (fun c => negb (is_digit c || (char_to_int c <? SPACE))) variableName.

Definition isFeatureNameAnalyzable (featureName : bytes) : bool :=
  forallb (fun c => negb (char_to_int c <? SPACE)) featureName.

Definition first_is_tilde (s : bytes) : bool :=
  match s with c :: _ => bool_decide (c = "~"%char) | [] => false end.
Definition last_is_tilde (s : bytes) : bool := first_is_tilde (reverse s).

Definition prepVariableName (variableName : bytes) : bytes :=
  let n := zlen variableName in
  if (2 <=? n) && negb (bool_decide (variableName = $"~~")) then
    if first_is_tilde variableName && negb (last_is_tilde variableName) then zdrop 1 variableName
    else if negb (first_is_tilde variableName) && last_is_tilde variableName
         then substr variableName 0 (n - 1)
    else if first_is_tilde variableName && last_is_tilde variableName
         then substr variableName 1 (n - 2)
    else variableName
  else variableName.

Definition ignoreMinBound (variableName : bytes) : bool :=
  (2 <=? zlen variableName) && negb (bool_decide (variableName = $"~~"))
  && first_is_tilde variableName.

Definition ignoreMaxBound (variableName : bytes) : bool :=
  (2 <=? zlen variableName) && negb (bool_decide (variableName = $"~~"))
  && last_is_tilde variableName.

(** ** Recording *)

Definition addBoundsHit (variableName : bytes) (boundsHit : ValidatorBoundsHit) (v : Validator)
  : Validator :=
  if isVariableNameBoundsAnalyzable variableName
     && (Z.of_nat (size (_boundsHitByVariableName v)) <? VALIDATOR_MAX_VARIABLE_COUNT)
  then
    let prepared := prepVariableName variableName in
    let old := default (BoundsHit false false) (_boundsHitByVariableName v !! prepared) in
    set_boundsHit (<[prepared := merge boundsHit old (ignoreMinBound variableName)
                                                     (ignoreMaxBound variableName)]>
                     (_boundsHitByVariableName v)) v
  else v.

Definition addVariable (variableName : bytes) (v : Validator) : Validator :=
  if isVariableNameBoundsAnalyzable variableName
     && (Z.of_nat (size (_variables v)) <? VALIDATOR_MAX_VARIABLE_COUNT)
  then set_variables ({[ prepVariableName variableName ]} ∪ _variables v) v
  else v.

(** [lower] and [upper] are the [std::to_string] texts of the two bounds. *)
Definition adjustConstantBounds (variableName lower upper : bytes) (v : Validator) : Validator :=
  if isVariableNameBoundsAnalyzable variableName
     && (Z.of_nat (size (_constantBoundsByVariableName v)) <? VALIDATOR_MAX_VARIABLE_COUNT)
  then
    let prepared := prepVariableName variableName in
    let old := default no_bounds (_constantBoundsByVariableName v !! prepared) in
    set_constantBounds (<[prepared := MkConstantBounds (adjust (lowerBound old) lower)
                                                       (adjust (upperBound old) upper)]>
                          (_constantBoundsByVariableName v)) v
  else v.

Definition addFeature (feature : bytes) (v : Validator) : bytes + Validator :=
  if bool_decide (feature ∈ _features v)
  then inl ($"Feature " ++ feature ++ $" registered twice.")
  else if negb (isFeatureNameAnalyzable feature)
  then inl ($"Feature name '" ++ feature ++ $"' contains restricted characters.")
  else inr (set_features ({[feature]} ∪ _features v) (_hitFeatures v) v).

Definition feature (feature : bytes) (v : Validator) : bytes + Validator :=
  if negb (isFeatureNameAnalyzable feature)
  then inl ($"Feature name '" ++ feature ++ $"' contains restricted characters.")
  else if negb (bool_decide (feature ∈ _features v))
  then inl ($"Feature " ++ feature ++ $" didn't registered via addFeature(feature).")
  else inr (set_features (_features v) ({[feature]} ∪ _hitFeatures v) v).

(** ** Logs *)

Definition quote : bytes := ["034"%char].
Definition newline : bytes := [int_to_char 10].

Definition getVariablesLog (v : Validator) : bytes :=
  mbind (fun name => $"variable " ++ quote ++ name ++ quote ++ newline)
        (sorted_elements (_variables v)).

Definition getBoundsHitLog (v : Validator) : bytes :=
  mbind (fun '(name, hit) =>
    quote ++ name ++ quote ++ $":"
    ++ (if minHit hit then $" min-value-hit" else [])
    ++ (if maxHit hit then $" max-value-hit" else []) ++ newline)
    (sorted_entries (_boundsHitByVariableName v)).

Definition getConstantBoundsLog (v : Validator) : bytes :=
  mbind (fun '(name, b) =>
    if has_value (lowerBound b) || has_value (upperBound b) then
      $"constant-bounds " ++ quote ++ name ++ quote ++ $":"
      ++ (if has_value (lowerBound b) then $" " ++ value (lowerBound b) else $" ?")
      ++ (if has_value (upperBound b) then $" " ++ value (upperBound b) else $" ?")
      ++ newline
    else [])
    (sorted_entries (_constantBoundsByVariableName v)).

Definition getFeaturesLog (v : Validator) : bytes :=
  mbind (fun name =>
    $"feature " ++ quote ++ name ++ quote ++ $":"
    ++ (if bool_decide (name ∈ _hitFeatures v) then $" hit" else []) ++ newline)
    (sorted_elements (_features v)).

(** The text [writeTestOverviewLog] prints. *)
Definition testOverviewLog (v : Validator) : bytes :=
  getBoundsHitLog v ++ getFeaturesLog v ++ getConstantBoundsLog v ++ getVariablesLog v.

(** ** The characters read *)

Definition TEST_MARKUP_HEADER : bytes := $"MU" ++ [int_to_char 243; int_to_char 1].
Definition TEST_CASE_OPEN_TAG : bytes := $"!c".
Definition TEST_CASE_CLOSE_TAG : bytes := $";".

(** The last element is skipped when it is [EOF]. *)
Fixpoint markup_loop (readChars : list Z) : bytes :=
  match readChars with
  | [] => []
  | c :: rest =>
      (if bool_decide (rest = []) && (c =? -1) then []
       else if c <=? 256 then
         let cc := int_to_char c in
         if bool_decide (cc = "\"%char) || bool_decide (cc = "!"%char) then ["\"%char; cc] else [cc]
       else TEST_CASE_OPEN_TAG ++ toString (c - 256) ++ TEST_CASE_CLOSE_TAG)
      ++ markup_loop rest
  end.

(** The text [writeTestMarkup] prints, when any character was read. *)
Definition testMarkup (readChars : list Z) : option bytes :=
  if bool_decide (readChars = []) then None
  else Some (TEST_MARKUP_HEADER ++ markup_loop readChars).

Fixpoint testCase_loop (wanted : Z) (readChars : list Z)
    (content testCaseContent : bytes) (matchedTestCase : bool) : bytes :=
  match readChars with
  | [] => if matchedTestCase then content else testCaseContent
  | c :: rest =>
      if bool_decide (rest = []) && (c =? -1)
      then testCase_loop wanted rest content testCaseContent matchedTestCase
      else if c <=? 256
      then testCase_loop wanted rest (content ++ [int_to_char c]) testCaseContent matchedTestCase
      else testCase_loop wanted rest []
             (if matchedTestCase then content else testCaseContent) (c - 256 =? wanted)
  end.

(** The text [writeTestCase] prints; empty means nothing is written. *)
Definition testCaseText (v : Validator) (readChars : list Z) : bytes :=
  if 0 <? _testCase v then testCase_loop (_testCase v) readChars [] [] false else [].

Example log_ex :
  testOverviewLog (addVariable ($"n") (adjustConstantBounds ($"n") ($"1") ($"5")
     (addBoundsHit ($"n") (BoundsHit true false) new_validator)))
  = quote ++ $"n" ++ quote ++ $": min-value-hit" ++ newline
    ++ $"constant-bounds " ++ quote ++ $"n" ++ quote ++ $": 1 5" ++ newline
    ++ $"variable " ++ quote ++ $"n" ++ quote ++ newline.
Proof. vm_compute. reflexivity. Qed.
