(* ===== verification/Streams.v ===== *)
(** * Input streams ([src/support/testlib.h], [struct InStream])

    The record [InStream] and those of its functions that touch nothing but
    the stream itself: character access, blanks, end of file and end of line,
    the byte order mark.  They return, call [__testlib_fail] through their
    reader, or are undefined (a [NULL] reader); a loop that exhausts its fuel
    is undefined too, which the specification lemmas exclude.

    The functions that can quit the program are in [World.v]. *)

From S2P Require Import Prelude Text Readers.

Inductive TMode := _input | _output | _answer.

#[export] Instance TMode_eq_dec : EqDecision TMode.
Proof. solve_decision. Defined.

Definition NO_INDEX : Z := INT_MAX.

Record InStream := MkInStream {
  reader : option Reader;
  lastLine : Z;
  name : bytes;
  mode : TMode;
  opened : bool;
  stdfile : bool;
  strict : bool;
  wordReserveSize : Z;
  _tmpReadToken : bytes;
  readManyIteration : Z;
  maxFileSize : Z;
  maxTokenLength : Z;
  maxMessageLength : Z }.

(** Field updates. *)
Definition set_reader (x : option Reader) (s : InStream) : InStream :=
  MkInStream x (lastLine s) (name s) (mode s) (opened s) (stdfile s) (strict s) (wordReserveSize s) (_tmpReadToken s) (readManyIteration s) (maxFileSize s) (maxTokenLength s) (maxMessageLength s).
Definition set_lastLine (x : Z) (s : InStream) : InStream :=
  MkInStream (reader s) x (name s) (mode s) (opened s) (stdfile s) (strict s) (wordReserveSize s) (_tmpReadToken s) (readManyIteration s) (maxFileSize s) (maxTokenLength s) (maxMessageLength s).
Definition set_name (x : bytes) (s : InStream) : InStream :=
  MkInStream (reader s) (lastLine s) x (mode s) (opened s) (stdfile s) (strict s) (wordReserveSize s) (_tmpReadToken s) (readManyIteration s) (maxFileSize s) (maxTokenLength s) (maxMessageLength s).
Definition set_mode (x : TMode) (s : InStream) : InStream :=
  MkInStream (reader s) (lastLine s) (name s) x (opened s) (stdfile s) (strict s) (wordReserveSize s) (_tmpReadToken s) (readManyIteration s) (maxFileSize s) (maxTokenLength s) (maxMessageLength s).
Definition set_opened (x : bool) (s : InStream) : InStream :=
  MkInStream (reader s) (lastLine s) (name s) (mode s) x (stdfile s) (strict s) (wordReserveSize s) (_tmpReadToken s) (readManyIteration s) (maxFileSize s) (maxTokenLength s) (maxMessageLength s).
Definition set_stdfile (x : bool) (s : InStream) : InStream :=
  MkInStream (reader s) (lastLine s) (name s) (mode s) (opened s) x (strict s) (wordReserveSize s) (_tmpReadToken s) (readManyIteration s) (maxFileSize s) (maxTokenLength s) (maxMessageLength s).
Definition set_strict (x : bool) (s : InStream) : InStream :=
  MkInStream (reader s) (lastLine s) (name s) (mode s) (opened s) (stdfile s) x (wordReserveSize s) (_tmpReadToken s) (readManyIteration s) (maxFileSize s) (maxTokenLength s) (maxMessageLength s).
Definition set_tmpReadToken (x : bytes) (s : InStream) : InStream :=
  MkInStream (reader s) (lastLine s) (name s) (mode s) (opened s) (stdfile s) (strict s) (wordReserveSize s) x (readManyIteration s) (maxFileSize s) (maxTokenLength s) (maxMessageLength s).
Definition set_readManyIteration (x : Z) (s : InStream) : InStream :=
  MkInStream (reader s) (lastLine s) (name s) (mode s) (opened s) (stdfile s) (strict s) (wordReserveSize s) (_tmpReadToken s) x (maxFileSize s) (maxTokenLength s) (maxMessageLength s).
Definition set_maxFileSize (x : Z) (s : InStream) : InStream :=
  MkInStream (reader s) (lastLine s) (name s) (mode s) (opened s) (stdfile s) (strict s) (wordReserveSize s) (_tmpReadToken s) (readManyIteration s) x (maxTokenLength s) (maxMessageLength s).
Definition set_maxTokenLength (x : Z) (s : InStream) : InStream :=
  MkInStream (reader s) (lastLine s) (name s) (mode s) (opened s) (stdfile s) (strict s) (wordReserveSize s) (_tmpReadToken s) (readManyIteration s) (maxFileSize s) x (maxMessageLength s).
Definition set_maxMessageLength (x : Z) (s : InStream) : InStream :=
  MkInStream (reader s) (lastLine s) (name s) (mode s) (opened s) (stdfile s) (strict s) (wordReserveSize s) (_tmpReadToken s) (readManyIteration s) (maxFileSize s) (maxTokenLength s) x.

(** [InStream::InStream()]. *)
Definition new_InStream : InStream :=
  MkInStream None (-1) [] _input false false false 4 [] NO_INDEX
             (128 * 1024 * 1024) (32 * 1024 * 1024) 32000.

(** [InStream(baseStream, content)]; [wordReserveSize] is left as allocated. *)
Definition InStream_of_string (baseStream : InStream) (content : bytes) : InStream :=
  MkInStream (Some (RString (StringReader.Mk content 0))) (-1) ($"based on " ++ name baseStream)
             (mode baseStream) true false (strict baseStream) 4 [] NO_INDEX
             (128 * 1024 * 1024) (32 * 1024 * 1024) 32000.

(** A virtual call through [reader]; calling through [NULL] is undefined. *)
Definition with_reader {A} (f : Reader -> rres (A * Reader)) (s : InStream) : rres (A * InStream) :=
  match reader s with
  | Some r => let% (a, r') := f r in RRet (a, set_reader (Some r') s)
  | None => RUndef
  end.

Definition with_reader1 (f : Reader -> rres Reader) (s : InStream) : rres InStream :=
  match reader s with
  | Some r => let% r' := f r in RRet (set_reader (Some r') s)
  | None => RUndef
  end.

(** The reader's own [int] results. *)
Definition reader_curChar : InStream -> rres (Z * InStream) := with_reader rd_curChar.
Definition reader_nextChar : InStream -> rres (Z * InStream) := with_reader rd_nextChar.
Definition reader_skipChar : InStream -> rres InStream := with_reader1 rd_skipChar.
Definition reader_unreadChar (c : Z) : InStream -> rres InStream := with_reader1 (rd_unreadChar c).

Definition stream_fuel (s : InStream) : nat :=
  match reader s with Some r => rd_fuel r | None => O end.

(** [lastLine = reader->getLine()]. *)
Definition note_line (s : InStream) : rres InStream :=
  match reader s with
  | Some r => RRet (set_lastLine (rd_getLine r) s)
  | None => RUndef
  end.

(** ** Characters: the results are converted to [char] *)

Definition curChar (s : InStream) : rres (ascii * InStream) :=
  let% (c, s) := reader_curChar s in RRet (int_to_char c, s).

Definition nextChar (s : InStream) : rres (ascii * InStream) :=
  let% (c, s) := reader_nextChar s in RRet (int_to_char c, s).

Definition readChar (s : InStream) : rres (ascii * InStream) := nextChar s.

Definition skipChar (s : InStream) : rres InStream := reader_skipChar s.

Definition unreadChar (c : ascii) (s : InStream) : rres InStream :=
  reader_unreadChar (char_to_int c) s.

(** ** Blanks and ends *)

Fixpoint skipBlanks_loop (fuel : nat) (s : InStream) : rres InStream :=
  match fuel with
  | O => RUndef
  | S fuel =>
      let% (c, s) := reader_curChar s in
      if isBlanks c then let% s := reader_skipChar s in skipBlanks_loop fuel s
      else RRet s
  end.

Definition skipBlanks (s : InStream) : rres InStream := skipBlanks_loop (stream_fuel s) s.

Definition eof (s : InStream) : rres (bool * InStream) :=
  match reader s with
  | None => if negb (strict s) then RRet (true, s) else RUndef
  | Some _ => with_reader rd_eof s
  end.

Definition seekEof (s : InStream) : rres (bool * InStream) :=
  match reader s with
  | None => if negb (strict s) then RRet (true, s) else RUndef
  | Some _ => let% s := skipBlanks s in eof s
  end.

Definition eoln (s : InStream) : rres (bool * InStream) :=
  match reader s, strict s with
  | None, false => RRet (true, s)
  | _, _ =>
      let% (c, s) := reader_nextChar s in
      if negb (strict s) then
        if c =? EOFC then RRet (true, s)
        else if c =? CR then
          let% (c, s) := reader_nextChar s in
          if negb (c =? LF) then
            let% s := reader_unreadChar c s in
            let% s := reader_unreadChar CR s in
            RRet (false, s)
          else RRet (true, s)
        else if c =? LF then RRet (true, s)
        else let% s := reader_unreadChar c s in RRet (false, s)
      else
        if negb (c =? LF) then let% s := reader_unreadChar c s in RRet (false, s)
        else RRet (true, s)
  end.

Fixpoint skip_spaces_loop (fuel : nat) (s : InStream) : rres (Z * InStream) :=
  match fuel with
  | O => RUndef
  | S fuel =>
      let% (cur, s) := reader_nextChar s in
      if (cur =? SPACE) || (cur =? TAB) then skip_spaces_loop fuel s else RRet (cur, s)
  end.

Definition seekEoln (s : InStream) : rres (bool * InStream) :=
  match reader s, strict s with
  | None, false => RRet (true, s)
  | _, _ =>
      let% (cur, s) := skip_spaces_loop (stream_fuel s) s in
      let% s := reader_unreadChar cur s in
      eoln s
  end.

(** ** Byte order mark *)

Definition utf8Bom : bytes := [int_to_char 239; int_to_char 187; int_to_char 191].

(** The longest prefix of [bom] the stream starts with is skipped; [seen] is
    that prefix, last character first. *)
Fixpoint skipBom_loop (bom seen : bytes) (s : InStream) : rres (bytes * bytes * InStream) :=
  match bom with
  | [] => RRet (seen, [], s)
  | b :: bom' =>
      let% (c, s) := curChar s in
      if bool_decide (c = b)
      then let% s := skipChar s in skipBom_loop bom' (b :: seen) s
      else RRet (seen, bom, s)
  end.

Fixpoint unread_all (seen : bytes) (s : InStream) : rres InStream :=
  match seen with
  | [] => RRet s
  | c :: seen => let% s := unreadChar c s in unread_all seen s
  end.

Definition skipBom (s : InStream) : rres InStream :=
  let% (seen, missing, s) := skipBom_loop utf8Bom [] s in
  if bool_decide (missing = []) then RRet s else unread_all seen s.

(** ** Closing *)

(** The reader is deleted. *)
Definition close (s : InStream) : InStream := set_opened false (set_reader None s).
