(* ===== verification/World.v ===== *)
(** * The testlib process: global state, quitting, exit codes
    ([src/support/testlib.h])

    The global variables of testlib, the process's output and the files it
    sees are the record [World].  A function that returns [T] is a [M T]: it
    returns a value, or halts the process.  A [NORETURN] function is a map
    from the state to [halted], which says in its type that it never returns.

    [quit] calls itself (an input stream turns every verdict into a failure,
    trailing output turns an acceptance into a presentation error, an
    unwritable report file turns the verdict into a failure), so it is defined
    by recursion on a depth; [quit_code_correct] of [QuitSpec.v] gives the
    exit code of a checker that quits, so [QUIT_DEPTH] is never exhausted
    there. *)

From Stdlib Require Import SpecFloat.
From S2P Require Import Prelude Text Doubles Readers Validator Streams.

Inductive TTestlibMode := _unknown | _checker | _validator | _generator | _interactor | _scorer.

#[export] Instance TTestlibMode_eq_dec : EqDecision TTestlibMode.
Proof. solve_decision. Defined.

(** ** Verdicts and exit codes *)

(** [TResult] is an integer: [_pc(n)] is [_partially + n]. *)
Abbreviation TResult := Z.
Definition _ok : TResult := 0.
Definition _wa : TResult := 1.
Definition _pe : TResult := 2.
Definition _fail : TResult := 3.
Definition _dirt : TResult := 4.
Definition _points : TResult := 5.
Definition _unexpected_eof : TResult := 8.
Definition _partially : TResult := 16.
Definition _pc (exitCode : Z) : TResult := _partially + exitCode.

Definition outcomes : list bytes :=
  [ $"accepted"; $"wrong-answer"; $"presentation-error"; $"fail"; $"fail"; $"points";
    $"reserved"; $"reserved"; $"unexpected-eof"; $"reserved"; $"reserved"; $"reserved";
    $"reserved"; $"reserved"; $"reserved"; $"reserved"; $"partially-correct" ].

(** The exit codes of a build without [EJUDGE], [CONTESTER] or [TESTSYS]. *)
Definition OK_EXIT_CODE : Z := 0.
Definition WA_EXIT_CODE : Z := 1.
Definition PE_EXIT_CODE : Z := 2.
Definition FAIL_EXIT_CODE : Z := 3.
Definition DIRT_EXIT_CODE : Z := 4.
Definition POINTS_EXIT_CODE : Z := 7.
Definition PC_BASE_EXIT_CODE : Z := 0.

Definition resultExitCode (r : TResult) : Z :=
  if r =? _ok then OK_EXIT_CODE
  else if r =? _wa then WA_EXIT_CODE
  else if r =? _pe then PE_EXIT_CODE
  else if r =? _fail then FAIL_EXIT_CODE
  else if r =? _dirt then DIRT_EXIT_CODE
  else if r =? _points then POINTS_EXIT_CODE
  else if r =? _unexpected_eof then PE_EXIT_CODE
  else if _partially <=? r then PC_BASE_EXIT_CODE + (r - _partially)
  else FAIL_EXIT_CODE.

Definition __testlib_shouldCheckDirt (result : TResult) : bool :=
  (result =? _ok) || (result =? _points) || (_partially <=? result).

(** ** Global state *)

(** [class Checker]. *)
Record Checker := MkChecker { c_initialized : bool; c_testset : bytes; c_group : bytes }.

(** [struct TestlibOpt]. *)
Record TestlibOpt := MkOpt { opt_value : bytes; opt_used : bool }.

(** What the process finds around it: the files by name, which names can be
    written and closed, the bytes of standard input, and whether standard
    error is a terminal. *)
Record Env := MkEnv {
  files : gmap bytes bytes;
  can_write : bytes -> bool;
  can_close : bytes -> bool;
  stdin_bytes : bytes;
  stderr_is_tty : bool }.

Record World := MkWorld {
  inf : InStream;
  ouf : InStream;
  ans : InStream;
  appesMode : bool;
  appesModeEncoding : bytes;
  resultName : bytes;
  checkerName : bytes;
  rnd_seed : Z;
  rnd_version : Z;
  testlibMode : TTestlibMode;
  __testlib_points : double;
  __testlib_hasTestCase : bool;
  __testlib_testCase : Z;
  first_run : bool;
  zero_based : bool;
  __testlib_exitCode : Z;
  alive : bool;
  registered : bool;
  quitCount : Z;
  readEofCount : Z;
  validator : Validator;
  checker : Checker;
  __testlib_testset : bytes;
  __testlib_group : bytes;
  tout_open : bool;
  __testlib_argv : list bytes;
  __testlib_opts : gmap bytes TestlibOpt;
  __testlib_ensureNoUnusedOptsFlag : bool;
  __testlib_ensureNoUnusedOptsSuppressed : bool;
  w_stderr : bytes;
  w_stdout : bytes;
  w_stdout_file : option bytes;
  env : Env }.

(** Field updates. *)
Definition put_inf (x : InStream) (w : World) : World :=
  MkWorld
    x (ouf w) (ans w) (appesMode w) (appesModeEncoding w) (resultName w) (checkerName w)
    (rnd_seed w) (rnd_version w) (testlibMode w) (__testlib_points w)
    (__testlib_hasTestCase w) (__testlib_testCase w) (first_run w) (zero_based w)
    (__testlib_exitCode w) (alive w) (registered w) (quitCount w) (readEofCount w)
    (validator w) (checker w) (__testlib_testset w) (__testlib_group w) (tout_open w)
    (__testlib_argv w) (__testlib_opts w) (__testlib_ensureNoUnusedOptsFlag w)
    (__testlib_ensureNoUnusedOptsSuppressed w) (w_stderr w) (w_stdout w) (w_stdout_file w) (env w).
Definition put_ouf (x : InStream) (w : World) : World :=
  MkWorld
    (inf w) x (ans w) (appesMode w) (appesModeEncoding w) (resultName w) (checkerName w)
    (rnd_seed w) (rnd_version w) (testlibMode w) (__testlib_points w)
    (__testlib_hasTestCase w) (__testlib_testCase w) (first_run w) (zero_based w)
    (__testlib_exitCode w) (alive w) (registered w) (quitCount w) (readEofCount w)
    (validator w) (checker w) (__testlib_testset w) (__testlib_group w) (tout_open w)
    (__testlib_argv w) (__testlib_opts w) (__testlib_ensureNoUnusedOptsFlag w)
    (__testlib_ensureNoUnusedOptsSuppressed w) (w_stderr w) (w_stdout w) (w_stdout_file w) (env w).
Definition put_ans (x : InStream) (w : World) : World :=
  MkWorld
    (inf w) (ouf w) x (appesMode w) (appesModeEncoding w) (resultName w) (checkerName w)
    (rnd_seed w) (rnd_version w) (testlibMode w) (__testlib_points w)
    (__testlib_hasTestCase w) (__testlib_testCase w) (first_run w) (zero_based w)
    (__testlib_exitCode w) (alive w) (registered w) (quitCount w) (readEofCount w)
    (validator w) (checker w) (__testlib_testset w) (__testlib_group w) (tout_open w)
    (__testlib_argv w) (__testlib_opts w) (__testlib_ensureNoUnusedOptsFlag w)
    (__testlib_ensureNoUnusedOptsSuppressed w) (w_stderr w) (w_stdout w) (w_stdout_file w) (env w).
Definition put_appesMode (x : bool) (w : World) : World :=
  MkWorld
    (inf w) (ouf w) (ans w) x (appesModeEncoding w) (resultName w) (checkerName w)
    (rnd_seed w) (rnd_version w) (testlibMode w) (__testlib_points w)
    (__testlib_hasTestCase w) (__testlib_testCase w) (first_run w) (zero_based w)
    (__testlib_exitCode w) (alive w) (registered w) (quitCount w) (readEofCount w)
    (validator w) (checker w) (__testlib_testset w) (__testlib_group w) (tout_open w)
    (__testlib_argv w) (__testlib_opts w) (__testlib_ensureNoUnusedOptsFlag w)
    (__testlib_ensureNoUnusedOptsSuppressed w) (w_stderr w) (w_stdout w) (w_stdout_file w) (env w).
Definition put_appesModeEncoding (x : bytes) (w : World) : World :=
  MkWorld
    (inf w) (ouf w) (ans w) (appesMode w) x (resultName w) (checkerName w) (rnd_seed w)
    (rnd_version w) (testlibMode w) (__testlib_points w) (__testlib_hasTestCase w)
    (__testlib_testCase w) (first_run w) (zero_based w) (__testlib_exitCode w) (alive w)
    (registered w) (quitCount w) (readEofCount w) (validator w) (checker w)
    (__testlib_testset w) (__testlib_group w) (tout_open w) (__testlib_argv w)
    (__testlib_opts w) (__testlib_ensureNoUnusedOptsFlag w)
    (__testlib_ensureNoUnusedOptsSuppressed w) (w_stderr w) (w_stdout w) (w_stdout_file w) (env w).
Definition put_resultName (x : bytes) (w : World) : World :=
  MkWorld
    (inf w) (ouf w) (ans w) (appesMode w) (appesModeEncoding w) x (checkerName w)
    (rnd_seed w) (rnd_version w) (testlibMode w) (__testlib_points w)
    (__testlib_hasTestCase w) (__testlib_testCase w) (first_run w) (zero_based w)
    (__testlib_exitCode w) (alive w) (registered w) (quitCount w) (readEofCount w)
    (validator w) (checker w) (__testlib_testset w) (__testlib_group w) (tout_open w)
    (__testlib_argv w) (__testlib_opts w) (__testlib_ensureNoUnusedOptsFlag w)
    (__testlib_ensureNoUnusedOptsSuppressed w) (w_stderr w) (w_stdout w) (w_stdout_file w) (env w).
Definition put_checkerName (x : bytes) (w : World) : World :=
  MkWorld
    (inf w) (ouf w) (ans w) (appesMode w) (appesModeEncoding w) (resultName w) x (rnd_seed
    w) (rnd_version w) (testlibMode w) (__testlib_points w) (__testlib_hasTestCase w)
    (__testlib_testCase w) (first_run w) (zero_based w) (__testlib_exitCode w) (alive w)
    (registered w) (quitCount w) (readEofCount w) (validator w) (checker w)
    (__testlib_testset w) (__testlib_group w) (tout_open w) (__testlib_argv w)
    (__testlib_opts w) (__testlib_ensureNoUnusedOptsFlag w)
    (__testlib_ensureNoUnusedOptsSuppressed w) (w_stderr w) (w_stdout w) (w_stdout_file w) (env w).
Definition put_rnd_seed (x : Z) (w : World) : World :=
  MkWorld
    (inf w) (ouf w) (ans w) (appesMode w) (appesModeEncoding w) (resultName w)
    (checkerName w) x (rnd_version w) (testlibMode w) (__testlib_points w)
    (__testlib_hasTestCase w) (__testlib_testCase w) (first_run w) (zero_based w)
    (__testlib_exitCode w) (alive w) (registered w) (quitCount w) (readEofCount w)
    (validator w) (checker w) (__testlib_testset w) (__testlib_group w) (tout_open w)
    (__testlib_argv w) (__testlib_opts w) (__testlib_ensureNoUnusedOptsFlag w)
    (__testlib_ensureNoUnusedOptsSuppressed w) (w_stderr w) (w_stdout w) (w_stdout_file w) (env w).
Definition put_rnd_version (x : Z) (w : World) : World :=
  MkWorld
    (inf w) (ouf w) (ans w) (appesMode w) (appesModeEncoding w) (resultName w)
    (checkerName w) (rnd_seed w) x (testlibMode w) (__testlib_points w)
    (__testlib_hasTestCase w) (__testlib_testCase w) (first_run w) (zero_based w)
    (__testlib_exitCode w) (alive w) (registered w) (quitCount w) (readEofCount w)
    (validator w) (checker w) (__testlib_testset w) (__testlib_group w) (tout_open w)
    (__testlib_argv w) (__testlib_opts w) (__testlib_ensureNoUnusedOptsFlag w)
    (__testlib_ensureNoUnusedOptsSuppressed w) (w_stderr w) (w_stdout w) (w_stdout_file w) (env w).
Definition put_testlibMode (x : TTestlibMode) (w : World) : World :=
  MkWorld
    (inf w) (ouf w) (ans w) (appesMode w) (appesModeEncoding w) (resultName w)
    (checkerName w) (rnd_seed w) (rnd_version w) x (__testlib_points w)
    (__testlib_hasTestCase w) (__testlib_testCase w) (first_run w) (zero_based w)
    (__testlib_exitCode w) (alive w) (registered w) (quitCount w) (readEofCount w)
    (validator w) (checker w) (__testlib_testset w) (__testlib_group w) (tout_open w)
    (__testlib_argv w) (__testlib_opts w) (__testlib_ensureNoUnusedOptsFlag w)
    (__testlib_ensureNoUnusedOptsSuppressed w) (w_stderr w) (w_stdout w) (w_stdout_file w) (env w).
Definition put_testlib_points (x : double) (w : World) : World :=
  MkWorld
    (inf w) (ouf w) (ans w) (appesMode w) (appesModeEncoding w) (resultName w)
    (checkerName w) (rnd_seed w) (rnd_version w) (testlibMode w) x (__testlib_hasTestCase
    w) (__testlib_testCase w) (first_run w) (zero_based w) (__testlib_exitCode w) (alive
    w) (registered w) (quitCount w) (readEofCount w) (validator w) (checker w)
    (__testlib_testset w) (__testlib_group w) (tout_open w) (__testlib_argv w)
    (__testlib_opts w) (__testlib_ensureNoUnusedOptsFlag w)
    (__testlib_ensureNoUnusedOptsSuppressed w) (w_stderr w) (w_stdout w) (w_stdout_file w) (env w).
Definition put_testlib_hasTestCase (x : bool) (w : World) : World :=
  MkWorld
    (inf w) (ouf w) (ans w) (appesMode w) (appesModeEncoding w) (resultName w)
    (checkerName w) (rnd_seed w) (rnd_version w) (testlibMode w) (__testlib_points w) x
    (__testlib_testCase w) (first_run w) (zero_based w) (__testlib_exitCode w) (alive w)
    (registered w) (quitCount w) (readEofCount w) (validator w) (checker w)
    (__testlib_testset w) (__testlib_group w) (tout_open w) (__testlib_argv w)
    (__testlib_opts w) (__testlib_ensureNoUnusedOptsFlag w)
    (__testlib_ensureNoUnusedOptsSuppressed w) (w_stderr w) (w_stdout w) (w_stdout_file w) (env w).
Definition put_testlib_testCase (x : Z) (w : World) : World :=
  MkWorld
    (inf w) (ouf w) (ans w) (appesMode w) (appesModeEncoding w) (resultName w)
    (checkerName w) (rnd_seed w) (rnd_version w) (testlibMode w) (__testlib_points w)
    (__testlib_hasTestCase w) x (first_run w) (zero_based w) (__testlib_exitCode w) (alive
    w) (registered w) (quitCount w) (readEofCount w) (validator w) (checker w)
    (__testlib_testset w) (__testlib_group w) (tout_open w) (__testlib_argv w)
    (__testlib_opts w) (__testlib_ensureNoUnusedOptsFlag w)
    (__testlib_ensureNoUnusedOptsSuppressed w) (w_stderr w) (w_stdout w) (w_stdout_file w) (env w).
Definition put_first_run (x : bool) (w : World) : World :=
  MkWorld
    (inf w) (ouf w) (ans w) (appesMode w) (appesModeEncoding w) (resultName w)
    (checkerName w) (rnd_seed w) (rnd_version w) (testlibMode w) (__testlib_points w)
    (__testlib_hasTestCase w) (__testlib_testCase w) x (zero_based w) (__testlib_exitCode
    w) (alive w) (registered w) (quitCount w) (readEofCount w) (validator w) (checker w)
    (__testlib_testset w) (__testlib_group w) (tout_open w) (__testlib_argv w)
    (__testlib_opts w) (__testlib_ensureNoUnusedOptsFlag w)
    (__testlib_ensureNoUnusedOptsSuppressed w) (w_stderr w) (w_stdout w) (w_stdout_file w) (env w).
Definition put_zero_based (x : bool) (w : World) : World :=
  MkWorld
    (inf w) (ouf w) (ans w) (appesMode w) (appesModeEncoding w) (resultName w)
    (checkerName w) (rnd_seed w) (rnd_version w) (testlibMode w) (__testlib_points w)
    (__testlib_hasTestCase w) (__testlib_testCase w) (first_run w) x (__testlib_exitCode
    w) (alive w) (registered w) (quitCount w) (readEofCount w) (validator w) (checker w)
    (__testlib_testset w) (__testlib_group w) (tout_open w) (__testlib_argv w)
    (__testlib_opts w) (__testlib_ensureNoUnusedOptsFlag w)
    (__testlib_ensureNoUnusedOptsSuppressed w) (w_stderr w) (w_stdout w) (w_stdout_file w) (env w).
Definition put_testlib_exitCode (x : Z) (w : World) : World :=
  MkWorld
    (inf w) (ouf w) (ans w) (appesMode w) (appesModeEncoding w) (resultName w)
    (checkerName w) (rnd_seed w) (rnd_version w) (testlibMode w) (__testlib_points w)
    (__testlib_hasTestCase w) (__testlib_testCase w) (first_run w) (zero_based w) x (alive
    w) (registered w) (quitCount w) (readEofCount w) (validator w) (checker w)
    (__testlib_testset w) (__testlib_group w) (tout_open w) (__testlib_argv w)
    (__testlib_opts w) (__testlib_ensureNoUnusedOptsFlag w)
    (__testlib_ensureNoUnusedOptsSuppressed w) (w_stderr w) (w_stdout w) (w_stdout_file w) (env w).
Definition put_alive (x : bool) (w : World) : World :=
  MkWorld
    (inf w) (ouf w) (ans w) (appesMode w) (appesModeEncoding w) (resultName w)
    (checkerName w) (rnd_seed w) (rnd_version w) (testlibMode w) (__testlib_points w)
    (__testlib_hasTestCase w) (__testlib_testCase w) (first_run w) (zero_based w)
    (__testlib_exitCode w) x (registered w) (quitCount w) (readEofCount w) (validator w)
    (checker w) (__testlib_testset w) (__testlib_group w) (tout_open w) (__testlib_argv w)
    (__testlib_opts w) (__testlib_ensureNoUnusedOptsFlag w)
    (__testlib_ensureNoUnusedOptsSuppressed w) (w_stderr w) (w_stdout w) (w_stdout_file w) (env w).
Definition put_registered (x : bool) (w : World) : World :=
  MkWorld
    (inf w) (ouf w) (ans w) (appesMode w) (appesModeEncoding w) (resultName w)
    (checkerName w) (rnd_seed w) (rnd_version w) (testlibMode w) (__testlib_points w)
    (__testlib_hasTestCase w) (__testlib_testCase w) (first_run w) (zero_based w)
    (__testlib_exitCode w) (alive w) x (quitCount w) (readEofCount w) (validator w)
    (checker w) (__testlib_testset w) (__testlib_group w) (tout_open w) (__testlib_argv w)
    (__testlib_opts w) (__testlib_ensureNoUnusedOptsFlag w)
    (__testlib_ensureNoUnusedOptsSuppressed w) (w_stderr w) (w_stdout w) (w_stdout_file w) (env w).
Definition put_quitCount (x : Z) (w : World) : World :=
  MkWorld
    (inf w) (ouf w) (ans w) (appesMode w) (appesModeEncoding w) (resultName w)
    (checkerName w) (rnd_seed w) (rnd_version w) (testlibMode w) (__testlib_points w)
    (__testlib_hasTestCase w) (__testlib_testCase w) (first_run w) (zero_based w)
    (__testlib_exitCode w) (alive w) (registered w) x (readEofCount w) (validator w)
    (checker w) (__testlib_testset w) (__testlib_group w) (tout_open w) (__testlib_argv w)
    (__testlib_opts w) (__testlib_ensureNoUnusedOptsFlag w)
    (__testlib_ensureNoUnusedOptsSuppressed w) (w_stderr w) (w_stdout w) (w_stdout_file w) (env w).
Definition put_readEofCount (x : Z) (w : World) : World :=
  MkWorld
    (inf w) (ouf w) (ans w) (appesMode w) (appesModeEncoding w) (resultName w)
    (checkerName w) (rnd_seed w) (rnd_version w) (testlibMode w) (__testlib_points w)
    (__testlib_hasTestCase w) (__testlib_testCase w) (first_run w) (zero_based w)
    (__testlib_exitCode w) (alive w) (registered w) (quitCount w) x (validator w) (checker
    w) (__testlib_testset w) (__testlib_group w) (tout_open w) (__testlib_argv w)
    (__testlib_opts w) (__testlib_ensureNoUnusedOptsFlag w)
    (__testlib_ensureNoUnusedOptsSuppressed w) (w_stderr w) (w_stdout w) (w_stdout_file w) (env w).
Definition put_validator (x : Validator) (w : World) : World :=
  MkWorld
    (inf w) (ouf w) (ans w) (appesMode w) (appesModeEncoding w) (resultName w)
    (checkerName w) (rnd_seed w) (rnd_version w) (testlibMode w) (__testlib_points w)
    (__testlib_hasTestCase w) (__testlib_testCase w) (first_run w) (zero_based w)
    (__testlib_exitCode w) (alive w) (registered w) (quitCount w) (readEofCount w) x
    (checker w) (__testlib_testset w) (__testlib_group w) (tout_open w) (__testlib_argv w)
    (__testlib_opts w) (__testlib_ensureNoUnusedOptsFlag w)
    (__testlib_ensureNoUnusedOptsSuppressed w) (w_stderr w) (w_stdout w) (w_stdout_file w) (env w).
Definition put_checker (x : Checker) (w : World) : World :=
  MkWorld
    (inf w) (ouf w) (ans w) (appesMode w) (appesModeEncoding w) (resultName w)
    (checkerName w) (rnd_seed w) (rnd_version w) (testlibMode w) (__testlib_points w)
    (__testlib_hasTestCase w) (__testlib_testCase w) (first_run w) (zero_based w)
    (__testlib_exitCode w) (alive w) (registered w) (quitCount w) (readEofCount w)
    (validator w) x (__testlib_testset w) (__testlib_group w) (tout_open w)
    (__testlib_argv w) (__testlib_opts w) (__testlib_ensureNoUnusedOptsFlag w)
    (__testlib_ensureNoUnusedOptsSuppressed w) (w_stderr w) (w_stdout w) (w_stdout_file w) (env w).
Definition put_testlib_testset (x : bytes) (w : World) : World :=
  MkWorld
    (inf w) (ouf w) (ans w) (appesMode w) (appesModeEncoding w) (resultName w)
    (checkerName w) (rnd_seed w) (rnd_version w) (testlibMode w) (__testlib_points w)
    (__testlib_hasTestCase w) (__testlib_testCase w) (first_run w) (zero_based w)
    (__testlib_exitCode w) (alive w) (registered w) (quitCount w) (readEofCount w)
    (validator w) (checker w) x (__testlib_group w) (tout_open w) (__testlib_argv w)
    (__testlib_opts w) (__testlib_ensureNoUnusedOptsFlag w)
    (__testlib_ensureNoUnusedOptsSuppressed w) (w_stderr w) (w_stdout w) (w_stdout_file w) (env w).
Definition put_testlib_group (x : bytes) (w : World) : World :=
  MkWorld
    (inf w) (ouf w) (ans w) (appesMode w) (appesModeEncoding w) (resultName w)
    (checkerName w) (rnd_seed w) (rnd_version w) (testlibMode w) (__testlib_points w)
    (__testlib_hasTestCase w) (__testlib_testCase w) (first_run w) (zero_based w)
    (__testlib_exitCode w) (alive w) (registered w) (quitCount w) (readEofCount w)
    (validator w) (checker w) (__testlib_testset w) x (tout_open w) (__testlib_argv w)
    (__testlib_opts w) (__testlib_ensureNoUnusedOptsFlag w)
    (__testlib_ensureNoUnusedOptsSuppressed w) (w_stderr w) (w_stdout w) (w_stdout_file w) (env w).
Definition put_tout_open (x : bool) (w : World) : World :=
  MkWorld
    (inf w) (ouf w) (ans w) (appesMode w) (appesModeEncoding w) (resultName w)
    (checkerName w) (rnd_seed w) (rnd_version w) (testlibMode w) (__testlib_points w)
    (__testlib_hasTestCase w) (__testlib_testCase w) (first_run w) (zero_based w)
    (__testlib_exitCode w) (alive w) (registered w) (quitCount w) (readEofCount w)
    (validator w) (checker w) (__testlib_testset w) (__testlib_group w) x (__testlib_argv
    w) (__testlib_opts w) (__testlib_ensureNoUnusedOptsFlag w)
    (__testlib_ensureNoUnusedOptsSuppressed w) (w_stderr w) (w_stdout w) (w_stdout_file w) (env w).
Definition put_testlib_argv (x : list bytes) (w : World) : World :=
  MkWorld
    (inf w) (ouf w) (ans w) (appesMode w) (appesModeEncoding w) (resultName w)
    (checkerName w) (rnd_seed w) (rnd_version w) (testlibMode w) (__testlib_points w)
    (__testlib_hasTestCase w) (__testlib_testCase w) (first_run w) (zero_based w)
    (__testlib_exitCode w) (alive w) (registered w) (quitCount w) (readEofCount w)
    (validator w) (checker w) (__testlib_testset w) (__testlib_group w) (tout_open w) x
    (__testlib_opts w) (__testlib_ensureNoUnusedOptsFlag w)
    (__testlib_ensureNoUnusedOptsSuppressed w) (w_stderr w) (w_stdout w) (w_stdout_file w) (env w).
Definition put_testlib_opts (x : gmap bytes TestlibOpt) (w : World) : World :=
  MkWorld
    (inf w) (ouf w) (ans w) (appesMode w) (appesModeEncoding w) (resultName w)
    (checkerName w) (rnd_seed w) (rnd_version w) (testlibMode w) (__testlib_points w)
    (__testlib_hasTestCase w) (__testlib_testCase w) (first_run w) (zero_based w)
    (__testlib_exitCode w) (alive w) (registered w) (quitCount w) (readEofCount w)
    (validator w) (checker w) (__testlib_testset w) (__testlib_group w) (tout_open w)
    (__testlib_argv w) x (__testlib_ensureNoUnusedOptsFlag w)
    (__testlib_ensureNoUnusedOptsSuppressed w) (w_stderr w) (w_stdout w) (w_stdout_file w) (env w).
Definition put_testlib_ensureNoUnusedOptsFlag (x : bool) (w : World) : World :=
  MkWorld
    (inf w) (ouf w) (ans w) (appesMode w) (appesModeEncoding w) (resultName w)
    (checkerName w) (rnd_seed w) (rnd_version w) (testlibMode w) (__testlib_points w)
    (__testlib_hasTestCase w) (__testlib_testCase w) (first_run w) (zero_based w)
    (__testlib_exitCode w) (alive w) (registered w) (quitCount w) (readEofCount w)
    (validator w) (checker w) (__testlib_testset w) (__testlib_group w) (tout_open w)
    (__testlib_argv w) (__testlib_opts w) x (__testlib_ensureNoUnusedOptsSuppressed w)
    (w_stderr w) (w_stdout w) (w_stdout_file w) (env w).
Definition put_testlib_ensureNoUnusedOptsSuppressed (x : bool) (w : World) : World :=
  MkWorld
    (inf w) (ouf w) (ans w) (appesMode w) (appesModeEncoding w) (resultName w)
    (checkerName w) (rnd_seed w) (rnd_version w) (testlibMode w) (__testlib_points w)
    (__testlib_hasTestCase w) (__testlib_testCase w) (first_run w) (zero_based w)
    (__testlib_exitCode w) (alive w) (registered w) (quitCount w) (readEofCount w)
    (validator w) (checker w) (__testlib_testset w) (__testlib_group w) (tout_open w)
    (__testlib_argv w) (__testlib_opts w) (__testlib_ensureNoUnusedOptsFlag w) x (w_stderr
    w) (w_stdout w) (w_stdout_file w) (env w).
Definition put_w_stderr (x : bytes) (w : World) : World :=
  MkWorld
    (inf w) (ouf w) (ans w) (appesMode w) (appesModeEncoding w) (resultName w)
    (checkerName w) (rnd_seed w) (rnd_version w) (testlibMode w) (__testlib_points w)
    (__testlib_hasTestCase w) (__testlib_testCase w) (first_run w) (zero_based w)
    (__testlib_exitCode w) (alive w) (registered w) (quitCount w) (readEofCount w)
    (validator w) (checker w) (__testlib_testset w) (__testlib_group w) (tout_open w)
    (__testlib_argv w) (__testlib_opts w) (__testlib_ensureNoUnusedOptsFlag w)
    (__testlib_ensureNoUnusedOptsSuppressed w) x (w_stdout w) (w_stdout_file w) (env w).
Definition put_w_stdout (x : bytes) (w : World) : World :=
  MkWorld
    (inf w) (ouf w) (ans w) (appesMode w) (appesModeEncoding w) (resultName w)
    (checkerName w) (rnd_seed w) (rnd_version w) (testlibMode w) (__testlib_points w)
    (__testlib_hasTestCase w) (__testlib_testCase w) (first_run w) (zero_based w)
    (__testlib_exitCode w) (alive w) (registered w) (quitCount w) (readEofCount w)
    (validator w) (checker w) (__testlib_testset w) (__testlib_group w) (tout_open w)
    (__testlib_argv w) (__testlib_opts w) (__testlib_ensureNoUnusedOptsFlag w)
    (__testlib_ensureNoUnusedOptsSuppressed w) (w_stderr w) x (w_stdout_file w) (env w).
Definition put_w_stdout_file (x : option bytes) (w : World) : World :=
  MkWorld
    (inf w) (ouf w) (ans w) (appesMode w) (appesModeEncoding w) (resultName w)
    (checkerName w) (rnd_seed w) (rnd_version w) (testlibMode w) (__testlib_points w)
    (__testlib_hasTestCase w) (__testlib_testCase w) (first_run w) (zero_based w)
    (__testlib_exitCode w) (alive w) (registered w) (quitCount w) (readEofCount w)
    (validator w) (checker w) (__testlib_testset w) (__testlib_group w) (tout_open w)
    (__testlib_argv w) (__testlib_opts w) (__testlib_ensureNoUnusedOptsFlag w)
    (__testlib_ensureNoUnusedOptsSuppressed w) (w_stderr w) (w_stdout w) x (env w).
Definition put_env (x : Env) (w : World) : World :=
  MkWorld
    (inf w) (ouf w) (ans w) (appesMode w) (appesModeEncoding w) (resultName w)
    (checkerName w) (rnd_seed w) (rnd_version w) (testlibMode w) (__testlib_points w)
    (__testlib_hasTestCase w) (__testlib_testCase w) (first_run w) (zero_based w)
    (__testlib_exitCode w) (alive w) (registered w) (quitCount w) (readEofCount w)
    (validator w) (checker w) (__testlib_testset w) (__testlib_group w) (tout_open w)
    (__testlib_argv w) (__testlib_opts w) (__testlib_ensureNoUnusedOptsFlag w)
    (__testlib_ensureNoUnusedOptsSuppressed w) (w_stderr w) (w_stdout w) (w_stdout_file w) x.

(** The state before [main]. *)
Definition initial_world (e : Env) : World :=
  MkWorld new_InStream new_InStream new_InStream
    false ($"windows-1251") [] ($"untitled checker")
    3905348978240129619 (-1) _unknown (S754_infinity false)
    false (-1) true false 0 true false 0 0
    new_validator (MkChecker false ($"tests") []) [] []
    false [] ∅ false false [] [] None e.

(** Which of the global streams [this] is. *)
Inductive StreamId := INF | OUF | ANS.

#[export] Instance StreamId_eq_dec : EqDecision StreamId.
Proof. solve_decision. Defined.

Definition get_stream (this : StreamId) (w : World) : InStream :=
  match this with INF => inf w | OUF => ouf w | ANS => ans w end.

Definition put_stream (this : StreamId) (s : InStream) (w : World) : World :=
  match this with INF => put_inf s w | OUF => put_ouf s w | ANS => put_ans s w end.

(** ** Processes *)

Inductive halted :=
| HExit (code : Z) (w : World)
| HStuck.

Inductive mres (A : Type) :=
| MRet (a : A) (w : World)
| MHalt (h : halted).
Arguments MRet {A} a w.
Arguments MHalt {A} h.

Definition M (A : Type) : Type := World -> mres A.

Definition ret {A} (a : A) : M A := fun w => MRet a w.
Definition bind {A B} (m : M A) (k : A -> M B) : M B := fun w =>
  match m w with
  | MRet a w => k a w
  | MHalt h => MHalt h
  end.

(** A call of a [NORETURN] function. *)
Definition noreturn {A} (h : World -> halted) : M A := fun w => MHalt (h w).
Definition gets {A} (f : World -> A) : M A := fun w => MRet (f w) w.
Definition modify (f : World -> World) : M unit := fun w => MRet tt (f w).
Definition stuck {A} : M A := fun _ => MHalt HStuck.

Notation "'let*' x := m 'in' k" := (bind m (fun x => k))
  (at level 10, x pattern, m at level 100, k at level 200) : judge_scope.
Notation "'do*' m 'in' k" := (bind m (fun _ => k))
  (at level 10, m at level 100, k at level 200) : judge_scope.

(** [if (c) m;] *)
Definition when (c : bool) (m : M unit) : M unit := if c then m else ret tt.

(** ** Output *)

Definition eprint (text : bytes) (w : World) : World := put_w_stderr (w_stderr w ++ text) w.

Definition put_file (name text : bytes) (w : World) : World :=
  let e := env w in
  put_env (MkEnv (<[name := text]> (files e)) (can_write e) (can_close e) (stdin_bytes e)
                 (stderr_is_tty e)) w.

(** Standard output is the process's own until it is reopened on a file. *)
Definition print (text : bytes) (w : World) : World :=
  match w_stdout_file w with
  | None => put_w_stdout (w_stdout w ++ text) w
  | Some name => put_file name (default [] (files (env w) !! name) ++ text) w
  end.

Definition LightGray : Z := 7.
Definition LightRed : Z := 12.
Definition LightCyan : Z := 11.
Definition LightGreen : Z := 10.
Definition LightYellow : Z := 14.

Definition textColor (color : Z) (w : World) : World :=
  if stderr_is_tty (env w) then
    let esc := int_to_char 27 in
    eprint (esc :: if color =? LightRed then $"[1;31m"
                   else if color =? LightCyan then $"[1;36m"
                   else if color =? LightGreen then $"[1;32m"
                   else if color =? LightYellow then $"[1;33m"
                   else $"[0m") w
  else w.

Definition quitscr (color : Z) (msg : bytes) (w : World) : World :=
  if bool_decide (resultName w = [])
  then textColor LightGray (eprint (c_str msg) (textColor color w))
  else w.

(** ** Quitting *)

(** The message [quit] reports: trimmed, with the test case, and cut. *)
Definition quit_message (maxMessageLength : Z) (result : TResult) (msg : bytes) (w : World) : bytes :=
  let message := trim (c_str msg) in
  let message :=
    if __testlib_hasTestCase w then
      if negb (result =? _ok) && negb (result =? _points)
      then __testlib_appendMessage message ($"test case " ++ vtos (__testlib_testCase w))
      else if __testlib_testCase w =? 1
      then __testlib_appendMessage message (vtos (__testlib_testCase w) ++ $" test case")
      else __testlib_appendMessage message (vtos (__testlib_testCase w) ++ $" test cases")
    else message in
  if maxMessageLength <? zlen message then
    let warn := $"message length exceeds " ++ vtos maxMessageLength
                ++ $", the message is truncated: " in
    (* [maxMessageLength - warn.length()] is a [size_t] *)
    warn ++ ztake (uwrap 64 (maxMessageLength - zlen warn)) message
  else message.

(** The [switch (result)] of [quit]: the prefix printed, its colour, the final
    result and whether it is partial; [None] is the [default] that fails. *)
Definition verdict_name (result : TResult) : option (bytes * Z * TResult * bool) :=
  if result =? _ok then Some ($"ok ", LightGreen, result, false)
  else if result =? _wa then Some ($"wrong answer ", LightRed, result, false)
  else if result =? _pe then Some ($"wrong output format ", LightRed, result, false)
  else if result =? _fail then Some ($"FAIL ", LightRed, result, false)
  else if result =? _dirt then Some ($"wrong output format ", LightCyan, _pe, false)
  else if result =? _points then Some ($"points ", LightYellow, result, false)
  else if result =? _unexpected_eof then Some ($"unexpected eof ", LightCyan, result, false)
  else if _partially <=? result
  then Some (testlib_format_ ($"partially correct (%d) ") [FInt (result - _partially)],
             LightYellow, result, true)
  else None.

Definition outcome_name (result : TResult) : bytes :=
  default [] (znth outcomes result).

(** What the report file holds; [None] when points were never set. *)
Definition report (w : World) (result pctype : Z) (isPartial : bool) (message : bytes)
  : option bytes :=
  let printable := __testlib_toPrintableMessage message in
  let q := quote in
  if appesMode w then
    let header := $"<?xml version=" ++ q ++ $"1.0" ++ q ++ $" encoding=" ++ q
                  ++ appesModeEncoding w ++ q ++ $"?>" in
    let tag :=
      if isPartial then
        Some ($"<result outcome = " ++ q ++ outcome_name _partially ++ q
              ++ $" pctype = " ++ q ++ vtos pctype ++ q ++ $">")
      else if negb (result =? _points) then
        Some ($"<result outcome = " ++ q ++ outcome_name result ++ q ++ $">")
      else if deq (__testlib_points w) (S754_infinity false) then None
      else
        let stringPoints := removeDoubleTrailingZeroes
                              (testlib_format_ ($"%.10f") [FDbl (__testlib_points w)]) in
        Some ($"<result outcome = " ++ q ++ outcome_name result ++ q
              ++ $" points = " ++ q ++ stringPoints ++ q ++ $">") in
    (fun tag => header ++ tag ++ xmlSafeWrite printable ++ $"</result>" ++ newline) <$> tag
  else Some (c_str printable).

(** [halt]: the exit code is recorded before [std::exit]. *)
Definition halt (exitCode : Z) (w : World) : halted :=
  HExit exitCode (put_testlib_exitCode exitCode w).

(** The end of [quit]: message, closing of the streams, exit. *)
Definition quit_finish (result : TResult) (message : bytes) (w : World) : halted :=
  let w := quitscr LightGray (__testlib_toPrintableMessage message) w in
  let w := eprint newline w in
  let w := put_inf (close (inf w)) w in
  let w := put_ouf (close (ouf w)) w in
  let w := put_ans (close (ans w)) w in
  let w := put_tout_open false w in
  let w := textColor LightGray w in
  let w := if bool_decide (resultName w = []) then w
           else eprint ($"See file to check exit message" ++ newline) w in
  halt (resultExitCode result) w.

(** The [switch (result)] and what follows it, once trailing output has been
    ruled out.  [again] is a nested call on the same stream. *)
Definition quit_verdict (again : TResult -> bytes -> World -> halted) (result : TResult)
    (message : bytes) (w : World) : halted :=
  let pctype := result - _partially in
  match verdict_name result with
  | None => again _fail ($"What is the code ??? ") w
  | Some (errorName, color, result, isPartial) =>
      let w := quitscr color errorName w in
      if bool_decide (resultName w = []) then quit_finish result message w
      else if negb (can_write (env w) (resultName w))
      then again _fail ($"Can not write to the result file") (put_resultName [] w)
      else match report w result pctype isPartial message with
           | None => again _fail ($"Expected points, but infinity found") w
           | Some text =>
               let w := put_file (resultName w) text w in
               if negb (can_close (env w) (resultName w))
               then again _fail ($"Can not write to the result file") (put_resultName [] w)
               else quit_finish result message w
           end
  end.

(** One call of [quit]: [again] is a nested call on the same stream,
    [ouf_fail] a call of [__testlib_fail]. *)
Definition quit_step (again : TResult -> bytes -> World -> halted)
    (ouf_fail : bytes -> World -> halted)
    (this : StreamId) (result : TResult) (msg : bytes) (w : World) : halted :=
  let s := get_stream this w in
  let w := if alive w then put_quitCount (quitCount w + 1) w else w in
  let message := quit_message (maxMessageLength s) result msg w in
  let result := if result =? _unexpected_eof then _pe else result in
  if bool_decide (testlibMode w = _scorer) && negb (result =? _fail)
  then again _fail ($"Scorer should return points only. Don't use a quit function.") w
  else if negb (bool_decide (mode s = _output)) && negb (result =? _fail) then
    if bool_decide (mode s = _input) && bool_decide (testlibMode w = _validator)
       && negb (lastLine s =? -1)
    then again _fail (__testlib_appendMessage (__testlib_appendMessage message (name s))
                        ($"line " ++ vtos (lastLine s))) w
    else again _fail (__testlib_appendMessage message (name s)) w
  else if __testlib_shouldCheckDirt result && negb (bool_decide (testlibMode w = _interactor))
  then match seekEof (ouf w) with
       | RRet (at_end, o) =>
           let w := put_ouf o w in
           if at_end then quit_verdict again result message w
           else again _dirt ($"Extra information in the output file") w
       | RFail message => ouf_fail message w
       | RUndef => HStuck
       end
  else quit_verdict again result message w.

Fixpoint quit_at (depth : nat) (this : StreamId) (result : TResult) (msg : bytes) (w : World)
  : halted :=
  match depth with
  | O => HStuck
  | S depth => quit_step (quit_at depth this) (quit_at depth OUF _fail) this result msg w
  end.

Definition QUIT_DEPTH : nat := 6.

(** [InStream::quit] on a global stream. *)
Definition quit (this : StreamId) (result : TResult) (msg : bytes) : World -> halted :=
  quit_at QUIT_DEPTH this result msg.

(** The global [quit], [quitf] and [__testlib_fail] quit on [ouf]. *)
Definition gquit (result : TResult) (msg : bytes) : World -> halted := quit OUF result msg.
Definition quitf (result : TResult) (format : bytes) (args : list farg) : World -> halted :=
  gquit result (testlib_format_ format args).
Definition stream_quitf (this : StreamId) (result : TResult) (format : bytes) (args : list farg)
  : World -> halted := quit this result (testlib_format_ format args).
Definition __testlib_fail (message : bytes) : World -> halted :=
  quitf _fail ($"%s") [FStr message].

Definition stream_quitif (this : StreamId) (condition : bool) (result : TResult) (format : bytes)
    (args : list farg) : M unit := when condition (noreturn (stream_quitf this result format args)).
Definition quits (this : StreamId) (result : TResult) (msg : bytes) : World -> halted :=
  quit this result (c_str msg).

Definition quitif (condition : bool) (result : TResult) (format : bytes) (args : list farg) : M unit :=
  when condition (noreturn (quitf result format args)).

(** ** Stream functions inside the process *)

Definition on_stream {A} (this : StreamId) (f : InStream -> rres (A * InStream)) : M A := fun w =>
  match f (get_stream this w) with
  | RRet (a, s) => MRet a (put_stream this s w)
  | RFail message => MHalt (__testlib_fail message w)
  | RUndef => MHalt HStuck
  end.

Definition on_stream1 (this : StreamId) (f : InStream -> rres InStream) : M unit :=
  on_stream this (fun s => let% s := f s in RRet (tt, s)).

Definition modify_stream (this : StreamId) (f : InStream -> InStream) : M unit :=
  modify (fun w => put_stream this (f (get_stream this w)) w).
