(* ===== verification/Pattern.v ===== *)
(** * Patterns ([src/support/testlib.h], [class pattern])

    The very simple regular expressions of testlib: a character set with
    repetition counts followed by a tail, or a list of alternatives.  The
    constructor parses the text, [matches] is greedy.  Parsing recurses on
    strictly shorter texts; its fuel is the length of the text plus one. *)

From stdpp Require Import sorting.
From S2P Require Import Prelude Text Doubles.

(** [children], [chars], [from], [to] and the source text. *)
#[warnings="-register-all"]
Inductive pattern :=
| Pattern (s : bytes) (children : list pattern) (chars : bytes) (from to : Z).

Definition src (p : pattern) : bytes := let 'Pattern s _ _ _ _ := p in s.

(** ** Character access *)

(** [s[i]] for [i <= s.length()]: the terminator is NUL. *)
Definition char_at (s : bytes) (i : Z) : ascii := default zero (znth s i).

Definition __pattern_isSlash (s : bytes) (pos : Z) : bool :=
  bool_decide (char_at s pos = "\"%char).

(** The number of backslashes right before [pos]. *)
Definition slashes_before (s : bytes) (pos : Z) : Z :=
  count_while (fun c => bool_decide (c = "\"%char)) (reverse (ztake pos s)).

Definition __pattern_isCommandChar (s : bytes) (pos : Z) (value : ascii) : bool :=
  if zlen s <=? pos then false
  else (Z.rem (slashes_before s pos) 2 =? 0) && bool_decide (char_at s pos = value).

Definition __pattern_getChar (s : bytes) (pos : Z) : ascii * Z :=
  let pos := if __pattern_isSlash s pos then pos + 2 else pos + 1 in
  (char_at s (pos - 1), pos).

(** ** Matching *)

(** [std::binary_search] on the sorted [chars]. *)
Definition binary_search (chars : bytes) (c : ascii) : bool := bool_decide (c ∈ chars).

Definition __pattern_greedyMatch (s : bytes) (pos : Z) (chars : bytes) : Z :=
  count_while (binary_search chars) (zdrop pos s).

Fixpoint matches_at (p : pattern) (s : bytes) (pos : Z) : bool :=
  let 'Pattern _ children chars from to := p in
  let size := __pattern_greedyMatch s pos chars in
  if (0 <? to) && (size <? from) then false
  else
    let pos := if 0 <? to then pos + (if to <? size then to else size) else pos in
    match children with
    | [] => pos =? zlen s
    | _ :: _ => existsb (fun child => matches_at child s pos) children
    end.

Definition matches (p : pattern) (s : bytes) : bool := matches_at p s 0.

(** ** Parsing *)

Definition illegal {A} (s : bytes) : exc A :=
  inl ($"pattern: Illegal pattern (or part) " ++ ["034"%char] ++ s ++ ["034"%char]).

(** [sscanf(text, "%d", &number)]: white space, a sign, digits; the value is
    clamped to [long] and stored as an [int]. *)
Definition is_space (c : ascii) : bool :=
  let x := char_to_int c in (x =? 32) || ((9 <=? x) && (x <=? 13)).

Fixpoint drop_while (P : ascii -> bool) (s : bytes) : bytes :=
  match s with
  | [] => []
  | c :: s' => if P c then drop_while P s' else s
  end.

Definition sscanf_d (text : bytes) : option Z :=
  let '(neg, digits) := scan_sign (drop_while is_space text) in
  let '(v, n, _) := scan_digits digits 0 0 in
  if n =? 0 then None
  else Some (swrap 32 (Z.max LLONG_MIN (Z.min LLONG_MAX (if neg : bool then - v else v)))).

(** The parts between the braces and the position of the closing one. *)
Fixpoint scan_parts (fuel : nat) (s : bytes) (pos : Z) (parts : list bytes) (part : bytes)
  : list bytes * bytes * Z :=
  match fuel with
  | O => (parts, part, pos)
  | S fuel =>
      if (pos <? zlen s) && negb (__pattern_isCommandChar s pos "}"%char) then
        if __pattern_isCommandChar s pos ","%char
        then scan_parts fuel s (pos + 1) (parts ++ [part]) []
        else let '(c, pos) := __pattern_getChar s pos in
             scan_parts fuel s pos parts (part ++ [c])
      else (parts, part, pos)
  end.

Fixpoint scan_numbers (s : bytes) (parts : list bytes) : exc (list Z) :=
  match parts with
  | [] => inr []
  | part :: parts =>
      if bool_decide (part = []) then illegal s
      else match sscanf_d (c_str part) with
           | None => illegal s
           | Some number => let? numbers := scan_numbers s parts in inr (number :: numbers)
           end
  end.

(** The new position, [from] and [to]. *)
Definition __pattern_scanCounts (s : bytes) (pos : Z) : exc (Z * Z * Z) :=
  if zlen s <=? pos then inr (pos, 1, 1)
  else if __pattern_isCommandChar s pos "{"%char then
    let '(parts, part, pos) := scan_parts (length s) s (pos + 1) [] [] in
    let parts := if bool_decide (part = []) then parts else parts ++ [part] in
    if negb (__pattern_isCommandChar s pos "}"%char) then illegal s
    else
      let pos := pos + 1 in
      if (zlen parts <? 1) || (2 <? zlen parts) then illegal s
      else
        let? numbers := scan_numbers s parts in
        let '(from, to) := match numbers with
                           | [n] => (n, n)
                           | n :: m :: _ => (n, m)
                           | [] => (0, 0)
                           end in
        if to <? from then illegal s else inr (pos, from, to)
  else if __pattern_isCommandChar s pos "?"%char then inr (pos + 1, 0, 1)
  else if __pattern_isCommandChar s pos "*"%char then inr (pos + 1, 0, INT_MAX)
  else if __pattern_isCommandChar s pos "+"%char then inr (pos + 1, 1, INT_MAX)
  else inr (pos, 1, 1).

(** [for (char c = prev; c != next; c++) push c; push next]. *)
Definition char_range (prev next : ascii) : bytes :=
  int_to_char <$> seqZ (char_to_int prev) (char_to_int next - char_to_int prev + 1).

(** [prev = 0] stands for no pending character. *)
Fixpoint scan_set (fuel : nat) (s : bytes) (pos : Z) (result : bytes) (prev : ascii)
  : exc (bytes * ascii * Z) :=
  match fuel with
  | O => inr (result, prev, pos)
  | S fuel =>
      if (pos <? zlen s) && negb (__pattern_isCommandChar s pos "]"%char) then
        if __pattern_isCommandChar s pos "-"%char && negb (bool_decide (prev = zero)) then
          let pos := pos + 1 in
          if (pos + 1 =? zlen s) || __pattern_isCommandChar s pos "]"%char
          then scan_set fuel s pos (result ++ [prev]) "-"%char
          else
            let '(next, pos) := __pattern_getChar s pos in
            if char_to_int next <? char_to_int prev then illegal s
            else scan_set fuel s pos (result ++ char_range prev next) zero
        else
          let result := if bool_decide (prev = zero) then result else result ++ [prev] in
          let '(c, pos) := __pattern_getChar s pos in
          scan_set fuel s pos result c
      else inr (result, prev, pos)
  end.

Definition char_le (a b : ascii) : Prop := char_to_int a <= char_to_int b.
#[export] Instance char_le_dec : RelDecision char_le :=
  fun a b => decide (char_to_int a <= char_to_int b).

Definition sort_chars : bytes -> bytes := merge_sort char_le.

Definition __pattern_scanCharSet (s : bytes) (pos : Z) : exc (bytes * Z) :=
  if zlen s <=? pos then illegal s
  else if __pattern_isCommandChar s pos "["%char then
    let pos := pos + 1 in
    let negative := __pattern_isCommandChar s pos "^"%char in
    let pos := if negative then pos + 1 else pos in
    let? (result, prev, pos) := scan_set (S (length s)) s pos [] zero in
    let result := if bool_decide (prev = zero) then result else result ++ [prev] in
    if negb (__pattern_isCommandChar s pos "]"%char) then illegal s
    else
      let pos := pos + 1 in
      let result :=
        if negative
        then base.filter (fun c => negb (binary_search (sort_chars result) c) = true)
                    (int_to_char <$> seqZ 0 255)
        else result in
      inr (sort_chars result, pos)
  else let '(c, pos) := __pattern_getChar s pos in inr ([c], pos).

(** Unescaped spaces are dropped. *)
Definition drop_spaces (s : bytes) : bytes :=
  omap (fun i => if __pattern_isCommandChar s i " "%char then None else znth s i)
       (seqZ 0 (zlen s)).

(** The scan for brackets and alternatives: [opened], [firstClose], [seps]. *)
Fixpoint scan_brackets (s : bytes) (idx : list Z) (opened firstClose : Z) (seps : list Z)
  : exc (Z * Z * list Z) :=
  match idx with
  | [] => inr (opened, firstClose, seps)
  | i :: idx =>
      if __pattern_isCommandChar s i "("%char
      then scan_brackets s idx (opened + 1) firstClose seps
      else if __pattern_isCommandChar s i ")"%char then
        let opened := opened - 1 in
        let firstClose := if (opened =? 0) && (firstClose =? -1) then i else firstClose in
        scan_brackets s idx opened firstClose seps
      else if opened <? 0 then illegal s
      else
        let seps := if __pattern_isCommandChar s i "|"%char && (opened =? 0)
                    then seps ++ [i] else seps in
        scan_brackets s idx opened firstClose seps
  end.

(** The texts between the separators. *)
Fixpoint alternatives (s : bytes) (seps : list Z) (last : Z) : list bytes :=
  match seps with
  | [] => []
  | sep :: seps => substr s last (sep - last) :: alternatives s seps (sep + 1)
  end.

Fixpoint sequence {A} (l : list (exc A)) : exc (list A) :=
  match l with
  | [] => inr []
  | m :: l => let? a := m in let? l := sequence l in inr (a :: l)
  end.

(** [pattern::pattern(std::string s)]; [src()] keeps the text as given. *)
Fixpoint parse_pattern (fuel : nat) (text : bytes) : exc pattern :=
  match fuel with
  | O => illegal text
  | S fuel =>
      let s := drop_spaces text in
      let? (opened, firstClose, seps) := scan_brackets s (seqZ 0 (zlen s)) 0 (-1) [] in
      if negb (opened =? 0) then illegal s
      else if bool_decide (seps = []) && (firstClose + 1 =? zlen s)
              && __pattern_isCommandChar s 0 "("%char
              && __pattern_isCommandChar s (zlen s - 1) ")"%char
      then let? child := parse_pattern fuel (substr s 1 (zlen s - 2)) in
           inr (Pattern text [child] [] 0 0)
      else if negb (bool_decide (seps = []))
      then let? children := sequence (parse_pattern fuel <$> alternatives s (seps ++ [zlen s]) 0) in
           inr (Pattern text children [] 0 0)
      else
        let? (chars, pos) := __pattern_scanCharSet s 0 in
        let? (pos, from, to) := __pattern_scanCounts s pos in
        if pos <? zlen s
        then let? child := parse_pattern fuel (zdrop pos s) in inr (Pattern text [child] chars from to)
        else inr (Pattern text [] chars from to)
  end.

Definition pattern_of (s : bytes) : exc pattern := parse_pattern (S (length s)) s.

Definition matches_text (ptrn s : bytes) : option bool :=
  match pattern_of ptrn with inr p => Some (matches p s) | inl _ => None end.

Example pnum_ex : matches_text ($"0|-?[1-9][0-9]*") <$> [ $"0"; $"-12"; $"007"; $"-0"; $"" ]
  = [Some true; Some true; Some false; Some false; Some false].
Proof. vm_compute. reflexivity. Qed.
Example id_ex : matches_text ($"id-([ac]|b{2})") <$> [ $"id-a"; $"id-bb"; $"id-b" ]
  = [Some true; Some true; Some false].
Proof. vm_compute. reflexivity. Qed.
Example greedy_ex : matches_text ($"[0-9]?1") ($"1") = Some false.
Proof. vm_compute. reflexivity. Qed.
