(* ===== verification/Reading.v ===== *)
(** * Reading from the global streams ([src/support/testlib.h], [InStream])

    Opening, tokens, lines, integers, doubles and their bounded, named and
    repeated forms.  Every function runs in the process [M] of [World.v] on
    one of the global streams, and quits through it. *)

From Stdlib Require Import SpecFloat.
From S2P Require Import Prelude Text Doubles Readers Validator Streams World Pattern.

(** A computation that may call [__testlib_fail]. *)
Definition lift_exc {A} (m : exc A) : M A :=
  match m with
  | inl message => noreturn (__testlib_fail message)
  | inr a => ret a
  end.

Definition quoted (s : bytes) : bytes := quote ++ s ++ quote.

Definition stream (this : StreamId) : M InStream := gets (get_stream this).

(** ** Opening *)

Definition libc_fopen (f : bytes) : FILE := MkFILE f false false.

(** [InStream::reset(file)]. *)
Definition reset (this : StreamId) (file : option FILE) : M unit :=
  let* s := stream this in
  if opened s && stdfile s
  then noreturn (quit this _fail ($"Can't reset standard handle"))
  else
    do* (if opened s then modify_stream this close else ret tt) in
    let* found := gets (fun w => files (env w) !! name s) in
    let file := if negb (stdfile s) && bool_decide (file = None)
                then libc_fopen <$> found else file in
    match file with
    | None =>
        do* (if negb (stdfile s) then
               if bool_decide (mode s = _output)
               then noreturn (quit this _pe ($"Output file not found: " ++ quoted (name s)))
               else if bool_decide (mode s = _answer)
               then noreturn (quit this _fail ($"Answer file not found: " ++ quoted (name s)))
               else ret tt
             else ret tt) in
        modify_stream this (fun s => set_reader None (set_opened false s))
    | Some f =>
        let reader := if stdfile s
                      then RFile (FileReader.Mk (Some f) (name s) 1 [] [] [])
                      else RBuffered (BufferedReader.make f (name s)) in
        modify_stream this (fun s => set_reader (Some reader) (set_opened true s))
    end.

(** [init(std::string fileName, TMode mode)]. *)
Definition init (this : StreamId) (fileName : bytes) (mode : TMode) : M unit :=
  do* modify_stream this (fun s =>
        set_mode mode (set_stdfile false (set_name fileName (set_opened false s)))) in
  let* s := stream this in
  let* found := gets (fun w => files (env w) !! fileName) in
  do* match found with
      | Some text =>
          when (maxFileSize s <? zlen text)
               (noreturn (stream_quitf this _pe ($"File size exceeds %d bytes, size is %d")
                            [FInt (swrap 32 (maxFileSize s)); FInt (swrap 32 (zlen text))]))
      | None => ret tt
      end in
  reset this None.

(** [init(stdin, mode)]. *)
Definition init_stdin (this : StreamId) (mode : TMode) : M unit :=
  do* modify_stream this (fun s =>
        set_stdfile true (set_name ($"stdin") (set_mode mode (set_opened false s)))) in
  let* text := gets (fun w => stdin_bytes (env w)) in
  reset this (Some (libc_fopen text)).

(** [readChar(c)]. *)
Definition readChar_expect (this : StreamId) (c : ascii) : M ascii :=
  do* on_stream1 this note_line in
  let* found := on_stream this readChar in
  if bool_decide (c = found) then ret found
  else if negb (isEoln (char_to_int found))
  then noreturn (quit this _pe ($"Unexpected character '" ++ [found] ++ $"', but '" ++ [c]
                                ++ $"' expected"))
  else noreturn (quit this _pe ($"Unexpected character #" ++ vtos (char_to_int found)
                                ++ $", but '" ++ [c] ++ $"' expected")).

Definition readSpace (this : StreamId) : M ascii := readChar_expect this " "%char.

(** ** Tokens *)

Fixpoint token_loop (fuel : nat) (this : StreamId) (cur : Z) (result : bytes) : M (Z * bytes) :=
  match fuel with
  | O => stuck
  | S fuel =>
      if negb (isBlanks cur || (cur =? EOFC)) then
        let result := result ++ [int_to_char cur] in
        let* s := stream this in
        if maxTokenLength s <? zlen result
        then noreturn (stream_quitf this _pe ($"Length of token exceeds %d, token is '%s...'")
                         [FInt (swrap 32 (maxTokenLength s)); FStr (__testlib_part result)])
        else let* cur := on_stream this reader_nextChar in token_loop fuel this cur result
      else ret (cur, result)
  end.

(** [readWordTo(result)]: the new value of [result]. *)
Definition readWordTo (this : StreamId) : M bytes :=
  let* s := stream this in
  do* (if negb (strict s) then on_stream1 this skipBlanks else ret tt) in
  do* on_stream1 this note_line in
  let* cur := on_stream this reader_nextChar in
  if cur =? EOFC
  then noreturn (quit this _unexpected_eof ($"Unexpected end of file - token expected"))
  else if isBlanks cur
  then noreturn (quit this _pe ($"Unexpected white-space - token expected"))
  else
    let* s := stream this in
    let* (cur, result) := token_loop (S (S (stream_fuel s))) this cur [] in
    do* on_stream1 this (reader_unreadChar cur) in
    if zlen result =? 0
    then noreturn (quit this _unexpected_eof
                     ($"Unexpected end of file or white-space - token expected"))
    else ret result.

(** [readWord()], also [readToken()]: goes through [_tmpReadToken]. *)
Definition readWord (this : StreamId) : M bytes :=
  let* result := readWordTo this in
  do* modify_stream this (set_tmpReadToken result) in
  ret result.

Definition readToken (this : StreamId) : M bytes := readWord this.

(** [validator.f(...)] on the global validator. *)
Definition on_validator (f : Validator -> Validator) : M unit :=
  modify (fun w => put_validator (f (validator w)) w).

Definition note_variable (this : StreamId) (variableName : bytes) : M unit :=
  let* s := stream this in
  when (strict s && negb (bool_decide (variableName = []))) (on_validator (addVariable variableName)).

(** [readWord(const pattern &p, variableName)]. *)
Definition readWord_pattern (this : StreamId) (p : pattern) (variableName : bytes) : M bytes :=
  let* word := readWord this in
  let* s := stream this in
  let part := quoted (__testlib_part word) in
  let index := vtos (readManyIteration s) in
  do* (if matches p word then ret tt
       else noreturn (quit this _wa
         (if readManyIteration s =? NO_INDEX then
            if bool_decide (variableName = [])
            then $"Token " ++ part ++ $" doesn't correspond to pattern " ++ quoted (src p)
            else $"Token parameter [name=" ++ variableName ++ $"] equals to " ++ part
                 ++ $", doesn't correspond to pattern " ++ quoted (src p)
          else
            if bool_decide (variableName = [])
            then $"Token element [index=" ++ index ++ $"] equals to " ++ part
                 ++ $" doesn't correspond to pattern " ++ quoted (src p)
            else $"Token element " ++ variableName ++ $"[" ++ index ++ $"] equals to " ++ part
                 ++ $", doesn't correspond to pattern " ++ quoted (src p)))) in
  do* note_variable this variableName in
  ret word.

(** [readWord(const std::string &ptrn, variableName)], also [readToken]. *)
Definition readWord_text (this : StreamId) (ptrn variableName : bytes) : M bytes :=
  let* p := lift_exc (pattern_of ptrn) in readWord_pattern this p variableName.

(** [readWordTo(result, p, variableName)], also [readTokenTo]. *)
Definition readWordTo_pattern (this : StreamId) (p : pattern) (variableName : bytes) : M bytes :=
  let* result := readWordTo this in
  do* (if matches p result then ret tt
       else noreturn (quit this _wa
         (if bool_decide (variableName = [])
          then $"Token " ++ quoted (__testlib_part result) ++ $" doesn't correspond to pattern "
               ++ quoted (src p)
          else $"Token parameter [name=" ++ variableName ++ $"] equals to "
               ++ quoted (__testlib_part result) ++ $", doesn't correspond to pattern "
               ++ quoted (src p)))) in
  do* note_variable this variableName in
  ret result.

Definition readWordTo_text (this : StreamId) (ptrn variableName : bytes) : M bytes :=
  let* p := lift_exc (pattern_of ptrn) in readWordTo_pattern this p variableName.

Definition readTokenTo_pattern := readWordTo_pattern.
Definition readTokenTo_text := readWordTo_text.

(** ** Repetition: the macro [__testlib_readMany] *)

Fixpoint readMany_loop {A} (n : nat) (this : StreamId) (readOne : M A) (space : bool)
  : M (list A) :=
  match n with
  | O => ret []
  | S n =>
      let* x := readOne in
      do* modify_stream this (fun s => set_readManyIteration (readManyIteration s + 1) s) in
      let* s := stream this in
      do* (if strict s && space && negb (Nat.eqb n O)
           then let* _ := readSpace this in ret tt else ret tt) in
      let* xs := readMany_loop n this readOne space in
      ret (x :: xs)
  end.

Definition __testlib_readMany {A} (this : StreamId) (readMany : bytes) (size indexBase : Z)
    (readOne : M A) (space : bool) : M (list A) :=
  if size <? 0 then noreturn (quit this _fail (readMany ++ $": size should be non-negative."))
  else if 100000000 <? size
  then noreturn (quit this _fail (readMany ++ $": size should be at most 100000000."))
  else
    do* modify_stream this (set_readManyIteration indexBase) in
    let* result := readMany_loop (Z.to_nat size) this readOne space in
    do* modify_stream this (set_readManyIteration NO_INDEX) in
    ret result.

Definition readWords (this : StreamId) (size indexBase : Z) : M (list bytes) :=
  __testlib_readMany this ($"readWords") size indexBase (readWord this) true.

Definition readTokens (this : StreamId) (size indexBase : Z) : M (list bytes) :=
  __testlib_readMany this ($"readTokens") size indexBase (readToken this) true.

Definition readWords_pattern (this : StreamId) (size : Z) (p : pattern) (variablesName : bytes)
    (indexBase : Z) : M (list bytes) :=
  do* note_variable this variablesName in
  __testlib_readMany this ($"readWords") size indexBase (readWord_pattern this p variablesName) true.

Definition readTokens_pattern (this : StreamId) (size : Z) (p : pattern) (variablesName : bytes)
    (indexBase : Z) : M (list bytes) :=
  do* note_variable this variablesName in
  __testlib_readMany this ($"readTokens") size indexBase (readWord_pattern this p variablesName) true.

Definition readWords_text (this : StreamId) (size : Z) (ptrn variablesName : bytes) (indexBase : Z)
  : M (list bytes) :=
  let* p := lift_exc (pattern_of ptrn) in
  readWords_pattern this size p variablesName indexBase.

Definition readTokens_text (this : StreamId) (size : Z) (ptrn variablesName : bytes) (indexBase : Z)
  : M (list bytes) :=
  let* p := lift_exc (pattern_of ptrn) in
  readTokens_pattern this size p variablesName indexBase.
