(* ===== verification/Numbers.v ===== *)
(** * Reading numbers and lines ([src/support/testlib.h], [InStream])

    Conversion of tokens to integers and doubles with the checks testlib makes
    on their spelling, the bounded and repeated readers built on them, and the
    line readers. *)

From Stdlib Require Import SpecFloat.
From S2P Require Import Prelude Text Doubles Readers Validator Streams World Pattern Reading.

(** ** Comparing an integer with its spelling *)

(** The loop over the decimal digits from the last; [None] is a read in front
    of the string. *)
Fixpoint equals_loop (fuel : nat) (integer : Z) (rs : bytes) : option bool :=
  match fuel with
  | O => None
  | S fuel =>
      if 0 <? integer then
        match rs with
        | [] => None
        | c :: rs => if char_to_int c =? 48 + Z.rem integer 10
                     then equals_loop fuel (Z.quot integer 10) rs else Some false
        end
      else Some (bool_decide (rs = []))
  end.

(** [equals(long long integer, const char *s)]. *)
Definition equals_ll (integer : Z) (s : bytes) : option bool :=
  if integer =? LLONG_MIN then Some (bool_decide (s = $"-9223372036854775808"))
  else if integer =? 0 then Some (bool_decide (s = $"0"))
  else match s with
       | [] => Some false
       | c :: s' =>
           if integer <? 0 then
             if bool_decide (c <> "-"%char) then Some false
             else if bool_decide (s' = []) then Some false
             else equals_loop (dec_fuel integer) (- integer) (reverse s')
           else equals_loop (dec_fuel integer) integer (reverse s)
       end.

(** [equals(unsigned long long integer, const char *s)]. *)
Definition equals_ull (integer : Z) (s : bytes) : option bool :=
  if integer =? ULLONG_MAX then Some (bool_decide (s = $"18446744073709551615"))
  else if integer =? 0 then Some (bool_decide (s = $"0"))
  else match s with
       | [] => Some false
       | _ => equals_loop (dec_fuel integer) integer (reverse s)
       end.

(** ** Doubles *)

Definition in_quit {A} (this : StreamId) (r : TResult) (msg : bytes) : M A :=
  noreturn (quit this r msg).

Definition expected_found (what buffer : bytes) : bytes :=
  $"Expected " ++ what ++ $", but " ++ quoted (__testlib_part buffer) ++ $" found".

Definition count (P : ascii -> bool) (s : bytes) : Z := zlen (base.filter (fun c => P c = true) s).

Definition is_char (d c : ascii) : bool := bool_decide (c = d).

Definition double_char (c : ascii) : bool :=
  is_digit c || is_char "."%char c || is_e c || is_sign c.

(** What [stringToDouble] decides about a C string: [None] is
    "Expected double". *)
Definition parse_double (buffer : bytes) : option double :=
  if negb (forallb double_char buffer) then None
  else if (count is_digit buffer =? 0) || (2 <? count (is_char "-"%char) buffer)
          || (2 <? count (is_char "+"%char) buffer) || (1 <? count (is_char "."%char) buffer)
          || (1 <? count is_e buffer)
  then None
  else
    let '(scanned, result, suffix) := sscanf_lf_s buffer in
    let empty := bool_decide (suffix = []) in
    if (scanned =? 1) || ((scanned =? 2) && empty) then
      if __testlib_isNaN result then None else Some result
    else None.

(** A token with a NUL byte is refused before the C string is looked at. *)
Definition refuse_nul (this : StreamId) (what buffer : bytes) : M unit :=
  when (bool_decide (zero ∈ buffer))
       (in_quit this _pe (expected_found what buffer ++ $" (it contains \0)")).

Definition stringToDouble (this : StreamId) (buffer : bytes) : M double :=
  do* refuse_nul this ($"double") buffer in
  match parse_double buffer with
  | Some result => ret result
  | None => in_quit this _pe (expected_found ($"double") buffer)
  end.

(** The position of the point strictly inside the text; [None] when a
    character there is neither a digit nor the only point. *)
Fixpoint point_loop (s : bytes) (i pointPos : Z) : option Z :=
  match s with
  | [] => Some pointPos
  | c :: s =>
      if is_char "."%char c
      then if -1 <? pointPos then None else point_loop s (i + 1) i
      else if is_digit c then point_loop s (i + 1) pointPos else None
  end.

Definition digit_at (buffer : bytes) (i : Z) : bool :=
  match znth buffer i with Some c => is_digit c | None => false end.

Inductive strict_result :=
| StrictOk (x : double)
| StrictBad (* "Expected strict double" *)
| StrictDigits (* wrong number of digits after the point *)
| StrictNotDouble (* "Expected double" *)
| StrictMinus. (* "Redundant minus" *)

Definition parse_strict_double (buffer : bytes) (minAfter maxAfter : Z) : strict_result :=
  let length := zlen buffer in
  if (length =? 0) || (1000 <? length) then StrictBad
  else if negb (bool_decide (znth buffer 0 = Some "-"%char)) && negb (digit_at buffer 0)
  then StrictBad
  else
    match point_loop (substr buffer 1 (length - 2)) 1 (-1) with
    | None => StrictBad
    | Some pointPos =>
        if negb (digit_at buffer (length - 1)) then StrictBad
        else
          let afterDigitsCount := if pointPos =? -1 then 0 else length - pointPos - 1 in
          if (afterDigitsCount <? minAfter) || (maxAfter <? afterDigitsCount) then StrictDigits
          else
            let firstDigitPos := count_while (fun c => negb (is_digit c)) buffer in
            if (1 <? firstDigitPos) || (firstDigitPos =? length) then StrictBad
            else if bool_decide (znth buffer firstDigitPos = Some "0"%char)
                    && (firstDigitPos + 1 <? length) && digit_at buffer (firstDigitPos + 1)
            then StrictBad
            else
              let '(scanned, result, suffix) := sscanf_lf_s buffer in
              let empty := bool_decide (suffix = []) in
              if (scanned =? 1) || ((scanned =? 2) && empty) then
                if __testlib_isNaN result || __testlib_isInfinite result then StrictNotDouble
                else if bool_decide (znth buffer 0 = Some "-"%char) && dle dzero result
                then StrictMinus else StrictOk result
              else StrictNotDouble
    end.

Definition stringToStrictDouble (this : StreamId) (buffer : bytes)
    (minAfterPointDigitCount maxAfterPointDigitCount : Z) : M double :=
  do* refuse_nul this ($"double") buffer in
  if minAfterPointDigitCount <? 0
  then in_quit this _fail ($"stringToStrictDouble: minAfterPointDigitCount should be non-negative.")
  else if maxAfterPointDigitCount <? minAfterPointDigitCount
  then in_quit this _fail ($"stringToStrictDouble: minAfterPointDigitCount should be less or equal to maxAfterPointDigitCount.")
  else
    match parse_strict_double buffer minAfterPointDigitCount maxAfterPointDigitCount with
    | StrictOk result => ret result
    | StrictBad => in_quit this _pe (expected_found ($"strict double") buffer)
    | StrictDigits =>
        in_quit this _pe ($"Expected strict double with number of digits after point in range ["
          ++ vtos minAfterPointDigitCount ++ $"," ++ vtos maxAfterPointDigitCount ++ $"], but "
          ++ quoted (__testlib_part buffer) ++ $" found")
    | StrictNotDouble => in_quit this _pe (expected_found ($"double") buffer)
    | StrictMinus =>
        in_quit this _pe ($"Redundant minus in " ++ quoted (__testlib_part buffer) ++ $" found")
    end.

(** ** Integers *)

(** The value of a string of digits, and [std::stoll] on an optional minus
    and digits: [None] is [std::out_of_range] or [std::invalid_argument]. *)
Definition digits_value (s : bytes) : Z :=
  foldl (fun acc c => acc * 10 + (char_to_int c - 48)) 0 s.

Definition stoll (s : bytes) : option Z :=
  let '(neg, digits) := match s with
                        | c :: s' => if is_char "-"%char c then (true, s') else (false, s)
                        | [] => (false, [])
                        end in
  if bool_decide (digits = []) then None
  else
    let v := digits_value digits in
    let v := if neg : bool then - v else v in
    if (v <? LLONG_MIN) || (LLONG_MAX <? v) then None else Some v.

Definition stoull (s : bytes) : option Z :=
  if bool_decide (s = []) then None
  else let v := digits_value s in if ULLONG_MAX <? v then None else Some v.

(** The loop of [stringToLongLong]: leading zeroes are counted, every
    character must be a digit. *)
Fixpoint zeroes_loop (s : bytes) (zeroes : Z) (processingZeroes : bool) : option Z :=
  match s with
  | [] => Some zeroes
  | c :: s =>
      let zero_here := is_char "0"%char c && processingZeroes in
      let zeroes := if zero_here then zeroes + 1 else zeroes in
      if is_digit c then zeroes_loop s zeroes zero_here else None
  end.

(** What [stringToLongLong] decides; [None] is "Expected integer". *)
Definition parse_int64 (buffer : bytes) : option Z :=
  let length := zlen buffer in
  if (length =? 0) || (20 <? length) then None
  else
    let has_minus := (1 <? length) && bool_decide (znth buffer 0 = Some "-"%char) in
    match zeroes_loop (if has_minus then zdrop 1 buffer else buffer) 0 true with
    | None => None
    | Some zeroes =>
        match stoll buffer with
        | None => None
        | Some result =>
            if ((0 <? zeroes) && (negb (result =? 0) || has_minus)) || (1 <? zeroes)
            then None else Some result
        end
    end.

Definition stringToLongLong (this : StreamId) (buffer : bytes) : M Z :=
  do* refuse_nul this ($"integer") buffer in
  match parse_int64 buffer with
  | Some result => ret result
  | None => in_quit this _pe (expected_found ($"integer") buffer)
  end.

Definition parse_uint64 (buffer : bytes) : option Z :=
  let length := zlen buffer in
  if (length =? 0) || (20 <? length) then None
  else if (1 <? length) && bool_decide (znth buffer 0 = Some "0"%char) then None
  else if negb (forallb is_digit buffer) then None
  else stoull buffer.

(** The overload on [std::string] is declared [long long]: its result is the
    64-bit pattern read as signed. *)
Definition stringToUnsignedLongLong (this : StreamId) (buffer : bytes) : M Z :=
  do* refuse_nul this ($"unsigned integer") buffer in
  match parse_uint64 buffer with
  | Some result => ret (swrap 64 result)
  | None => in_quit this _pe (expected_found ($"unsigned integer") buffer)
  end.

(** [if (!strict && seekEof()) quit(_unexpected_eof, ...)]. *)
Definition expect_more (this : StreamId) (what : bytes) : M unit :=
  let* s := stream this in
  if negb (strict s) then
    let* at_end := on_stream this seekEof in
    when at_end (in_quit this _unexpected_eof ($"Unexpected end of file - " ++ what ++ $" expected"))
  else ret tt.

Definition readInteger (this : StreamId) : M Z :=
  do* expect_more this ($"int32") in
  let* token := readWord this in
  let* value := stringToLongLong this token in
  if (value <? INT_MIN) || (INT_MAX <? value)
  then in_quit this _pe (expected_found ($"int32") token)
  else ret value.

Definition readInt (this : StreamId) : M Z := readInteger this.

Definition readLong (this : StreamId) : M Z :=
  do* expect_more this ($"int64") in
  let* token := readWord this in
  stringToLongLong this token.

(** Returned as [unsigned long long]. *)
Definition readUnsignedLong (this : StreamId) : M Z :=
  do* expect_more this ($"int64") in
  let* token := readWord this in
  let* value := stringToUnsignedLongLong this token in
  ret (uwrap 64 value).

(** ** Range checks *)

Definition range_message (kind variableName index result lo hi : bytes) (single : bool) : bytes :=
  let range := $" violates the range [" ++ lo ++ $", " ++ hi ++ $"]" in
  let noname := bool_decide (variableName = []) in
  if single then
    if noname then kind ++ $" " ++ result ++ range
    else kind ++ $" parameter [name=" ++ variableName ++ $"] equals to " ++ result ++ $"," ++ range
  else
    if noname then kind ++ $" element [index=" ++ index ++ $"] equals to " ++ result ++ $"," ++ range
    else kind ++ $" element " ++ variableName ++ $"[" ++ index ++ $"] equals to " ++ result
         ++ $"," ++ range.

Definition check_range (this : StreamId) (outside : bool) (kind variableName result lo hi : bytes)
  : M unit :=
  let* s := stream this in
  when outside (in_quit this _wa
    (range_message kind variableName (vtos (readManyIteration s)) result lo hi
                   (readManyIteration s =? NO_INDEX))).

Definition note_bounds (this : StreamId) (variableName : bytes) (hit : ValidatorBoundsHit)
    (lo hi : bytes) : M unit :=
  let* s := stream this in
  when (strict s && negb (bool_decide (variableName = []))) (
    do* on_validator (addBoundsHit variableName hit) in
    do* on_validator (adjustConstantBounds variableName lo hi) in
    on_validator (addVariable variableName)).

(** The integer readers with bounds: [readLong], [readUnsignedLong], [readInt]. *)
Definition read_bounded (this : StreamId) (read : M Z) (kind : bytes) (minv maxv : Z)
    (variableName : bytes) : M Z :=
  let* result := read in
  do* check_range this ((result <? minv) || (maxv <? result)) kind variableName (vtos result)
        (toHumanReadableString minv) (toHumanReadableString maxv) in
  do* note_bounds this variableName (BoundsHit (minv =? result) (maxv =? result))
        (vtos minv) (vtos maxv) in
  ret result.

Definition readLong_range (this : StreamId) (minv maxv : Z) (variableName : bytes) : M Z :=
  read_bounded this (readLong this) ($"Integer") minv maxv variableName.
Definition readUnsignedLong_range (this : StreamId) (minv maxv : Z) (variableName : bytes) : M Z :=
  read_bounded this (readUnsignedLong this) ($"Unsigned integer") minv maxv variableName.
Definition readInt_range (this : StreamId) (minv maxv : Z) (variableName : bytes) : M Z :=
  read_bounded this (readInt this) ($"Integer") minv maxv variableName.
Definition readInteger_range := readInt_range.

Definition many_named {A} (this : StreamId) (readMany : bytes) (size : Z) (variablesName : bytes)
    (indexBase : Z) (readOne : M A) : M (list A) :=
  do* note_variable this variablesName in
  __testlib_readMany this readMany size indexBase readOne true.

Definition readLongs_range this size minv maxv variablesName indexBase : M (list Z) :=
  many_named this ($"readLongs") size variablesName indexBase (readLong_range this minv maxv variablesName).
Definition readLongs this size indexBase : M (list Z) :=
  __testlib_readMany this ($"readLongs") size indexBase (readLong this) true.
Definition readUnsignedLongs_range this size minv maxv variablesName indexBase : M (list Z) :=
  many_named this ($"readUnsignedLongs") size variablesName indexBase
    (readUnsignedLong_range this minv maxv variablesName).
Definition readUnsignedLongs this size indexBase : M (list Z) :=
  __testlib_readMany this ($"readUnsignedLongs") size indexBase (readUnsignedLong this) true.
Definition readInts_range this size minv maxv variablesName indexBase : M (list Z) :=
  many_named this ($"readInts") size variablesName indexBase (readInt_range this minv maxv variablesName).
Definition readInts this size indexBase : M (list Z) :=
  __testlib_readMany this ($"readInts") size indexBase (readInt this) true.
Definition readIntegers_range this size minv maxv variablesName indexBase : M (list Z) :=
  many_named this ($"readIntegers") size variablesName indexBase (readInt_range this minv maxv variablesName).
Definition readIntegers this size indexBase : M (list Z) :=
  __testlib_readMany this ($"readIntegers") size indexBase (readInt this) true.

(** ** Reading doubles *)

Definition readReal (this : StreamId) : M double :=
  do* expect_more this ($"double") in
  let* word := readWord this in
  stringToDouble this word.

Definition readDouble (this : StreamId) : M double := readReal this.

Definition readReals (this : StreamId) (size indexBase : Z) : M (list double) :=
  __testlib_readMany this ($"readReals") size indexBase (readReal this) true.
Definition readDoubles (this : StreamId) (size indexBase : Z) : M (list double) :=
  __testlib_readMany this ($"readDoubles") size indexBase (readDouble this) true.

(** [vtos] of a floating value. *)
Definition vtos_double (x : double) : bytes := fmt_general x.

(** [ValidatorBoundsHit::EPS]. *)
Definition EPS : double := E (-12).

(** The real readers with bounds: [readReal], [readStrictReal]. *)
Definition read_bounded_real (this : StreamId) (read : M double) (kind : bytes) (minv maxv : double)
    (variableName : bytes) : M double :=
  let* result := read in
  do* check_range this (dlt result minv || dlt maxv result) kind variableName (vtos_double result)
        (vtos_double minv) (vtos_double maxv) in
  do* note_bounds this variableName
        (BoundsHit (dlt (doubleDelta minv result) EPS) (dlt (doubleDelta maxv result) EPS))
        (vtos_double minv) (vtos_double maxv) in
  ret result.

Definition readReal_range (this : StreamId) (minv maxv : double) (variableName : bytes) : M double :=
  read_bounded_real this (readReal this) ($"Double") minv maxv variableName.
Definition readDouble_range (this : StreamId) (minv maxv : double) (variableName : bytes) : M double :=
  readReal_range this minv maxv variableName.
Definition readReals_range this size minv maxv variablesName indexBase : M (list double) :=
  many_named this ($"readReals") size variablesName indexBase (readReal_range this minv maxv variablesName).
Definition readDoubles_range this size minv maxv variablesName indexBase : M (list double) :=
  many_named this ($"readDoubles") size variablesName indexBase (readDouble_range this minv maxv variablesName).

Definition read_strict (this : StreamId) (minAfterPointDigitCount maxAfterPointDigitCount : Z) : M double :=
  do* expect_more this ($"strict double") in
  let* word := readWord this in
  stringToStrictDouble this word minAfterPointDigitCount maxAfterPointDigitCount.

Definition readStrictReal (this : StreamId) (minv maxv : double)
    (minAfterPointDigitCount maxAfterPointDigitCount : Z) (variableName : bytes) : M double :=
  read_bounded_real this (read_strict this minAfterPointDigitCount maxAfterPointDigitCount)
    ($"Strict double") minv maxv variableName.
Definition readStrictDouble := readStrictReal.
Definition readStrictReals this size minv maxv minAfter maxAfter variablesName indexBase : M (list double) :=
  many_named this ($"readStrictReals") size variablesName indexBase
    (readStrictReal this minv maxv minAfter maxAfter variablesName).
Definition readStrictDoubles this size minv maxv minAfter maxAfter variablesName indexBase : M (list double) :=
  many_named this ($"readStrictDoubles") size variablesName indexBase
    (readStrictDouble this minv maxv minAfter maxAfter variablesName).

(** ** Lines *)

(** The loop of [readStringTo]; a carriage return that no line feed follows is
    dropped and the character after it is taken whatever it is. *)
Fixpoint line_loop (fuel : nat) (this : StreamId) (result : bytes) : M bytes :=
  match fuel with
  | O => stuck
  | S fuel =>
      let* cur := on_stream this reader_curChar in
      if (cur =? LF) || (cur =? EOFC) then ret result
      else
        let take : M bytes :=
          do* on_stream1 this note_line in
          let* c := on_stream this reader_nextChar in
          line_loop fuel this (result ++ [int_to_char c]) in
        if cur =? CR then
          let* cur := on_stream this reader_nextChar in
          let* next := on_stream this reader_curChar in
          if next =? LF
          then do* on_stream1 this (reader_unreadChar cur) in ret result
          else take
        else take
  end.

Definition readEoln (this : StreamId) : M unit :=
  do* on_stream1 this note_line in
  let* ok := on_stream this eoln in
  when (negb ok) (in_quit this _pe ($"Expected EOLN")).

Definition readEof (this : StreamId) : M unit :=
  do* on_stream1 this note_line in
  let* ok := on_stream this eof in
  do* when (negb ok) (in_quit this _pe ($"Expected EOF")) in
  modify (fun w => if alive w && bool_decide (this = INF)
                   then put_readEofCount (readEofCount w + 1) w else w).

(** [readStringTo(result)], also [readLineTo]. *)
Definition readStringTo (this : StreamId) : M bytes :=
  let* s := stream this in
  do* when (bool_decide (reader s = None)) (in_quit this _pe ($"Expected line")) in
  let* result := line_loop (S (stream_fuel s)) this [] in
  do* (if strict s then readEoln this else let* _ := on_stream this eoln in ret tt) in
  ret result.

(** [readString()] and [readLine()]. *)
Definition readString (this : StreamId) : M bytes :=
  let* result := readStringTo this in
  do* modify_stream this (set_tmpReadToken result) in
  ret result.

Definition readLine (this : StreamId) : M bytes := readString this.
Definition nextLine (this : StreamId) : M unit := let* _ := readLine this in ret tt.

Definition readStrings (this : StreamId) (size indexBase : Z) : M (list bytes) :=
  __testlib_readMany this ($"readStrings") size indexBase (readString this) false.
Definition readLines (this : StreamId) (size indexBase : Z) : M (list bytes) :=
  __testlib_readMany this ($"readLines") size indexBase (readString this) false.

(** [readStringTo(result, p, variableName)], also [readString]/[readLine] with
    a pattern. *)
Definition readString_pattern (this : StreamId) (p : pattern) (variableName : bytes) : M bytes :=
  let* result := readStringTo this in
  let* s := stream this in
  let line := quoted (__testlib_part result) in
  let index := vtos (readManyIteration s) in
  do* (if matches p result then ret tt
       else in_quit this _wa
         (if readManyIteration s =? NO_INDEX then
            if bool_decide (variableName = [])
            then $"Line " ++ line ++ $" doesn't correspond to pattern " ++ quoted (src p)
            else $"Line [name=" ++ variableName ++ $"] equals to " ++ line
                 ++ $", doesn't correspond to pattern " ++ quoted (src p)
          else
            if bool_decide (variableName = [])
            then $"Line element [index=" ++ index ++ $"] equals to " ++ line
                 ++ $" doesn't correspond to pattern " ++ quoted (src p)
            else $"Line element " ++ variableName ++ $"[" ++ index ++ $"] equals to " ++ line
                 ++ $", doesn't correspond to pattern " ++ quoted (src p))) in
  do* note_variable this variableName in
  do* modify_stream this (set_tmpReadToken result) in
  ret result.

Definition readString_text (this : StreamId) (ptrn variableName : bytes) : M bytes :=
  let* p := lift_exc (pattern_of ptrn) in readString_pattern this p variableName.

Definition readLine_pattern := readString_pattern.
Definition readLine_text := readString_text.

Definition readStrings_pattern (this : StreamId) (size : Z) (p : pattern) (variablesName : bytes)
    (indexBase : Z) : M (list bytes) :=
  do* note_variable this variablesName in
  __testlib_readMany this ($"readStrings") size indexBase (readString_pattern this p variablesName) false.

Definition readLines_pattern (this : StreamId) (size : Z) (p : pattern) (variablesName : bytes)
    (indexBase : Z) : M (list bytes) :=
  do* note_variable this variablesName in
  __testlib_readMany this ($"readLines") size indexBase (readString_pattern this p variablesName) false.

Definition readStrings_text (this : StreamId) (size : Z) (ptrn variablesName : bytes) (indexBase : Z)
  : M (list bytes) :=
  let* p := lift_exc (pattern_of ptrn) in readStrings_pattern this size p variablesName indexBase.

Definition readLines_text (this : StreamId) (size : Z) (ptrn variablesName : bytes) (indexBase : Z)
  : M (list bytes) :=
  let* p := lift_exc (pattern_of ptrn) in readLines_pattern this size p variablesName indexBase.

(** ** Assertions *)

Definition stream_ensure (this : StreamId) (cond : bool) (message : bytes) : M unit :=
  when (negb cond) (in_quit this _wa message).

Definition stream_ensuref (this : StreamId) (cond : bool) (format : bytes) (args : list farg) : M unit :=
  when (negb cond) (stream_ensure this cond (testlib_format_ format args)).

Definition __testlib_ensure (cond : bool) (msg : bytes) : M unit :=
  when (negb cond) (noreturn (gquit _fail msg)).

Definition ensuref (cond : bool) (format : bytes) (args : list farg) : M unit :=
  when (negb cond) (__testlib_ensure cond (testlib_format_ format args)).
