(* ===== verification/Register.v ===== *)
(** * Registration, finalization and a whole run ([src/support/testlib.h])

    The [register...] functions of checkers, validators, interactors and
    scorers, the points functions, and what happens when the process ends: the
    destructor of [TestlibFinalizeGuard] with the validator's logs.
    [run_program] composes a [main] with that destructor.  Command lines are
    lists of C strings whose length is [argc]. *)

From Stdlib Require Import SpecFloat.
From S2P Require Import Prelude Text Doubles Readers Validator Streams World Pattern Reading Numbers.

(** ** Preconditions *)

(** The static assertions hold on the target; the run-time checks are those of
    [__testlib_isNaN]. *)
Definition __testlib_nan : double := S754_nan.

Definition __testlib_ensuresPreconditions : M unit :=
  let broken := $"Function __testlib_isNaN is not working correctly: possible reason is '-ffast-math'" in
  do* when (negb (__testlib_isNaN __testlib_nan)) (noreturn (gquit _fail broken)) in
  when (negb (__testlib_isNaN (SFopp __testlib_nan))) (noreturn (gquit _fail broken)).

Definition no_test_groups_message : bytes :=
  $"Expected non-empty testset after --testset command line parameter".

(** The options in front of which a value is expected.  [args] is
    [argv[1..]]. *)
Fixpoint __testlib_set_testset_and_group (args : list bytes) : M unit :=
  match args with
  | [] => ret tt
  | a :: rest =>
      if bool_decide (a = $"--testset") then
        match rest with
        | v :: rest' =>
            if 0 <? zlen v
            then do* modify (put_testlib_testset v) in __testlib_set_testset_and_group rest'
            else noreturn (gquit _fail no_test_groups_message)
        | [] => noreturn (gquit _fail no_test_groups_message)
        end
      else if bool_decide (a = $"--group") then
        match rest with
        | v :: rest' => do* modify (put_testlib_group v) in __testlib_set_testset_and_group rest'
        | [] => noreturn (gquit _fail ($"Expected group after --group command line parameter"))
        end
      else __testlib_set_testset_and_group rest
  end.

Definition getTestset : M bytes := gets __testlib_testset.
Definition getGroup : M bytes := gets __testlib_group.

Definition VERSION : bytes := $"0.9.45".

(** [latestFeatures]; an at sign stands for a double quote. *)
Definition at_quotes (s : bytes) : bytes :=
  map (fun c => if bool_decide (c = "@"%char) then "034"%char else c) s.

Definition latestFeatures : list bytes :=
  map (fun s => at_quotes (list_ascii_of_string s))
  [ "Remove incorrect const attributes";
    "Added ConstantBoundsLog, VariablesLog to validator testOverviewLogFile";
    "Use setAppesModeEncoding to change xml encoding from windows-1251 to other";
    "rnd.any/wany use distance/advance instead of -/+: now they support sets/multisets";
    "Use syntax `int t = inf.readInt(1, 3, @~t@);` to skip the lower bound check. Tildes can be used on either side or both: ~t, t~, ~t~";
    "Supported EJUDGE support in registerTestlibCmd";
    "Supported '--testMarkupFileName fn' and '--testCase tc/--testCaseFileName fn' for validators";
    "Added opt defaults via opt<T>(key/index, default_val); check unused opts when using has_opt or default opt (turn off this check with suppressEnsureNoUnusedOpt()).";
    "For checker added --group and --testset command line params (like for validator), use checker.group() or checker.testset() to get values";
    "Added quitpi(points_info, message) function to return with _points exit code 7 and given points_info";
    "rnd.partition(size, sum[, min_part=1]) returns random (unsorted) partition which is a representation of the given `sum` as a sum of `size` positive integers (or >=min_part if specified)";
    "rnd.distinct(size, n) and rnd.distinct(size, from, to)";
    "opt<bool>(@some_missing_key@) returns false now";
    "has_opt(key)";
    "Abort validator on validator.testset()/validator.group() if registered without using command line";
    "Print integer range violations in a human readable way like `violates the range [1, 10^9]`";
    "Opts supported: use them like n = opt<int>(@n@), in a command line you can use an exponential notation";
    "Reformatted";
    "Use setTestCase(i) or unsetTestCase() to support test cases (you can use it in any type of program: generator, interactor, validator or checker)";
    "Fixed issue #87: readStrictDouble accepts @-0.00@";
    "Fixed issue #83: added InStream::quitif(condition, ...)";
    "Fixed issue #79: fixed missed guard against repeated header include";
    "Fixed issue #80: fixed UB in case of huge quitf message";
    "Fixed issue #84: added readXs(size, indexBase = 1)";
    "Fixed stringstream repeated usage issue";
    "Fixed compilation in g++ (for std=c++03)";
    "Batch of println functions (support collections, iterator ranges)";
    "Introduced rnd.perm(size, first = 0) to generate a `first`-indexed permutation";
    "Allow any whitespace in readInts-like functions for non-validators";
    "Ignore 4+ command line arguments ifdef EJUDGE";
    "Speed up of vtos";
    "Show line number in validators in case of incorrect format";
    "Truncate huge checker/validator/interactor message";
    "Fixed issue with readTokenTo of very long tokens, now aborts with _pe/_fail depending of a stream type";
    "Introduced InStream::ensure/ensuref checking a condition, returns wa/fail depending of a stream type";
    "Fixed compilation in VS 2015+";
    "Introduced space-separated read functions: readWords/readTokens, multilines read functions: readStrings/readLines";
    "Introduced space-separated read functions: readInts/readIntegers/readLongs/readUnsignedLongs/readDoubles/readReals/readStrictDoubles/readStrictReals";
    "Introduced split/tokenize functions to separate string by given char";
    "Introduced InStream::readUnsignedLong and InStream::readLong with unsigned long long parameters";
    "Supported --testOverviewLogFileName for validator: bounds hits + features";
    "Fixed UB (sequence points) in random_t";
    "POINTS_EXIT_CODE returned back to 7 (instead of 0)";
    "Removed disable buffers for interactive problems, because it works unexpectedly in wine";
    "InStream over string: constructor of InStream from base InStream to inherit policies and std::string";
    "Added expectedButFound quit function, examples: expectedButFound(_wa, 10, 20), expectedButFound(_fail, ja, pa, @[n=%d,m=%d]@, n, m)";
    "Fixed incorrect interval parsing in patterns";
    "Use registerGen(argc, argv, 1) to develop new generator, use registerGen(argc, argv, 0) to compile old generators (originally created for testlib under 0.8.7)";
    "Introduced disableFinalizeGuard() to switch off finalization checkings";
    "Use join() functions to format a range of items as a single string (separated by spaces or other separators)";
    "Use -DENABLE_UNEXPECTED_EOF to enable special exit code (by default, 8) in case of unexpected eof. It is good idea to use it in interactors";
    "Use -DUSE_RND_AS_BEFORE_087 to compile in compatibility mode with random behavior of versions before 0.8.7";
    "Fixed bug with nan in stringToDouble";
    "Fixed issue around overloads for size_t on x64";
    "Added attribute 'points' to the XML output in case of result=_points";
    "Exit codes can be customized via macros, e.g. -DPE_EXIT_CODE=14";
    "Introduced InStream function readWordTo/readTokenTo/readStringTo/readLineTo for faster reading";
    "Introduced global functions: format(), englishEnding(), upperCase(), lowerCase(), compress()";
    "Manual buffer in InStreams, some IO speed improvements";
    "Introduced quitif(bool, const char* pattern, ...) which delegates to quitf() in case of first argument is true";
    "Introduced guard against missed quitf() in checker or readEof() in validators";
    "Supported readStrictReal/readStrictDouble - to use in validators to check strictly float numbers";
    "Supported registerInteraction(argc, argv)";
    "Print checker message to the stderr instead of stdout";
    "Supported TResult _points to output calculated score, use quitp(...) functions";
    "Fixed to be compilable on Mac";
    "PC_BASE_EXIT_CODE=50 in case of defined TESTSYS";
    "Fixed issues 19-21, added __attribute__ format printf";
    "Some bug fixes";
    "ouf.readInt(1, 100) and similar calls return WA";
    "Modified random_t to avoid integer overflow";
    "Truncated checker output [patch by Stepan Gatilov]";
    "Renamed class random -> class random_t";
    "Supported name parameter for read-and-validation methods, like readInt(1, 2, @n@)";
    "Fixed bug in readDouble()";
    "Improved ensuref(), fixed nextLine to work in case of EOF, added startTest()";
    "Supported @partially correct@, example: quitf(_pc(13), @result=%d@, result)";
    "Added shuffle(begin, end), use it instead of random_shuffle(begin, end)";
    "Added readLine(const string& ptrn), fixed the logic of readLine() in the validation mode";
    "Package extended with samples of generators and validators";
    "Written the documentation for classes and public methods in testlib.h";
    "Implemented random routine to support generators, use registerGen() to switch it on";
    "Implemented strict mode to validate tests, use registerValidation() to switch it on";
    "Now ncmp.cpp and wcmp.cpp are return WA if answer is suffix or prefix of the output";
    "Added InStream::readLong() and removed InStream::readLongint()";
    "Now no footer added to each report by default (use directive FOOTER to switch on)";
    "Now every checker has a name, use setName(const char* format, ...) to set it";
    "Now it is compatible with TTS (by Kittens Computing)";
    "Added 'ensure(condition, message = @@)' feature, it works like assert()";
    "Fixed compatibility with MS C++ 7.1";
    "Added footer with exit code information";
    "Added compatibility with EJUDGE (compile with EJUDGE directive)";
    "Added compatibility with Contester (compile with CONTESTER directive)" ]%string.

(** [__testlib_help()]. *)
Definition __testlib_help (w : World) : halted :=
  let w := textColor LightCyan w in
  let w := eprint ($"TESTLIB " ++ VERSION ++ $", https://github.com/MikeMirzayanov/testlib/ ") w in
  let w := eprint ($"by Mike Mirzayanov, copyright(c) 2005-2020" ++ newline) w in
  let w := eprint ($"Checker name: " ++ quoted (c_str (checkerName w)) ++ newline) w in
  let w := textColor LightGray w in
  let w := eprint (newline ++ $"Latest features: " ++ newline) w in
  let w := eprint (mbind (fun f => $"*) " ++ f ++ newline) latestFeatures) w in
  let w := eprint (newline ++ $"Program must be run with the following arguments: " ++ newline) w in
  let w := eprint ($"    [--testset testset] [--group group] <input-file> <output-file> <answer-file> [<report-file> [<-appes>]]"
                   ++ newline ++ newline) w in
  halt FAIL_EXIT_CODE w.

(** ** Checkers *)

Definition set_checker (f : Checker -> Checker) : M unit :=
  modify (fun w => put_checker (f (checker w)) w).
Definition initialize (c : Checker) : Checker := MkChecker true (c_testset c) (c_group c).
Definition setTestset (v : bytes) (c : Checker) : Checker := MkChecker (c_initialized c) v (c_group c).
Definition setGroup (v : bytes) (c : Checker) : Checker := MkChecker (c_initialized c) (c_testset c) v.

Definition checker_testset : M bytes :=
  let* c := gets checker in
  if c_initialized c then ret (c_testset c)
  else noreturn (__testlib_fail ($"Checker should be initialized with registerTestlibCmd(argc, argv) instead of registerTestlibCmd() to support checker.testset()")).
Definition checker_group : M bytes :=
  let* c := gets checker in
  if c_initialized c then ret (c_group c)
  else noreturn (__testlib_fail ($"Checker should be initialized with registerTestlibCmd(argc, argv) instead of registerTestlibCmd() to support checker.group()")).

(** The loop that takes the two options out of the command line. *)
Fixpoint checker_args (args : list bytes) : M (list bytes) :=
  match args with
  | [] => ret []
  | a :: rest =>
      if bool_decide (a = $"--testset") then
        match rest with
        | v :: rest' =>
            if 0 <? zlen v then do* set_checker (setTestset v) in checker_args rest'
            else noreturn (gquit _fail ($"Expected testset after --testset command line parameter"))
        | [] => noreturn (gquit _fail ($"Expected testset after --testset command line parameter"))
        end
      else if bool_decide (a = $"--group") then
        match rest with
        | v :: rest' => do* set_checker (setGroup v) in checker_args rest'
        | [] => noreturn (gquit _fail ($"Expected group after --group command line parameter"))
        end
      else let* others := checker_args rest in ret (a :: others)
  end.

Definition usage_report : bytes :=
  $"Program must be run with the following arguments: <input-file> <output-file> <answer-file> [<report-file> [<-appes>]]".

Definition usage_checker : bytes :=
  $"Program must be run with the following arguments: [--testset testset] [--group group] <input-file> <output-file> <answer-file> [<report-file> [<-appes>]]"
  ++ newline ++ $"Use " ++ quoted ($"--help") ++ $" to get help information".

Definition is_appes (a : bytes) : bool :=
  bool_decide (a = $"-APPES") || bool_decide (a = $"-appes").

Definition set_result (file : bytes) (appes : bool) : M unit :=
  modify (fun w => put_appesMode appes (put_resultName file w)).

(** [registerTestlibCmd(argc, argv)] with [argv = argv0 :: args].  A null
    [argv0] ends the process: a [std::string] is built from it. *)
Definition registerTestlibCmd (argv0 : option bytes) (args : list bytes)
  : M unit :=
  do* __testlib_ensuresPreconditions in
  do* __testlib_set_testset_and_group args in
  do* modify (put_registered true) in
  do* modify (put_testlibMode _checker) in
  match argv0 with
  | None => stuck
  | Some _ =>
      do* set_checker initialize in
      let* args := checker_args args in
      do* (if bool_decide (head args = Some ($"--help"))
           then noreturn (__testlib_help) else ret tt) in
      let* (files, report) :=
        match args with
        | [i; o; a] => ret ((i, o, a), ([], false))
        | [i; o; a; r] => ret ((i, o, a), (r, false))
        | [i; o; a; r; m] =>
            if is_appes m then ret ((i, o, a), (r, true)) else noreturn (gquit _fail usage_report)
        | _ => noreturn (gquit _fail usage_checker)
        end in
      let '(input, output, answer) := files in
      do* set_result (fst report) (snd report) in
      do* init INF input _input in
      do* init OUF output _output in
      do* on_stream1 OUF skipBom in
      init ANS answer _answer
  end.

(** [registerTestlib(argc, ...)] passes a null [argv[0]]. *)
Definition registerTestlib (args : list bytes) : M unit :=
  if (zlen args <? 3) || (5 <? zlen args) then noreturn (gquit _fail usage_report)
  else registerTestlibCmd None args.

Definition setName (format : bytes) (args : list farg) : M unit :=
  modify (put_checkerName (testlib_format_ format args)).

(** ** Validators *)

Definition registerValidation : M unit :=
  do* __testlib_ensuresPreconditions in
  do* modify (put_registered true) in
  do* modify (put_testlibMode _validator) in
  do* init_stdin INF _input in
  modify_stream INF (set_strict true).

Definition validator_usage : bytes :=
  $"Validator must be run with the following arguments: [--testset testset] [--group group] [--testOverviewLogFileName fileName] [--testMarkupFileName fileName] [--testCase testCase] [--testCaseFileName fileName]".

Definition __TESTLIB_MAX_TEST_CASE : Z := 1073741823.

(** The setters of [Validator]. *)
Definition v_initialize v := set_options true (_testset v) (_group v)
  (_testOverviewLogFileName v) (_testMarkupFileName v) (_testCase v) (_testCaseFileName v) v.
Definition v_setTestset x v := set_options (_initialized v) x (_group v)
  (_testOverviewLogFileName v) (_testMarkupFileName v) (_testCase v) (_testCaseFileName v) v.
Definition v_setGroup x v := set_options (_initialized v) (_testset v) x
  (_testOverviewLogFileName v) (_testMarkupFileName v) (_testCase v) (_testCaseFileName v) v.
Definition v_setTestOverviewLogFileName x v := set_options (_initialized v) (_testset v) (_group v)
  x (_testMarkupFileName v) (_testCase v) (_testCaseFileName v) v.
Definition v_setTestMarkupFileName x v := set_options (_initialized v) (_testset v) (_group v)
  (_testOverviewLogFileName v) x (_testCase v) (_testCaseFileName v) v.
Definition v_setTestCase x v := set_options (_initialized v) (_testset v) (_group v)
  (_testOverviewLogFileName v) (_testMarkupFileName v) x (_testCaseFileName v) v.
Definition v_setTestCaseFileName x v := set_options (_initialized v) (_testset v) (_group v)
  (_testOverviewLogFileName v) (_testMarkupFileName v) (_testCase v) x v.

Definition validator_option (a v : bytes) : option (M unit) :=
  if bool_decide (a = $"--testset") then
    Some (if 0 <? zlen v then on_validator (v_setTestset v) else noreturn (gquit _fail validator_usage))
  else if bool_decide (a = $"--group") then Some (on_validator (v_setGroup v))
  else if bool_decide (a = $"--testOverviewLogFileName")
  then Some (on_validator (v_setTestOverviewLogFileName v))
  else if bool_decide (a = $"--testMarkupFileName") then Some (on_validator (v_setTestMarkupFileName v))
  else if bool_decide (a = $"--testCase") then
    Some (let* testCase := stringToLongLong INF v in
          if (testCase <? 1) || (__TESTLIB_MAX_TEST_CASE <=? testCase)
          then noreturn (gquit _fail
                 (testlib_format_ ($"Argument testCase should be between 1 and %d, but ")
                    [FInt __TESTLIB_MAX_TEST_CASE] ++ vtos testCase ++ $" found"))
          else on_validator (v_setTestCase testCase))
  else if bool_decide (a = $"--testCaseFileName") then Some (on_validator (v_setTestCaseFileName v))
  else None.

(** The tests of one round of the loop are a sequence of [if]s on [argv[i]],
    and [++i] makes the later ones look at the value just taken.  [a] is the
    current argument, [rest] what follows; the list holds the option names
    still to be compared. *)
Fixpoint validator_round (options : list bytes) (a : bytes) (rest : list bytes)
  : M (list bytes) :=
  match options with
  | [] => ret rest
  | o :: options =>
      if bool_decide (a = o) then
        match rest with
        | v :: rest' =>
            do* default (ret tt) (validator_option o v) in
            validator_round options v rest'
        | [] => noreturn (gquit _fail validator_usage)
        end
      else validator_round options a rest
  end.

Definition validator_options : list bytes :=
  [ $"--testset"; $"--group"; $"--testOverviewLogFileName"; $"--testMarkupFileName";
    $"--testCase"; $"--testCaseFileName" ].

Fixpoint validator_args (fuel : nat) (args : list bytes) : M unit :=
  match fuel, args with
  | _, [] => ret tt
  | O, _ => stuck
  | S fuel, a :: rest =>
      let* rest := validator_round validator_options a rest in
      validator_args fuel rest
  end.

(** [registerValidation(argc, argv)]. *)
Definition registerValidation_cmd (args : list bytes) : M unit :=
  do* registerValidation in
  do* __testlib_set_testset_and_group args in
  do* on_validator v_initialize in
  do* modify (put_registered true) in
  validator_args (length args) args.

(** [validator.testset()] and [validator.group()]. *)
Definition validator_not_initialized (what : bytes) : bytes :=
  $"Validator should be initialized with registerValidation(argc, argv) instead of registerValidation() to support validator."
  ++ what ++ $"()".
Definition validator_testset : M bytes :=
  let* v := gets validator in
  if _initialized v then ret (_testset v)
  else noreturn (__testlib_fail (validator_not_initialized ($"testset"))).
Definition validator_group : M bytes :=
  let* v := gets validator in
  if _initialized v then ret (_group v)
  else noreturn (__testlib_fail (validator_not_initialized ($"group"))).

Definition lift_validator (f : Validator -> bytes + Validator) : M unit :=
  let* v := gets validator in
  let* v := lift_exc (f v) in
  modify (put_validator v).

Definition addFeature (feature : bytes) : M unit :=
  let* m := gets testlibMode in
  do* when (negb (bool_decide (m = _validator)))
        (noreturn (gquit _fail ($"Features are supported in validators only."))) in
  lift_validator (Validator.addFeature feature).

Definition feature (feature : bytes) : M unit :=
  let* m := gets testlibMode in
  do* when (negb (bool_decide (m = _validator)))
        (noreturn (gquit _fail ($"Features are supported in validators only."))) in
  lift_validator (Validator.feature feature).

(** ** Interactors *)

Definition usage_interactor : bytes :=
  $"Program must be run with the following arguments: <input-file> <output-file> [<answer-file> [<report-file> [<-appes>]]]"
  ++ newline ++ $"Use " ++ quoted ($"--help") ++ $" to get help information".

(** [tout.open(file, out)] truncates the file. *)
Definition open_tout (file : bytes) : M unit :=
  let* ok := gets (fun w => can_write (env w) file) in
  if ok then do* modify (put_file file []) in modify (put_tout_open true)
  else noreturn (gquit _fail ($"Can not write to the test-output-file '" ++ file ++ $"'")).

Definition registerInteraction (args : list bytes) : M unit :=
  do* __testlib_ensuresPreconditions in
  do* __testlib_set_testset_and_group args in
  do* modify (put_registered true) in
  do* modify (put_testlibMode _interactor) in
  do* (if bool_decide (head args = Some ($"--help"))
       then noreturn (__testlib_help) else ret tt) in
  let* (files, report) :=
    match args with
    | [i; o] => ret ((i, o, None), ([], false))
    | [i; o; a] => ret ((i, o, Some a), ([], false))
    | [i; o; a; r] => ret ((i, o, Some a), (r, false))
    | [i; o; a; r; m] =>
        if is_appes m then ret ((i, o, Some a), (r, true)) else noreturn (gquit _fail usage_report)
    | _ => noreturn (gquit _fail usage_interactor)
    end in
  let '(input, output, answer) := files in
  do* set_result (fst report) (snd report) in
  do* init INF input _input in
  do* open_tout output in
  do* init_stdin OUF _output in
  match answer with
  | Some a => init ANS a _answer
  | None => modify_stream ANS (set_name ($"unopened answer stream"))
  end.

(** ** Scorers: [registerScorer] *)

Definition registerScorer : M unit :=
  do* __testlib_ensuresPreconditions in
  do* modify (put_testlibMode _scorer) in
  do* init_stdin INF _input in
  modify_stream INF (set_strict false).

(** ** Test cases *)

Definition unsetTestCase : M unit :=
  modify (fun w => put_testlib_testCase (-1) (put_testlib_hasTestCase false w)).

(** [InStream::setTestCase]; [this != &inf] is the test on the identity. *)
Definition stream_setTestCase (this : StreamId) (testCase : Z) : M unit :=
  let* s := stream this in
  let* m := gets testlibMode in
  if negb (bool_decide (m = _validator)) || negb (bool_decide (mode s = _input))
     || negb (stdfile s) || negb (bool_decide (this = INF))
  then noreturn (__testlib_fail ($"InStream::setTestCase can be used only for inf in validator-mode."
                                 ++ $" Actually, prefer setTestCase function instead of InStream member"))
  else on_stream1 this (with_reader1 (rd_setTestCase testCase)).

Definition setTestCase (testCase : Z) : M unit :=
  let* first := gets first_run in
  do* when (first && (testCase =? 0)) (modify (put_zero_based true)) in
  let* zero := gets zero_based in
  let testCase := if zero : bool then testCase + 1 else testCase in
  do* modify (put_testlib_hasTestCase true) in
  do* modify (put_testlib_testCase testCase) in
  let* m := gets testlibMode in
  do* when (bool_decide (m = _validator)) (stream_setTestCase INF testCase) in
  modify (put_first_run false).

(** ** Points *)

Definition __testlib_preparePoints (points : double) : M double :=
  if __testlib_isNaN points then noreturn (gquit _fail ($"Parameter 'points' can't be nan"))
  else if __testlib_isInfinite points
  then noreturn (gquit _fail ($"Parameter 'points' can't be infinite"))
  else if dlt points (decimal true 1 (-8))
  then noreturn (gquit _fail ($"Parameter 'points' can't be negative"))
  else
    let points := if dle points (S754_zero false) then S754_zero false else points in
    if dlt (dadd (E 6) (E (-8))) points
    then noreturn (gquit _fail ($"Parameter 'points' can't be greater than 1E6"))
    else ret (if dle (E 6) points then E 6 else points).

Definition quit_points (stringPoints message : bytes) : M unit :=
  noreturn (gquit _points
    (if zlen (c_str message) =? 0 then stringPoints else stringPoints ++ $" " ++ c_str message)).

(** [__testlib_quitp(double, message)], reached from every floating-point
    [quitp]. *)
Definition quitp (points : double) (message : bytes) : M unit :=
  let* points := __testlib_preparePoints points in
  do* modify (put_testlib_points points) in
  quit_points (removeDoubleTrailingZeroes (testlib_format_ ($"%.10f") [FDbl points])) message.

(** [__testlib_quitp(int, message)]. *)
Definition quitp_int (points : Z) (message : bytes) : M unit :=
  let* p := __testlib_preparePoints (double_of_Z points) in
  do* modify (put_testlib_points p) in
  quit_points (testlib_format_ ($"%d") [FInt points]) message.

Definition quitpi (points_info message : bytes) : M unit :=
  do* when (bool_decide (" "%char ∈ points_info))
        (noreturn (gquit _fail ($"Parameter 'points_info' can't contain spaces"))) in
  noreturn (gquit _points
    (c_str (if bool_decide (message = []) then $"points_info=" ++ points_info
            else $"points_info=" ++ points_info ++ $" " ++ message))).

(** ** [expectedButFound] *)

Definition expectedButFound (result : TResult) (expected found prepend : bytes) : M unit :=
  noreturn (gquit result
    (if negb (zlen (c_str prepend) =? 0)
     then testlib_format_ ($"%s: expected '%s', but found '%s'")
            [FStr (compress prepend); FStr (compress expected); FStr (compress found)]
     else testlib_format_ ($"expected '%s', but found '%s'")
            [FStr (compress expected); FStr (compress found)])).

Definition expectedButFound_double (result : TResult) (expected found : double) (prepend : bytes)
  : M unit :=
  let show x := removeDoubleTrailingZeroes (testlib_format_ ($"%.12f") [FDbl x]) in
  expectedButFound result (show expected) (show found) prepend.

Definition expectedButFound_int (result : TResult) (expected found : Z) (prepend : bytes) : M unit :=
  expectedButFound result (vtos expected) (vtos found) prepend.

(** ** Encoding of the report *)

Definition ENCODINGS : list bytes :=
  map list_ascii_of_string
  [ "ascii"; "utf-7"; "utf-8"; "utf-16"; "utf-16le"; "utf-16be"; "utf-32"; "utf-32le"; "utf-32be";
    "iso-8859-1"; "iso-8859-2"; "iso-8859-3"; "iso-8859-4"; "iso-8859-5"; "iso-8859-6"; "iso-8859-7";
    "iso-8859-8"; "iso-8859-9"; "iso-8859-10"; "iso-8859-11"; "iso-8859-13"; "iso-8859-14";
    "iso-8859-15"; "iso-8859-16"; "windows-1250"; "windows-1251"; "windows-1252"; "windows-1253";
    "windows-1254"; "windows-1255"; "windows-1256"; "windows-1257"; "windows-1258"; "gb2312"; "gbk";
    "gb18030"; "big5"; "shift-jis"; "euc-jp"; "euc-kr"; "euc-cn"; "euc-tw"; "koi8-r"; "koi8-u";
    "tis-620"; "ibm437"; "ibm850"; "ibm852"; "ibm855"; "ibm857"; "ibm860"; "ibm861"; "ibm862";
    "ibm863"; "ibm865"; "ibm866"; "ibm869"; "macroman"; "maccentraleurope"; "maciceland";
    "maccroatian"; "macromania"; "maccyrillic"; "macukraine"; "macgreek"; "macturkish"; "machebrew";
    "macarabic"; "macthai"; "hz-gb-2312"; "iso-2022-jp"; "iso-2022-kr"; "iso-2022-cn"; "armscii-8";
    "tscii"; "iscii"; "viscii"; "geostd8"; "cp949"; "cp874"; "cp1006"; "cp775"; "cp858"; "cp737";
    "cp853"; "cp856"; "cp922"; "cp1046"; "cp1125"; "cp1131"; "ptcp154"; "koi8-t"; "koi8-ru";
    "mulelao-1"; "cp1133"; "iso-ir-166"; "tcvn"; "iso-ir-14"; "iso-ir-87"; "iso-ir-159" ]%string.

Definition setAppesModeEncoding (encoding : bytes) : M unit :=
  let encoding := lowerCase encoding in
  do* when (negb (existsb (fun e => bool_decide (encoding = e)) ENCODINGS))
        (noreturn (gquit _fail ($"Unexpected encoding for setAppesModeEncoding(encoding)"))) in
  modify (put_appesModeEncoding encoding).

(** ** The end of the process *)

Definition finalize_step : Type := World -> halted + World.

(** [ensureNoUnusedOpts]: the keys in the order of [std::map]. *)
Fixpoint first_unused (opts : list (bytes * TestlibOpt)) : option bytes :=
  match opts with
  | [] => None
  | (key, o) :: opts => if opt_used o then first_unused opts else Some key
  end.

Definition ensureNoUnusedOpts : finalize_step := fun w =>
  match first_unused (sorted_entries (__testlib_opts w)) with
  | Some key => inl (__testlib_fail (testlib_format_ ($"Opts: unused key '%s'")
                                       [FStr (compress key)]) w)
  | None => inr w
  end.

Definition autoEnsureNoUnusedOpts : finalize_step := fun w =>
  if __testlib_ensureNoUnusedOptsFlag w && negb (__testlib_ensureNoUnusedOptsSuppressed w)
  then ensureNoUnusedOpts w else inr w.

(** [text] is printed to the named file, to standard output or to standard
    error; the two messages are those of a failed open and a failed close. *)
Definition write_log (fileName text cannot_write cannot_close : bytes) : finalize_step := fun w =>
  if bool_decide (fileName = $"stdout") then inr (print (c_str text) w)
  else if bool_decide (fileName = $"stderr") then inr (eprint (c_str text) w)
  else if negb (can_write (env w) fileName) then inl (__testlib_fail cannot_write w)
  else
    let w := put_file fileName (c_str text) w in
    if negb (can_close (env w) fileName) then inl (__testlib_fail cannot_close w) else inr w.

Definition writeTestOverviewLog : finalize_step := fun w =>
  let v := validator w in
  let fileName := _testOverviewLogFileName v in
  if bool_decide (fileName = []) then inr w
  else
    let w := put_validator (v_setTestOverviewLogFileName [] v) w in
    write_log fileName
      (c_str (getBoundsHitLog v) ++ c_str (getFeaturesLog v) ++ c_str (getConstantBoundsLog v)
       ++ c_str (getVariablesLog v))
      ($"Validator::writeTestOverviewLog: can't write test overview log to (" ++ fileName ++ $")")
      ($"Validator::writeTestOverviewLog: can't close test overview log file (" ++ fileName ++ $")") w.

(** [inf.getReadChars()]. *)
Definition getReadChars (w : World) : halted + list Z :=
  let s := inf w in
  if negb (bool_decide (testlibMode w = _validator)) || negb (bool_decide (mode s = _input))
     || negb (stdfile s)
  then inl (__testlib_fail ($"InStream::getReadChars can be used only for inf in validator-mode.") w)
  else match reader s with
       | None => inr []
       | Some r => match rd_getReadChars r with
                   | RRet chars => inr chars
                   | RFail message => inl (__testlib_fail message w)
                   | RUndef => inl HStuck
                   end
       end.

Definition writeTestMarkup : finalize_step := fun w =>
  let v := validator w in
  let fileName := _testMarkupFileName v in
  if bool_decide (fileName = []) then inr w
  else match getReadChars w with
       | inl h => inl h
       | inr readChars =>
           match testMarkup readChars with
           | None => inr w
           | Some markup =>
               write_log fileName markup
                 ($"Validator::writeTestMarkup: can't write test markup to (" ++ fileName ++ $")")
                 ($"Validator::writeTestMarkup: can't close test markup file ("
                  ++ _testCaseFileName v ++ $")") w
           end
       end.

Definition writeTestCase : finalize_step := fun w =>
  let v := validator w in
  if 0 <? _testCase v then
    match getReadChars w with
    | inl h => inl h
    | inr readChars =>
        let text := testCaseText v readChars in
        if bool_decide (text = []) then inr w
        else
          let fileName := _testCaseFileName v in
          write_log (if bool_decide (fileName = []) then $"stdout" else fileName) text
            ($"Validator::writeTestCase: can't write test case to (" ++ fileName ++ $")")
            ($"Validator::writeTestCase: can't close test case file (" ++ fileName ++ $")") w
    end
  else inr w.

(** The steps of a destructor, in order; the first that fails ends it. *)
Fixpoint run_steps (steps : list finalize_step) (w : World) : halted + World :=
  match steps with
  | [] => inr w
  | s :: steps => match s w with inl h => inl h | inr w => run_steps steps w end
  end.

Definition fail_when (c : World -> bool) (message : bytes) : finalize_step := fun w =>
  if c w then inl (__testlib_fail message w) else inr w.

Definition guard_checks : list finalize_step :=
  [ fail_when (fun w => bool_decide (testlibMode w = _checker) && (quitCount w =? 0))
      ($"Checker must end with quit or quitf call.");
    fail_when (fun w => bool_decide (testlibMode w = _validator) && (readEofCount w =? 0)
                        && (quitCount w =? 0))
      ($"Validator must end with readEof call.");
    autoEnsureNoUnusedOpts;
    fail_when (fun w => negb (registered w))
      ($"Call register-function in the first line of the main (registerTestlibCmd or other similar)") ].

Definition disableFinalizeGuard : M unit := modify (put_alive false).

(** [~TestlibFinalizeGuard()].  A check that fails calls [std::exit] in the
    destructor of a static object, which the C++ standard leaves undefined;
    it is modelled as glibc and libstdc++ behave, where the process ends with
    the failure's code and the objects under destruction are not destroyed
    again. *)
Definition finalize (w : World) : halted + World :=
  let was_alive := alive w in
  let w := put_alive false w in
  match run_steps (if was_alive then guard_checks else []) w with
  | inl h => inl h
  | inr w =>
      if __testlib_exitCode w =? 0
      then run_steps [writeTestOverviewLog; writeTestMarkup; writeTestCase] w
      else inr w
  end.

(** The exit code and final state of a process with this [main]: the
    destructor runs after [main] returns and after [std::exit]; a failure
    inside it exits again, with the failure's code. *)
Definition finish (h : halted) : halted :=
  match h with
  | HStuck => HStuck
  | HExit code w => match finalize w with inl h => h | inr w => HExit code w end
  end.

Definition run_program (main : M unit) (e : Env) : halted :=
  finish (match main (initial_world e) with MHalt h => h | MRet _ w => HExit 0 w end).

Definition exit_code (h : halted) : option Z :=
  match h with HExit code _ => Some code | HStuck => None end.
