(* ===== verification/Checkers.v ===== *)
(** * The bundled checkers ([src/support/checkers/])

    The [main] of each of the eleven checkers, as a process that registers
    itself with [registerTestlibCmd], reads the answer and the participant's
    output, and quits with a verdict.  A [while] loop is a recursion whose
    fuel is taken from the answer stream, which each round consumes; the
    theorems of [CheckersSpec.v] show that it suffices. *)

From Stdlib Require Import SpecFloat.
From S2P Require Import Prelude Text Doubles Readers Validator Streams World Pattern Reading Numbers Register.

Definition fuel_of (this : StreamId) : M nat := gets (fun w => S (stream_fuel (get_stream this w))).

(** [!ans.seekEof() && !ouf.seekEof()]. *)
Definition both_more : M bool :=
  let* a := on_stream ANS seekEof in
  if a : bool then ret false
  else let* o := on_stream OUF seekEof in ret (negb o).

Definition die {A} (r : TResult) (format : bytes) (args : list farg) : M A :=
  noreturn (quitf r format args).

(** "%d%s words differ - expected: '%s', found: '%s'" and its variants. *)
Definition differ {A} (format : bytes) (n : Z) (expected found : bytes) : M A :=
  die _wa format [FInt n; FStr (englishEnding n); FStr expected; FStr found].

(** ** [wcmp.cpp] *)
Module Wcmp.
Fixpoint loop (fuel : nat) (n : Z) (j : bytes) : M (Z * bytes) :=
  match fuel with
  | O => stuck
  | S fuel =>
      let* more := both_more in
      if more : bool then
        let n := n + 1 in
        let* j := readWordTo ANS in
        let* p := readWordTo OUF in
        if negb (bool_decide (j = p))
        then differ ($"%d%s words differ - expected: '%s', found: '%s'") n (compress j) (compress p)
        else loop fuel n j
      else ret (n, j)
  end.

Definition main (argv0 : option bytes) (args : list bytes) : M unit :=
  do* setName ($"compare sequences of tokens") [] in
  do* registerTestlibCmd argv0 args in
  let* fuel := fuel_of ANS in
  let* (n, j) := loop fuel 0 [] in
  let* ans_end := on_stream ANS seekEof in
  let* both := if ans_end : bool then on_stream OUF seekEof else ret false in
  if both : bool then
    if n =? 1 then die _ok (quoted ($"%s")) [FStr (compress j)]
    else die _ok ($"%d tokens") [FInt n]
  else
    let* ans_end := on_stream ANS seekEof in
    if ans_end : bool then die _wa ($"Participant output contains extra tokens") []
    else die _wa ($"Unexpected EOF in the participants output") [].
End Wcmp.

(** ** [fcmp.cpp] and [lcmp.cpp]: the loop over the answer's lines *)
Section Lines.
Context (same : bytes -> bytes -> bool) (kept : bytes -> bytes -> bytes).

(** [same j p] accepts the pair of lines and [kept j p] becomes
    [strAnswer]. *)
Fixpoint lines_loop (fuel : nat) (n : Z) (strAnswer : bytes) : M (Z * bytes) :=
  match fuel with
  | O => stuck
  | S fuel =>
      let* a := on_stream ANS eof in
      if a : bool then ret (n, strAnswer)
      else
        let* j := readString ANS in
        let* last := if bool_decide (j = []) then on_stream ANS eof else ret false in
        if last : bool then ret (n, strAnswer)
        else
          let* p := readString OUF in
          let strAnswer := kept j p in
          let n := n + 1 in
          if negb (same j p)
          then differ ($"%d%s lines differ - expected: '%s', found: '%s'") n (compress j) (compress p)
          else lines_loop fuel n strAnswer
  end.

Definition lines_main (name : bytes) (argv0 : option bytes) (args : list bytes) : M unit :=
  do* setName name [] in
  do* registerTestlibCmd argv0 args in
  let* fuel := fuel_of ANS in
  let* (n, strAnswer) := lines_loop fuel 0 [] in
  if n =? 1 then die _ok ($"single line: '%s'") [FStr (compress strAnswer)]
  else die _ok ($"%d lines") [FInt n].
End Lines.

Module Fcmp.
Definition main := lines_main (fun j p => bool_decide (j = p)) (fun j p => j)
                              ($"compare files as sequence of lines").
End Fcmp.

Module Lcmp.
(** [isspace] of the C locale. *)
Definition is_space (c : ascii) : bool :=
  let n := ascii_code c in (n =? 32) || ((9 <=? n) && (n <=? 13)).

(** The words [>>] extracts from a string stream, one after the other. *)
Fixpoint words_loop (s cur : bytes) : list bytes :=
  match s with
  | [] => if bool_decide (cur = []) then [] else [cur]
  | c :: s =>
      if is_space c
      then (if bool_decide (cur = []) then [] else [cur]) ++ words_loop s []
      else words_loop s (cur ++ [c])
  end.
Definition words (s : bytes) : list bytes := words_loop s [].

Definition compareWords (a b : bytes) : bool := bool_decide (words a = words b).

Definition main := lines_main compareWords (fun j p => p)
                              ($"compare files as sequence of tokens in lines").
End Lcmp.

(** ** [default.cpp] *)
Module Default.
Definition hasUtf8Bom (s : bytes) : bool :=
  match s with
  | a :: b :: c :: _ => (ascii_code a =? 239) && (ascii_code b =? 187) && (ascii_code c =? 191)
  | _ => false
  end.

Definition trailing (ch : ascii) : bool :=
  let n := ascii_code ch in
  (n =? 32) || (n =? 9) || (n =? 13) || (n =? 12) || (n =? 11).

(** The loop that pops the last character. *)
Fixpoint pop_while (rev_line : bytes) : bytes :=
  match rev_line with
  | [] => []
  | ch :: rest => if trailing ch then pop_while rest else rev_line
  end.

Definition normalizeLine (line : bytes) (isFirstLine : bool) : bytes :=
  let line := if isFirstLine && hasUtf8Bom line then zdrop 3 line else line in
  reverse (pop_while (reverse line)).

(** [lines] in the order read. *)
Fixpoint read_loop (fuel : nat) (this : StreamId) (lines : list bytes) : M (list bytes) :=
  match fuel with
  | O => stuck
  | S fuel =>
      let* e := on_stream this eof in
      if e : bool then ret lines
      else
        let* line := readLine this in
        let* last := if bool_decide (line = []) then on_stream this eof else ret false in
        if last : bool then ret lines
        else read_loop fuel this (lines ++ [normalizeLine line (bool_decide (lines = []))])
  end.

Fixpoint drop_empty (rev_lines : list bytes) : list bytes :=
  match rev_lines with
  | [] :: rest => drop_empty rest
  | _ => rev_lines
  end.

Definition readNormalizedLines (this : StreamId) : M (list bytes) :=
  let* fuel := fuel_of this in
  let* lines := read_loop fuel this [] in
  ret (reverse (drop_empty (reverse lines))).

(** The index, from 0, of the first common position where they differ. *)
Fixpoint first_difference (expected found : list bytes) (i : Z) : option (Z * bytes * bytes) :=
  match expected, found with
  | e :: expected, f :: found =>
      if bool_decide (e = f) then first_difference expected found (i + 1) else Some (i, e, f)
  | _, _ => None
  end.

Definition line_or_eof (lines : list bytes) (lineNo : Z) : bytes :=
  default ($"<EOF>") (znth lines (lineNo - 1)).

Definition main (argv0 : option bytes) (args : list bytes) : M unit :=
  do* setName ($"NOIP default checker: ignore trailing spaces and line endings") [] in
  do* registerTestlibCmd argv0 args in
  let* expected := readNormalizedLines ANS in
  let* found := readNormalizedLines OUF in
  let format := $"%d%s lines differ - expected: '%s', found: '%s'" in
  match first_difference expected found 0 with
  | Some (i, e, f) => differ format (i + 1) (compress e) (compress f)
  | None =>
      if negb (zlen expected =? zlen found) then
        let lineNo := Z.min (zlen expected) (zlen found) + 1 in
        differ format lineNo (compress (line_or_eof expected lineNo))
               (compress (line_or_eof found lineNo))
      else if zlen expected =? 1
      then die _ok ($"single line: '%s'") [FStr (compress (default [] (head expected)))]
      else die _ok ($"%d lines") [FInt (zlen expected)]
  end.
End Default.

(** [while (!this.seekEof()) { read; count++; }], as [ncmp.cpp] and
    [nyesno.cpp] count what is left on one side. *)
Fixpoint count_loop {A} (fuel : nat) (this : StreamId) (read : M A) (n : Z) : M Z :=
  match fuel with
  | O => stuck
  | S fuel =>
      let* e := on_stream this seekEof in
      if e : bool then ret n
      else let* _ := read in count_loop fuel this read (n + 1)
  end.

(** The end of [ncmp.cpp] and [nyesno.cpp] after the common part of length
    [n]: the two counts and their verdicts. *)
Definition count_extra {A} (read : StreamId -> M A) (n : Z) : M unit :=
  let* fuel := fuel_of ANS in
  let* extraInAnsCount := count_loop fuel ANS (read ANS) 0 in
  let* fuel := fuel_of OUF in
  let* extraInOufCount := count_loop fuel OUF (read OUF) 0 in
  do* (if 0 <? extraInAnsCount
       then die _wa ($"Answer contains longer sequence [length = %d], but output contains %d elements")
              [FInt (n + extraInAnsCount); FInt n]
       else ret tt) in
  if 0 <? extraInOufCount
  then die _wa ($"Output contains longer sequence [length = %d], but answer contains %d elements")
         [FInt (n + extraInOufCount); FInt n]
  else ret tt.

(** ** [ncmp.cpp] *)
Module Ncmp.
Fixpoint loop (fuel : nat) (n : Z) (firstElems : bytes) : M (Z * bytes) :=
  match fuel with
  | O => stuck
  | S fuel =>
      let* more := both_more in
      if more : bool then
        let n := n + 1 in
        let* j := readLong ANS in
        let* p := readLong OUF in
        if negb (j =? p)
        then differ ($"%d%s numbers differ - expected: '%s', found: '%s'") n (vtos j) (vtos p)
        else
          loop fuel n
            (if n <=? 5
             then (if 0 <? zlen firstElems then firstElems ++ $" " else firstElems) ++ vtos j
             else firstElems)
      else ret (n, firstElems)
  end.

Definition main (argv0 : option bytes) (args : list bytes) : M unit :=
  do* setName ($"compare ordered sequences of signed int%d numbers") [FInt (8 * 8)] in
  do* registerTestlibCmd argv0 args in
  let* fuel := fuel_of ANS in
  let* (n, firstElems) := loop fuel 0 [] in
  do* count_extra readLong n in
  if n <=? 5
  then die _ok ($"%d number(s): " ++ quoted ($"%s")) [FInt n; FStr (compress firstElems)]
  else die _ok ($"%d numbers") [FInt n].
End Ncmp.

(** ** [hcmp.cpp] *)
Module Hcmp.
Definition pnum : exc pattern := pattern_of ($"0|-?[1-9][0-9]*").

(** The global [pnum] is built before [main]. *)
Definition isNumeric (p : bytes) : M bool :=
  let* pnum := lift_exc pnum in ret (matches pnum p).

Definition main (argv0 : option bytes) (args : list bytes) : M unit :=
  let* _ := lift_exc pnum in
  do* setName ($"compare two signed huge integers") [] in
  do* registerTestlibCmd argv0 args in
  let* ja := readWord ANS in
  let* pa := readWord OUF in
  let* ok := isNumeric ja in
  do* when (negb ok) (die _fail ($"%s is not a valid integer") [FStr (compress ja)]) in
  let* ans_end := on_stream ANS seekEof in
  do* when (negb ans_end) (die _fail ($"expected exactly one token in the answer file") []) in
  let* ok := isNumeric pa in
  do* when (negb ok) (die _pe ($"%s is not a valid integer") [FStr (compress pa)]) in
  do* when (negb (bool_decide (ja = pa)))
        (die _wa ($"expected '%s', found '%s'") [FStr (compress ja); FStr (compress pa)]) in
  die _ok ($"answer is '%s'") [FStr (compress ja)].
End Hcmp.

(** ** [yesno.cpp] and [nyesno.cpp] *)
Definition YES : bytes := $"YES".
Definition NO : bytes := $"NO".
Definition is_yesno (s : bytes) : bool := bool_decide (s = YES) || bool_decide (s = NO).

Module Yesno.
Definition main (argv0 : option bytes) (args : list bytes) : M unit :=
  do* setName ($"%s") [FStr (YES ++ $" or " ++ NO ++ $" (case insensitive)")] in
  do* registerTestlibCmd argv0 args in
  let* word := readWord ANS in
  let ja := upperCase word in
  let* word := readWord OUF in
  let pa := upperCase word in
  do* when (negb (is_yesno ja))
        (die _fail ($"%s or %s expected in answer, but %s found")
             [FStr YES; FStr NO; FStr (compress ja)]) in
  do* when (negb (is_yesno pa))
        (die _pe ($"%s or %s expected, but %s found") [FStr YES; FStr NO; FStr (compress pa)]) in
  do* when (negb (bool_decide (ja = pa)))
        (die _wa ($"expected %s, found %s") [FStr (compress ja); FStr (compress pa)]) in
  die _ok ($"answer is %s") [FStr ja].
End Yesno.

Module Nyesno.
Record counts := MkCounts { index : Z; yesCount : Z; noCount : Z; last_pa : bytes }.

Fixpoint loop (fuel : nat) (c : counts) : M counts :=
  match fuel with
  | O => stuck
  | S fuel =>
      let* more := both_more in
      if more : bool then
        let i := index c + 1 in
        let* word := readToken ANS in
        let ja := upperCase word in
        let* word := readToken OUF in
        let pa := upperCase word in
        let ending := englishEnding i in
        do* when (negb (is_yesno ja))
              (die _fail ($"%s or %s expected in answer, but %s found [%d%s token]")
                 [FStr YES; FStr NO; FStr (compress ja); FInt i; FStr ending]) in
        do* when (negb (is_yesno pa))
              (die _pe ($"%s or %s expected, but %s found [%d%s token]")
                 [FStr YES; FStr NO; FStr (compress pa); FInt i; FStr ending]) in
        do* when (negb (bool_decide (ja = pa)))
              (die _wa ($"expected %s, found %s [%d%s token]")
                 [FStr (compress ja); FStr (compress pa); FInt i; FStr ending]) in
        loop fuel (if bool_decide (pa = YES)
                   then MkCounts i (yesCount c + 1) (noCount c) pa
                   else MkCounts i (yesCount c) (noCount c + 1) pa)
      else ret c
  end.

Definition main (argv0 : option bytes) (args : list bytes) : M unit :=
  do* setName ($"%s") [FStr ($"multiple " ++ YES ++ $"/" ++ NO ++ $" (case insensitive)")] in
  do* registerTestlibCmd argv0 args in
  let* fuel := fuel_of ANS in
  let* c := loop fuel (MkCounts 0 0 0 []) in
  do* count_extra readToken (index c) in
  if index c =? 0 then die _ok ($"Empty output") []
  else if index c =? 1 then die _ok ($"%s") [FStr (last_pa c)]
  else die _ok ($"%d token(s): yes count is %d, no count is %d")
         [FInt (index c); FInt (yesCount c); FInt (noCount c)].
End Nyesno.

(** ** [rcmp4.cpp], [rcmp6.cpp], [rcmp9.cpp]: one program with three
    precisions *)
Section Rcmp.
(** [EPS] and the messages, which differ in the number of digits shown. *)
Context (EPS : double) (name differ_format single_format : bytes).

Fixpoint rcmp_loop (fuel : nat) (n : Z) (j p : double) : M (Z * double * double) :=
  match fuel with
  | O => stuck
  | S fuel =>
      let* a := on_stream ANS seekEof in
      if a : bool then ret (n, j, p)
      else
        let n := n + 1 in
        let* j := readDouble ANS in
        let* p := readDouble OUF in
        if negb (doubleCompare j p EPS)
        then die _wa differ_format
               [FInt n; FStr (englishEnding n); FDbl j; FDbl p; FDbl (doubleDelta j p)]
        else rcmp_loop fuel n j p
  end.

Definition rcmp_main (argv0 : option bytes) (args : list bytes) : M unit :=
  do* setName name [FDbl EPS] in
  do* registerTestlibCmd argv0 args in
  let* fuel := fuel_of ANS in
  let* (n, j, p) := rcmp_loop fuel 0 dzero dzero in
  if n =? 1 then die _ok single_format [FDbl p; FDbl j; FDbl (doubleDelta j p)]
  else die _ok ($"%d numbers") [FInt n].
End Rcmp.

Module Rcmp4.
Definition EPS : double := E (-4).
Definition main := rcmp_main EPS
  ($"compare two sequences of doubles, max absolute or relative error = %.5f")
  ($"%d%s numbers differ - expected: '%.5f', found: '%.5f', error = '%.5f'")
  ($"found '%.5f', expected '%.5f', error '%.5f'").
End Rcmp4.

Module Rcmp6.
Definition EPS : double := E (-6).
Definition main := rcmp_main EPS
  ($"compare two sequences of doubles, max absolute or relative  error = %.7f")
  ($"%d%s numbers differ - expected: '%.7f', found: '%.7f', error = '%.7f'")
  ($"found '%.7f', expected '%.7f', error '%.7f'").
End Rcmp6.

Module Rcmp9.
Definition EPS : double := E (-9).
Definition main := rcmp_main EPS
  ($"compare two sequences of doubles, max absolute or relative error = %.10f")
  ($"%d%s numbers differ - expected: '%.10f', found: '%.10f', error = '%.10f'")
  ($"found '%.10f', expected '%.10f', error '%.10f'").
End Rcmp9.
