(* ===== verification/Random.v ===== *)
(** * Pseudo-random generation ([src/support/testlib.h], [class random_t])

    The 48-bit linear congruential generator of testlib and what is drawn from
    it: integers and doubles of a range, weighted values, permutations,
    distinct numbers, partitions, texts of a pattern, and [shuffle].

    A drawing threads the 48-bit [seed]; it returns a value, calls
    [__testlib_fail], or is undefined (a signed overflow).  The rejection
    loops run [until] they accept; their fuel [PERIOD] is the period of the
    generator, and [RandomSpec.v] shows that they accept within it.

    The element types of the templates are [int] for the container functions
    and [long long] for [distinct] and [partition]; [std::pow], which the
    weighted drawings of weight 25 or more use, is a parameter. *)

From Stdlib Require Import SpecFloat.
From stdpp Require Import sorting.
From S2P Require Import Prelude Text Doubles Pattern.

Definition multiplier : Z := 25214903917.
Definition addend : Z := 11.
Definition mask : Z := 2 ^ 48 - 1.
Definition lim : Z := 25.
Definition initial_seed : Z := 3905348978240129619.

(** ** Drawings *)

Inductive drawn (A : Type) :=
| Drawn (a : A) (seed : Z)
| DrawFail (message : bytes)
| DrawUndef.
Arguments Drawn {A}. Arguments DrawFail {A}. Arguments DrawUndef {A}.

(** [random_t::version] is static: it does not change between drawings. *)
Definition draw (A : Type) : Type := Z -> Z -> drawn A.

Definition dret {A} (a : A) : draw A := fun _ seed => Drawn a seed.
Definition dbind {A B} (m : draw A) (k : A -> draw B) : draw B := fun version seed =>
  match m version seed with
  | Drawn a seed => k a version seed
  | DrawFail message => DrawFail message
  | DrawUndef => DrawUndef
  end.
Definition dfail {A} (message : bytes) : draw A := fun _ _ => DrawFail message.
Definition dundef {A} : draw A := fun _ _ => DrawUndef.

Notation "'draw*' x := m 'in' k" := (dbind m (fun x => k))
  (at level 10, x pattern, m at level 100, k at level 200) : judge_scope.

(** ** The generator *)

Definition next_seed (seed : Z) : Z := Z.land (uwrap 64 (seed * multiplier + addend)) mask.

(** [nextBits(bits)] for [bits <= 48]: the high bits of the next seed. *)
Definition step_bits (bits : Z) : draw Z := fun _ seed =>
  let seed := next_seed seed in Drawn (Z.shiftr seed (48 - bits)) seed.

Definition nextBits (bits : Z) : draw Z := fun version seed =>
  if bits <=? 48 then step_bits bits version seed
  else if 63 <? bits
  then DrawFail ($"random_t::nextBits(int bits): n must be less than 64")
  else
    let lowerBitCount := if version =? 0 then 31 else 32 in
    (draw* high := step_bits 31 in
     draw* low := step_bits lowerBitCount in
     dret (Z.lxor (Z.shiftl high 32) low)) version seed.

(** ** Seeding *)

Fixpoint seed_arg (arg : bytes) (seed : Z) : Z :=
  match arg with
  | [] => seed
  | c :: arg => seed_arg arg (uwrap 64 (seed * multiplier + uwrap 32 (char_to_int c) + addend))
  end.

(** [setSeed(argc, argv)]; the arguments after the program's name. *)
Definition setSeed_args (args : list bytes) : Z :=
  Z.land (foldl (fun seed arg => uwrap 64 (seed_arg (c_str arg) seed + Z.quot multiplier addend))
                initial_seed args) mask.

Definition setSeed (seed : Z) : Z := Z.land (Z.lxor (uwrap 64 seed) multiplier) mask.

(** ** Rejection *)

(** [body] is run until it yields a value, at most [fuel] times. *)
Fixpoint until {A} (fuel : positive) (body : draw (option A)) : draw (option A) :=
  match fuel with
  | xH => body
  | xO p => draw* r := until p body in
            match r with Some a => dret (Some a) | None => until p body end
  | xI p => draw* r := body in
            match r with
            | Some a => dret (Some a)
            | None => draw* r := until p body in
                      match r with Some a => dret (Some a) | None => until p body end
            end
  end.

Definition PERIOD : positive := 2 ^ 48.

(** [do bits = nextBits(count); while (bits >= limit);] *)
Definition draw_below (count limit : Z) : draw Z :=
  draw* r := until PERIOD (draw* bits := nextBits count in
                           dret (if limit <=? bits then None else Some bits)) in
  match r with Some bits => dret bits | None => dundef end.

(** ** Integers *)

(** [next(int n)]. *)
Definition next_int (n : Z) : draw Z :=
  if n <=? 0 then dfail ($"random_t::next(int n): n must be positive")
  else if Z.land n (- n) =? n
  then draw* bits := nextBits 31 in dret (Z.shiftr (n * bits) 31)
  else draw* bits := draw_below 31 (Z.quot INT_MAX n * n) in dret (Z.rem bits n).

(** [next(long long n)]. *)
Definition next_ll (n : Z) : draw Z :=
  if n <=? 0 then dfail ($"random_t::next(long long n): n must be positive")
  else draw* bits := draw_below 63 (Z.quot LLONG_MAX n * n) in dret (Z.rem bits n).

Definition next_uint (n : Z) : draw Z :=
  if INT_MAX <=? n then dfail ($"random_t::next(unsigned int n): n must be less INT_MAX")
  else next_int n.

Definition next_ull (n : Z) : draw Z :=
  if LLONG_MAX <=? n
  then dfail ($"random_t::next(unsigned long long n): n must be less LONGLONG_MAX")
  else next_ll n.

Definition next_ulong (n : Z) : draw Z :=
  if LLONG_MAX <=? n then dfail ($"random_t::next(unsigned long n): n must be less LONG_MAX")
  else next_ull n.

Definition in_ll (x : Z) : bool := (LLONG_MIN <=? x) && (x <=? LLONG_MAX).

(** [next(int from, int to)]; the unsigned overload computes the same. *)
Definition next_int_range (from to : Z) : draw Z :=
  draw* r := next_ll (to - from + 1) in dret (r + from).

(** [next(long long from, long long to)]: [to - from + 1] may overflow. *)
Definition next_ll_range (from to : Z) : draw Z :=
  if in_ll (to - from) && in_ll (to - from + 1)
  then draw* r := next_ll (to - from + 1) in dret (r + from)
  else dundef.

(** [next(unsigned long long from, unsigned long long to)], with its
    wrap-around. *)
Definition next_ull_range (from to : Z) : draw Z :=
  if to <? from
  then dfail ($"random_t::next(unsigned long long from, unsigned long long to): from can't not exceed to")
  else draw* r := next_ull (uwrap 64 (to - from + 1)) in dret (uwrap 64 (r + from)).

Definition next_ulong_range (from to : Z) : draw Z :=
  if to <? from
  then dfail ($"random_t::next(unsigned long from, unsigned long to): from can't not exceed to")
  else draw* r := next_ulong (uwrap 64 (to - from + 1)) in dret (uwrap 64 (r + from)).

(** ** Doubles *)

(** For [a < b], where [nexttoward(b, a)] is the predecessor of [b]. *)
Definition crop (value a b : double) : double :=
  let value := dmin (dmax value a) b in
  if dle b value then SFpred 53 1024 b else value.

Definition crop_int (value a b : Z) : Z := Z.min (Z.max value a) (b - 1).

(** [next()], in [0, 1). *)
Definition next_double : draw double :=
  draw* high := nextBits 26 in
  draw* low := nextBits 27 in
  dret (crop (ddiv (double_of_Z (Z.shiftl high 27 + low)) (double_of_Z (2 ^ 53))) dzero done_).

Definition next_double_n (n : double) : draw double :=
  if dle n dzero then dfail ($"random_t::next(double): n should be positive")
  else draw* x := next_double in dret (crop (dmul n x) dzero n).

Definition next_double_range (from to : double) : draw double :=
  if dle to from
  then dfail ($"random_t::next(double from, double to): from should be strictly less than to")
  else draw* x := next_double_n (dsub to from) in dret (dadd x from).

(** ** Weighted drawings *)

Fixpoint repeat_draw {A} (n : nat) (combine : A -> A -> A) (next : draw A) (result : A) : draw A :=
  match n with
  | O => dret result
  | S n => draw* x := next in repeat_draw n combine next (combine result x)
  end.

(** The first loop runs for a positive type, the second for a negative one. *)
Definition weighted {A} (max_ min_ : A -> A -> A) (next : draw A) (type : Z) : draw A :=
  draw* result := next in
  draw* result := repeat_draw (Z.to_nat type) max_ next result in
  repeat_draw (Z.to_nat (- type)) min_ next result.

Section Weighted.
Context (pow : double -> double -> double).

(** The value in [0, n) of a real one, undefined beyond the integer type. *)
Definition crop_trunc (x : double) (max_ n : Z) : draw Z :=
  match dtrunc x with
  | Some v => if (- max_ - 1 <=? v) && (v <=? max_) then dret (crop_int v 0 n) else dundef
  | None => dundef
  end.

(** The value in [0, 1) for a large weight. *)
Definition wnext_p (type : Z) : draw double :=
  draw* x := next_double in
  dret (if 0 <? type
        then pow (dadd x dzero) (ddiv done_ (double_of_Z (type + 1)))
        else dsub done_ (pow (dadd x dzero) (ddiv done_ (double_of_Z (- type + 1))))).

Definition wnext_int (n type : Z) : draw Z :=
  if n <=? 0 then dfail ($"random_t::wnext(int n, int type): n must be positive")
  else if Z.abs type <? lim then weighted Z.max Z.min (next_int n) type
  else draw* p := wnext_p type in crop_trunc (dmul (double_of_Z n) p) INT_MAX n.

Definition wnext_ll (n type : Z) : draw Z :=
  if n <=? 0 then dfail ($"random_t::wnext(long long n, int type): n must be positive")
  else if Z.abs type <? lim then weighted Z.max Z.min (next_ll n) type
  else draw* p := wnext_p type in crop_trunc (dmul (double_of_Z n) p) LLONG_MAX n.

Definition wnext_double_n (n : double) (type : Z) : draw double :=
  if dle n dzero then dfail ($"random_t::wnext(double n, int type): n must be positive")
  else if Z.abs type <? lim
  then draw* result := weighted dmax dmin next_double type in dret (dmul n result)
  else draw* p := wnext_p type in dret (crop (dmul n p) dzero n).

(** [wnext(int from, int to, int type)]: [to - from + 1] may overflow. *)
Definition wnext_int_range (from to type : Z) : draw Z :=
  if to <? from
  then dfail ($"random_t::wnext(int from, int to, int type): from can't not exceed to")
  else if INT_MAX <? to - from + 1 then dundef
  else draw* r := wnext_int (to - from + 1) type in dret (r + from).

Definition wnext_ll_range (from to type : Z) : draw Z :=
  if to <? from
  then dfail ($"random_t::wnext(long long from, long long to, int type): from can't not exceed to")
  else if LLONG_MAX <? to - from + 1 then dundef
  else draw* r := wnext_ll (to - from + 1) type in dret (r + from).

(** [wnext(int type)]. *)
Definition wnext_unit (type : Z) : draw double := wnext_double_n done_ type.

Definition wnext_uint (n type : Z) : draw Z :=
  if INT_MAX <=? n
  then dfail ($"random_t::wnext(unsigned int n, int type): n must be less INT_MAX")
  else wnext_int n type.

Definition wnext_ull (n type : Z) : draw Z :=
  if LLONG_MAX <=? n
  then dfail ($"random_t::wnext(unsigned long long n, int type): n must be less LONGLONG_MAX")
  else wnext_ll n type.

Definition wnext_ulong (n type : Z) : draw Z :=
  if LLONG_MAX <=? n
  then dfail ($"random_t::wnext(unsigned long n, int type): n must be less LONG_MAX")
  else wnext_ull n type.

(** The unsigned ranges wrap around; the 32-bit one returns an [int]. *)
Definition wnext_uint_range (from to type : Z) : draw Z :=
  if to <? from
  then dfail ($"random_t::wnext(unsigned int from, unsigned int to, int type): from can't not exceed to")
  else draw* r := wnext_uint (uwrap 32 (to - from + 1)) type in
       dret (swrap 32 (uwrap 32 (r + from))).

Definition wnext_ull_range (from to type : Z) : draw Z :=
  if to <? from
  then dfail ($"random_t::wnext(unsigned long long from, unsigned long long to, int type): from can't not exceed to")
  else draw* r := wnext_ull (uwrap 64 (to - from + 1)) type in dret (uwrap 64 (r + from)).

Definition wnext_ulong_range (from to type : Z) : draw Z :=
  if to <? from
  then dfail ($"random_t::wnext(unsigned long from, unsigned long to, int type): from can't not exceed to")
  else draw* r := wnext_ulong (uwrap 64 (to - from + 1)) type in dret (uwrap 64 (r + from)).

Definition wnext_double_range (from to : double) (type : Z) : draw double :=
  if dle to from
  then dfail ($"random_t::wnext(double from, double to, int type): from should be strictly less than to")
  else draw* x := wnext_double_n (dsub to from) type in dret (dadd x from).

(** The element at a drawn index. *)
Definition element {A} (c : list A) (i : Z) : draw A :=
  match znth c i with Some x => dret x | None => dundef end.

Definition wany {A} (c : list A) (type : Z) : draw A :=
  if zlen c <=? 0
  then dfail ($"random_t::wany(const Container& c, int type): c.size() must be positive")
  else draw* i := wnext_int (zlen c) type in element c i.

(** The message names [any]. *)
Definition wany_range {A} (c : list A) (type : Z) : draw A :=
  if zlen c <=? 0
  then dfail ($"random_t::any(const Iter& begin, const Iter& end, int type): range must have positive length")
  else draw* i := wnext_int (zlen c) type in element c i.
End Weighted.

(** ** Containers *)

Definition any {A} (c : list A) : draw A :=
  if zlen c <=? 0 then dfail ($"random_t::any(const Container& c): c.size() must be positive")
  else draw* i := next_int (zlen c) in element c i.

Definition any_range {A} (c : list A) : draw A :=
  if zlen c <=? 0
  then dfail ($"random_t::any(const Iter& begin, const Iter& end): range must have positive length")
  else draw* i := next_int (zlen c) in element c i.

(** [std::swap(p[i], p[j])]. *)
Definition swap_at {A} (p : list A) (i j : nat) : list A :=
  match p !! i, p !! j with
  | Some x, Some y => <[i := y]> (<[j := x]> p)
  | _, _ => p
  end.

(** The loop of [perm] and of [shuffle] from index [i], over [n] elements. *)
Fixpoint shuffle_loop {A} (n : nat) (i : nat) (p : list A) : draw (list A) :=
  match n with
  | O => dret p
  | S n => draw* j := next_int (Z.of_nat i + 1) in
           shuffle_loop n (S i) (swap_at p i (Z.to_nat j))
  end.

Definition shuffle {A} (p : list A) : draw (list A) := shuffle_loop (length p - 1) 1 p.

Definition perm (size first : Z) : draw (list Z) :=
  if size <? 0 then dfail ($"random_t::perm(T size, E first = 0): size must non-negative")
  else if size =? 0 then dret []
  else shuffle (seqZ first size).

(** ** Distinct numbers *)

(** [expected += double(n) / double(n - i + 1)] for [i] from 1 to [size]. *)
Definition expected_draws (n size : Z) : double :=
  foldl (fun expected i => dadd expected (ddiv (double_of_Z n) (double_of_Z (n - i + 1))))
        dzero (seqZ 1 size).

(** [while (int(vals.size()) < size)]: [vals] holds the values of [result]. *)
Fixpoint distinct_loop (fuel : nat) (size from to : Z) (result : list Z) : draw (list Z) :=
  if zlen result <? size then
    match fuel with
    | O => dundef
    | S fuel =>
        draw* x := next_ll_range from to in
        distinct_loop fuel size from to (if bool_decide (x ∈ result) then result else result ++ [x])
    end
  else dret result.

Definition distinct (fuel : nat) (size from to : Z) : draw (list Z) :=
  if size =? 0 then dret []
  else if to <? from then dfail ($"random_t::distinct expected from <= to")
  else if size <? 0 then dfail ($"random_t::distinct expected size >= 0")
  else if negb (in_ll (to - from) && in_ll (to - from + 1)) then dundef
  else
    let n := to - from + 1 in
    if n <? size then dfail ($"random_t::distinct expected size <= to - from + 1")
    else if dlt (expected_draws n size) (double_of_Z n)
    then distinct_loop fuel size from to []
    else if 1000000000 <? n
    then dfail ($"random_t::distinct here expected to - from + 1 <= 1000000000")
    else draw* p := perm n from in dret (ztake size p).

Definition distinct_upper (fuel : nat) (size upper : Z) : draw (list Z) :=
  if size <? 0 then dfail ($"random_t::distinct expected size >= 0")
  else if size =? 0 then dret []
  else if upper <=? 0 then dfail ($"random_t::distinct expected upper > 0")
  else if upper <? size then dfail ($"random_t::distinct expected size <= upper")
  else distinct fuel size 0 (upper - 1).

(** ** Partitions *)

(** The gaps between consecutive septums, and the last one. *)
Fixpoint gaps (septums : list Z) (end_ : Z) : list Z :=
  match septums with
  | [] => []
  | [s] => [end_ - s]
  | s :: ((t :: _) as rest) => (t - s - 1) :: gaps rest end_
  end.

Definition sum_list (l : list Z) : Z := foldl Z.add 0 l.

(** From the separators [d] to the parts, with the checks of the result. *)
Definition partition_parts (size rest sum min_part : Z) (d : list Z) : draw (list Z) :=
  let septums := merge_sort Z.le (0 :: d) in
  let result := (fun g => g + min_part) <$> gaps septums (rest + size - 1) in
  if negb (sum_list result =? sum)
  then dfail ($"random_t::partition: partition sum is expected to be the given sum")
  else if existsb (fun x => x <? min_part) result
  then dfail ($"random_t::partition: partition min is expected to be no less than the given min_part")
  else if negb (zlen result =? size)
  then dfail ($"random_t::partition: partition size is expected to be equal to the given size")
  else dret result.

(** [min_part * size] and the sums may overflow. *)
Definition partition (fuel : nat) (size sum min_part : Z) : draw (list Z) :=
  if size <? 0 then dfail ($"random_t::partition: size < 0")
  else if (size =? 0) && negb (sum =? 0)
  then dfail ($"random_t::partition: size == 0 && sum != 0")
  else if negb (in_ll (min_part * size)) then dundef
  else if sum <? min_part * size
  then dfail ($"random_t::partition: min_part * size > sum")
  else if (size =? 0) && (sum =? 0) then dret []
  else
    let rest := sum - min_part * size in
    if negb (in_ll rest && in_ll (rest + size)) then dundef
    else draw* d := distinct fuel (size - 1) 1 (rest + size - 1) in
         partition_parts size rest sum min_part d.

Definition partition_positive (fuel : nat) (size sum : Z) : draw (list Z) := partition fuel size sum 1.

(** ** Texts of a pattern *)

Fixpoint draw_chars (count : nat) (chars : bytes) : draw bytes :=
  match count with
  | O => dret []
  | S count =>
      draw* i := next_int (zlen chars) in
      match znth chars i with
      | None => dundef
      | Some c => draw* rest := draw_chars count chars in dret (c :: rest)
      end
  end.

(** The element at an index, with the function applied to it. *)
Fixpoint choose {A B} (f : A -> B) (default : B) (l : list A) (i : nat) : B :=
  match l, i with
  | [], _ => default
  | x :: _, O => f x
  | _ :: l, S i => choose f default l i
  end.

Fixpoint pattern_next (p : pattern) : draw bytes :=
  let 'Pattern _ children chars from to := p in
  if to =? INT_MAX
  then dfail ($"pattern::next(random_t& rnd): can't process character '*' for generation")
  else
    draw* head := (if 0 <? to
                   then if INT_MAX <? to - from + 1 then dundef
                        else draw* k := next_int (to - from + 1) in
                             draw_chars (Z.to_nat (k + from)) chars
                   else dret []) in
    match children with
    | [] => dret head
    | _ :: _ =>
        draw* child := next_int (zlen children) in
        draw* tail := choose pattern_next dundef children (Z.to_nat child) in
        dret (head ++ tail)
    end.

(** [next(ptrn)] on the text of a pattern. *)
Definition next_pattern (ptrn : bytes) : draw bytes :=
  match pattern_of ptrn with
  | inl message => dfail message
  | inr p => pattern_next p
  end.
