(* ===== verification/Opts.v ===== *)
(** * Command line options of generators ([src/support/testlib.h], lines 5425
    to 5837 and 6150 to 6203)

    [prepareOpts] collects [-key=value], [-key value], [-kNum] and [-flag]
    arguments; the [opt] functions read them as text, as an integral type or
    as a floating type, after [parseExponentialOptValue] has rewritten an
    exponential notation.

    Values are parsed with the x87 [long double] (64-bit significand) next to
    the integral type; a signed overflow is undefined.  The parsers call each
    other on the two sides of the exponent mark; the recursion ends at depth
    two because the sides hold no mark. *)

From Stdlib Require Import SpecFloat.
From S2P Require Import Prelude Text Doubles Readers Validator Streams World Pattern Reading Numbers Register.

(** ** Parsing the command line *)

(** [isalpha], [isdigit] in the C locale. *)
Definition isalpha (c : ascii) : bool :=
  let x := char_to_int c in ((65 <=? x) && (x <=? 90)) || ((97 <=? x) && (x <=? 122)).

Definition getOptType (s : bytes) : Z :=
  if zlen s <=? 1 then 0
  else if bool_decide (char_at s 0 = "-"%char) then
    if isalpha (char_at s 1) then 1
    else if bool_decide (char_at s 1 = "-"%char) then (if isalpha (char_at s 2) then 2 else 0)
    else 0
  else 0.

(** [opts[key].value = val]. *)
Definition set_opt (key val : bytes) (opts : gmap bytes TestlibOpt) : gmap bytes TestlibOpt :=
  <[key := MkOpt val (match opts !! key with Some o => opt_used o | None => false end)]> opts.

(** The key and value at the head of the arguments that are left, and the
    number of arguments taken. *)
Definition parse_pair (arg : bytes) (type : Z) (next : option bytes) : bytes * bytes * Z :=
  let key := zdrop type arg in
  match find_char "="%char key with
  | Some sep => (substr key 0 sep, zdrop (sep + 1) key, 1)
  | None =>
      match next with
      | Some value =>
          if getOptType value =? 0 then (key, value, 2)
          else if (1 <? zlen key) && is_digit (char_at key 1)
          then (substr key 0 1, zdrop 1 key, 1)
          else (key, $"true", 1)
      | None =>
          if (1 <? zlen key) && is_digit (char_at key 1)
          then (substr key 0 1, zdrop 1 key, 1)
          else (key, $"true", 1)
      end
  end.

Definition parseOpt (argv : list bytes) (index : Z) (opts : gmap bytes TestlibOpt)
  : Z * gmap bytes TestlibOpt :=
  match znth argv index with
  | None => (0, opts)
  | Some arg =>
      let type := getOptType arg in
      if 0 <? type then
        let '(key, val, inc) := parse_pair arg type (znth argv (index + 1)) in
        (inc, set_opt key val opts)
      else (1, opts)
  end.

(** [for (index = 1; index < n; index += parseOpt(n, argv, index, opts));] *)
Fixpoint parse_all (fuel : nat) (argv : list bytes) (index : Z) (opts : gmap bytes TestlibOpt)
  : gmap bytes TestlibOpt :=
  match fuel with
  | O => opts
  | S fuel =>
      if index <? zlen argv then
        let '(inc, opts) := parseOpt argv index opts in parse_all fuel argv (index + inc) opts
      else opts
  end.

Definition prepareOpts (argv : list bytes) : M unit :=
  if zlen argv <=? 0
  then noreturn (__testlib_fail ($"Opts: expected argc>=0 but found " ++ toString (zlen argv)))
  else
    do* modify (put_testlib_opts (parse_all (length argv) argv 1 ∅)) in
    modify (put_testlib_argv argv).

Definition __testlib_indexToArgv (index : Z) : M bytes :=
  let* argv := gets __testlib_argv in
  match znth argv index with
  | Some arg => ret arg
  | None => noreturn (__testlib_fail ($"Opts: index '" ++ toString index
                        ++ $"' is out of range [0," ++ toString (zlen argv) ++ $")"))
  end.

Definition __testlib_keyToOpts (key : bytes) : M bytes :=
  let* opts := gets __testlib_opts in
  match opts !! key with
  | None => noreturn (__testlib_fail ($"Opts: unknown key '" ++ compress key ++ $"'"))
  | Some o =>
      do* modify (put_testlib_opts (<[key := MkOpt (opt_value o) true]> opts)) in
      ret (opt_value o)
  end.

(** ** Values *)

Inductive value_of (A : Type) :=
| Value (a : A)
| Refused (message : bytes)
| Undefined.
Arguments Value {A}. Arguments Refused {A}. Arguments Undefined {A}.

Definition vbind {A B} (m : value_of A) (k : A -> value_of B) : value_of B :=
  match m with
  | Value a => k a
  | Refused message => Refused message
  | Undefined => Undefined
  end.

Notation "'val*' x := m 'in' k" := (vbind m (fun x => k))
  (at level 10, x pattern, m at level 100, k at level 200) : judge_scope.

Definition refuse {A} (what s : bytes) : value_of A :=
  Refused ($"Opts: expected " ++ what ++ $" but '" ++ compress s ++ $"' found").

(** [long double]. *)
Abbreviation ldouble := spec_float.
Definition ladd : ldouble -> ldouble -> ldouble := SFadd 64 16384.
Definition lsub : ldouble -> ldouble -> ldouble := SFsub 64 16384.
Definition lmul : ldouble -> ldouble -> ldouble := SFmul 64 16384.
Definition ldiv : ldouble -> ldouble -> ldouble := SFdiv 64 16384.
Definition ldouble_of_Z (n : Z) : ldouble := binary_normalize 64 16384 n 0 false.

(** A conversion between the two formats; [double] values are exact as
    [long double]. *)
Definition ldouble_of (x : double) : ldouble :=
  match x with
  | S754_finite s m e => binary_normalize 64 16384 (if s then Zneg m else Zpos m) e s
  | _ => x
  end.
Definition double_of (x : ldouble) : double :=
  match x with
  | S754_finite s m e => binary_normalize 53 1024 (if s then Zneg m else Zpos m) e s
  | _ => x
  end.

(** The integral types: [int], [unsigned int], [long long] (and [long]),
    [unsigned long long] (and [unsigned long]). *)
Record int_type := IntType { signed : bool; width : Z }.
Definition T_int := IntType true 32.
Definition T_uint := IntType false 32.
Definition T_ll := IntType true 64.
Definition T_ull := IntType false 64.

(** The result of an operation of exact value [x]. *)
Definition arith (T : int_type) (x : Z) : value_of Z :=
  if signed T then
    if (- 2 ^ (width T - 1) <=? x) && (x <? 2 ^ (width T - 1)) then Value x else Undefined
  else Value (uwrap (width T) x).

(** The two accumulators over the digits. *)
Fixpoint integral_loop (T : int_type) (s_ s : bytes) (value : Z) (about : ldouble)
  : value_of (Z * ldouble) :=
  match s with
  | [] => Value (value, about)
  | c :: s =>
      let x := char_to_int c in
      if (x <? 48) || (57 <? x) then refuse ($"integer") s_
      else
        val* tens := arith T (value * 10) in
        val* sum := arith T (tens + x) in
        val* value := arith T (sum - 48) in
        integral_loop T s_ s value
          (lsub (ladd (lmul about (ldouble_of_Z 10)) (ldouble_of_Z x)) (ldouble_of_Z 48))
  end.

(** The end of [optValueToIntegral], on the rewritten text [s]. *)
Definition integral_of (T : int_type) (nonnegative : bool) (s_ s : bytes) : value_of Z :=
  match s with
  | [] => refuse ($"integer") s_
  | c :: rest =>
      let minus := bool_decide (c = "-"%char) in
      if minus && nonnegative then refuse ($"non-negative integer") s_
      else
        let sign := if minus then -1 else 1 in
        val* (value, about) := integral_loop T s_ (if minus then rest else s) 0 dzero in
        val* value := arith T (value * sign) in
        let about := lmul about (ldouble_of_Z sign) in
        if SFltb (ldouble_of (decimal false 1 (-1))) (SFabs (lsub (ldouble_of_Z value) about))
        then Refused ($"Opts: integer overflow: expected integer but '" ++ compress s_ ++ $"' found")
        else Value value
  end.

Fixpoint floating_loop (s_ s : bytes) (value mul : ldouble) (period : bool) : value_of ldouble :=
  match s with
  | [] => Value value
  | c :: s =>
      let x := char_to_int c in
      if bool_decide (c = "."%char) then
        if period then refuse ($"float number") s_ else floating_loop s_ s value mul true
      else
        let mul := if period then lmul mul (ldouble_of_Z 10) else mul in
        if (x <? 48) || (57 <? x) then refuse ($"float number") s_
        else
          floating_loop s_ s
            (if period then ladd value (ldiv (ldouble_of_Z (x - 48)) mul)
             else lsub (ladd (lmul value (ldouble_of_Z 10)) (ldouble_of_Z x)) (ldouble_of_Z 48))
            mul period
  end.

(** The end of [optValueToLongDouble]. *)
Definition floating_of (s_ s : bytes) : value_of ldouble :=
  match s with
  | [] => refuse ($"float number") s_
  | c :: rest =>
      let minus := bool_decide (c = "-"%char) in
      val* value := floating_loop s_ (if minus then rest else s) dzero (ldouble_of_Z 1) false in
      Value (lmul value (ldouble_of_Z (if minus then -1 else 1)))
  end.

(** ** Exponential notation *)

Definition is_mark (c : ascii) : bool := bool_decide (c = "e"%char) || bool_decide (c = "E"%char).

(** The position of the only exponent mark. *)
Fixpoint mark_loop (s_ s : bytes) (i : Z) (pos : option Z) : value_of (option Z) :=
  match s with
  | [] => Value pos
  | c :: s =>
      if is_mark c then
        match pos with
        | Some _ => refuse ($"typical exponential notation") s_
        | None => mark_loop s_ s (i + 1) (Some i)
        end
      else mark_loop s_ s (i + 1) pos
  end.

Definition drop_plus (s : bytes) : bytes :=
  match s with
  | c :: s' => if bool_decide (c = "+"%char) then s' else s
  | [] => []
  end.

Definition put_char (i : Z) (c : ascii) (s : bytes) : bytes := ztake i s ++ [c] ++ zdrop (i + 1) s.
Definition insert_char (i : Z) (c : ascii) (s : bytes) : bytes := ztake i s ++ [c] ++ zdrop i s.

(** One turn of [for (int i = 0; i < +ne; i++)]. *)
Definition mul_ten (num : bytes) : bytes :=
  match find_char "."%char num with
  | None => num ++ $"0"
  | Some sep =>
      if sep + 1 =? zlen num then put_char sep "0"%char num
      else put_char sep (char_at num (sep + 1)) (put_char (sep + 1) "."%char num)
  end.

(** One turn of [for (int i = 0; i < -ne; i++)]: inserting before the first
    character of an empty text is undefined. *)
Definition div_ten (num : bytes) : value_of bytes :=
  match find_char "."%char num with
  | None => if zlen num =? 0 then Undefined else Value (insert_char (zlen num - 1) "."%char num)
  | Some sep =>
      if sep =? 0 then Value (insert_char 1 "0"%char num)
      else Value (put_char sep (char_at num (sep - 1)) (put_char (sep - 1) "."%char num))
  end.

Fixpoint times {A} (n : nat) (f : A -> value_of A) (a : A) : value_of A :=
  match n with
  | O => Value a
  | S n => val* a := f a in times n f a
  end.

(** [while (!num.empty() && num[0] == '0') num = num.substr(1);] *)
Fixpoint drop_zeroes (num : bytes) : bytes :=
  match num with
  | c :: num' => if bool_decide (c = "0"%char) then drop_zeroes num' else num
  | [] => []
  end.

Definition has_point (num : bytes) : bool := bool_decide ("."%char ∈ num).

(** The zeroes at the end of a text with a point; [num.back()] of the text
    backwards is its head. *)
Definition drop_last_zeroes (num : bytes) : bytes :=
  if has_point num then reverse (drop_zeroes (reverse num)) else num.

Definition drop_last_point (num : bytes) : bytes :=
  match reverse num with
  | c :: r => if bool_decide (c = "."%char) then reverse r else num
  | [] => num
  end.

Definition add_zero (num : bytes) : bytes :=
  match num with
  | [] => $"0"
  | c :: _ => if bool_decide (c = "."%char) then "0"%char :: num else num
  end.

Definition normalize_number (num : bytes) : bytes :=
  add_zero (drop_last_point (drop_last_zeroes (drop_zeroes num))).

Fixpoint parse_exponential (depth : nat) (s : bytes) : value_of bytes :=
  match depth with
  | O => Undefined
  | S depth =>
      val* pos := mark_loop s s 0 None in
      match pos with
      | None => Value s
      | Some pos =>
          let e := drop_plus (zdrop (pos + 1) s) in
          if bool_decide (e = []) || (20 <? zlen e)
          then refuse ($"typical exponential notation") s
          else
            val* e' := parse_exponential depth e in
            val* ne := integral_of T_int false e e' in
            let num := ztake pos s in
            if 20 <? zlen num then refuse ($"typical exponential notation") s
            else
              let num := drop_plus num in
              val* num' := parse_exponential depth num in
              val* _ := floating_of num num' in
              let minus := bool_decide (char_at num 0 = "-"%char) in
              let num := if minus then zdrop 1 num else num in
              val* num := times (Z.to_nat ne) (fun num => Value (mul_ten num)) num in
              val* num := times (Z.to_nat (- ne)) div_ten num in
              Value ((if minus then $"-" else []) ++ normalize_number num)
      end
  end.

Definition parseExponentialOptValue (s : bytes) : value_of bytes := parse_exponential 2 s.

Definition optValueToIntegral (T : int_type) (s_ : bytes) (nonnegative : bool) : value_of Z :=
  val* s := parseExponentialOptValue s_ in integral_of T nonnegative s_ s.

Definition optValueToLongDouble (s_ : bytes) : value_of ldouble :=
  val* s := parseExponentialOptValue s_ in floating_of s_ s.

(** ** [opt] *)

Definition lift_value {A} (m : value_of A) : M A :=
  match m with
  | Value a => ret a
  | Refused message => noreturn (__testlib_fail message)
  | Undefined => stuck
  end.

Definition has_opt (key : bytes) : M bool :=
  do* modify (put_testlib_ensureNoUnusedOptsFlag true) in
  gets (fun w => bool_decide (is_Some (__testlib_opts w !! key))).

(** The types an option is read at. *)
Definition text_value (s : bytes) : M bytes := ret s.
Definition long_double_value (s : bytes) : M ldouble := lift_value (optValueToLongDouble s).
Definition double_value (s : bytes) : M double :=
  let* x := long_double_value s in ret (double_of x).
Definition integral_value (T : int_type) (s : bytes) : M Z :=
  lift_value (optValueToIntegral T s (negb (signed T))).

(** [value] is the text as it stands. *)
Definition bool_value (where_ value : bytes) : M bool :=
  if bool_decide (value = $"true") || bool_decide (value = $"1") then ret true
  else if bool_decide (value = $"false") || bool_decide (value = $"0") then ret false
  else noreturn (__testlib_fail ($"Opts: " ++ where_ ++ $": expected bool true/false or 0/1 but '"
                                 ++ compress value ++ $"' found")).

(** [opt<T>(index)], [opt<bool>(index)] and the version with a default. *)
Definition opt_index {A} (read : bytes -> M A) (index : Z) : M A :=
  let* s := __testlib_indexToArgv index in read s.
Definition opt_index_bool (index : Z) : M bool :=
  let* s := __testlib_indexToArgv index in
  bool_value ($"opt by index '" ++ toString index ++ $"'") s.
Definition opt_index_default {A} (get : Z -> M A) (index : Z) (default_value : A) : M A :=
  let* argv := gets __testlib_argv in
  if zlen argv <=? index then ret default_value else get index.

(** [opt<T>(key)]; a missing [bool] key is [false]. *)
Definition opt_key {A} (read : bytes -> M A) (key : bytes) : M A :=
  let* s := __testlib_keyToOpts key in read s.
Definition opt_key_bool (key : bytes) : M bool :=
  let* found := has_opt key in
  if negb found then ret false
  else let* s := __testlib_keyToOpts key in bool_value ($"key '" ++ compress key ++ $"'") s.
Definition opt_key_default {A} (get : bytes -> M A) (key : bytes) (default_value : A) : M A :=
  let* found := has_opt key in
  if negb found then ret default_value else get key.

Definition suppressEnsureNoUnusedOpts : M unit :=
  modify (put_testlib_ensureNoUnusedOptsSuppressed true).

Example exp_ex : parseExponentialOptValue <$> [ $"1e3"; $"-1.25E+1"; $"12e-3"; $"007"; $"0.0e5"; $"-e-1" ]
  = [Value ($"1000"); Value ($"-12.5"); Value ($"0.012"); Value ($"007"); Value ($"0"); Undefined].
Proof. vm_compute. reflexivity. Qed.
Example int_ex : (fun s => optValueToIntegral T_int s false) <$> [ $"-42"; $"1e9"; $"-"; $"2147483647" ]
  = [Value (-42); Value 1000000000; Value 0; Undefined].
Proof. vm_compute. reflexivity. Qed.
