(* ===== verification/Generator.v ===== *)
(** * Generators ([src/support/testlib.h]): the global generator, its
    registration, and the output functions

    [rnd] is a global [random_t]: its seed is part of the [World], and a
    drawing that fails calls [__testlib_fail]. *)

From S2P Require Import Prelude Text Doubles Readers Validator Streams World Pattern Reading Numbers Register Random Opts.

(** ** The global [rnd] *)

Definition rnd {A} (m : draw A) : M A := fun w =>
  match m (rnd_version w) (rnd_seed w) with
  | Drawn a seed => MRet a (put_rnd_seed seed w)
  | DrawFail message => MHalt (__testlib_fail message w)
  | DrawUndef => MHalt HStuck
  end.

(** [registerGen(argc, argv, randomGeneratorVersion)] *)
Definition registerGen (argv : list bytes) (randomGeneratorVersion : Z) : M unit :=
  do* when ((randomGeneratorVersion <? 0) || (1 <? randomGeneratorVersion))
        (noreturn (quitf _fail ($"Random generator version is expected to be 0 or 1.") [])) in
  do* modify (put_rnd_version randomGeneratorVersion) in
  do* __testlib_ensuresPreconditions in
  do* modify (put_registered true) in
  do* modify (put_testlibMode _generator) in
  do* modify (put_rnd_seed (setSeed_args (drop 1 argv))) in
  prepareOpts argv.

Definition registerGen_warning : bytes :=
  $"Use registerGen(argc, argv, 0) or registerGen(argc, argv, 1)." ++
  $" The third parameter stands for the random generator version." ++
  $" If you are trying to compile old generator use macro -DUSE_RND_AS_BEFORE_087 or registerGen(argc, argv, 0)." ++
  $" Version 1 has been released on Spring, 2013. Use it to write new generators." ++ newline ++ newline.

(** [registerGen(argc, argv)], deprecated. *)
Definition registerGen_old (argv : list bytes) : M unit :=
  do* modify (eprint registerGen_warning) in registerGen argv 0.

(** [shuffle(first, last)] on the elements of the range. *)
Definition shuffle_range {A} (elements : list A) : M (list A) :=
  rnd (Random.shuffle elements).

(** The library functions testlib replaces by failures. *)
Definition random_shuffle : M unit :=
  noreturn (quitf _fail ($"Don't use random_shuffle(), use shuffle() instead") []).
Definition rand : M Z := noreturn (quitf _fail ($"Don't use rand(), use rnd.next() instead") []).

Definition srand_format : bytes :=
  $"Don't use srand(), you should use " ++
  $"'registerGen(argc, argv, 1);' to initialize generator seed " ++
  $"by hash code of the command line params. The third parameter " ++
  $"is randomGeneratorVersion (currently the latest is 1) [ignored seed=%d].".

(** The format says [%u]; the seed is printed unsigned. *)
Definition srand (seed : Z) : M unit :=
  noreturn (quitf _fail srand_format [FInt (uwrap 32 seed)]).

(** ** Printing *)

(** What is printed: a value with its text, a collection of texts. *)
Inductive printable :=
| One (text : bytes)
| Many (texts : list bytes).

(** The separator comes before every element but the first. *)
Fixpoint print_separated {A} (print_one : A -> M unit) (first : bool) (elements : list A) : M unit :=
  match elements with
  | [] => ret tt
  | x :: elements =>
      do* when (negb first) (modify (print ($" "))) in
      do* print_one x in
      print_separated print_one false elements
  end.

Definition print_text (t : bytes) : M unit := modify (print t).

Definition __testlib_print_one (t : printable) : M unit :=
  match t with
  | One text => print_text text
  | Many texts => print_separated print_text true texts
  end.

(** [std::endl]. *)
Definition endl : M unit := modify (print newline).

Definition __println_range (elements : list printable) : M unit :=
  do* print_separated __testlib_print_one true elements in endl.

(** [println] of one to seven arguments. *)
Definition println (args : list printable) : M unit :=
  do* print_separated __testlib_print_one true args in endl.

(** [startTest(test)]: standard output goes on in the file named by the
    number of the test. *)
Definition startTest (test : Z) : M unit := fun w =>
  let testFileName := vtos test in
  if can_write (env w) testFileName
  then MRet tt (put_w_stdout_file (Some testFileName) (put_file testFileName [] w))
  else MHalt (__testlib_fail ($"Unable to write file '" ++ testFileName ++ $"'") w).
