(* ===== verification/Scorer.v ===== *)
(** * Scorers ([src/support/testlib.h], lines 5839 to 6148)

    A scorer reads one serialized [TestResult] a line and prints the score.
    The verdicts, the serialization with its escapes, the reader of a file of
    results, and the guard whose destructor runs the scorer.

    [std::stoi] and [std::stoll] throw on a text without a number of their
    range; nothing catches it, so the process is aborted ([Throws]). *)

From Stdlib Require Import SpecFloat.
From S2P Require Import Prelude Text Doubles Readers Validator Streams World Pattern Reading Numbers Register.

Inductive TestResultVerdict :=
| SKIPPED | OK | WRONG_ANSWER | RUNTIME_ERROR | TIME_LIMIT_EXCEEDED | IDLENESS_LIMIT_EXCEEDED
| MEMORY_LIMIT_EXCEEDED | COMPILATION_ERROR | CRASHED | FAILED.

#[export] Instance TestResultVerdict_eq_dec : EqDecision TestResultVerdict.
Proof. solve_decision. Defined.

Definition serializeVerdict (verdict : TestResultVerdict) : bytes :=
  match verdict with
  | SKIPPED => $"SKIPPED"
  | OK => $"OK"
  | WRONG_ANSWER => $"WRONG_ANSWER"
  | RUNTIME_ERROR => $"RUNTIME_ERROR"
  | TIME_LIMIT_EXCEEDED => $"TIME_LIMIT_EXCEEDED"
  | IDLENESS_LIMIT_EXCEEDED => $"IDLENESS_LIMIT_EXCEEDED"
  | MEMORY_LIMIT_EXCEEDED => $"MEMORY_LIMIT_EXCEEDED"
  | COMPILATION_ERROR => $"COMPILATION_ERROR"
  | CRASHED => $"CRASHED"
  | FAILED => $"FAILED"
  end.

(** ** Results of parsing *)

Inductive parsed (A : Type) :=
| Parsed (a : A)
| Ensured (message : bytes)
| Throws.
Arguments Parsed {A}. Arguments Ensured {A}. Arguments Throws {A}.

Definition pbind {A B} (m : parsed A) (k : A -> parsed B) : parsed B :=
  match m with
  | Parsed a => k a
  | Ensured message => Ensured message
  | Throws => Throws
  end.

Notation "'parse*' x := m 'in' k" := (pbind m (fun x => k))
  (at level 10, x pattern, m at level 100, k at level 200) : judge_scope.

Definition deserializeTestResultVerdict (s : bytes) : parsed TestResultVerdict :=
  if bool_decide (s = $"SKIPPED") then Parsed SKIPPED
  else if bool_decide (s = $"OK") then Parsed OK
  else if bool_decide (s = $"WRONG_ANSWER") then Parsed WRONG_ANSWER
  else if bool_decide (s = $"RUNTIME_ERROR") then Parsed RUNTIME_ERROR
  else if bool_decide (s = $"TIME_LIMIT_EXCEEDED") then Parsed TIME_LIMIT_EXCEEDED
  else if bool_decide (s = $"IDLENESS_LIMIT_EXCEEDED") then Parsed IDLENESS_LIMIT_EXCEEDED
  else if bool_decide (s = $"MEMORY_LIMIT_EXCEEDED") then Parsed MEMORY_LIMIT_EXCEEDED
  else if bool_decide (s = $"COMPILATION_ERROR") then Parsed COMPILATION_ERROR
  else if bool_decide (s = $"CRASHED") then Parsed CRASHED
  else if bool_decide (s = $"FAILED") then Parsed FAILED
  else Ensured ($"Unexpected serialized TestResultVerdict").

(** ** Results of a test *)

Record TestResult := MkTestResult {
  testIndex : Z;
  testset : bytes;
  group : bytes;
  verdict : TestResultVerdict;
  points : double;
  timeConsumed : Z;
  memoryConsumed : Z;
  input : bytes;
  output : bytes;
  answer : bytes;
  exitCode : Z;
  checkerComment : bytes }.

(** [snprintf(c, 64, "%.03lf", points)]. *)
Definition serializePoints (points : double) : bytes :=
  match points with
  | S754_nan => []
  | _ => ztake 63 (fmt_fixed 3 points)
  end.

(** ** [sscanf(s, "%lf", &result)]

    White space, a sign, then a decimal, a hexadecimal number, an infinity or
    a NaN. *)

Definition hex_value (c : ascii) : option Z :=
  let x := char_to_int c in
  if is_digit c then Some (x - 48)
  else if (97 <=? x) && (x <=? 102) then Some (x - 87)
  else if (65 <=? x) && (x <=? 70) then Some (x - 55)
  else None.

(** The value of a run of hexadecimal digits, their number, what follows. *)
Fixpoint scan_hex (s : bytes) (acc count : Z) : Z * Z * bytes :=
  match s with
  | c :: s' => match hex_value c with
               | Some d => scan_hex s' (acc * 16 + d) (count + 1)
               | None => (acc, count, s)
               end
  | [] => (acc, count, [])
  end.

(** The exponent after the mark [p], zero if there is none. *)
Definition scan_exponent (s : bytes) : Z :=
  match s with
  | c :: s => if bool_decide (lowerCase [c] = $"p") then
                let '(neg, digits) := scan_sign s in
                let '(e, _, _) := scan_digits digits 0 0 in if neg : bool then - e else e
              else 0
  | [] => 0
  end.

Definition hex_float (neg : bool) (s : bytes) : option double :=
  let '(ip, ni, s1) := scan_hex s 0 0 in
  let '(m, nf, s2) := match s1 with
                      | c :: s1' => if bool_decide (c = "."%char) then scan_hex s1' ip 0 else (ip, 0, s1)
                      | [] => (ip, 0, s1)
                      end in
  if ni + nf =? 0 then None
  else Some (binary_normalize 53 1024 (if neg then - m else m) (scan_exponent s2 - 4 * nf) neg).

Definition sscanf_lf (s : bytes) : option double :=
  let s := drop_while is_space s in
  let '(neg, body) := scan_sign s in
  let low := lowerCase body in
  if is_prefix ($"nan") low then Some S754_nan
  else if is_prefix ($"inf") low then
    if is_prefix ($"infi") low && negb (is_prefix ($"infinity") low) then None
    else Some (S754_infinity neg)
  else if is_prefix ($"0x") low then hex_float neg (zdrop 2 body)
  else let '(scanned, x, _) := sscanf_lf_s s in if scanned =? 0 then None else Some x.

Definition deserializePoints (s : bytes) : parsed double :=
  if bool_decide (s = []) then Parsed S754_nan
  else match sscanf_lf (c_str s) with
       | Some result => Parsed result
       | None => Ensured ($"Invalid serialized points")
       end.

(** ** Escapes *)

Definition backslash : ascii := "\"%char.
Definition semicolon : ascii := ";"%char.

Fixpoint escapeTestResultString (s : bytes) : bytes :=
  match s with
  | [] => []
  | c :: s =>
      if bool_decide (c = cr_char) then escapeTestResultString s
      else if bool_decide (c = lf_char) then [backslash; "n"%char] ++ escapeTestResultString s
      else (if bool_decide (c = backslash) || bool_decide (c = semicolon) then [backslash] else [])
           ++ [c] ++ escapeTestResultString s
  end.

Fixpoint unescapeTestResultString (s : bytes) : bytes :=
  match s with
  | [] => []
  | c :: s1 =>
      match s1 with
      | d :: s2 =>
          if bool_decide (c = backslash) then
            if bool_decide (d = "n"%char) then lf_char :: unescapeTestResultString s2
            else if bool_decide (d = semicolon) || bool_decide (d = backslash)
            then d :: unescapeTestResultString s2
            else c :: unescapeTestResultString s1
          else c :: unescapeTestResultString s1
      | [] => [c]
      end
  end.

(** ** Serialization *)

(** The twelve fields of a line. *)
Definition result_items (tr : TestResult) : list bytes :=
  [ vtos (testIndex tr);
    escapeTestResultString (testset tr);
    escapeTestResultString (group tr);
    serializeVerdict (verdict tr);
    serializePoints (points tr);
    vtos (timeConsumed tr);
    vtos (memoryConsumed tr);
    escapeTestResultString (input tr);
    escapeTestResultString (output tr);
    escapeTestResultString (answer tr);
    vtos (exitCode tr);
    escapeTestResultString (checkerComment tr) ].

Definition serializeTestResult (tr : TestResult) : bytes := join (result_items tr) [semicolon].

(** The fields of a line: [t] is the one being read. *)
Fixpoint split_items (s t : bytes) : list bytes :=
  match s with
  | [] => [t]
  | c :: s1 =>
      if bool_decide (c = backslash) then
        match s1 with
        | [] => [t ++ [c]]
        | d :: s2 => split_items s2 (t ++ [c; d])
        end
      else if bool_decide (c = semicolon) then t :: split_items s1 []
      else split_items s1 (t ++ [c])
  end.

(** [std::stoi], [std::stoll]. *)
Definition stox (min_ max_ : Z) (s : bytes) : parsed Z :=
  let '(neg, digits) := scan_sign (drop_while is_space (c_str s)) in
  let '(v, n, _) := scan_digits digits 0 0 in
  if n =? 0 then Throws
  else let v := if neg : bool then - v else v in
       if (min_ <=? v) && (v <=? max_) then Parsed v else Throws.
Definition stoi : bytes -> parsed Z := stox INT_MIN INT_MAX.
Definition stoll : bytes -> parsed Z := stox LLONG_MIN LLONG_MAX.

Definition deserializeTestResult (s : bytes) : parsed TestResult :=
  match split_items s [] with
  | [i0; i1; i2; i3; i4; i5; i6; i7; i8; i9; i10; i11] =>
      parse* testIndex := stoi i0 in
      parse* verdict := deserializeTestResultVerdict i3 in
      parse* points := deserializePoints i4 in
      parse* timeConsumed := stoll i5 in
      parse* memoryConsumed := stoll i6 in
      parse* exitCode := stoi i10 in
      Parsed (MkTestResult testIndex (unescapeTestResultString i1) (unescapeTestResultString i2)
                verdict points timeConsumed memoryConsumed
                (unescapeTestResultString i7) (unescapeTestResultString i8)
                (unescapeTestResultString i9) exitCode (unescapeTestResultString i11))
  | _ => Ensured ($"Invalid TestResult serialization: expected exactly 12 items")
  end.

(** ** Files of results *)

(** The results of the lines that are not empty, in order. *)
Fixpoint deserialize_lines (lines : list bytes) : parsed (list TestResult) :=
  match lines with
  | [] => Parsed []
  | line :: lines =>
      if bool_decide (line = []) then deserialize_lines lines
      else parse* tr := deserializeTestResult line in
           parse* rest := deserialize_lines lines in
           Parsed (tr :: rest)
  end.

(** [getline] until it fails: what follows the last line feed is a line if it
    is not empty (an empty one would be skipped). *)
Definition readTestResults (files : gmap bytes bytes) (fileName : bytes) : parsed (list TestResult) :=
  match files !! c_str fileName with
  | None => Ensured (testlib_format_ ($"Can't read test results file '%s'") [FStr (c_str fileName)])
  | Some text => deserialize_lines (split_char text lf_char)
  end.

(** ** The guard *)

Definition lift_parsed {A} (m : parsed A) : M A :=
  match m with
  | Parsed a => ret a
  | Ensured message => noreturn (gquit _fail message)
  | Throws => stuck
  end.

(** [while (!inf.eof())]. *)
Fixpoint guard_loop (fuel : nat) (testResults : list TestResult) : M (list TestResult) :=
  match fuel with
  | O => stuck
  | S fuel =>
      let* at_end := on_stream INF eof in
      if at_end : bool then ret testResults
      else
        let* line := readLine INF in
        if bool_decide (line = []) then guard_loop fuel testResults
        else let* tr := lift_parsed (deserializeTestResult line) in
             guard_loop fuel (testResults ++ [tr])
  end.

(** [~TestlibScorerGuard()]. *)
Definition scorer_guard (scorer : list TestResult -> double) : M unit := fun w =>
  (if bool_decide (testlibMode w = _scorer) then
     let* testResults := guard_loop (S (stream_fuel (inf w))) [] in
     do* readEof INF in
     modify (print (testlib_format_ ($"%.3f") [FDbl (scorer testResults)] ++ newline))
   else ret tt) w.

(** A process with this [main] and scorer.  Static objects are destroyed in
    the reverse order of their definitions: the finalize guard, defined last,
    before the scorer guard.  An [exit] in a destructor goes on with the
    remaining ones. *)
Definition run_scorer (main : M unit) (scorer : list TestResult -> double) (e : Env) : halted :=
  match run_program main e with
  | HStuck => HStuck
  | HExit code w => match scorer_guard scorer w with
                    | MRet _ w => HExit code w
                    | MHalt h => h
                    end
  end.
