(* ===== verification/TextSpec.v ===== *)
(** * Splitting, joining and decimal text

    [split] and [join] are inverse to each other; [tokenize] is [split] without
    the empty items.  The lemmas here serve the Go paths and the serialized
    test results as well. *)

From S2P Require Import Prelude Text.

(** ** Splitting at one character *)

Section Split.
Context (sep : ascii).
Implicit Types (s item : bytes) (items : list bytes).

Let is_sep (c : ascii) : bool := bool_decide (c = sep).

Lemma split_loop_avoids e s item : sep ∉ e ->
  split_loop is_sep (e ++ s) item = split_loop is_sep s (item ++ e).
Proof.
  revert item. induction e as [|c e IH]; intros item He; [by rewrite app_nil_r|].
  apply not_elem_of_cons in He as [Hc He]. simpl. unfold is_sep at 1.
  rewrite bool_decide_false by congruence. rewrite IH by done. by rewrite <- app_assoc.
Qed.

Lemma split_loop_item s item :
  Forall (fun e => sep ∉ e) (split_loop is_sep s item) <-> sep ∉ item.
Proof.
  revert item. induction s as [|c s IH]; intros item; simpl.
  - by rewrite Forall_singleton.
  - unfold is_sep at 1. case_bool_decide.
    + rewrite Forall_cons_iff, IH. split; [tauto|]. intros ?. split; [done|]. apply not_elem_of_nil.
    + rewrite IH, elem_of_app, list_elem_of_singleton. naive_solver.
Qed.

Lemma split_loop_length s item :
  length (split_loop is_sep s item) = S (length (base.filter (fun c => c = sep) s)).
Proof.
  revert item. induction s as [|c s IH]; intros item; [done|]. simpl. unfold is_sep at 1.
  rewrite filter_cons. case_bool_decide; case_decide; try done; simpl; by rewrite IH.
Qed.
End Split.

Lemma join_loop (es : list bytes) (sep ss : bytes) :
  foldl (fun '(ss, repeated) i => ((if repeated : bool then ss ++ sep else ss) ++ i, true))
        (ss, true) es
  = (ss ++ mbind (fun e => sep ++ e) es, true).
Proof.
  revert ss. induction es as [|e es IH]; intros ss; simpl; [by rewrite app_nil_r|].
  rewrite IH. by rewrite <- !app_assoc.
Qed.

Lemma join_cons (e : bytes) (es : list bytes) (sep : bytes) :
  join (e :: es) sep = e ++ mbind (fun e => sep ++ e) es.
Proof. unfold join. simpl. by rewrite join_loop. Qed.

(** Splitting a joined list gives the list back, except for no item at all. *)
Lemma split_join sep items : items <> [] -> Forall (fun e => sep ∉ e) items ->
  split_char (join items [sep]) sep = items.
Proof.
  destruct items as [|e es]; [done|]. intros _. rewrite join_cons. unfold split_char. revert e.
  assert (H : forall es e item, sep ∉ e -> Forall (fun e => sep ∉ e) es ->
    split_loop (fun c => bool_decide (c = sep)) (e ++ mbind (fun e => [sep] ++ e) es) item
    = (item ++ e) :: es).
  { clear. intros es'. induction es' as [|e' es' IH]; intros e item He Hes.
    - simpl. by rewrite split_loop_avoids.
    - rewrite split_loop_avoids by done. simpl. rewrite bool_decide_true by done. f_equal.
      apply (IH e' []); [by apply Forall_inv in Hes | by apply Forall_inv_tail in Hes]. }
  intros e He. apply (H es e []); [by apply Forall_inv in He | by apply Forall_inv_tail in He].
Qed.

Lemma join_split_loop sep s item :
  join (split_loop (fun c => bool_decide (c = sep)) s item) [sep] = item ++ s.
Proof.
  revert item. induction s as [|c s IH]; intros item; simpl.
  - by rewrite join_cons, !app_nil_r.
  - case_bool_decide as Hc; [|by rewrite IH, <- app_assoc].
    subst c. rewrite join_cons. specialize (IH []).
    destruct (split_loop _ s []) as [|e es] eqn:E.
    { by apply (f_equal length) in E; rewrite split_loop_length in E. }
    rewrite join_cons in IH. simpl. f_equal. f_equal. exact IH.
Qed.

(** [tokenize] drops the empty items. *)
Lemma tokenize_loop_split (isSep : ascii -> bool) s item :
  tokenize_loop isSep s item = base.filter (fun e => e <> []) (split_loop isSep s item).
Proof.
  revert item. induction s as [|c s IH]; intros item; simpl.
  - rewrite filter_cons, filter_nil. case_bool_decide; case_decide; done || congruence.
  - destruct (isSep c); [|apply IH].
    rewrite IH, filter_cons. case_bool_decide; case_decide; done || congruence.
Qed.

(** [split] at a character returns one item more than there are
    separators, none with a separator, whose [join] is the text again;
    splitting the [join] of items without separators returns the items; and
    [tokenize] returns the items of [split] that are not empty. *)
Theorem split_correct (sep : ascii) (s : bytes) (items : list bytes) :
  length (split_char s sep) = S (length (base.filter (fun c => c = sep) s))
  /\ Forall (fun e => sep ∉ e) (split_char s sep)
  /\ join (split_char s sep) [sep] = s
  /\ (items <> [] -> Forall (fun e => sep ∉ e) items -> split_char (join items [sep]) sep = items)
  /\ tokenize_char s sep = base.filter (fun e => e <> []) (split_char s sep).
Proof.
  split; [apply split_loop_length|]. split; [apply split_loop_item, not_elem_of_nil|].
  split; [apply join_split_loop|]. split; [apply split_join|apply tokenize_loop_split].
Qed.

Lemma split_correct_witness :
  split_char (join [ $"a"; []; $"bc" ] ($",")) ","%char = [ $"a"; []; $"bc" ].
Proof.
  apply (split_correct ","%char [] [ $"a"; []; $"bc" ]); [done|].
  repeat constructor; by apply (bool_decide_unpack _).
Defined.
