(* ===== verification/ReaderSpec.v ===== *)
(** * Readers as text: a script of calls

    Whatever is done to a reader with at most the put-backs it allows, its
    answers are those of the plain text it holds.  The two-megabyte window of
    the buffered reader is therefore invisible: it answers like a string. *)

From S2P Require Import Prelude Text Readers ReaderRep.

(** The calls of the stream functions: look at the next character, take it,
    skip it after a look, put one back, ask for the end. *)
Inductive call :=
| PeekChar
| TakeChar
| PeekSkip
| PutBack (c : ascii)
| AtEnd.

Definition answer : Type := Z + bool.

(** The answers of a text [l] that allows [n] put-backs; [None] when the
    script puts back more than it took, or skips at the end. *)
Fixpoint text_run (calls : list call) (l : bytes) (n : nat) : option (list answer) :=
  match calls with
  | [] => Some []
  | PeekChar :: calls => cons (inl (head_int l)) <$> text_run calls l n
  | TakeChar :: calls =>
      match l with
      | [] => cons (inl EOFC) <$> text_run calls [] 0
      | c :: l => cons (inl (char_to_int c)) <$> text_run calls l (S (Nat.min n 7))
      end
  | PeekSkip :: calls =>
      match l with
      | [] => None
      | c :: l => cons (inl (char_to_int c)) <$> text_run calls l (S (Nat.min n 7))
      end
  | PutBack c :: calls =>
      match n with
      | O => None
      | S n => text_run calls (c :: l) n
      end
  | AtEnd :: calls => cons (inr (bool_decide (l = []))) <$> text_run calls l n
  end.

(** The answers of a reader. *)
Fixpoint reader_run {R} `{InputStreamReader R} (calls : list call) (r : R) : rres (list answer) :=
  match calls with
  | [] => RRet []
  | PeekChar :: calls =>
      let% (c, r) := rd_curChar r in
      let% rest := reader_run calls r in RRet (inl c :: rest)
  | TakeChar :: calls =>
      let% (c, r) := rd_nextChar r in
      let% rest := reader_run calls r in RRet (inl c :: rest)
  | PeekSkip :: calls =>
      let% (c, r) := rd_curChar r in
      let% r := rd_skipChar r in
      let% rest := reader_run calls r in RRet (inl c :: rest)
  | PutBack c :: calls =>
      let% r := rd_unreadChar (char_to_int c) r in reader_run calls r
  | AtEnd :: calls =>
      let% (b, r) := rd_eof r in
      let% rest := reader_run calls r in RRet (inr b :: rest)
  end.

Section Refines.
Context {R : Type} `{ReaderRep R}.

Lemma reader_refines calls (r : R) l n answers : rep r l n -> text_run calls l n = Some answers ->
  reader_run calls r = RRet answers.
Proof.
  revert r l n answers. induction calls as [|call calls IH]; intros r l n answers Hr E; [by injection E as <-|].
  assert (Hmin : (Nat.min n 7 < max_pushback)%nat) by (unfold max_pushback; lia).
  assert (Hweak : rep r l (Nat.min n 7)) by (eapply rep_weaken; [done|lia]).
  destruct call as [| | |c|]; simpl in E |- *.
  - apply fmap_Some in E as (rest & Hrest & ->).
    destruct (rep_cur _ _ _ Hr) as (r' & -> & Hr' & _). simpl. by rewrite (IH _ _ _ _ Hr' Hrest).
  - destruct l as [|c l]; apply fmap_Some in E as (rest & Hrest & ->).
    + destruct (rep_next_nil _ _ Hr) as (r' & -> & Hr' & _). simpl. by rewrite (IH _ _ _ _ Hr' Hrest).
    + destruct (rep_next_cons _ _ _ _ Hweak Hmin) as (r' & -> & Hr'). simpl.
      by rewrite (IH _ _ _ _ Hr' Hrest).
  - destruct l as [|c l]; [done|]. apply fmap_Some in E as (rest & Hrest & ->).
    destruct (rep_cur _ _ _ Hweak) as (r1 & -> & Hr1 & Hready). simpl.
    destruct (rep_skip _ _ _ _ Hr1 (Hready ltac:(done)) Hmin) as (r' & -> & Hr'). simpl.
    by rewrite (IH _ _ _ _ Hr' Hrest).
  - destruct n as [|n]; [done|]. destruct (rep_unread _ c _ _ Hr) as (r' & -> & Hr'). simpl.
    by apply (IH _ _ _ _ Hr').
  - apply fmap_Some in E as (rest & Hrest & ->).
    destruct (rep_eof _ _ _ Hr) as (r' & -> & Hr'). simpl. by rewrite (IH _ _ _ _ Hr' Hrest).
Qed.
End Refines.

#[local] Transparent string_rep.
Lemma string_fresh s : rep (StringReader.Mk s 0) s 0.
Proof. unfold rep. simpl. unfold str_rep. simpl. unfold max_pushback. repeat split; lia || done. Qed.
#[local] Opaque string_rep.

(** C27: on every script of calls that puts back no more than it took, the
    reader with the two-megabyte buffer gives exactly the answers of the
    file's text, and so those of the string reader on that text: the window,
    its refills and the put-backs across its border are invisible. *)
Theorem buffered_reader_refines calls (f : FILE) name answers :
  has_error f = false -> text_run calls (content f) 0 = Some answers ->
  reader_run calls (BufferedReader.make f name) = RRet answers
  /\ reader_run calls (StringReader.Mk (content f) 0) = RRet answers.
Proof.
  intros Hf E. split; (eapply reader_refines; [|exact E]).
  - eapply rep_weaken; [by apply buffered_make|lia].
  - apply string_fresh.
Qed.

Lemma buffered_reader_refines_witness :
  let f := MkFILE ($"ab") false false in
  reader_run [TakeChar; PeekSkip; AtEnd; PutBack "c"%char; PutBack "d"%char; TakeChar; PeekChar; TakeChar; TakeChar]
    (BufferedReader.make f ($"f"))
  = RRet [inl 97; inl 98; inr true; inl 100; inl 99; inl 99; inl EOFC].
Proof. intros f. by apply (buffered_reader_refines _ f ($"f")). Defined.
