(* ===== verification/StreamSpec.v ===== *)
(** * What the stream functions compute

    The stream functions against the bytes left in the stream.
    [stream_has (l, n) m s] says that the non-strict stream [s] of mode [m]
    still holds the bytes [l] and can take [n] put-backs; every function of
    [Streams.v] used by the checkers is a function of [l] under it, whatever
    reader is behind the stream. *)

From S2P Require Import Prelude Text Readers ReaderRep Streams.

(** ** Specification functions on byte sequences *)

(** The rest after the leading blanks. *)
Fixpoint skip_blanks (l : bytes) : bytes :=
  match l with
  | c :: l' => if blank_char c then skip_blanks l' else l
  | [] => []
  end.

(** The characters up to the first blank, and the rest. *)
Fixpoint take_word (l : bytes) : bytes :=
  match l with
  | c :: l' => if blank_char c then [] else c :: take_word l'
  | [] => []
  end.

Fixpoint drop_word (l : bytes) : bytes :=
  match l with
  | c :: l' => if blank_char c then l else drop_word l'
  | [] => []
  end.

(** The maximal blank-free words of a text. *)
Fixpoint tokens_loop (l cur : bytes) : list bytes :=
  match l with
  | [] => if bool_decide (cur = []) then [] else [cur]
  | c :: l' =>
      if blank_char c
      then (if bool_decide (cur = []) then [] else [cur]) ++ tokens_loop l' []
      else tokens_loop l' (cur ++ [c])
  end.
Definition tokens (l : bytes) : list bytes := tokens_loop l [].

(** *** Lines *)

Definition is_code (n : Z) (c : ascii) : bool := char_to_int c =? n.

(** The line [readStringTo] collects and what it stops in front of.  A
    carriage return before a line feed ends the line; any other is dropped and
    the character after it is kept, whatever it is: at the end of the text
    that is the end-of-file mark, byte 255. *)
Fixpoint raw_line (l : bytes) : bytes * bytes :=
  match l with
  | [] => ([], [])
  | c :: l' =>
      if is_code LF c then ([], l)
      else if is_code CR c then
        match l' with
        | [] => ([int_to_char EOFC], [])
        | d :: l'' =>
            if is_code LF d then ([], l)
            else let '(x, r) := raw_line l'' in (d :: x, r)
        end
      else let '(x, r) := raw_line l' in (c :: x, r)
  end.

(** The rest after the end of line [eoln] skips. *)
Definition drop_eoln (l : bytes) : bytes :=
  match l with
  | c :: l' =>
      if is_code LF c then l'
      else match l' with
           | d :: l'' => if is_code CR c && is_code LF d then l'' else l
           | [] => l
           end
  | [] => []
  end.

Definition read_line (l : bytes) : bytes * bytes :=
  let '(x, r) := raw_line l in (x, drop_eoln r).

(** The lines the checkers see: [while (!eof()) { read; stop at an empty last
    one; }]. *)
Fixpoint text_lines_loop (fuel : nat) (l : bytes) : list bytes :=
  match fuel with
  | O => []
  | S fuel =>
      if bool_decide (l = []) then []
      else let '(x, r) := read_line l in
           if bool_decide (x = []) && bool_decide (r = []) then [] else x :: text_lines_loop fuel r
  end.
Definition text_lines (l : bytes) : list bytes := text_lines_loop (S (length l)) l.

Definition strip_bom (l : bytes) : bytes :=
  if is_prefix utf8Bom l then drop 3 l else l.

(** ** The state of a stream *)

Definition TOKEN_LIMIT : Z := 32 * 1024 * 1024.

Record stream_has (x : bytes * nat) (m : TMode) (s : InStream) : Prop := StreamHas {
  sh_reader : exists r, reader s = Some r /\ rep r (fst x) (snd x);
  sh_lax : strict s = false;
  sh_mode : mode s = m;
  sh_limit : maxTokenLength s = TOKEN_LIMIT }.

Definition stream_ready (s : InStream) : Prop :=
  exists r, reader s = Some r /\ ready r.

(** ** Words *)

Lemma take_drop_word l : take_word l ++ drop_word l = l.
Proof. induction l as [|c l IH]; [done|]; simpl. case_match; [done|]. simpl. by rewrite IH. Qed.

Lemma tokens_loop_word l cur : cur ++ take_word l <> [] ->
  tokens_loop l cur = (cur ++ take_word l) :: tokens_loop (drop_word l) [].
Proof.
  revert cur. induction l as [|c l IH]; intros cur Hne; simpl in *.
  - rewrite app_nil_r in *. by rewrite bool_decide_false.
  - case_match eqn:E.
    + rewrite app_nil_r in *. rewrite bool_decide_false by done. simpl. by rewrite E.
    + rewrite IH.
      * by rewrite <- app_assoc.
      * by destruct cur.
Qed.

Lemma tokens_skip_blanks l : tokens (skip_blanks l) = tokens l.
Proof.
  unfold tokens. induction l as [|c l IH]; [done|]; simpl. case_match eqn:E; [by rewrite IH|].
  simpl. by rewrite E.
Qed.

Lemma skip_blanks_head l c l' : skip_blanks l = c :: l' -> blank_char c = false.
Proof.
  induction l as [|d l IH]; simpl; [done|]. destruct (blank_char d) eqn:E; [done|].
  intros [= -> ->]. done.
Qed.

(** The next token of a text that is not all blanks. *)
Lemma tokens_next l c l' : skip_blanks l = c :: l' ->
  tokens l = take_word (skip_blanks l) :: tokens (drop_word (skip_blanks l)).
Proof.
  intros E. rewrite <- tokens_skip_blanks. unfold tokens at 1. rewrite tokens_loop_word; [done|].
  rewrite E. simpl. by rewrite (skip_blanks_head _ _ _ E).
Qed.

Lemma tokens_end l : skip_blanks l = [] -> tokens l = [].
Proof. intros E. by rewrite <- tokens_skip_blanks, E. Qed.

Lemma tokens_nil_iff l : tokens l = [] <-> skip_blanks l = [].
Proof.
  split; [|apply tokens_end]. destruct (skip_blanks l) as [|c l'] eqn:E; [done|].
  by rewrite (tokens_next _ _ _ E).
Qed.

Lemma skip_blanks_length l : (length (skip_blanks l) <= length l)%nat.
Proof. induction l as [|c l IH]; simpl; [lia|]. case_match; simpl; lia. Qed.

Lemma drop_word_length l : (length (drop_word l) <= length l)%nat.
Proof. induction l as [|c l IH]; simpl; [lia|]. case_match; simpl; lia. Qed.

Lemma take_word_length l : (length (take_word l) <= length l)%nat.
Proof. induction l as [|c l IH]; simpl; [lia|]. case_match; simpl; lia. Qed.

Lemma tokens_length l : (length (tokens l) <= length l)%nat.
Proof.
  assert (H : forall cur, (length (tokens_loop l cur) <= length l + length cur)%nat).
  { induction l as [|c l IH]; intros cur; simpl.
    - case_bool_decide; simpl; [lia|]. destruct cur; simpl; [done|lia].
    - case_match.
      + rewrite length_app. specialize (IH []). simpl in IH.
        case_bool_decide; simpl; [lia|]. destruct cur; simpl; [done|lia].
      + specialize (IH (cur ++ [c])). rewrite length_app in IH. simpl in IH. lia. }
  specialize (H []). simpl in H. unfold tokens. lia.
Qed.

Lemma tokens_elem_length l x : x ∈ tokens l -> (length x <= length l)%nat.
Proof.
  assert (H : forall cur, x ∈ tokens_loop l cur -> (length x <= length l + length cur)%nat).
  { induction l as [|c l IH]; intros cur; simpl.
    - case_bool_decide; [by intros ?%not_elem_of_nil|]. intros ->%list_elem_of_singleton. lia.
    - case_match.
      + intros [Hx|Hx]%elem_of_app; [|specialize (IH [] Hx); simpl in IH; lia].
        case_bool_decide; [by apply not_elem_of_nil in Hx|]. apply list_elem_of_singleton in Hx as ->. lia.
      + intros Hx. specialize (IH _ Hx). rewrite length_app in IH. simpl in IH. lia. }
  intros Hx. specialize (H [] Hx). simpl in H. lia.
Qed.

(** ** Lines *)

(** What a line reader stops at. *)
Definition line_end (r : bytes) : Prop :=
  match r with
  | [] => True
  | c :: r' => is_code LF c = true \/
      (is_code CR c = true /\ match r' with d :: _ => is_code LF d = true | [] => False end)
  end.

Lemma raw_line_ind' (P : bytes -> Prop) : P [] ->
  (forall c l, P l -> (forall d l', l = d :: l' -> P l') -> P (c :: l)) -> forall l, P l.
Proof.
  intros H0 Hc. assert (H : forall n l, (length l <= n)%nat -> P l).
  { induction n as [|n IH]; intros [|c l] Hn; simpl in *; try done; [lia|].
    apply Hc; [apply IH; lia|]. intros d l' ->. apply IH. simpl in *. lia. }
  intros l. by apply (H (length l)).
Qed.

Lemma raw_line_spec l :
  line_end (snd (raw_line l)) /\ (length (snd (raw_line l)) <= length l)%nat.
Proof.
  induction l as [|c l IH IH2] using raw_line_ind'; simpl; [done|].
  destruct (is_code LF c) eqn:E1; [simpl; rewrite E1; auto with arith|].
  destruct (is_code CR c) eqn:E2.
  - destruct l as [|d l]; [simpl; auto with arith|].
    destruct (is_code LF d) eqn:E3; [simpl; rewrite E2, E3; auto with arith|].
    destruct (IH2 d l eq_refl) as (? & ?).
    destruct (raw_line l) as [x r]; simpl in *. split; [done|lia].
  - destruct IH as (? & ?). destruct (raw_line l) as [x r]; simpl in *. split; [done|lia].
Qed.

Lemma drop_eoln_length r : line_end r -> r <> [] -> (length (drop_eoln r) < length r)%nat.
Proof.
  destruct r as [|c r]; [done|]. simpl. intros [->|[E E']] _; simpl; [lia|].
  destruct (is_code LF c); simpl; [lia|]. destruct r as [|d r]; [done|]. rewrite E, E'. simpl. lia.
Qed.

(** Reading a line consumes something. *)
Lemma read_line_length l : l <> [] -> (length (snd (read_line l)) < length l)%nat.
Proof.
  intros Hl. unfold read_line. destruct (raw_line l) as [x r] eqn:E. simpl.
  pose proof (raw_line_spec l) as (H1 & H2). rewrite E in *; simpl in *.
  destruct r as [|c r]; [destruct l; simpl; done || lia|].
  pose proof (drop_eoln_length _ H1 ltac:(done)). lia.
Qed.

Lemma text_lines_fuel n m l : (length l < n)%nat -> (length l < m)%nat ->
  text_lines_loop n l = text_lines_loop m l.
Proof.
  revert m l. induction n as [|n IH]; intros [|m] l Hn Hm; try lia. simpl.
  case_bool_decide as Hl; [done|]. pose proof (read_line_length _ Hl) as Hr.
  destruct (read_line l) as [x r]. simpl in Hr. rewrite (IH m) by lia. done.
Qed.

Lemma text_lines_unfold l : text_lines l =
  if bool_decide (l = []) then []
  else let '(x, r) := read_line l in
       if bool_decide (x = []) && bool_decide (r = []) then [] else x :: text_lines r.
Proof.
  unfold text_lines at 1. simpl. case_bool_decide as Hl; [done|].
  pose proof (read_line_length _ Hl) as Hr. destruct (read_line l) as [x r]. simpl in Hr.
  unfold text_lines. by rewrite (text_lines_fuel (length l) (S (length r))) by lia.
Qed.

(** ** Characters *)

Section Has.
Context (m : TMode).
Implicit Types s : InStream.

Lemma has_weaken l n n' s : stream_has (l, n) m s -> (n' <= n)%nat -> stream_has (l, n') m s.
Proof.
  intros [(r & Hr & Hrep) ? ? ?] ?. constructor; try done. exists r. split; [done|].
  by eapply rep_weaken.
Qed.

Lemma has_fuel l n s : stream_has (l, n) m s -> (length l < stream_fuel s)%nat.
Proof. intros [(r & Hr & Hrep) ? ? ?]. unfold stream_fuel. rewrite Hr. by eapply rep_fuel. Qed.

Lemma has_set_reader x s r : stream_has x m s -> rep r (fst x) (snd x) ->
  stream_has x m (set_reader (Some r) s).
Proof. intros [? ? ? ?] ?. constructor; try done. by exists r. Qed.

Lemma has_move x y s r : stream_has x m s -> rep r (fst y) (snd y) ->
  stream_has y m (set_reader (Some r) s).
Proof. intros [? ? ? ?] ?. constructor; try done. by exists r. Qed.

Lemma has_cur l n s : stream_has (l, n) m s ->
  exists s', reader_curChar s = RRet (head_int l, s') /\ stream_has (l, n) m s' /\
             (l <> [] -> stream_ready s').
Proof.
  intros H. pose proof H as [(r & Hr & Hrep) ? ? ?]. unfold reader_curChar, with_reader. rewrite Hr.
  destruct (rep_cur _ _ _ Hrep) as (r' & -> & Hrep' & Hready). simpl.
  eexists. split; [done|]. split; [by eapply has_set_reader|]. intros Hl.
  exists r'. by split; [|apply Hready].
Qed.

Lemma has_next_cons c l n s : stream_has (c :: l, n) m s -> (n < max_pushback)%nat ->
  exists s', reader_nextChar s = RRet (char_to_int c, s') /\ stream_has (l, S n) m s'.
Proof.
  intros H Hn. pose proof H as [(r & Hr & Hrep) ? ? ?]. unfold reader_nextChar, with_reader. rewrite Hr.
  destruct (rep_next_cons _ _ _ _ Hrep Hn) as (r' & -> & Hrep'). simpl.
  eexists. split; [done|]. by eapply has_move.
Qed.

(** At the end: the mark can be put back if a put-back is left. *)
Lemma has_next_nil n s : stream_has ([], n) m s ->
  exists s', reader_nextChar s = RRet (EOFC, s') /\ stream_has ([], O) m s' /\
    (forall k, n = S k ->
       exists s'', reader_unreadChar EOFC s' = RRet s'' /\ stream_has ([], k) m s'').
Proof.
  intros H. pose proof H as [(r & Hr & Hrep) ? ? ?]. unfold reader_nextChar, with_reader. rewrite Hr.
  destruct (rep_next_nil _ _ Hrep) as (r' & -> & Hrep' & Hback). simpl.
  eexists. split; [done|]. split; [by eapply has_move|]. intros k Hk.
  destruct (Hback k Hk) as (r'' & E & Hrep''). unfold reader_unreadChar, with_reader1. simpl.
  setoid_rewrite E. simpl. eexists. split; [done|].
  eapply (has_move ([], O)); [by eapply (has_move ([], n))|done].
Qed.

Lemma has_skip c l n s : stream_has (c :: l, n) m s -> stream_ready s -> (n < max_pushback)%nat ->
  exists s', reader_skipChar s = RRet s' /\ stream_has (l, S n) m s'.
Proof.
  intros H (r0 & Hr0 & Hready) Hn. pose proof H as [(r & Hr & Hrep) ? ? ?].
  rewrite Hr in Hr0. injection Hr0 as <-.
  unfold reader_skipChar, with_reader1. rewrite Hr.
  destruct (rep_skip _ _ _ _ Hrep Hready Hn) as (r' & E & Hrep').
  setoid_rewrite E. simpl. eexists. split; [done|]. by eapply has_move.
Qed.

Lemma has_unread c l n s : stream_has (l, S n) m s ->
  exists s', reader_unreadChar (char_to_int c) s = RRet s' /\ stream_has (c :: l, n) m s'.
Proof.
  intros H. pose proof H as [(r & Hr & Hrep) ? ? ?]. unfold reader_unreadChar, with_reader1. rewrite Hr.
  destruct (rep_unread _ c _ _ Hrep) as (r' & E & Hrep').
  setoid_rewrite E. simpl. eexists. split; [done|]. by eapply has_move.
Qed.

Lemma has_eof l n s : stream_has (l, n) m s ->
  exists s', eof s = RRet (bool_decide (l = []), s') /\ stream_has (l, n) m s'.
Proof.
  intros H. pose proof H as [(r & Hr & Hrep) ? ? ?]. unfold eof, with_reader. rewrite Hr.
  destruct (rep_eof _ _ _ Hrep) as (r' & E & Hrep').
  setoid_rewrite E. simpl. eexists. split; [done|]. by eapply has_set_reader.
Qed.

Lemma has_note_line x s : stream_has x m s ->
  exists s', note_line s = RRet s' /\ stream_has x m s'.
Proof.
  intros H. pose proof H as [(r & Hr & Hrep) ? ? ?]. unfold note_line. rewrite Hr.
  eexists. split; [done|]. constructor; try done. by exists r.
Qed.

(** ** Blanks *)

Lemma has_skipBlanks_loop fuel l n s : stream_has (l, n) m s -> (n < max_pushback)%nat ->
  (length l < fuel)%nat ->
  exists s', skipBlanks_loop fuel s = RRet s' /\ stream_has (skip_blanks l, n) m s'.
Proof.
  revert l s. induction fuel as [|fuel IH]; intros l s H Hn Hf; [lia|]. simpl.
  destruct (has_cur _ _ _ H) as (s1 & -> & H1 & Hr). simpl.
  destruct l as [|c l]; simpl in *.
  - eauto.
  - unfold blank_char. destruct (isBlanks (char_to_int c)) eqn:Eb; [|eauto].
    destruct (has_skip _ _ _ _ H1 (Hr ltac:(done)) Hn) as (s2 & -> & H2). simpl.
    apply IH; [|done|lia]. eapply has_weaken; [done|lia].
Qed.

Lemma has_skipBlanks l n s : stream_has (l, n) m s -> (n < max_pushback)%nat ->
  exists s', skipBlanks s = RRet s' /\ stream_has (skip_blanks l, n) m s'.
Proof. intros H Hn. apply has_skipBlanks_loop; [done..|by eapply has_fuel]. Qed.

Lemma has_seekEof l n s : stream_has (l, n) m s -> (n < max_pushback)%nat ->
  exists s', seekEof s = RRet (bool_decide (skip_blanks l = []), s') /\
             stream_has (skip_blanks l, n) m s'.
Proof.
  intros H Hn. unfold seekEof. pose proof (sh_reader _ _ _ H) as (r & Hr & _). rewrite Hr.
  destruct (has_skipBlanks _ _ _ H Hn) as (s1 & -> & H1). simpl. by apply has_eof.
Qed.

(** ** Ends of lines *)

Lemma has_eoln r n s : stream_has (r, n) m s -> line_end r -> (S n < max_pushback)%nat ->
  exists s', eoln s = RRet (true, s') /\ stream_has (drop_eoln r, O) m s'.
Proof.
  intros H Hend Hn. unfold eoln.
  pose proof (sh_reader _ _ _ H) as (rd & -> & _).
  destruct r as [|c r].
  - destruct (has_next_nil _ _ H) as (s1 & -> & H1 & _). simpl. rewrite (sh_lax _ _ _ H1). simpl. eauto.
  - destruct (has_next_cons _ _ _ _ H ltac:(lia)) as (s1 & -> & H1). simpl.
    rewrite (sh_lax _ _ _ H1). simpl. rewrite char_not_EOFC. simpl in Hend. unfold is_code in *.
    destruct (Z.eqb_spec (char_to_int c) LF) as [->|Hc].
    { simpl. exists s1. split; [done|]. eapply has_weaken; [done|lia]. }
    destruct Hend as [?|[E Hd]]; [done|]. rewrite E. destruct r as [|d r]; [done|].
    destruct (has_next_cons _ _ _ _ H1 ltac:(lia)) as (s2 & -> & H2). simpl. rewrite Hd. simpl.
    exists s2. split; [done|]. eapply has_weaken; [done|lia].
Qed.

(** ** Byte order mark *)

Lemma has_unread_all seen l n s : stream_has (l, (length seen + n)%nat) m s ->
  exists s', unread_all seen s = RRet s' /\ stream_has (reverse seen ++ l, n) m s'.
Proof.
  revert l s. induction seen as [|c seen IH]; intros l s H; simpl in *; [by eauto|].
  destruct (has_unread c _ _ _ H) as (s1 & E & H1). unfold unreadChar. rewrite E. simpl.
  destruct (IH _ _ H1) as (s2 & -> & H2). exists s2. split; [done|].
  by rewrite reverse_cons, <- app_assoc.
Qed.

(** The loop stops in front of the first character of [bom] that the text
    does not have. *)
Lemma has_skipBom_loop bom seen l n s : stream_has (l, n) m s ->
  (n + length bom <= max_pushback)%nat -> int_to_char EOFC ∉ bom ->
  exists k l' missing s', skipBom_loop bom seen s = RRet (reverse k ++ seen, missing, s') /\
    bom = k ++ missing /\ l = k ++ l' /\ stream_has (l', (n + length k)%nat) m s' /\
    (missing = [] \/ is_prefix bom l = false).
Proof.
  revert seen l n s. induction bom as [|b bom IH]; intros seen l n s H Hn HE; simpl.
  - exists [], l, [], s. simpl. rewrite Nat.add_0_r. split_and!; auto.
  - unfold curChar. destruct (has_cur _ _ _ H) as (s1 & -> & H1 & Hr). simpl in *.
    apply not_elem_of_cons in HE as [Hb HE].
    destruct l as [|c l].
    + simpl. rewrite bool_decide_false by done.
      exists [], [], (b :: bom), s1. simpl. rewrite Nat.add_0_r. split_and!; auto.
    + simpl. rewrite int_to_char_to_int. destruct (decide (c = b)) as [->|Hc].
      * rewrite bool_decide_true by done. unfold skipChar.
        destruct (has_skip _ _ _ _ H1 (Hr ltac:(done)) ltac:(lia)) as (s2 & -> & H2). simpl.
        destruct (IH (b :: seen) l (S n) s2 H2 ltac:(lia) HE) as (k & l' & mi & s' & E & -> & -> & H' & Hm).
        exists (b :: k), l', mi, s'. rewrite E, reverse_cons, <- app_assoc. simpl.
        replace (n + S (length k))%nat with (S n + length k)%nat by lia.
        split_and!; auto.
      * rewrite bool_decide_false by done. exists [], (c :: l), (b :: bom), s1. simpl.
        rewrite Nat.add_0_r. split_and!; auto. right. by rewrite bool_decide_false.
Qed.

Lemma is_prefix_app k l : is_prefix k (k ++ l) = true.
Proof. induction k as [|c k IH]; [done|]; simpl. by rewrite bool_decide_true. Qed.

Lemma has_skipBom l n s : stream_has (l, n) m s -> (n + 3 <= max_pushback)%nat ->
  exists s', skipBom s = RRet s' /\ stream_has (strip_bom l, n) m s'.
Proof.
  intros H Hn. unfold skipBom.
  destruct (has_skipBom_loop utf8Bom [] l n s H Hn) as (k & l' & mi & s' & -> & Eb & -> & H' & Hm).
  { by apply (bool_decide_unpack (int_to_char EOFC ∉ utf8Bom)). }
  simpl. rewrite app_nil_r. unfold strip_bom. case_bool_decide as Hmi.
  - subst mi. rewrite app_nil_r in Eb. rewrite Eb, is_prefix_app.
    exists s'. split; [done|].
    replace (drop 3 (k ++ l')) with l'; [eapply has_weaken; [done|lia]|].
    change 3%nat with (length utf8Bom). by rewrite Eb, drop_app_length.
  - destruct Hm as [?| ->]; [done|].
    destruct (has_unread_all (reverse k) l' n s') as (s2 & E2 & H2).
    { rewrite length_reverse. eapply has_weaken; [done|lia]. }
    exists s2. rewrite reverse_involutive in H2. done.
Qed.
End Has.
