(* ===== verification/QuitSpec.v ===== *)
(** * Quitting: the exit code of a checker

    [quit] recurses, closes the streams and exits, and the destructor of the
    finalize guard runs afterwards.  For a registered checker without a report
    file the exit code is the closed function [quit_code] of the stream's
    mode, the verdict and whether output is left; in particular the recursion
    always ends and no verdict is lost in the destructor. *)

From S2P Require Import Prelude Text Doubles Readers ReaderRep Validator Streams World StreamSpec Register.

(** The exit code [quit] leads to. *)
Definition quit_code (m : TMode) (result : TResult) (dirty : bool) : Z :=
  let result := if result =? _unexpected_eof then _pe else result in
  if negb (bool_decide (m = _output)) then FAIL_EXIT_CODE
  else if __testlib_shouldCheckDirt result && dirty then PE_EXIT_CODE
  else if result =? _dirt then PE_EXIT_CODE
  else resultExitCode result.

(** The state of a registered process of the kind [m] without a report file,
    whose quitting nothing disturbs. *)
Record calm_in (m : TTestlibMode) (w : World) : Prop := Calm {
  calm_mode : testlibMode w = m;
  calm_result : resultName w = [];
  calm_registered : registered w = true;
  calm_opts : __testlib_ensureNoUnusedOptsFlag w = false;
  calm_overview : _testOverviewLogFileName (validator w) = [];
  calm_markup : _testMarkupFileName (validator w) = [];
  calm_testCase : _testCase (validator w) <= 0;
  calm_count : 0 <= quitCount w }.

(** [quit] was entered. *)
Definition quitting_in (m : TTestlibMode) (w : World) : Prop :=
  calm_in m w /\ (alive w = true -> 0 < quitCount w).

Create Rewrite HintDb world.

Section Quitting.
Context {m : TTestlibMode}.
Abbreviation calm := (calm_in m).
Abbreviation quitting := (quitting_in m).

Ltac calm_tac := intros []; constructor; simpl in *; done || lia.

Lemma calm_eprint t w : calm w -> calm (eprint t w).
Proof. calm_tac. Qed.
Lemma calm_color c w : calm w -> calm (textColor c w).
Proof. unfold textColor. case_match; [apply calm_eprint|done]. Qed.
Lemma calm_quitscr c t w : calm w -> calm (quitscr c t w).
Proof.
  intros H. unfold quitscr. case_bool_decide; [|done]. by apply calm_color, calm_eprint, calm_color.
Qed.
Lemma calm_ouf s w : calm w -> calm (put_ouf s w).
Proof. calm_tac. Qed.

Lemma eprint_alive t w : alive (eprint t w) = alive w.
Proof. done. Qed.
Lemma textColor_alive c w : alive (textColor c w) = alive w.
Proof. unfold textColor. by case_match. Qed.
Lemma quitscr_alive c t w : alive (quitscr c t w) = alive w.
Proof. unfold quitscr. case_match; [|done]. by rewrite textColor_alive, eprint_alive, textColor_alive. Qed.
Lemma textColor_count c w : quitCount (textColor c w) = quitCount w.
Proof. unfold textColor. by case_match. Qed.
Lemma quitscr_count c t w : quitCount (quitscr c t w) = quitCount w.
Proof.
  unfold quitscr. case_match; [|done]. rewrite textColor_count. simpl. by rewrite textColor_count.
Qed.


Lemma quitting_quitscr c t w : quitting w -> quitting (quitscr c t w).
Proof.
  intros [H Hc]. split; [by apply calm_quitscr|]. by rewrite quitscr_alive, quitscr_count.
Qed.

(** Updates that a quit goes through. *)
Lemma quitting_same w w' : quitting w ->
  (testlibMode w', resultName w', registered w', __testlib_ensureNoUnusedOptsFlag w', validator w',
   quitCount w', alive w')
  = (testlibMode w, resultName w, registered w, __testlib_ensureNoUnusedOptsFlag w, validator w,
     quitCount w, alive w) -> quitting w'.
Proof.
  intros [[] Hc] [= E1 E2 E3 E4 E5 E6 E7]. split; [constructor|]; rewrite ?E1, ?E2, ?E3, ?E4, ?E5, ?E6, ?E7; done.
Qed.

Lemma quitting_inf s w : quitting w -> quitting (put_inf s w).
Proof. intros H. by apply (quitting_same w). Qed.
Lemma quitting_ouf s w : quitting w -> quitting (put_ouf s w).
Proof. intros H. by apply (quitting_same w). Qed.
Lemma quitting_ans s w : quitting w -> quitting (put_ans s w).
Proof. intros H. by apply (quitting_same w). Qed.
Lemma quitting_tout b w : quitting w -> quitting (put_tout_open b w).
Proof. intros H. by apply (quitting_same w). Qed.
Lemma quitting_exit c w : quitting w -> quitting (put_testlib_exitCode c w).
Proof. intros H. by apply (quitting_same w). Qed.
Lemma quitting_eprint t w : quitting w -> quitting (eprint t w).
Proof. intros H. by eapply quitting_same. Qed.
Lemma quitting_color c w : quitting w -> quitting (textColor c w).
Proof. unfold textColor. case_match; [apply quitting_eprint|done]. Qed.

(** The destructor does nothing after a quit, nor in a process that need not
    end with one. *)
Lemma finalize_quiet w : calm w ->
  (alive w = true -> quitCount w = 0 -> m <> _checker /\ m <> _validator) ->
  finalize w = inr (put_alive false w).
Proof.
  intros [] Hc. assert (Hg : run_steps (if alive w then guard_checks else []) (put_alive false w)
                          = inr (put_alive false w)).
  { destruct (alive w) eqn:Ea; [|done]. unfold guard_checks, autoEnsureNoUnusedOpts, fail_when.
    assert (E : bool_decide (testlibMode w = _checker) && (quitCount w =? 0) = false
                /\ bool_decide (testlibMode w = _validator) && (readEofCount w =? 0) && (quitCount w =? 0) = false).
    { destruct (Z.eqb_spec (quitCount w) 0) as [E|]; [|by rewrite !andb_false_r]. rewrite calm_mode0.
      destruct (Hc eq_refl E). by rewrite !bool_decide_false by done. }
    destruct E as [E1 E2]. simpl. rewrite E1. simpl. rewrite E2. simpl. rewrite calm_opts0. simpl. by rewrite calm_registered0. }
  unfold finalize. rewrite Hg. unfold writeTestOverviewLog, writeTestMarkup, writeTestCase. cbn [put_alive __testlib_exitCode run_steps validator].
  destruct (__testlib_exitCode w =? 0); [|done]. rewrite calm_overview0. simpl. rewrite calm_markup0. simpl.
  by assert ((0 <? _testCase (validator w)) = false) as -> by lia.
Qed.

Lemma finalize_calm w : quitting w -> finalize w = inr (put_alive false w).
Proof. intros [H Hc]. apply finalize_quiet; [done|]. intros Ha. specialize (Hc Ha). lia. Qed.

(** A failure only writes to standard error. *)
Definition outputs (w : World) : Env * bytes * option bytes := (env w, w_stdout w, w_stdout_file w).

Lemma quitscr_outputs c t w : outputs (quitscr c t w) = outputs w.
Proof. unfold quitscr, textColor. by repeat case_match. Qed.

Lemma quit_finish_outputs result message w : quitting w -> exists w',
  finish (quit_finish result message w) = HExit (resultExitCode result) w' /\ outputs w' = outputs w.
Proof.
  intros H. unfold quit_finish, halt, finish.
  rewrite finalize_calm.
  - eexists. split; [done|]. rewrite <- (quitscr_outputs LightGray (__testlib_toPrintableMessage message) w).
    unfold textColor. by repeat case_match.
  - apply quitting_exit. case_bool_decide; [|apply quitting_eprint].
    all: by apply quitting_color, quitting_tout, quitting_ans, quitting_ouf, quitting_inf,
      quitting_eprint, quitting_quitscr.
Qed.

Lemma quit_finish_code result message w : quitting w ->
  exit_code (finish (quit_finish result message w)) = Some (resultExitCode result).
Proof. intros H. by destruct (quit_finish_outputs result message w H) as (w' & -> & _). Qed.

(** Entering [quit] counts. *)
Lemma quitting_enter w : calm w ->
  quitting (if alive w then put_quitCount (quitCount w + 1) w else w).
Proof.
  intros H. split.
  - destruct (alive w); [|done]. destruct H. constructor; simpl; done || lia.
  - destruct (alive w) eqn:Ea; simpl; [|by rewrite Ea]. destruct H. lia.
Qed.

Lemma enter_stream this w :
  get_stream this (if alive w then put_quitCount (quitCount w + 1) w else w) = get_stream this w.
Proof. by destruct (alive w), this. Qed.

Lemma entered_result w : calm w ->
  resultName (if alive w then put_quitCount (quitCount w + 1) w else w) = [].
Proof. intros H%calm_result. by destruct (alive w). Qed.

Lemma entered_mode w : calm w ->
  testlibMode (if alive w then put_quitCount (quitCount w + 1) w else w) = m.
Proof. intros H%calm_mode. by destruct (alive w). Qed.

Lemma verdict_name_code r :
  match verdict_name r with
  | None => resultExitCode r = FAIL_EXIT_CODE
  | Some (_, _, r', _) =>
      resultExitCode r' = if r =? _dirt then PE_EXIT_CODE else resultExitCode r
  end.
Proof.
  unfold verdict_name, resultExitCode, _ok, _wa, _pe, _fail, _dirt, _points, _unexpected_eof, _partially.
  repeat (case_test; subst; try done; try lia).
Qed.

(** The end of every branch: the verdict is printed and the process exits,
    when a further round fails. *)
Lemma verdict_code again result message w : quitting w ->
  (forall msg, exit_code (finish (again _fail msg w)) = Some FAIL_EXIT_CODE) ->
  exit_code (finish (quit_verdict again result message w))
  = Some (if result =? _dirt then PE_EXIT_CODE else resultExitCode result).
Proof.
  intros Hq Hagain. pose proof (verdict_name_code result) as Hv. unfold quit_verdict.
  destruct (verdict_name result) as [[[[name color] r'] partial]|].
  - pose proof (quitting_quitscr color name _ Hq) as H'.
    rewrite bool_decide_true by (destruct H' as [[]]; done).
    by rewrite (quit_finish_code _ _ _ H'), Hv.
  - rewrite Hagain. destruct (Z.eqb_spec result _dirt) as [->|]; [done|]. by rewrite Hv.
Qed.

Lemma quit_at_S depth this result msg w :
  quit_at (S depth) this result msg w
  = quit_step (quit_at depth this) (quit_at depth OUF _fail) this result msg w.
Proof. done. Qed.

#[local] Arguments quit_at : simpl never.

Lemma quit_fail_outputs depth this msg w : calm w -> exists w',
  finish (quit_at (S depth) this _fail msg w) = HExit FAIL_EXIT_CODE w' /\ outputs w' = outputs w.
Proof.
  intros H. pose proof (quitting_enter _ H) as Hq. pose proof (entered_mode _ H) as Hm.
  assert (Ho : outputs (if alive w then put_quitCount (quitCount w + 1) w else w) = outputs w)
    by (by destruct (alive w)).
  rewrite quit_at_S. unfold quit_step. set (w1 := if alive w then _ else w) in *. rewrite Hm.
  change (_fail =? _unexpected_eof) with false. cbv iota.
  rewrite !andb_false_r. change (__testlib_shouldCheckDirt _fail) with false. simpl.
  unfold quit_verdict. change (verdict_name _fail) with (Some ($"FAIL ", LightRed, _fail, false)).
  pose proof (quitting_quitscr LightRed ($"FAIL ") _ Hq) as H'. cbv beta iota zeta.
  rewrite bool_decide_true by (destruct H' as [[]]; done).
  destruct (quit_finish_outputs _fail (quit_message (maxMessageLength (get_stream this w)) _fail msg w1) _ H')
    as (w' & E & Ew). exists w'. split; [exact E|]. by rewrite Ew, quitscr_outputs.
Qed.

(** The verdict of a nested [fail] is final. *)
Lemma quit_fail_code depth this msg w : calm w ->
  exit_code (finish (quit_at (S depth) this _fail msg w)) = Some FAIL_EXIT_CODE.
Proof. intros H. by destruct (quit_fail_outputs depth this msg w H) as (w' & -> & _). Qed.

End Quitting.

#[export] Hint Resolve calm_eprint calm_color calm_quitscr calm_ouf : judge.
#[export] Hint Rewrite eprint_alive textColor_alive quitscr_alive textColor_count quitscr_count : world.

(** A checker that quits. *)
Abbreviation calm := (calm_in _checker).
Abbreviation quitting := (quitting_in _checker).

#[local] Arguments quit_at : simpl never.

(** A nested [dirt] on an output stream. *)
Lemma quit_dirt_code depth this msg w : calm w -> mode (get_stream this w) = _output ->
  exit_code (finish (quit_at (S (S depth)) this _dirt msg w)) = Some PE_EXIT_CODE.
Proof.
  intros H Hout. pose proof (quitting_enter _ H) as Hq. pose proof (entered_mode _ H) as Hm.
  rewrite quit_at_S. unfold quit_step. rewrite Hm, Hout.
  set (w1 := if alive w then _ else w) in *.
  change (_dirt =? _unexpected_eof) with false. cbv iota.
  change (__testlib_shouldCheckDirt _dirt) with false. simpl.
  rewrite (verdict_code (m := _checker)); [done..|]. intros msg'. apply (quit_fail_code (m := _checker) depth), Hq.
Qed.

(** [quit] in full, for the claim below and for the checkers. *)
Lemma quit_code_correct this result msg w l n : calm w -> stream_has (l, n) _output (ouf w) ->
  (n < max_pushback)%nat ->
  exit_code (finish (quit this result msg w))
  = Some (quit_code (mode (get_stream this w)) result (negb (bool_decide (skip_blanks l = [])))).
Proof.
  intros H Ho Hn. pose proof (quitting_enter _ H) as Hq. pose proof (entered_mode _ H) as Hm.
  unfold quit, QUIT_DEPTH. rewrite quit_at_S. unfold quit_step, quit_code. rewrite Hm.
  set (r := if result =? _unexpected_eof then _pe else result). clearbody r.
  pose proof (enter_stream OUF w) as Eo. pose proof (enter_stream this w) as Et.
  set (w1 := if alive w then _ else w) in *. destruct Hq as [Hc Hcount].
  simpl in Eo. rewrite Eo.
  destruct (decide (mode (get_stream this w) = _output)) as [Eout|Eout].
  - rewrite Eout. simpl. destruct (__testlib_shouldCheckDirt r) eqn:Ed; simpl.
    + destruct (has_seekEof _ _ _ _ Ho Hn) as (s' & -> & Hs').
      case_bool_decide; simpl.
      * rewrite (verdict_code (m := _checker)); [done|by apply quitting_ouf|].
        intros. apply (quit_fail_code (m := _checker) 4). by apply calm_ouf.
      * apply (quit_dirt_code 3); [by apply calm_ouf|].
        destruct this; simpl in *; [by rewrite Et|by destruct Hs'|by rewrite Et].
    + rewrite (verdict_code (m := _checker)); [done..|]. intros. by apply (quit_fail_code (m := _checker) 4).
  - rewrite (bool_decide_false (mode (get_stream this w) = _output)) by done. simpl. destruct (Z.eqb_spec r _fail) as [->|Hr]; simpl.
    + change (__testlib_shouldCheckDirt _fail) with false. simpl.
      rewrite (verdict_code (m := _checker)); [done..|]. intros. by apply (quit_fail_code (m := _checker) 4).
    + case_match; by apply (quit_fail_code (m := _checker) 4).
Qed.

(** C8: the exit code of a checker that quits is a function of the stream it
    quits on, the verdict, and whether anything but blanks is left of the
    output: in particular quitting always terminates, a verdict on the answer
    or input file is a failure, and trailing output turns an acceptance, a
    score or a partial score into a presentation error. *)
Theorem quit_exit_code this result msg w l n : calm w -> stream_has (l, n) _output (ouf w) ->
  (n < max_pushback)%nat ->
  exit_code (finish (quit this result msg w))
  = Some (quit_code (mode (get_stream this w)) result (negb (bool_decide (skip_blanks l = [])))).
Proof. apply quit_code_correct. Qed.

(** A verdict with output left. *)
Definition quit_sample : World :=
  put_ouf (MkInStream (Some (RBuffered (BufferedReader.make (MkFILE ($" x") false false) ($"out"))))
             (-1) ($"out") _output true false false 4 [] NO_INDEX (128 * 1024 * 1024) TOKEN_LIMIT 32000)
    (put_testlibMode _checker (put_registered true (initial_world (MkEnv ∅ (fun _ => true)
       (fun _ => true) [] false)))).

Lemma quit_exit_code_witness :
  exit_code (finish (quit OUF _ok ($"fine") quit_sample)) = Some PE_EXIT_CODE.
Proof.
  rewrite (quit_exit_code OUF _ok ($"fine") quit_sample ($" x") 2).
  - reflexivity.
  - constructor; reflexivity || (vm_compute; discriminate).
  - constructor; try reflexivity. eexists. split; [reflexivity|].
    refine (rep_weaken _ _ 8 2 _ _).
    + exact (buffered_make (MkFILE ($" x") false false) ($"out") eq_refl).
    + lia.
  - unfold max_pushback. lia.
Defined.
