(* ===== verification/ProcessSpec.v ===== *)
(** * Reading and quitting inside a checker process

    [running t w]: the process [w] is a registered checker whose answer and
    output streams still hold the bytes, with room for the put-backs, that [t]
    says.  The readers of [Reading.v] and [Numbers.v] are functions of these
    bytes; a verdict ends the process with the exit code of [QuitSpec.v]. *)

From S2P Require Import Prelude Text Doubles Readers ReaderRep Validator Streams World Pattern Reading Numbers Register StreamSpec QuitSpec.

(** ** The state *)

Definition texts : Type := StreamId -> bytes * nat.

Definition upd (this : StreamId) (x : bytes * nat) (t : texts) : texts :=
  fun i => if bool_decide (i = this) then x else t i.

Definition mode_of (this : StreamId) : TMode :=
  match this with INF => _input | OUF => _output | ANS => _answer end.

Record running (t : texts) (w : World) : Prop := Running {
  rn_calm : calm w;
  rn_streams : forall i, i <> INF -> stream_has (t i) (mode_of i) (get_stream i w) }.

(** The streams hold [a] and [o], with the two put-backs the readers need. *)
Definition both (a o : bytes) : texts :=
  fun i => match i with ANS => (a, 2%nat) | _ => (o, 2%nat) end.

Definition at_rest (this : StreamId) (l : bytes) (t : texts) : texts := upd this (l, 2%nat) t.

(** ** Frame lemmas *)

Lemma bind_ret {A B} (m : M A) (k : A -> M B) w a w' : m w = MRet a w' -> bind m k w = k a w'.
Proof. intros E. unfold bind. by rewrite E. Qed.

Lemma bind_gets {A B} (f : World -> A) (k : A -> M B) w : bind (gets f) k w = k (f w) w.
Proof. done. Qed.

Lemma bind_stream {B} this (k : InStream -> M B) w :
  bind (stream this) k w = k (get_stream this w) w.
Proof. done. Qed.

Lemma upd_same this x t : upd this x t this = x.
Proof. unfold upd. by rewrite bool_decide_true. Qed.

Lemma upd_other this x t i : i <> this -> upd this x t i = t i.
Proof. intros ?. unfold upd. by rewrite bool_decide_false. Qed.

Lemma running_ext t t' w : running t w -> (forall i, i <> INF -> t i = t' i) -> running t' w.
Proof. intros [? H] E. split; [done|]. intros i Hi. rewrite <- E by done. by apply H. Qed.

Lemma get_put_same this s w : get_stream this (put_stream this s w) = s.
Proof. by destruct this. Qed.

Lemma get_put_other this i s w : i <> this -> get_stream i (put_stream this s w) = get_stream i w.
Proof. by destruct this, i. Qed.

Lemma calm_put_stream this s w : calm w -> calm (put_stream this s w).
Proof. destruct this; intros []; by constructor. Qed.

Lemma running_put this s x t w : running t w -> this <> INF -> stream_has x (mode_of this) s ->
  running (upd this x t) (put_stream this s w).
Proof.
  intros [Hc H] Hthis Hs. split; [by apply calm_put_stream|]. intros i Hi.
  destruct (decide (i = this)) as [->|Hne].
  - by rewrite upd_same, get_put_same.
  - rewrite upd_other, get_put_other by done. by apply H.
Qed.

Lemma run_stream {A} this (f : InStream -> rres (A * InStream)) t w x (a : A) :
  this <> INF -> running t w ->
  (forall s, stream_has (t this) (mode_of this) s ->
     exists s', f s = RRet (a, s') /\ stream_has x (mode_of this) s') ->
  exists w', on_stream this f w = MRet a w' /\ running (upd this x t) w'.
Proof.
  intros Hthis Hw Hf. unfold on_stream.
  destruct (Hf _ (rn_streams _ _ Hw this Hthis)) as (s' & -> & Hs').
  eexists. split; [done|]. by apply running_put.
Qed.

Lemma run_stream1 this (f : InStream -> rres InStream) t w x :
  this <> INF -> running t w ->
  (forall s, stream_has (t this) (mode_of this) s ->
     exists s', f s = RRet s' /\ stream_has x (mode_of this) s') ->
  exists w', on_stream1 this f w = MRet tt w' /\ running (upd this x t) w'.
Proof.
  intros Hthis Hw Hf. apply run_stream; [done..|]. intros s Hs.
  destruct (Hf s Hs) as (s' & -> & Hs'). simpl. eauto.
Qed.

(** A verdict on any stream ends the process with a known code. *)
Lemma run_quit this result msg t w : running t w -> this <> INF -> (snd (t OUF) < max_pushback)%nat ->
  exit_code (finish (quit this result msg w))
  = Some (quit_code (mode_of this) result (negb (bool_decide (tokens (fst (t OUF)) = [])))).
Proof.
  intros [Hc H] Hthis Hn. pose proof (H OUF ltac:(done)) as Ho. simpl in Ho.
  destruct (t OUF) as [l n] eqn:E. simpl in *.
  pose proof (sh_mode _ _ _ (H this Hthis)) as Hm.
  rewrite (quit_code_correct this result msg w l n), Hm by done.
  by rewrite (bool_decide_ext _ _ (tokens_nil_iff l)).
Qed.

(** ** Readers *)

Section Readers.
Context (this : StreamId) (Hthis : this <> INF).
Implicit Types t : texts.

Lemma run_get t w (x : InStream -> Prop) : running t w ->
  (forall s, stream_has (t this) (mode_of this) s -> x s) ->
  exists s, stream this w = MRet s w /\ x s.
Proof. intros Hw Hx. eexists. split; [done|]. apply Hx. by apply (rn_streams _ _ Hw). Qed.

Lemma run_lax t w : running t w -> strict (get_stream this w) = false.
Proof. intros Hw. by eapply sh_lax, (rn_streams _ _ Hw). Qed.

Lemma run_limit t w : running t w -> maxTokenLength (get_stream this w) = TOKEN_LIMIT.
Proof. intros Hw. by eapply sh_limit, (rn_streams _ _ Hw). Qed.

Lemma run_fuel t w l n : running t w -> t this = (l, n) ->
  (length l < stream_fuel (get_stream this w))%nat.
Proof.
  intros Hw E. eapply has_fuel. rewrite <- E. by apply (rn_streams _ _ Hw).
Qed.

Lemma run_seekEof t w l n : running t w -> t this = (l, n) -> (n < max_pushback)%nat ->
  exists w', on_stream this seekEof w = MRet (bool_decide (skip_blanks l = [])) w' /\
             running (upd this (skip_blanks l, n) t) w'.
Proof. intros Hw E Hn. apply run_stream; [done..|]. rewrite E. intros. by apply has_seekEof. Qed.

Lemma run_eof t w l n : running t w -> t this = (l, n) ->
  exists w', on_stream this eof w = MRet (bool_decide (l = [])) w' /\ running (upd this (l, n) t) w'.
Proof. intros Hw E. apply run_stream; [done..|]. rewrite E. intros. by apply has_eof. Qed.

Lemma run_skipBlanks t w l n : running t w -> t this = (l, n) -> (n < max_pushback)%nat ->
  exists w', on_stream1 this skipBlanks w = MRet tt w' /\ running (upd this (skip_blanks l, n) t) w'.
Proof. intros Hw E Hn. apply run_stream1; [done..|]. rewrite E. intros. by apply has_skipBlanks. Qed.

Lemma run_note_line t w : running t w ->
  exists w', on_stream1 this note_line w = MRet tt w' /\ running (upd this (t this) t) w'.
Proof. intros Hw. apply run_stream1; [done..|]. intros. by apply has_note_line. Qed.

Lemma run_cur t w l n : running t w -> t this = (l, n) ->
  exists w', on_stream this reader_curChar w = MRet (head_int l) w' /\ running (upd this (l, n) t) w'.
Proof.
  intros Hw E. apply run_stream; [done..|]. rewrite E. intros s Hs.
  destruct (has_cur _ _ _ _ Hs) as (s' & ? & ? & _). eauto.
Qed.

Lemma run_next_cons t w c l n : running t w -> t this = (c :: l, n) -> (n < max_pushback)%nat ->
  exists w', on_stream this reader_nextChar w = MRet (char_to_int c) w' /\
             running (upd this (l, S n) t) w'.
Proof. intros Hw E Hn. apply run_stream; [done..|]. rewrite E. intros. by apply has_next_cons. Qed.

(** Reading at the end, and putting the mark back. *)
Lemma run_next_nil t w n : running t w -> t this = ([], S n) ->
  exists w', on_stream this reader_nextChar w = MRet EOFC w' /\ running (upd this ([], O) t) w' /\
    exists w'', on_stream1 this (reader_unreadChar EOFC) w' = MRet tt w'' /\
                running (upd this ([], n) t) w''.
Proof.
  intros Hw E. pose proof (rn_streams _ _ Hw this Hthis) as Hs. rewrite E in Hs.
  destruct (has_next_nil _ _ _ Hs) as (s' & En & Hs' & Hback).
  destruct (Hback n eq_refl) as (s'' & Eu & Hs'').
  unfold on_stream1, on_stream. rewrite En. eexists. split; [done|].
  split; [by apply running_put|]. rewrite get_put_same, Eu. simpl. eexists. split; [done|].
  eapply running_ext; [by do 2 (apply running_put; [|done..])|].
  intros i _. unfold upd. by case_bool_decide.
Qed.

Lemma run_unread t w c l n : running t w -> t this = (l, S n) ->
  exists w', on_stream1 this (reader_unreadChar (char_to_int c)) w = MRet tt w' /\
             running (upd this (c :: l, n) t) w'.
Proof. intros Hw E. apply run_stream1; [done..|]. rewrite E. intros. by apply has_unread. Qed.

Lemma running_weaken t w l n n' : running (upd this (l, n) t) w -> (n' <= n)%nat ->
  running (upd this (l, n') t) w.
Proof.
  intros [Hc H] Hn. split; [done|]. intros i Hi. specialize (H i Hi). unfold upd in *.
  case_bool_decide; [|done]. by eapply has_weaken.
Qed.

Lemma running_upd_upd t w x y : running (upd this y (upd this x t)) w -> running (upd this y t) w.
Proof. intros H. eapply running_ext; [done|]. intros i _. unfold upd. by case_bool_decide. Qed.

(** *** Tokens *)

(** From a non-blank character on: the loop delivers the word and puts the
    character after it back. *)
Lemma run_token_loop fuel t w c l n result : running t w -> t this = (l, n) ->
  (3 <= n < max_pushback)%nat -> (length l < fuel)%nat -> blank_char c = false ->
  zlen result + 1 + zlen (take_word l) <= TOKEN_LIMIT ->
  exists cur w' w'',
    token_loop (S fuel) this (char_to_int c) result w = MRet (cur, result ++ c :: take_word l) w' /\
    on_stream1 this (reader_unreadChar cur) w' = MRet tt w'' /\
    running (at_rest this (drop_word l) t) w''.
Proof.
  revert t w c l n result.
  induction fuel as [|fuel IH]; intros t w c l n result Hw E Hn Hf Hc Hlen; [lia|].
  remember (S fuel) as f eqn:Ef. simpl. fold (blank_char c). rewrite Hc, char_not_EOFC. simpl.
  rewrite bind_stream, (run_limit _ _ Hw).
  assert (E1 : zlen (result ++ [int_to_char (char_to_int c)]) = zlen result + 1).
  { by rewrite zlen_app, zlen_cons, zlen_nil. }
  rewrite E1. pose proof (zlen_nonneg (take_word l)).
  destruct (Z.ltb_spec TOKEN_LIMIT (zlen result + 1)); [lia|].
  rewrite int_to_char_to_int. subst f. destruct l as [|d l].
  - destruct n as [|n]; [lia|]. destruct (run_next_nil t w n Hw E) as (w1 & E2 & H1 & w2 & E3 & H2).
    rewrite (bind_ret _ _ _ _ _ E2). eexists EOFC, w1, w2. split; [done|].
    split; [done|]. eapply running_weaken; [done|lia].
  - destruct (run_next_cons t w d l n Hw E ltac:(lia)) as (w1 & E2 & H1).
    rewrite (bind_ret _ _ _ _ _ E2). simpl take_word in *. simpl drop_word.
    destruct (blank_char d) eqn:Hd.
    + destruct (run_unread _ w1 d l n H1 (upd_same _ _ _)) as (w2 & E3 & H2).
      eexists (char_to_int d), w1, w2. split.
      { cbn [token_loop]. change (isBlanks (char_to_int d)) with (blank_char d). by rewrite Hd. }
      split; [done|]. apply running_upd_upd in H2. eapply running_weaken; [done|lia].
    + apply (running_weaken _ _ _ _ n) in H1; [|lia].
      destruct (IH _ w1 d l n (result ++ [c]) H1 (upd_same _ _ _)) as (cur & w2 & w3 & E3 & E4 & H3);
        [lia|simpl in Hf; lia|done|rewrite zlen_app, !zlen_cons, zlen_nil in *; lia|].
      exists cur, w2, w3. rewrite E3, <- app_assoc. split; [done|]. split; [done|].
      by apply running_upd_upd in H3.
Qed.

(** [readWordTo] on a text with a further token. *)
Lemma run_readWordTo t w l : running t w -> t this = (l, 2%nat) -> skip_blanks l <> [] ->
  zlen l <= TOKEN_LIMIT ->
  exists w', readWordTo this w = MRet (take_word (skip_blanks l)) w' /\
             running (at_rest this (drop_word (skip_blanks l)) t) w'.
Proof.
  intros Hw E Hne Hlen. unfold readWordTo. rewrite bind_stream, (run_lax _ _ Hw). simpl negb. cbv iota.
  destruct (run_skipBlanks _ _ _ _ Hw E ltac:(unfold max_pushback; lia)) as (w1 & E1 & H1).
  rewrite (bind_ret _ _ _ _ _ E1).
  destruct (run_note_line _ _ H1) as (w2 & E2 & H2). rewrite (bind_ret _ _ _ _ _ E2).
  rewrite upd_same in H2. apply running_upd_upd in H2.
  pose proof (skip_blanks_length l) as Hle.
  destruct (skip_blanks l) as [|c l'] eqn:El; [done|].
  destruct (run_next_cons _ _ _ _ _ H2 (upd_same _ _ _)) as (w3 & E3 & H3);
    [unfold max_pushback; lia|].
  rewrite (bind_ret _ _ _ _ _ E3), char_not_EOFC.
  pose proof (skip_blanks_head _ _ _ El) as Hc. fold (blank_char c). rewrite Hc.
  apply running_upd_upd in H3.
  rewrite bind_stream.
  pose proof (run_fuel _ _ _ _ H3 (upd_same _ _ _)) as Hf.
  pose proof (take_word_length l') as Htw. unfold zlen in *. simpl in Hle.
  destruct (run_token_loop (S (stream_fuel (get_stream this w3))) _ w3 c l' 3 [] H3 (upd_same _ _ _))
    as (cur & w4 & w5 & E4 & E5 & H5); [unfold max_pushback; lia|lia|done|unfold zlen; simpl; lia|].
  rewrite (bind_ret _ _ _ _ _ E4). simpl app. cbv iota beta.
  rewrite (bind_ret _ _ _ _ _ E5).
  destruct (Z.eqb_spec (Z.of_nat (length (c :: take_word l'))) 0); [simpl in *; lia|].
  exists w5. simpl take_word. simpl drop_word. rewrite Hc. split; [done|].
  by apply running_upd_upd in H5.
Qed.

(** *** Lines *)

Lemma head_int_code l n : n <> EOFC ->
  (head_int l =? n) = match l with c :: _ => is_code n c | [] => false end.
Proof. intros Hn. destruct l; [|done]. simpl. unfold EOFC in *. lia. Qed.

Lemma is_code_char n c : is_code n c = true -> char_to_int c = n.
Proof. unfold is_code. lia. Qed.

(** One character is taken: the step shared by the two [take] branches. *)
Lemma run_take_char {B} t w (k : Z -> M B) l n : running t w -> t this = (l, n) ->
  (n < max_pushback)%nat ->
  exists w', (do* on_stream1 this note_line in
              let* c := on_stream this reader_nextChar in k c) w
             = k (head_int l) w' /\ running (upd this (tail l, O) t) w'.
Proof.
  intros Hw E Hn. destruct (run_note_line _ _ Hw) as (w1 & E1 & H1).
  rewrite (bind_ret _ _ _ _ _ E1). rewrite E in H1.
  destruct (run_stream this reader_nextChar _ w1 (tail l, O) (head_int l) Hthis H1)
    as (w2 & E2 & H2).
  - rewrite upd_same. intros s Hs. destruct l as [|c l].
    + destruct (has_next_nil _ _ _ Hs) as (s' & ? & ? & _). eauto.
    + destruct (has_next_cons _ _ _ _ _ Hs Hn) as (s' & ? & ?).
      exists s'. split; [done|]. eapply has_weaken; [done|lia].
  - rewrite (bind_ret _ _ _ _ _ E2). exists w2. split; [done|]. by apply running_upd_upd in H2.
Qed.

Lemma run_line_loop fuel t w l result : running t w -> t this = (l, O) ->
  (length l + 1 < fuel)%nat ->
  exists w', line_loop fuel this result w = MRet (result ++ fst (raw_line l)) w' /\
             running (upd this (snd (raw_line l), O) t) w'.
Proof.
  revert t w result fuel.
  induction l as [|c l IH IH2] using raw_line_ind'; intros t w result fuel Hw E Hf;
    (destruct fuel as [|fuel]; [simpl in *; lia|]); cbn [line_loop];
    destruct (run_cur _ _ _ _ Hw E) as (w1 & E1 & H1); rewrite (bind_ret _ _ _ _ _ E1).
  { simpl. exists w1. by rewrite app_nil_r. }
  rewrite !head_int_code by done. rewrite head_int_EOFC. simpl. rewrite orb_false_r.
  destruct (is_code LF c) eqn:ELF; [exists w1; by rewrite app_nil_r|].
  cbv zeta iota. change (char_to_int c =? CR) with (is_code CR c).
  destruct (is_code CR c) eqn:ECR; cbv iota.
  - (* a carriage return *)
    destruct (run_next_cons _ _ _ _ _ H1 (upd_same _ _ _) ltac:(unfold max_pushback; lia))
      as (w2 & E2 & H2). rewrite (bind_ret _ _ _ _ _ E2).
    destruct (run_cur _ _ _ _ H2 (upd_same _ _ _)) as (w3 & E3 & H3).
    rewrite (bind_ret _ _ _ _ _ E3), head_int_code by done.
    do 2 apply running_upd_upd in H3.
    destruct l as [|d l]; [|destruct (is_code LF d) eqn:EdLF]; cbv iota.
    + destruct (run_take_char _ w3 (fun c => line_loop fuel this (result ++ [int_to_char c])) _ _
                  H3 (upd_same _ _ _)) as (w4 & E4 & H4); [unfold max_pushback; lia|].
      rewrite E4. apply running_upd_upd in H4.
      destruct fuel as [|fuel]; [simpl in Hf; lia|]. cbn [line_loop].
      destruct (run_cur _ _ _ _ H4 (upd_same _ _ _)) as (w5 & E5 & H5).
      rewrite (bind_ret _ _ _ _ _ E5). exists w5. split; [done|]. by apply running_upd_upd in H5.
    + destruct (run_unread _ _ c _ _ H3 (upd_same _ _ _)) as (w4 & E4 & H4).
      rewrite (bind_ret _ _ _ _ _ E4). exists w4. rewrite app_nil_r. split; [done|].
      by apply running_upd_upd in H4.
    + destruct (run_take_char _ w3 (fun c => line_loop fuel this (result ++ [int_to_char c])) _ _
                  H3 (upd_same _ _ _)) as (w4 & E4 & H4); [unfold max_pushback; lia|].
      rewrite E4. apply running_upd_upd in H4. simpl head_int. rewrite int_to_char_to_int.
      destruct (IH2 d l eq_refl _ w4 (result ++ [d]) fuel H4 (upd_same _ _ _)) as (w5 & E5 & H5);
        [simpl in Hf; lia|].
      rewrite E5. destruct (raw_line l) as [x r]. simpl in *. exists w5.
      rewrite <- app_assoc. split; [done|]. by apply running_upd_upd in H5.
  - destruct (run_take_char _ w1 (fun c => line_loop fuel this (result ++ [int_to_char c])) _ _
                  H1 (upd_same _ _ _)) as (w2 & E2 & H2); [unfold max_pushback; lia|].
    rewrite E2. apply running_upd_upd in H2. simpl head_int. rewrite int_to_char_to_int.
    destruct (IH _ w2 (result ++ [c]) fuel H2 (upd_same _ _ _)) as (w3 & E3 & H3);
      [simpl in *; lia|].
    rewrite E3. destruct (raw_line l) as [x r]. simpl in *. exists w3.
    rewrite <- app_assoc. split; [done|]. by apply running_upd_upd in H3.
Qed.

Lemma run_modify t w (f : InStream -> InStream) : running t w ->
  (forall s, stream_has (t this) (mode_of this) s -> stream_has (t this) (mode_of this) (f s)) ->
  exists w', modify_stream this f w = MRet tt w' /\ running t w'.
Proof.
  intros Hw Hf. eexists. split; [done|]. eapply running_ext.
  - apply running_put; [done..|]. apply Hf. by apply (rn_streams _ _ Hw).
  - intros i _. unfold upd. by case_bool_decide; subst.
Qed.

Lemma run_set_tmpReadToken t w x : running t w ->
  exists w', modify_stream this (set_tmpReadToken x) w = MRet tt w' /\ running t w'.
Proof. intros Hw. apply run_modify; [done|]. by intros s []. Qed.

(** [readString()]: a line, whatever is left. *)
Lemma run_readString t w l : running t w -> t this = (l, O) ->
  exists w', readString this w = MRet (fst (read_line l)) w' /\
             running (upd this (snd (read_line l), O) t) w'.
Proof.
  intros Hw E. pose proof (run_fuel _ _ _ _ Hw E) as Hf.
  assert (Hr : exists w', readStringTo this w = MRet (fst (read_line l)) w' /\
                          running (upd this (snd (read_line l), O) t) w').
  { unfold readStringTo. rewrite bind_stream.
    pose proof (sh_reader _ _ _ (rn_streams _ _ Hw this Hthis)) as (rd & Er & _).
    rewrite Er, bool_decide_false by done.
    destruct (run_line_loop (S (stream_fuel (get_stream this w))) _ _ _ [] Hw E ltac:(lia))
      as (w1 & E1 & H1).
    unfold bind at 1, when, ret at 1. rewrite (bind_ret _ _ _ _ _ E1).
    rewrite (run_lax _ _ Hw).
    destruct (run_stream this eoln _ w1 (drop_eoln (snd (raw_line l)), O) true Hthis H1)
      as (w2 & E2 & H2).
    { rewrite upd_same. intros s Hs. eapply has_eoln; [done| |unfold max_pushback; lia].
      apply raw_line_spec. }
    unfold bind at 1. rewrite (bind_ret _ _ _ _ _ E2). simpl.
    unfold read_line. destruct (raw_line l) as [x r]. exists w2. split; [done|].
    by apply running_upd_upd in H2. }
  destruct Hr as (w1 & E1 & H1). unfold readString. rewrite (bind_ret _ _ _ _ _ E1).
  destruct (run_set_tmpReadToken _ _ (fst (read_line l)) H1) as (w2 & E2 & H2).
  rewrite (bind_ret _ _ _ _ _ E2). by exists w2.
Qed.

(** [readWord()] on a text with a further token. *)
Lemma run_readWord t w l : running t w -> t this = (l, 2%nat) -> skip_blanks l <> [] ->
  zlen l <= TOKEN_LIMIT ->
  exists w', readWord this w = MRet (take_word (skip_blanks l)) w' /\
             running (at_rest this (drop_word (skip_blanks l)) t) w'.
Proof.
  intros Hw E Hne Hlen. destruct (run_readWordTo _ _ _ Hw E Hne Hlen) as (w1 & E1 & H1).
  unfold readWord. rewrite (bind_ret _ _ _ _ _ E1).
  destruct (run_set_tmpReadToken _ _ (take_word (skip_blanks l)) H1) as (w2 & E2 & H2).
  rewrite (bind_ret _ _ _ _ _ E2). by exists w2.
Qed.

(** At the end of the text [readWord] quits. *)
Lemma run_readWord_end t w l : running t w -> t this = (l, 2%nat) -> skip_blanks l = [] ->
  exists w' msg, readWord this w = MHalt (quit this _unexpected_eof msg w') /\
                 running (upd this ([], O) t) w'.
Proof.
  intros Hw E El. unfold readWord, readWordTo.
  destruct (run_skipBlanks _ _ _ _ Hw E ltac:(unfold max_pushback; lia)) as (w1 & E1 & H1).
  destruct (run_note_line _ _ H1) as (w2 & E2 & H2). rewrite upd_same in H2.
  apply running_upd_upd in H2. rewrite El in H2.
  destruct (run_next_nil _ _ _ H2 (upd_same _ _ _)) as (w3 & E3 & H3 & _).
  apply running_upd_upd in H3.
  exists w3, ($"Unexpected end of file - token expected"). split; [|done].
  unfold bind at 1. rewrite bind_stream, (run_lax _ _ Hw). cbv beta iota delta [negb].
  rewrite (bind_ret _ _ _ _ _ E1), (bind_ret _ _ _ _ _ E2), (bind_ret _ _ _ _ _ E3). done.
Qed.
End Readers.
