(* ===== verification/RegisterSpec.v ===== *)
(** * Starting a checker

    [registerTestlibCmd] on a plain command line of three files leaves a
    running checker: the answer stream in front of the answer file, the output
    stream in front of the output file without its byte order mark. *)

From S2P Require Import Prelude Text Doubles Readers ReaderRep Validator Streams World Pattern Reading Numbers Register StreamSpec QuitSpec ProcessSpec.

Definition FILE_LIMIT : Z := 128 * 1024 * 1024.

(** Not one of the words [registerTestlibCmd] looks for. *)
Definition plain_arg (a : bytes) : Prop :=
  a <> $"--testset" /\ a <> $"--group" /\ a <> $"--help".

(** A run of a checker on an output file with the text [to] and an answer file
    with the text [ta], none of them longer than the longest token; the input
    file may be missing. *)
Record checker_run (e : Env) (i o a to ta : bytes) : Prop := CheckerRun {
  cr_plain : Forall plain_arg [i; o; a];
  cr_input : forall ti, files e !! i = Some ti -> zlen ti <= FILE_LIMIT;
  cr_output : files e !! o = Some to;
  cr_answer : files e !! a = Some ta;
  cr_to : zlen to <= TOKEN_LIMIT;
  cr_ta : zlen ta <= TOKEN_LIMIT }.

Lemma preconditions_hold w : __testlib_ensuresPreconditions w = MRet tt w.
Proof. reflexivity. Qed.

Lemma set_testset_plain args w : Forall plain_arg args ->
  __testlib_set_testset_and_group args w = MRet tt w.
Proof.
  induction 1 as [|x args (H1 & H2 & _) _ IH]; [done|]. cbn [__testlib_set_testset_and_group].
  rewrite (bool_decide_false (x = _) H1), (bool_decide_false (x = _) H2). done.
Qed.

Lemma checker_args_plain args w : Forall plain_arg args -> checker_args args w = MRet args w.
Proof.
  induction 1 as [|x args (H1 & H2 & _) _ IH]; [done|]. cbn [checker_args].
  rewrite (bool_decide_false (x = _) H1), (bool_decide_false (x = _) H2).
  unfold bind. by rewrite IH.
Qed.

Lemma bind_assoc {A B C} (m : M A) (f : A -> M B) (g : B -> M C) w :
  bind (bind m f) g w = bind m (fun a => bind (f a) g) w.
Proof. unfold bind. by destruct (m w). Qed.
Lemma bind_modify {B} f (k : unit -> M B) w : bind (modify f) k w = k tt (f w).
Proof. done. Qed.

(** Opening a fresh stream on an existing file. *)
Lemma run_init this name m w text : files (env w) !! name = Some text ->
  zlen text <= FILE_LIMIT -> get_stream this w = new_InStream ->
  exists s, init this name m w = MRet tt (put_stream this s w) /\
            stream_has (text, max_pushback) m s.
Proof.
  intros Hf Hlen Hnew. unfold init. unfold modify_stream at 1. rewrite bind_modify, bind_stream.
  rewrite get_put_same, Hnew. rewrite bind_gets.
  assert (env (put_stream this (set_mode m (set_stdfile false (set_name name
            (set_opened false new_InStream)))) w) = env w) as -> by by destruct this.
  rewrite Hf. change (maxFileSize _) with FILE_LIMIT.
  destruct (Z.ltb_spec FILE_LIMIT (zlen text)); [lia|]. simpl when. unfold bind at 1, ret at 1.
  unfold reset. rewrite bind_stream, get_put_same. simpl. unfold bind at 1, ret at 1.
  rewrite bind_gets.
  assert (env (put_stream this (set_mode m (set_stdfile false (set_name name
            (set_opened false new_InStream)))) w) = env w) as -> by by destruct this.
  rewrite Hf. simpl. unfold modify_stream, modify. rewrite get_put_same.
  eexists. split; [by destruct this|]. constructor; simpl; try done.
  eexists. split; [done|]. apply (buffered_make (libc_fopen text) name). done.
Qed.

(** Opening the input stream, on a file or on nothing. *)
Lemma run_init_inf name w : (forall ti, files (env w) !! name = Some ti -> zlen ti <= FILE_LIMIT) ->
  inf w = new_InStream -> exists s, init INF name _input w = MRet tt (put_inf s w).
Proof.
  intros Hlen Hnew. destruct (files (env w) !! name) as [ti|] eqn:E.
  { destruct (run_init INF name _input w ti E (Hlen _ eq_refl) Hnew) as (s & -> & _). by exists s. }
  unfold init. unfold modify_stream at 1. rewrite bind_modify, bind_stream. simpl. rewrite Hnew.
  rewrite bind_gets. simpl. rewrite E. unfold bind at 1, ret at 1.
  unfold reset. rewrite bind_stream. simpl. unfold bind at 1, ret at 1. rewrite bind_gets. simpl.
  rewrite E. simpl. eexists. done.
Qed.

(** The state in which the streams are opened. *)
Definition set_up (e : Env) (checker_name : bytes) : World :=
  put_appesMode false (put_resultName [] (put_checker (initialize (MkChecker false ($"tests") []))
    (put_testlibMode _checker (put_registered true (put_checkerName checker_name (initial_world e)))))).

Lemma calm_set_up e n : calm (set_up e n).
Proof. by constructor. Qed.

Lemma register_unfold e n prog i o a : Forall plain_arg [i; o; a] ->
  registerTestlibCmd (Some prog) [i; o; a] (put_checkerName n (initial_world e))
  = (do* init INF i _input in do* init OUF o _output in do* on_stream1 OUF skipBom in
     init ANS a _answer) (set_up e n).
Proof.
  intros Hp. unfold registerTestlibCmd.
  rewrite (bind_ret _ _ _ _ _ (preconditions_hold _)).
  rewrite (bind_ret _ _ _ _ _ (set_testset_plain _ _ Hp)). rewrite !bind_modify.
  unfold set_checker. rewrite bind_modify.
  rewrite (bind_ret _ _ _ _ _ (checker_args_plain _ _ Hp)).
  inversion_clear Hp as [|?? (_ & _ & Hh) _].
  change (head [i; o; a]) with (Some i).
  rewrite (bool_decide_false (Some i = Some ($"--help"))) by (intros [= ->]; done). done.
Qed.

Lemma on_stream1_put this f s s' w : f s = RRet s' ->
  on_stream1 this f (put_stream this s w) = MRet tt (put_stream this s' (put_stream this s w)).
Proof. intros E. unfold on_stream1, on_stream. by rewrite get_put_same, E. Qed.

Theorem register_spec e n prog i o a to ta : checker_run e i o a to ta ->
  exists w, registerTestlibCmd (Some prog) [i; o; a] (put_checkerName n (initial_world e)) = MRet tt w /\
            running (both ta (strip_bom to)) w.
Proof.
  intros []. rewrite register_unfold by done.
  destruct (run_init_inf i (set_up e n) cr_input0 eq_refl) as (si & Ei).
  rewrite (bind_ret _ _ _ _ _ Ei). set (w1 := put_inf si (set_up e n)).
  assert (TOKEN_LIMIT <= FILE_LIMIT) by done.
  destruct (run_init OUF o _output w1 to cr_output0 ltac:(lia) eq_refl) as (so & Eo & Ho).
  rewrite (bind_ret _ _ _ _ _ Eo). set (w2 := put_stream OUF so w1).
  destruct (has_skipBom _ to 5 so (has_weaken _ _ _ 5 _ Ho ltac:(unfold max_pushback; lia)))
    as (so' & Eb & Ho'); [unfold max_pushback; lia|].
  pose proof (on_stream1_put OUF skipBom so so' w1 Eb) as E2. fold w2 in E2.
  rewrite (bind_ret _ _ _ _ _ E2). set (w3 := put_stream OUF so' w2).
  destruct (run_init ANS a _answer w3 ta cr_answer0 ltac:(lia) eq_refl) as (sa & Ea & Ha).
  exists (put_stream ANS sa w3). split; [done|]. split.
  - do 2 apply calm_put_stream. apply (calm_put_stream OUF), (calm_put_stream INF), calm_set_up.
  - intros [] Hi; [done| |].
    + exact (has_weaken _ _ _ 2 _ Ho' ltac:(lia)).
    + exact (has_weaken _ _ _ 2 _ Ha ltac:(unfold max_pushback; lia)).
Qed.

(** ** A concrete run *)

Definition sample_env (ti to ta : bytes) : Env :=
  MkEnv (<[$"input.txt" := ti]> (<[$"output.txt" := to]> (<[$"answer.txt" := ta]> ∅)))
        (fun _ => true) (fun _ => true) [] false.

Lemma sample_run ti to ta : zlen ti <= TOKEN_LIMIT -> zlen to <= TOKEN_LIMIT -> zlen ta <= TOKEN_LIMIT ->
  checker_run (sample_env ti to ta) ($"input.txt") ($"output.txt") ($"answer.txt") to ta.
Proof.
  intros Hi Ho Ha. constructor; try done.
  - repeat constructor; by vm_compute.
  - intros t. unfold sample_env. simpl. rewrite lookup_insert_eq. intros [= <-].
    unfold TOKEN_LIMIT, FILE_LIMIT in *. lia.
Qed.

(** The exit code of a checker on three texts. *)
Definition sample_code (main : option bytes -> list bytes -> M unit) (to ta : bytes) : option Z :=
  exit_code (run_program (main (Some ($"checker")) [$"input.txt"; $"output.txt"; $"answer.txt"])
                         (sample_env [] to ta)).

Ltac by_sample thm to ta :=
  unfold sample_code;
  rewrite (thm _ _ _ _ _ to ta (sample_run [] to ta ltac:(done) ltac:(done) ltac:(done)));
  vm_compute; reflexivity.
