(* ===== verification/TokenSpec.v ===== *)
(** * The token view of a running checker

    [at_tokens T w]: the answer and output streams of the running checker [w]
    still hold the tokens [T ANS] and [T OUF].  Under this view the token
    readers are list operations, which is all that the proofs about the token
    checkers use.  [ends m w c]: the process that continues with [m] in state
    [w] ends with exit code [c]. *)

From S2P Require Import Prelude Text Doubles Readers ReaderRep Validator Streams World Pattern Reading Numbers Register Checkers StreamSpec QuitSpec ProcessSpec RegisterSpec.

(** ** Ending a process *)

Definition ends (m : M unit) (w : World) (c : Z) : Prop :=
  exit_code (finish (match m w with MHalt h => h | MRet _ w => HExit 0 w end)) = Some c.

Lemma ends_bind {A} (m : M A) (k : A -> M unit) w a w' c : m w = MRet a w' ->
  ends (k a) w' c -> ends (bind m k) w c.
Proof. unfold ends. intros E H. by rewrite (bind_ret _ _ _ _ _ E). Qed.

Lemma ends_halt {A} (m : M A) (k : A -> M unit) w h c : m w = MHalt h ->
  exit_code (finish h) = Some c -> ends (bind m k) w c.
Proof. unfold ends, bind. by intros ->. Qed.

Lemma ends_assoc {A B} (m : M A) (k : A -> M B) (h : B -> M unit) w c :
  ends (bind m (fun x => bind (k x) h)) w c -> ends (bind (bind m k) h) w c.
Proof. unfold ends, bind. by destruct (m w). Qed.

Lemma ends_ext (m m' : M unit) w c : m w = m' w -> ends m' w c -> ends m w c.
Proof. unfold ends. by intros ->. Qed.

Lemma when_true (m : M unit) w : when true m w = m w.
Proof. done. Qed.

(** Starting a checker. *)
Lemma checker_start e i o a to ta format args prog (k : M unit) c :
  checker_run e i o a to ta ->
  (forall w, running (both ta (strip_bom to)) w -> ends k w c) ->
  exit_code (run_program (do* setName format args in
                          do* registerTestlibCmd (Some prog) [i; o; a] in k) e) = Some c.
Proof.
  intros Hrun Hk. unfold run_program. fold (ends (do* setName format args in
    do* registerTestlibCmd (Some prog) [i; o; a] in k) (initial_world e) c).
  eapply ends_bind; [done|].
  destruct (register_spec _ (testlib_format_ format args) prog _ _ _ _ _ Hrun) as (w & E & Hw).
  eapply ends_bind; [done|]. by apply Hk.
Qed.

(** ** The view *)

Definition token_lists : Type := StreamId -> list bytes.

Definition with_tokens (this : StreamId) (l : list bytes) (T : token_lists) : token_lists :=
  fun i => if bool_decide (i = this) then l else T i.

Record holds_tokens (x : bytes * nat) (l : list bytes) : Prop := {
  ht_back : snd x = 2%nat;
  ht_tokens : tokens (fst x) = l;
  ht_short : zlen (fst x) <= TOKEN_LIMIT }.

Definition at_tokens (T : token_lists) (w : World) : Prop :=
  exists t, running t w /\ forall i, i <> INF -> holds_tokens (t i) (T i).

(** The tokens of the answer and of the output. *)
Definition pair_of (A O : list bytes) : token_lists :=
  fun i => match i with ANS => A | _ => O end.

Lemma at_tokens_both a o w : running (both a o) w -> zlen a <= TOKEN_LIMIT -> zlen o <= TOKEN_LIMIT ->
  at_tokens (pair_of (tokens a) (tokens o)) w.
Proof. intros H Ha Ho. eexists. split; [done|]. by intros [] ?. Qed.

Lemma at_tokens_ext T T' w : at_tokens T w -> (forall i, i <> INF -> T i = T' i) -> at_tokens T' w.
Proof. intros (t & H & Ht) E. exists t. split; [done|]. intros i Hi. rewrite <- E by done. by apply Ht. Qed.

Lemma at_tokens_upd this x l t T w : running (upd this x t) w ->
  (forall i, i <> INF -> holds_tokens (t i) (T i)) -> holds_tokens x l ->
  at_tokens (with_tokens this l T) w.
Proof.
  intros H Ht Hx. eexists. split; [done|]. intros i Hi. unfold upd, with_tokens.
  case_bool_decide; [done|by apply Ht].
Qed.

Lemma with_tokens_id this T i : with_tokens this (T this) T i = T i.
Proof. unfold with_tokens. by case_bool_decide; subst. Qed.

Lemma with_tokens_same this l T : with_tokens this l T this = l.
Proof. unfold with_tokens. by rewrite bool_decide_true. Qed.

Lemma with_tokens_other i this l T : i <> this -> with_tokens this l T i = T i.
Proof. intros ?. unfold with_tokens. by rewrite bool_decide_false. Qed.

Lemma with_tokens_twice this l l' T i :
  with_tokens this l (with_tokens this l' T) i = with_tokens this l T i.
Proof. unfold with_tokens. by case_bool_decide. Qed.

(** A verdict on any stream ends the process. *)
Lemma ends_quit {A} this result msg T w (k : A -> M unit) : at_tokens T w -> this <> INF ->
  ends (bind (noreturn (quit this result msg)) k) w
       (quit_code (mode_of this) result (negb (bool_decide (T OUF = [])))).
Proof.
  intros (t & H & Ht) Hthis. destruct (Ht OUF ltac:(done)) as [Hb Et _]. rewrite <- Et.
  unfold ends, bind, noreturn. apply run_quit; [done..|]. rewrite Hb. unfold max_pushback. lia.
Qed.

Lemma ends_die {A} result format args T w (k : A -> M unit) : at_tokens T w ->
  ends (bind (die result format args) k) w
       (quit_code _output result (negb (bool_decide (T OUF = [])))).
Proof. intros H. by apply (ends_quit OUF). Qed.

Lemma ends_die_last result format args T w : at_tokens T w ->
  ends (die result format args) w (quit_code _output result (negb (bool_decide (T OUF = [])))).
Proof.
  intros H. eapply (ends_ext _ (bind (die result format args) ret)); [done|]. by apply ends_die.
Qed.

Lemma ends_code m w c c' : ends m w c -> c = c' -> ends m w c'.
Proof. by intros ? <-. Qed.

Lemma strip_bom_length l : (length (strip_bom l) <= length l)%nat.
Proof. unfold strip_bom. case_match; [|done]. rewrite length_drop. lia. Qed.

(** The view at the start of a run. *)
Lemma start_tokens e i o a to ta w : checker_run e i o a to ta -> running (both ta (strip_bom to)) w ->
  at_tokens (pair_of (tokens ta) (tokens (strip_bom to))) w.
Proof.
  intros [] H. apply at_tokens_both; [done..|]. pose proof (strip_bom_length to).
  unfold zlen in *. lia.
Qed.

(** No token of the two files is longer than a machine integer counts. *)
Lemma token_short e i o a to ta x : checker_run e i o a to ta ->
  x ∈ tokens ta \/ x ∈ tokens (strip_bom to) -> zlen x <= INT_MAX.
Proof.
  intros [] Hx. pose proof (strip_bom_length to).
  assert (TOKEN_LIMIT <= INT_MAX) by done.
  destruct Hx as [Hx|Hx]; apply tokens_elem_length in Hx; unfold zlen in *; lia.
Qed.

Section TokenReaders.
Context (this : StreamId) (Hthis : this <> INF).

Lemma tok_seekEof T w : at_tokens T w ->
  exists w', on_stream this seekEof w = MRet (bool_decide (T this = [])) w' /\ at_tokens T w'.
Proof.
  intros (t & H & Ht). destruct (Ht this Hthis) as [Hb Et Hs].
  destruct (t this) as [l n] eqn:E. simpl in *. subst n.
  destruct (run_seekEof this Hthis _ _ _ _ H E) as (w' & E' & H'); [unfold max_pushback; lia|].
  exists w'. split.
  { by rewrite E', <- Et, (bool_decide_ext _ _ (tokens_nil_iff l)). }
  eapply at_tokens_ext.
  - eapply (at_tokens_upd this _ (T this) _ T); [done..|]. split; simpl; [done| |].
    + by rewrite tokens_skip_blanks.
    + pose proof (skip_blanks_length l). unfold zlen in *. lia.
  - intros i _. apply with_tokens_id.
Qed.

(** What the word readers share: some text whose next token is read. *)
Lemma tok_text T w x xs : at_tokens T w -> T this = x :: xs ->
  exists t l, running t w /\ t this = (l, 2%nat) /\ skip_blanks l <> [] /\ zlen l <= TOKEN_LIMIT /\
    take_word (skip_blanks l) = x /\
    forall w', running (at_rest this (drop_word (skip_blanks l)) t) w' ->
               at_tokens (with_tokens this xs T) w'.
Proof.
  intros (t & H & Ht) ET. destruct (Ht this Hthis) as [Hb Et Hs].
  destruct (t this) as [l n] eqn:E. simpl in *. subst n. exists t, l.
  destruct (skip_blanks l) as [|c l'] eqn:El.
  { rewrite (tokens_end _ El) in Et. congruence. }
  rewrite ET, (tokens_next _ _ _ El), El in Et. injection Et as E1 E2.
  split_and!; try done. intros w' H'. eapply (at_tokens_upd this _ _ _ T); [done..|]. split; [done..|].
  pose proof (skip_blanks_length l). pose proof (drop_word_length (c :: l')).
  rewrite El in *. unfold zlen in *. simpl in *. lia.
Qed.

Lemma tok_readWordTo T w x xs : at_tokens T w -> T this = x :: xs ->
  exists w', readWordTo this w = MRet x w' /\ at_tokens (with_tokens this xs T) w'.
Proof.
  intros H ET. destruct (tok_text _ _ _ _ H ET) as (t & l & Ht & E & Hne & Hl & Ex & Hnext).
  destruct (run_readWordTo this Hthis _ _ _ Ht E Hne Hl) as (w' & E' & H').
  rewrite E', Ex. eauto.
Qed.

Lemma tok_readWord T w x xs : at_tokens T w -> T this = x :: xs ->
  exists w', readWord this w = MRet x w' /\ at_tokens (with_tokens this xs T) w'.
Proof.
  intros H ET. destruct (tok_text _ _ _ _ H ET) as (t & l & Ht & E & Hne & Hl & Ex & Hnext).
  destruct (run_readWord this Hthis _ _ _ Ht E Hne Hl) as (w' & E' & H').
  rewrite E', Ex. eauto.
Qed.

(** A word expected where none is left ends the process. *)
Lemma tok_readWord_end T w : at_tokens T w -> T this = [] ->
  exists h, readWord this w = MHalt h /\
    exit_code (finish h) = Some (quit_code (mode_of this) _unexpected_eof false).
Proof.
  intros (t & H & Ht) ET. destruct (Ht this Hthis) as [Hb Et Hs].
  destruct (t this) as [l n] eqn:E. simpl in *. subst n.
  rewrite ET in Et. apply tokens_nil_iff in Et.
  destruct (run_readWord_end this Hthis _ _ _ H E Et) as (w' & msg & E' & H').
  exists (quit this _unexpected_eof msg w'). split; [done|]. erewrite run_quit; [|done..|].
  - done.
  - unfold upd. case_bool_decide; [simpl; unfold max_pushback; lia|].
    destruct (Ht OUF ltac:(done)) as [-> _ _]. unfold max_pushback. lia.
Qed.
End TokenReaders.
