(* ===== verification/NumbersSpec.v ===== *)
(** * Integers: the spelling testlib accepts

    [vtos] writes the canonical decimal spelling of an integer and
    [stringToLongLong] accepts exactly the canonical spellings of 64-bit
    integers, so the two are inverse to each other. *)

From S2P Require Import Prelude Text Numbers.

(** The value of a string of digits written backwards. *)
Fixpoint value_rev (rs : bytes) : Z :=
  match rs with
  | [] => 0
  | c :: rs => (char_to_int c - 48) + 10 * value_rev rs
  end.

Definition digits (s : bytes) : Prop := Forall (fun c => is_digit c = true) s.

(** No superfluous zero in front. *)
Definition canonical_nat (s : bytes) : Prop :=
  digits s /\ s <> [] /\ (head s = Some "0"%char -> s = $"0").

Definition is_int64 (v : Z) : Prop := LLONG_MIN <= v <= LLONG_MAX.

Lemma canonical_not_nil : ~ canonical_nat [].
Proof. by intros (_ & ? & _). Qed.

(** ** Digits *)

Lemma is_digit_range c : is_digit c = true <-> 48 <= char_to_int c <= 57.
Proof. unfold is_digit. lia. Qed.

Lemma digit_char_code d : 0 <= d <= 9 -> char_to_int (digit_char d) = 48 + d.
Proof.
  intros H. assert (d = 0 \/ d = 1 \/ d = 2 \/ d = 3 \/ d = 4 \/ d = 5 \/ d = 6 \/ d = 7 \/ d = 8 \/ d = 9)
    as Hd by lia.
  by repeat destruct Hd as [->|Hd]; subst.
Qed.

Lemma digit_char_digit d : 0 <= d <= 9 -> is_digit (digit_char d) = true.
Proof. intros H. apply is_digit_range. rewrite digit_char_code by done. lia. Qed.

Lemma digit_of_char c : is_digit c = true -> digit_char (char_to_int c - 48) = c.
Proof.
  intros H%is_digit_range. apply char_to_int_inj. rewrite digit_char_code; lia.
Qed.

Lemma digits_value_rev s : digits_value s = value_rev (reverse s).
Proof.
  unfold digits_value. induction s as [|c s IH] using rev_ind; [done|].
  rewrite foldl_app, reverse_snoc. simpl. rewrite IH. lia.
Qed.

Lemma value_rev_nonneg rs : digits rs -> 0 <= value_rev rs.
Proof. induction 1 as [|c rs Hc _ IH]; simpl; [done|]. apply is_digit_range in Hc. lia. Qed.

(** A digit string without a leading zero is positive. *)
Lemma value_rev_pos rs : digits rs -> rs <> [] -> list.last rs <> Some "0"%char -> 0 < value_rev rs.
Proof.
  induction 1 as [|c rs Hc Hrs IH]; [done|]. intros _ Hlast. simpl. pose proof Hc as Hr%is_digit_range.
  destruct rs as [|d rs].
  - simpl in *. assert (char_to_int c <> 48); [|lia]. intros E.
    apply Hlast. f_equal. by apply char_to_int_inj.
  - specialize (IH ltac:(done) Hlast). lia.
Qed.

(** ** [vtos] *)

Lemma vtos_loop_opp fuel n : 0 <= n -> vtos_loop fuel (- n) = vtos_loop fuel n.
Proof.
  revert n. induction fuel as [|fuel IH]; intros n Hn; [done|]. cbn [vtos_loop].
  destruct (Z.eqb_spec n 0) as [->|Hne]; [done|].
  destruct (Z.eqb_spec (- n) 0); [lia|].
  rewrite Z.quot_opp_l, Z.rem_opp_l, IH by (try apply Z.quot_pos; lia).
  pose proof (Z.rem_bound_pos n 10 ltac:(lia) ltac:(lia)).
  destruct (Z.ltb_spec (Z.rem n 10) 0); [lia|].
  destruct (Z.ltb_spec (- Z.rem n 10) 0); do 2 f_equal; lia.
Qed.

(** Without a leading zero the loop gives the digits back. *)
Lemma vtos_loop_value fuel rs : digits rs -> (rs <> [] -> list.last rs <> Some "0"%char) ->
  value_rev rs < 2 ^ Z.of_nat fuel -> vtos_loop fuel (value_rev rs) = rs.
Proof.
  revert rs. induction fuel as [|fuel IH]; intros rs Hrs Hlast Hf.
  - destruct rs as [|c rs]; [done|]. pose proof (value_rev_pos _ Hrs ltac:(done) (Hlast ltac:(done))).
    change (2 ^ Z.of_nat 0) with 1 in Hf. lia.
  - destruct rs as [|c rs]; [done|].
    pose proof (value_rev_pos _ Hrs ltac:(done) (Hlast ltac:(done))) as Hpos.
    inversion_clear Hrs as [|?? Hc Hrs']. pose proof (value_rev_nonneg _ Hrs') as Hnn.
    pose proof Hc as Hr%is_digit_range. simpl in Hpos, Hf. cbn [vtos_loop].
    set (v := value_rev (c :: rs)). assert (Ev : v = (char_to_int c - 48) + value_rev rs * 10).
    { subst v. simpl. lia. }
    destruct (Z.eqb_spec v 0); [lia|].
    assert (Eq : Z.quot v 10 = value_rev rs).
    { rewrite Ev, Z.quot_div_nonneg by lia. rewrite Z.div_add by lia. rewrite Z.div_small; lia. }
    assert (Er : Z.rem v 10 = char_to_int c - 48).
    { rewrite Ev, Z.rem_mod_nonneg by lia. rewrite Z.mod_add by lia. apply Z.mod_small. lia. }
    rewrite Eq, Er. destruct (Z.ltb_spec (char_to_int c - 48) 0); [lia|].
    rewrite digit_of_char by done. f_equal. apply IH; [done| |].
    + intros Hne. destruct rs; [done|]. exact (Hlast ltac:(done)).
    + rewrite Nat2Z.inj_succ, Z.pow_succ_r in Hf by lia. lia.
Qed.

(** The digits the loop writes for a positive number. *)
Lemma vtos_loop_spec fuel n : 0 <= n < 2 ^ Z.of_nat fuel ->
  digits (vtos_loop fuel n) /\ value_rev (vtos_loop fuel n) = n /\
  (0 < n -> vtos_loop fuel n <> [] /\ list.last (vtos_loop fuel n) <> Some "0"%char).
Proof.
  revert n. induction fuel as [|fuel IH]; intros n Hn.
  { change (2 ^ Z.of_nat 0) with 1 in Hn. simpl. split_and!; [constructor|lia|lia]. }
  cbn [vtos_loop]. destruct (Z.eqb_spec n 0) as [->|Hne]; [split_and!; [constructor|done|lia]|].
  rewrite Nat2Z.inj_succ, Z.pow_succ_r in Hn by lia.
  rewrite Z.quot_div_nonneg, Z.rem_mod_nonneg by lia.
  pose proof (Z.mod_pos_bound n 10 ltac:(lia)). pose proof (Z.div_mod n 10 ltac:(lia)) as Edm.
  assert (0 <= n / 10 < 2 ^ Z.of_nat fuel) as Hq by (split; lia).
  destruct (IH _ Hq) as (Hd & Hv & Hl).
  destruct (Z.ltb_spec (n mod 10) 0); [lia|]. split_and!.
  - constructor; [apply digit_char_digit; lia|done].
  - simpl. rewrite digit_char_code, Hv by lia. lia.
  - intros _. split; [done|]. destruct (Z.eq_dec (n / 10) 0) as [E0|E0].
    + rewrite E0. replace (vtos_loop fuel 0) with (@nil ascii) by by destruct fuel.
      simpl. intros [= E]. assert (char_to_int (digit_char (n mod 10)) = 48) as E1 by by rewrite E.
      rewrite digit_char_code in E1; lia.
    + destruct (Hl ltac:(lia)) as [Hne' Hlast]. destruct (vtos_loop fuel (n / 10)); done.
Qed.

Lemma dec_fuel_enough n : Z.abs n < 2 ^ Z.of_nat (dec_fuel n).
Proof.
  unfold dec_fuel. destruct (Z.eq_dec n 0) as [->|Hn]; [done|].
  pose proof (Z.log2_spec (Z.abs n) ltac:(lia)) as [_ H].
  pose proof (Z.log2_nonneg (Z.abs n)). by rewrite Nat2Z.inj_succ, Z2Nat.id.
Qed.

Lemma last_reverse_head (s : bytes) : list.last (reverse s) = head s.
Proof. destruct s as [|c s]; [done|]. by rewrite reverse_cons, last_snoc. Qed.

(** [vtos] of a non-negative number. *)
Lemma vtos_nonneg n : 0 <= n -> canonical_nat (vtos n) /\ digits_value (vtos n) = n.
Proof.
  intros Hn. unfold vtos. destruct (Z.eqb_spec n 0) as [->|Hne].
  { split; [|done]. split_and!; [by repeat constructor|done|done]. }
  destruct (Z.ltb_spec n 0); [lia|]. pose proof (dec_fuel_enough n).
  destruct (vtos_loop_spec (dec_fuel n) n ltac:(lia)) as (Hd & Hv & Hl).
  destruct (Hl ltac:(lia)) as [Hne' Hlast]. split.
  - split_and!; [by apply Forall_reverse| |].
    + intros E. apply Hne'. by rewrite <- (reverse_involutive (vtos_loop _ _)), E.
    + rewrite <- last_reverse_head, reverse_involutive. done.
  - by rewrite digits_value_rev, reverse_involutive.
Qed.

Lemma vtos_neg n : 0 < n -> vtos (- n) = "-"%char :: vtos n.
Proof.
  intros Hn. unfold vtos. destruct (Z.eqb_spec (- n) 0); [lia|]. destruct (Z.eqb_spec n 0); [lia|].
  destruct (Z.ltb_spec (- n) 0); [|lia]. destruct (Z.ltb_spec n 0); [lia|].
  rewrite vtos_loop_opp by lia. unfold dec_fuel. by rewrite Z.abs_opp.
Qed.

(** A canonical spelling is the one [vtos] writes. *)
Lemma vtos_canonical s : canonical_nat s -> vtos (digits_value s) = s.
Proof.
  intros (Hd & Hne & H0). destruct (decide (head s = Some "0"%char)) as [E|E].
  { rewrite (H0 E). done. }
  assert (Hr : digits (reverse s)) by by apply Forall_reverse.
  assert (Hne' : reverse s <> []). { intros E'. apply Hne. by rewrite <- (reverse_involutive s), E'. }
  assert (Hl : list.last (reverse s) <> Some "0"%char) by by rewrite last_reverse_head.
  rewrite digits_value_rev. pose proof (value_rev_pos _ Hr Hne' Hl). unfold vtos.
  destruct (Z.eqb_spec (value_rev (reverse s)) 0); [lia|].
  destruct (Z.ltb_spec (value_rev (reverse s)) 0); [lia|].
  pose proof (dec_fuel_enough (value_rev (reverse s))).
  rewrite vtos_loop_value; [by rewrite reverse_involutive|done..|lia].
Qed.

(** ** [stringToLongLong] *)

Lemma zeroes_loop_spec s z b :
  zeroes_loop s z b
  = if forallb is_digit s
    then Some (z + if b then count_while (is_char "0"%char) s else 0) else None.
Proof.
  revert z b. induction s as [|c s IH]; intros z b; simpl; [by destruct b; f_equal; lia|].
  destruct (is_digit c); [|done]. rewrite IH. simpl. destruct (forallb is_digit s); [|done].
  f_equal. destruct (is_char "0"%char c), b; simpl; lia.
Qed.

Lemma digits_forallb s : forallb is_digit s = true <-> digits s.
Proof.
  unfold digits. induction s as [|c s IH]; simpl; [by split|]. by rewrite andb_true_iff, Forall_cons_iff, IH.
Qed.

Lemma is_char_spec d c : is_char d c = true <-> c = d.
Proof. unfold is_char. by rewrite bool_decide_eq_true. Qed.

(** The leading zeroes of a canonical spelling. *)
Definition leading_zeroes (s : bytes) : Z := count_while (is_char "0"%char) s.

Lemma count_while_nonneg P s : 0 <= count_while P s.
Proof. induction s as [|c s IH]; simpl; [done|]. case_match; lia. Qed.

Lemma leading_zeroes_0 s : leading_zeroes s <= 0 -> head s <> Some "0"%char.
Proof.
  unfold leading_zeroes. destruct s as [|c s]; [done|]. simpl. intros H [= ->].
  change (is_char "0"%char "0"%char) with true in H. cbv iota in H.
  pose proof (count_while_nonneg (is_char "0"%char) s). lia.
Qed.

Lemma leading_zeroes_other s : head s <> Some "0"%char -> leading_zeroes s = 0.
Proof.
  unfold leading_zeroes. destruct s as [|c s]; [done|]. simpl. intros H.
  destruct (is_char "0"%char c) eqn:E; [|done]. apply is_char_spec in E. by subst.
Qed.

Lemma canonical_iff s : digits s -> s <> [] ->
  canonical_nat s <-> leading_zeroes s <= 0 \/ (leading_zeroes s = 1 /\ digits_value s = 0).
Proof.
  intros Hd Hne. split.
  - intros (_ & _ & H0). destruct (decide (head s = Some "0"%char)) as [E|E].
    + rewrite (H0 E). right. done.
    + left. by rewrite leading_zeroes_other.
  - intros Hz. split_and!; [done..|]. intros E. destruct s as [|c s]; [done|]. injection E as ->.
    destruct Hz as [Hz%leading_zeroes_0|[Hz Hv]]; [done|].
    destruct s as [|d s]; [done|]. exfalso.
    unfold leading_zeroes in Hz. simpl in Hz.
    change (is_char "0"%char "0"%char) with true in Hz. cbv iota in Hz.
    inversion_clear Hd as [|?? _ Hd'].
    assert (Hh : head (d :: s) <> Some "0"%char).
    { apply leading_zeroes_0. unfold leading_zeroes. simpl. lia. }
    assert (Hr : digits (reverse (d :: s))) by by apply Forall_reverse.
    assert (Hl : list.last (reverse (d :: s)) <> Some "0"%char) by by rewrite last_reverse_head.
    assert (0 < value_rev (reverse (d :: s))).
    { apply value_rev_pos; [done| |done]. rewrite reverse_cons. by destruct (reverse s). }
    rewrite digits_value_rev, reverse_cons in Hv.
    assert (Happ : forall rs, value_rev (rs ++ ["0"%char]) = value_rev rs).
    { induction rs as [|x rs IH]; simpl; [done|]. by rewrite IH. }
    rewrite Happ in Hv. lia.
Qed.

(** The number of digits of a bounded number. *)
Lemma value_rev_length rs : digits rs -> rs <> [] -> list.last rs <> Some "0"%char ->
  10 ^ (zlen rs - 1) <= value_rev rs.
Proof.
  induction 1 as [|c rs Hc Hrs IH]; [done|]. intros _ Hlast. rewrite zlen_cons. simpl.
  pose proof Hc as Hr%is_digit_range. destruct rs as [|d rs].
  - simpl in *. change (10 ^ (1 + zlen (@nil ascii) - 1)) with 1.
    assert (char_to_int c <> 48); [|lia]. intros E. apply Hlast. f_equal. by apply char_to_int_inj.
  - specialize (IH ltac:(done) Hlast). rewrite zlen_cons in *. pose proof (zlen_nonneg rs).
    replace (1 + (1 + zlen rs) - 1) with (Z.succ (1 + zlen rs - 1)) by lia.
    rewrite Z.pow_succ_r by lia. lia.
Qed.

Lemma canonical_length s : canonical_nat s -> digits_value s < 10 ^ 19 -> zlen s <= 19.
Proof.
  intros (Hd & Hne & H0) Hv. destruct (decide (head s = Some "0"%char)) as [E|E].
  { by rewrite (H0 E). }
  assert (Hr : digits (reverse s)) by by apply Forall_reverse.
  assert (Hne' : reverse s <> []). { intros E'. apply Hne. by rewrite <- (reverse_involutive s), E'. }
  pose proof (value_rev_length _ Hr Hne' ltac:(by rewrite last_reverse_head)) as Hlen.
  rewrite digits_value_rev in Hv.
  assert (Hz : zlen (reverse s) = zlen s) by (unfold zlen; by rewrite length_reverse).
  rewrite Hz in Hlen. destruct (Z.le_gt_cases (zlen s) 19); [done|].
  pose proof (Z.pow_le_mono_r 10 19 (zlen s - 1) ltac:(lia) ltac:(lia)). lia.
Qed.

Lemma digits_no_minus s : digits s -> head s <> Some "-"%char.
Proof. intros [|c s' Hc _] [= ->]. done. Qed.

Lemma digits_value_nonneg s : digits s -> 0 <= digits_value s.
Proof. intros H. rewrite digits_value_rev. by apply value_rev_nonneg, Forall_reverse. Qed.

(** The two shapes of a text the parser looks at. *)
Lemma stoll_digits s : digits s -> s <> [] ->
  stoll s = if LLONG_MAX <? digits_value s then None else Some (digits_value s).
Proof.
  intros Hd Hne. pose proof (digits_no_minus _ Hd) as Hm. unfold stoll.
  destruct s as [|c s]; [done|]. assert (is_char "-"%char c = false) as ->.
  { unfold is_char. apply bool_decide_false. intros ->. by apply Hm. }
  rewrite bool_decide_false by done.
  pose proof (digits_value_nonneg _ Hd).
  destruct (Z.ltb_spec (digits_value (c :: s)) LLONG_MIN); [unfold LLONG_MIN in *; lia|]. done.
Qed.

Lemma stoll_minus s : s <> [] ->
  stoll ("-"%char :: s)
  = if (- digits_value s <? LLONG_MIN) || (LLONG_MAX <? - digits_value s) then None
    else Some (- digits_value s).
Proof. intros Hne. unfold stoll. simpl. by rewrite bool_decide_false. Qed.

Lemma zeroes_loop_digits s : zeroes_loop s 0 true
  = if forallb is_digit s then Some (leading_zeroes s) else None.
Proof. by rewrite zeroes_loop_spec. Qed.

(** On a text without a minus. *)
Lemma parse_int64_nat s : head s <> Some "-"%char ->
  parse_int64 s
  = if bool_decide (canonical_nat s /\ digits_value s <= LLONG_MAX) then Some (digits_value s) else None.
Proof.
  intros Hm. unfold parse_int64. destruct s as [|c s]; [by rewrite (bool_decide_false (canonical_nat [] /\ _)) by (by intros [?%canonical_not_nil ?])|].
  set (t := c :: s) in *. assert (Hne : t <> []) by done.
  assert (Hz : znth t 0 = Some c).
  { unfold znth. subst t. rewrite zlen_cons. pose proof (zlen_nonneg s).
    destruct (Z.leb_spec (1 + zlen s) 0); [lia|done]. }
  assert (Hl : 0 < zlen t) by (subst t; rewrite zlen_cons; pose proof (zlen_nonneg s); lia).
  rewrite Hz, (bool_decide_false (Some c = _)) by done. rewrite andb_false_r.
  destruct (Z.eqb_spec (zlen t) 0); [lia|]. simpl orb. rewrite zeroes_loop_digits.
  destruct (forallb is_digit t) eqn:Hd.
  2: { rewrite bool_decide_false; [by case_match|]. intros [[Hd' _] _]. apply digits_forallb in Hd'. congruence. }
  apply digits_forallb in Hd. rewrite stoll_digits by done.
  pose proof (canonical_iff t Hd Hne) as Hc. case_bool_decide as Hcan.
  - destruct Hcan as [Hcan Hmax]. pose proof (canonical_length t Hcan ltac:(unfold LLONG_MAX in *; lia)).
    destruct (Z.ltb_spec 20 (zlen t)); [lia|]. destruct (Z.ltb_spec LLONG_MAX (digits_value t)); [lia|].
    apply Hc in Hcan. rewrite orb_false_r.
    destruct (Z.ltb_spec 0 (leading_zeroes t)), (Z.ltb_spec 1 (leading_zeroes t)),
      (Z.eqb_spec (digits_value t) 0); simpl; done || lia.
  - destruct (Z.ltb_spec 20 (zlen t)); [done|]. destruct (Z.ltb_spec LLONG_MAX (digits_value t)); [done|].
    rewrite orb_false_r. destruct (Z.ltb_spec 0 (leading_zeroes t)), (Z.ltb_spec 1 (leading_zeroes t)),
      (Z.eqb_spec (digits_value t) 0); simpl; try done; exfalso; apply Hcan; (split; [apply Hc; lia|done]).
Qed.

(** On a text with a minus. *)
Lemma parse_int64_minus s :
  parse_int64 ("-"%char :: s)
  = if bool_decide (canonical_nat s /\ 0 < digits_value s <= - LLONG_MIN)
    then Some (- digits_value s) else None.
Proof.
  unfold parse_int64. set (t := "-"%char :: s). assert (Hl : zlen t = 1 + zlen s) by apply zlen_cons.
  pose proof (zlen_nonneg s). destruct (Z.eqb_spec (zlen t) 0); [lia|]. simpl orb.
  assert (Hz : znth t 0 = Some "-"%char).
  { unfold znth. rewrite Hl. destruct (Z.leb_spec (1 + zlen s) 0); [lia|done]. }
  rewrite Hz, (bool_decide_true (Some _ = _)) by done. rewrite andb_true_r.
  destruct s as [|c s']; [by rewrite (bool_decide_false (canonical_nat [] /\ _)) by (by intros [?%canonical_not_nil ?])|].
  set (s := c :: s') in *. assert (Hne : s <> []) by done.
  assert (1 < zlen t) by (rewrite Hl; subst s; rewrite zlen_cons; pose proof (zlen_nonneg s'); lia).
  destruct (Z.ltb_spec 1 (zlen t)); [|lia].
  replace (zdrop 1 t) with s by (rewrite zdrop_drop by lia; done).
  rewrite zeroes_loop_digits. destruct (forallb is_digit s) eqn:Hd.
  2: { rewrite bool_decide_false; [by case_match|]. intros [[Hd' _] _]. apply digits_forallb in Hd'. congruence. }
  apply digits_forallb in Hd. unfold t. rewrite stoll_minus by done. fold t.
  pose proof (canonical_iff s Hd Hne) as Hc. pose proof (digits_value_nonneg s Hd).
  destruct (Z.ltb_spec LLONG_MAX (- digits_value s)); [unfold LLONG_MAX in *; lia|]. rewrite orb_false_r.
  case_bool_decide as Hcan.
  - destruct Hcan as [Hcan [Hpos Hmax]].
    pose proof (canonical_length s Hcan ltac:(unfold LLONG_MIN in *; lia)).
    destruct (Z.ltb_spec 20 (zlen t)); [lia|]. destruct (Z.ltb_spec (- digits_value s) LLONG_MIN); [lia|].
    apply Hc in Hcan. rewrite orb_true_r, andb_true_r.
    destruct (Z.ltb_spec 0 (leading_zeroes s)), (Z.ltb_spec 1 (leading_zeroes s)); simpl; done || lia.
  - destruct (Z.ltb_spec 20 (zlen t)); [done|].
    destruct (Z.ltb_spec (- digits_value s) LLONG_MIN); [done|]. rewrite orb_true_r, andb_true_r.
    destruct (Z.ltb_spec 0 (leading_zeroes s)); [done|].
    destruct (Z.ltb_spec 1 (leading_zeroes s)); [done|]. simpl. exfalso. apply Hcan.
    split; [apply Hc; lia|]. split; [|lia].
    pose proof (leading_zeroes_0 s ltac:(lia)). rewrite digits_value_rev. apply value_rev_pos.
    + by apply Forall_reverse.
    + intros E. apply Hne. by rewrite <- (reverse_involutive s), E.
    + by rewrite last_reverse_head.
Qed.

(** What [stringToLongLong] accepts, in full. *)
Lemma parse_int64_spec s v : parse_int64 s = Some v <-> s = vtos v /\ is_int64 v.
Proof.
  unfold is_int64. split.
  - destruct (decide (head s = Some "-"%char)) as [Hm|Hm].
    + destruct s as [|c s]; [done|]. injection Hm as ->. rewrite parse_int64_minus.
      case_bool_decide as Hc; [|done]. intros [= <-]. destruct Hc as [Hcan Hr].
      rewrite vtos_neg by lia. rewrite vtos_canonical by done. split; [done|].
      unfold LLONG_MIN, LLONG_MAX in *. lia.
    + rewrite parse_int64_nat by done. case_bool_decide as Hc; [|done]. intros [= <-].
      destruct Hc as [Hcan Hr]. rewrite vtos_canonical by done. split; [done|].
      pose proof (digits_value_nonneg _ (proj1 Hcan)). unfold LLONG_MIN, LLONG_MAX in *. lia.
  - intros [-> Hr]. destruct (Z.le_gt_cases 0 v) as [Hv|Hv].
    + destruct (vtos_nonneg v Hv) as [Hcan Hval].
      rewrite parse_int64_nat by (apply digits_no_minus, Hcan).
      rewrite bool_decide_true; [by rewrite Hval|]. split; [done|lia].
    + destruct (vtos_nonneg (- v) ltac:(lia)) as [Hcan Hval].
      replace v with (- (- v)) at 1 by lia. rewrite vtos_neg by lia. rewrite parse_int64_minus.
      rewrite bool_decide_true; [f_equal; lia|]. split; [done|lia].
Qed.

Lemma digits_no_nul s : digits s -> zero ∉ s.
Proof.
  induction 1 as [|c s Hc _ IH]; [apply not_elem_of_nil|].
  apply not_elem_of_cons. split; [by intros <-|done].
Qed.

Lemma parse_int64_no_nul s v : parse_int64 s = Some v -> zero ∉ s.
Proof.
  intros [-> _]%parse_int64_spec. destruct (Z.le_gt_cases 0 v) as [Hv|Hv].
  - by apply digits_no_nul, (vtos_nonneg v Hv).
  - replace v with (- (- v)) by lia. rewrite vtos_neg by lia. apply not_elem_of_cons. split; [done|].
    apply digits_no_nul, (vtos_nonneg (- v)). lia.
Qed.

(** C28: [stringToLongLong] accepts exactly the canonical decimal spellings of
    the 64-bit integers (no plus, no superfluous zero, no minus zero) and
    returns the integer spelled: it is the inverse of [vtos]. *)
Theorem parse_int64_roundtrip s v : parse_int64 s = Some v <-> s = vtos v /\ is_int64 v.
Proof. apply parse_int64_spec. Qed.
