(* ===== verification/StrictSpec.v ===== *)
(** * Strict reading from the standard input

    A validator reads its standard input through [FileInputStreamReader] in
    strict mode.  [valid_at l w]: the registered validator [w] still has the
    bytes [l] to read; byte 255 reads like the end of the file.  [parses m p]:
    the reader function [m] follows the parser [p] on these bytes, and where
    [p] fails the process exits with the failure code. *)

From S2P Require Import Prelude Text Doubles Readers Validator Streams World Pattern Reading Numbers Register StreamSpec QuitSpec ProcessSpec NumbersSpec.

(** ** The reader *)

Definition codes (l : bytes) : list Z := ascii_code <$> l.

(** The reader delivers [l] and can take back [n] characters. *)
Definition live (l : bytes) (n : nat) (r : FileReader.t) : Prop :=
  exists f, FileReader.file r = Some f /\ at_eof f = false
    /\ FileReader.undoChars r ++ codes (content f) = codes l
    /\ (length (FileReader.undoChars r) <= length (FileReader.undoReadChars r))%nat
    /\ (n <= length (FileReader.readChars r))%nat.

(** The end of the file was hit: whatever was put back is lost. *)
Definition over (r : FileReader.t) : Prop :=
  exists f, FileReader.file r = Some f /\ at_eof f = true.

Lemma char_of_code c : int_to_char (ascii_code c) = c.
Proof. by destruct c as [[] [] [] [] [] [] [] []]. Qed.

Lemma code_not_EOF c : (ascii_code c =? EOF) = false.
Proof. pose proof (ascii_code_range c). unfold EOF. lia. Qed.

Lemma live_next c l n r : live (c :: l) n r ->
  exists r', FileReader.nextChar r = RRet (ascii_code c, r') /\ live l (S n) r'.
Proof.
  intros (f & Ef & He & Ec & Hu & Hn). unfold FileReader.nextChar, FileReader.feof, FileReader.getc.
  rewrite Ef. simpl. rewrite He. destruct r as [file name line undo readC undoR]. simpl in *.
  assert (Hp : forall x, FileReader.postprocessGetc (ascii_code x) = ascii_code x).
  { intros x. unfold FileReader.postprocessGetc. by rewrite code_not_EOF. }
  destruct undo as [|x undo].
  - unfold libc_getc. destruct (content f) as [|d rest] eqn:Ect; [done|].
    injection Ec as E1 E2. eexists. split; [simpl; by rewrite Hp, E1|].
    eexists. split; [reflexivity|]. simpl. repeat split; [done..|lia|lia].
  - injection Ec as -> E2. destruct undoR as [|rc undoR]; simpl in Hu; [lia|].
    eexists. split; [simpl; by rewrite Hp|].
    exists f. simpl. repeat split; [done..|lia|lia].
Qed.

Lemma over_next r : over r -> FileReader.nextChar r = RRet (EOFC, r).
Proof.
  intros (f & Ef & He). unfold FileReader.nextChar, FileReader.feof. rewrite Ef. simpl. by rewrite He.
Qed.

Lemma live_next_end n r : live [] n r ->
  exists r', FileReader.nextChar r = RRet (EOFC, r') /\ over r'.
Proof.
  intros (f & Ef & He & Ec & Hu & Hn). unfold FileReader.nextChar, FileReader.feof, FileReader.getc.
  rewrite Ef. simpl. rewrite He. apply app_eq_nil in Ec as [Eu Ect]. rewrite Eu.
  unfold libc_getc. destruct (content f); [|done]. eexists. split; [reflexivity|].
  eexists. split; reflexivity.
Qed.

Lemma live_unread c l n r : live l (S n) r -> live (c :: l) n (FileReader.ungetc (ascii_code c) r).
Proof.
  intros (f & Ef & He & Ec & Hu & Hn). unfold FileReader.ungetc.
  destruct (FileReader.readChars r) as [|rc rest]; simpl in Hn; [lia|].
  exists f. simpl. repeat split; [done..| |lia|lia]. by rewrite Ec.
Qed.

Lemma over_unread x r : over r -> over (FileReader.ungetc x r).
Proof.
  intros (f & Ef & He). exists f. unfold FileReader.ungetc. by destruct (FileReader.readChars r).
Qed.

Lemma over_eof r : over r -> FileReader.eof r = RRet (true, r).
Proof. intros (f & Ef & He). unfold FileReader.eof. by rewrite Ef, He. Qed.

(** ** The stream *)

Record strict_stdin (ok : FileReader.t -> Prop) (s : InStream) : Prop := StrictStdin {
  ss_reader : exists r, reader s = Some (RFile r) /\ ok r;
  ss_strict : strict s = true;
  ss_mode : mode s = _input;
  ss_limit : maxTokenLength s = TOKEN_LIMIT }.

(** At rest: the bytes [l] are left. *)
Definition rest_at (l : bytes) (r : FileReader.t) : Prop := live l 0 r \/ (l = [] /\ over r).

(** In front of a character just read. *)
Definition just_read (l : bytes) (r : FileReader.t) : Prop :=
  match l with [] => over r | _ :: l => live l 1 r end.

(** What [nextChar] returns. *)
Definition next_code (l : bytes) : Z := match l with [] => EOFC | c :: _ => ascii_code c end.

Lemma strict_weaken (P Q : FileReader.t -> Prop) s :
  (forall r, P r -> Q r) -> strict_stdin P s -> strict_stdin Q s.
Proof. intros H [(r & ? & ?) ? ? ?]. constructor; eauto. Qed.

Lemma rest_next l s : strict_stdin (rest_at l) s ->
  exists s', reader_nextChar s = RRet (next_code l, s') /\ strict_stdin (just_read l) s'.
Proof.
  intros [(r & Er & Hr) Hs Hm Hl]. unfold reader_nextChar, with_reader. rewrite Er. simpl.
  assert (exists r', FileReader.nextChar r = RRet (next_code l, r') /\ just_read l r') as (r' & -> & H').
  { destruct Hr as [Hr|[-> Hr]]; [|by exists r; rewrite over_next].
    destruct l as [|c l]; [by eapply live_next_end|by apply live_next]. }
  eexists. split; [reflexivity|]. constructor; simpl; eauto.
Qed.

(** The character goes back. *)
Lemma rest_unread l s : strict_stdin (just_read l) s ->
  exists s', reader_unreadChar (next_code l) s = RRet s' /\ strict_stdin (rest_at l) s'.
Proof.
  intros [(r & Er & Hr) Hs Hm Hl]. unfold reader_unreadChar, with_reader1. rewrite Er. simpl.
  eexists. split; [reflexivity|]. constructor; simpl; try done. eexists. split; [reflexivity|].
  destruct l as [|c l]; [right; by split; [|apply over_unread]|left; by apply live_unread].
Qed.

Lemma live_rest l n r : live l n r -> rest_at l r.
Proof. intros (f & ? & ? & ? & ? & ?). left. exists f. repeat split; [done..|lia]. Qed.

(** Keeping the character. *)
Lemma rest_keep c l s : strict_stdin (just_read (c :: l)) s -> strict_stdin (rest_at l) s.
Proof. apply strict_weaken. intros r. apply live_rest. Qed.

(** Byte 255 is taken for the end of the file. *)
Definition at_end (l : bytes) : bool := match l with [] => true | c :: _ => ascii_code c =? EOFC end.

Lemma rest_eof l s : strict_stdin (rest_at l) s ->
  exists s', eof s = RRet (at_end l, s') /\ strict_stdin (rest_at (if at_end l then tail l else l)) s'.
Proof.
  intros [(r & Er & Hr) Hs Hm Hl]. unfold eof, with_reader. rewrite Er. simpl.
  assert (exists r', FileReader.eof r = RRet (at_end l, r')
                     /\ rest_at (if at_end l then tail l else l) r') as (r' & -> & H').
  { destruct Hr as [Hr|[-> Hr]]; [|by exists r; rewrite over_eof; [|done]; split; [|right]].
    pose proof Hr as (f & Ef & He & _). unfold FileReader.eof. rewrite Ef, He.
    destruct l as [|c l]; simpl.
    - destruct (live_next_end _ _ Hr) as (r' & -> & H'). simpl.
      pose proof H' as (f' & Ef' & _). unfold FileReader.feof. rewrite Ef'. simpl.
      eexists. split; [done|by right].
    - destruct (live_next _ _ _ _ Hr) as (r' & -> & H'). simpl.
      pose proof H' as (f' & Ef' & _). unfold FileReader.feof. rewrite Ef'. simpl.
      rewrite code_not_EOF. simpl. rewrite orb_false_r. destruct (ascii_code c =? EOFC).
      + eexists. split; [done|]. by eapply live_rest.
      + simpl. eexists. split; [done|]. left. by apply live_unread. }
  eexists. split; [reflexivity|]. constructor; simpl; eauto.
Qed.

Lemma rest_note l s : strict_stdin (rest_at l) s ->
  exists s', note_line s = RRet s' /\ strict_stdin (rest_at l) s'.
Proof.
  intros [(r & Er & Hr) Hs Hm Hl]. unfold note_line. rewrite Er. eexists. split; [reflexivity|].
  constructor; simpl; eauto.
Qed.

Lemma rest_fuel l s : strict_stdin (just_read l) s -> (length l <= S (stream_fuel s))%nat.
Proof.
  intros [(r & Er & Hr) Hs Hm Hl]. unfold stream_fuel. rewrite Er. simpl. unfold FileReader.fuel.
  destruct l as [|c l]; simpl in *; [lia|]. destruct Hr as (f & -> & _ & Ec & _).
  apply (f_equal length) in Ec. unfold codes in Ec. rewrite length_app, !length_fmap in Ec. lia.
Qed.

(** ** The validator process *)

Record valid_at (ok : FileReader.t -> Prop) (w : World) : Prop := ValidAt {
  va_calm : calm_in _validator w;
  va_stream : strict_stdin ok (inf w);
  va_eofs : 0 <= readEofCount w;
  va_alive : alive w = true }.

Lemma valid_put_inf P Q s w : valid_at P w -> strict_stdin Q s -> valid_at Q (put_inf s w).
Proof. intros [[] ? ? ?] ?. constructor; simpl; [|done..]. by constructor. Qed.

Lemma valid_on {A} P Q (f : InStream -> rres (A * InStream)) (a : A) w : valid_at P w ->
  (forall s, strict_stdin P s -> exists s', f s = RRet (a, s') /\ strict_stdin Q s') ->
  exists w', on_stream INF f w = MRet a w' /\ valid_at Q w'.
Proof.
  intros Hw Hf. unfold on_stream. destruct (Hf _ (va_stream _ _ Hw)) as (s' & E & Hs'). simpl.
  rewrite E. eexists. split; [reflexivity|]. by eapply valid_put_inf.
Qed.

Lemma valid_on1 P Q (f : InStream -> rres InStream) w : valid_at P w ->
  (forall s, strict_stdin P s -> exists s', f s = RRet s' /\ strict_stdin Q s') ->
  exists w', on_stream1 INF f w = MRet tt w' /\ valid_at Q w'.
Proof.
  intros Hw Hf. eapply valid_on; [done|]. intros s Hs. destruct (Hf s Hs) as (s' & -> & Hs').
  simpl. eauto.
Qed.

(** Changing what the views do not look at. *)
Lemma valid_modify P (f : InStream -> InStream) w : valid_at P w ->
  (forall s, reader (f s) = reader s /\ strict (f s) = strict s /\ mode (f s) = mode s
             /\ maxTokenLength (f s) = maxTokenLength s) ->
  exists w', modify_stream INF f w = MRet tt w' /\ valid_at P w'.
Proof.
  intros Hw Hf. eexists. split; [reflexivity|]. eapply valid_put_inf; [done|].
  destruct (va_stream _ _ Hw) as [Hr Hs Hm Hl]. simpl.
  destruct (Hf (inf w)) as (E1 & E2 & E3 & E4). constructor; by rewrite ?E1, ?E2, ?E3, ?E4.
Qed.

(** A verdict of any kind on the input of a validator is a failure. *)
Lemma valid_quit P result msg w : valid_at P w ->
  exit_code (finish (quit INF result msg w)) = Some FAIL_EXIT_CODE.
Proof.
  intros [Hc [_ _ Hm _] _ _]. pose proof (quitting_enter _ Hc) as Hq.
  pose proof (entered_mode _ Hc) as Hmode. pose proof (enter_stream INF w) as Ei.
  unfold quit, QUIT_DEPTH. rewrite quit_at_S. unfold quit_step. rewrite Hmode.
  set (r := if result =? _unexpected_eof then _pe else result). clearbody r.
  set (w1 := if alive w then _ else w) in *. simpl get_stream in *. rewrite Hm.
  rewrite (bool_decide_false (_validator = _scorer)), (bool_decide_false (_input = _output)) by done.
  cbv beta iota zeta delta [andb negb]. destruct (Z.eqb_spec r _fail) as [->|Hr].
  - change (__testlib_shouldCheckDirt _fail) with false. cbv iota.
    rewrite (verdict_code (m := _validator)); [done..|]. intros.
    by apply (quit_fail_code (m := _validator) 4), Hq.
  - case_match; by apply (quit_fail_code (m := _validator) 4), Hq.
Qed.

(** ** Parsers *)

Definition parser (A : Type) : Type := bytes -> option (A * bytes).

Definition fails {A} (r : mres A) : Prop :=
  exists h, r = MHalt h /\ exit_code (finish h) = Some FAIL_EXIT_CODE.

Definition parses {A} (m : M A) (p : parser A) : Prop := forall l w,
  valid_at (rest_at l) w -> zlen l <= TOKEN_LIMIT ->
  match p l with
  | Some (a, l') => exists w', m w = MRet a w' /\ valid_at (rest_at l') w' /\ zlen l' <= TOKEN_LIMIT
  | None => fails (m w)
  end.

Definition pbind {A B} (p : parser A) (k : A -> parser B) : parser B := fun l =>
  match p l with Some (a, l') => k a l' | None => None end.
Definition pret {A} (a : A) : parser A := fun l => Some (a, l).

Lemma fails_bind {A B} (m : M A) (k : A -> M B) w : fails (m w) -> fails (bind m k w).
Proof. intros (h & E & Hh). exists h. unfold bind. by rewrite E. Qed.

Lemma fails_quit {A} P result msg w : valid_at P w -> fails (in_quit (A := A) INF result msg w).
Proof. intros Hw. eexists. split; [reflexivity|]. by eapply valid_quit. Qed.

Lemma parses_ret {A} (a : A) : parses (ret a) (pret a).
Proof. intros l w Hw Hl. exists w. done. Qed.

Lemma parses_bind {A B} (m : M A) (k : A -> M B) p q :
  parses m p -> (forall a, parses (k a) (q a)) -> parses (bind m k) (pbind p q).
Proof.
  intros Hm Hk l w Hw Hl. specialize (Hm l w Hw Hl). unfold pbind.
  destruct (p l) as [[a l']|]; [|by apply fails_bind].
  destruct Hm as (w' & E & Hw' & Hl'). specialize (Hk a l' w' Hw' Hl').
  unfold bind at 1 2. rewrite E. exact Hk.
Qed.

Lemma parses_then {A} (m : M unit) (k : unit -> M A) p q :
  parses m p -> parses (k tt) q -> parses (bind m k) (pbind p (fun _ => q)).
Proof. intros Hm Hk. apply parses_bind; [done|]. by intros []. Qed.

(** A computation that leaves the input alone. *)
Lemma parses_skip {A B} (m : M A) (k : A -> M B) p :
  (forall P w, valid_at P w -> exists a w', m w = MRet a w' /\ valid_at P w' /\ parses (k a) p) ->
  parses (bind m k) p.
Proof.
  intros Hm l w Hw Hl. destruct (Hm _ _ Hw) as (a & w' & E & Hw' & Hk).
  specialize (Hk l w' Hw' Hl). unfold bind. rewrite E. exact Hk.
Qed.

(** ** Tokens *)

Definition stops (c : ascii) : bool := blank_char c || (ascii_code c =? EOFC).

Fixpoint span (l : bytes) : bytes * bytes :=
  match l with
  | [] => ([], [])
  | c :: l' => if stops c then ([], l) else let '(word, rest) := span l' in (c :: word, rest)
  end.

Definition strict_word : parser bytes := fun l =>
  let '(word, rest) := span l in if bool_decide (word = []) then None else Some (word, rest).

Lemma stops_code c : stops c = isBlanks (ascii_code c) || (ascii_code c =? EOFC).
Proof. by destruct c as [[] [] [] [] [] [] [] []]. Qed.

Lemma token_loop_spec l fuel acc w : valid_at (just_read l) w -> (length l < fuel)%nat ->
  zlen acc + zlen l <= TOKEN_LIMIT ->
  exists w', token_loop fuel INF (next_code l) acc w = MRet (next_code (span l).2, acc ++ (span l).1) w'
    /\ valid_at (just_read (span l).2) w'.
Proof.
  revert acc w l. induction fuel as [|fuel IH]; intros acc w l Hw Hf Hacc; [lia|]. simpl.
  destruct l as [|c l]; simpl.
  { exists w. by rewrite app_nil_r. }
  rewrite stops_code. destruct (isBlanks (ascii_code c) || (ascii_code c =? EOFC)); simpl.
  { exists w. by rewrite app_nil_r. }
  rewrite bind_stream. cbv beta. change (get_stream INF w) with (inf w). rewrite (ss_limit _ _ (va_stream _ _ Hw)), char_of_code.
  rewrite zlen_cons in Hacc. pose proof (zlen_nonneg l).
  rewrite (proj2 (Z.ltb_ge _ _)) by (rewrite zlen_app, zlen_cons, zlen_nil; lia).
  destruct (valid_on (just_read (c :: l)) (just_read l) reader_nextChar (next_code l) w Hw) as (w' & E & Hw').
  { intros s Hs. apply rest_next. by eapply rest_keep. }
  rewrite (bind_ret _ _ _ _ _ E).
  destruct (IH (acc ++ [c]) w' l Hw') as (w'' & E' & Hw'');
    [simpl in Hf; lia|rewrite zlen_app, zlen_cons, zlen_nil; lia|].
  rewrite E'. destruct (span l). simpl in *. exists w''. by rewrite <- app_assoc.
Qed.

Lemma span_app l : (span l).1 ++ (span l).2 = l.
Proof.
  induction l as [|c l IH]; simpl; [done|]. destruct (stops c); [done|].
  destruct (span l). simpl in *. by rewrite IH.
Qed.

Lemma span_length l : zlen (span l).2 <= zlen l.
Proof. rewrite <- (span_app l) at 2. rewrite zlen_app. pose proof (zlen_nonneg (span l).1). lia. Qed.

Lemma parses_readWordTo : parses (readWordTo INF) strict_word.
Proof.
  apply parses_skip. intros P w Hw. exists (inf w), w. split; [done|]. split; [done|].
  rewrite (ss_strict _ _ (va_stream _ _ Hw)). clear P w Hw. apply parses_skip. intros P w Hw.
  exists tt, w. split; [done|]. split; [done|]. clear P w Hw. intros l w Hw Hl.
  destruct (valid_on1 _ _ note_line w Hw (rest_note l)) as (w1 & E1 & H1).
  rewrite (bind_ret _ _ _ _ _ E1).
  destruct (valid_on _ _ reader_nextChar (next_code l) w1 H1 (rest_next l)) as (w2 & E2 & H2).
  rewrite (bind_ret _ _ _ _ _ E2). unfold strict_word.
  destruct l as [|c l]; [by eapply fails_quit|]. cbn [next_code span]. rewrite stops_code.
  destruct (ascii_code c =? EOFC) eqn:Ec; [rewrite orb_true_r; by eapply fails_quit|].
  destruct (isBlanks (ascii_code c)) eqn:Eb; [by eapply fails_quit|]. cbn [orb].
  rewrite bind_stream. cbv beta. pose proof (rest_fuel _ _ (va_stream _ _ H2)) as Hfuel.
  destruct (token_loop_spec (c :: l) (S (S (stream_fuel (get_stream INF w2)))) [] w2 H2) as (w3 & E3 & H3);
    [simpl in *; lia|rewrite zlen_nil; lia|].
  cbn [span next_code] in E3, H3. rewrite stops_code, Eb, Ec in E3, H3. cbn [orb] in E3, H3.
  pose proof (span_length l) as Hlen. destruct (span l) as [word rest]. cbn [fst snd app] in *.
  rewrite (bind_ret _ _ _ _ _ E3). cbv beta iota.
  destruct (valid_on1 _ _ (reader_unreadChar (next_code rest)) w3 H3 (rest_unread rest)) as (w4 & E4 & H4).
  rewrite (bind_ret _ _ _ _ _ E4). rewrite zlen_cons in *. pose proof (zlen_nonneg word).
  destruct (Z.eqb_spec (1 + zlen word) 0); [lia|].
  exists w4. split; [done|]. split; [done|lia].
Qed.

Lemma parses_readWord : parses (readWord INF) strict_word.
Proof.
  intros l w Hw Hl. pose proof (parses_readWordTo l w Hw Hl) as H. unfold readWord.
  destruct (strict_word l) as [[x l']|]; [|by apply fails_bind].
  destruct H as (w' & E & Hw' & Hl'). rewrite (bind_ret _ _ _ _ _ E).
  edestruct (valid_modify _ (set_tmpReadToken x) _ Hw') as (w2 & E2 & H2); [done|].
  rewrite (bind_ret _ _ _ _ _ E2). by exists w2.
Qed.

(** ** Integers *)

(** A condition that fails quits. *)
Definition guard_that (b : bool) : parser unit := fun l => if b then Some (tt, l) else None.

Lemma parses_when (b : bool) result msg :
  parses (when b (in_quit INF result msg)) (guard_that (negb b)).
Proof. intros l w Hw Hl. destruct b; simpl; [by eapply fails_quit|]. by exists w. Qed.

Definition strict_int64 : parser Z := pbind strict_word (fun word l =>
  match parse_int64 word with Some v => Some (v, l) | None => None end).

Lemma parses_stringToLongLong word :
  parses (stringToLongLong INF word)
         (fun l => match parse_int64 word with Some v => Some (v, l) | None => None end).
Proof.
  intros l w Hw Hl. unfold stringToLongLong, refuse_nul.
  destruct (parse_int64 word) as [v|] eqn:Ep.
  - rewrite bool_decide_false by by eapply parse_int64_no_nul. by exists w.
  - case_bool_decide; simpl; by eapply fails_quit.
Qed.

Lemma parses_strict {A} (k : InStream -> M A) p :
  (forall s, strict s = true -> mode s = _input -> parses (k s) p) -> parses (bind (stream INF) k) p.
Proof.
  intros Hk. apply parses_skip. intros P w Hw. exists (inf w), w. split; [done|]. split; [done|].
  apply Hk; apply (va_stream _ _ Hw).
Qed.

(** Integers of [int] in a range. *)
Definition strict_int (minv maxv : Z) : parser Z :=
  pbind strict_int64 (fun v => pbind (guard_that (negb ((v <? INT_MIN) || (INT_MAX <? v))))
    (fun _ => pbind (guard_that (negb ((v <? minv) || (maxv <? v)))) (fun _ => pret v))).

Lemma parses_ext {A} (m : M A) p q : (forall l, p l = q l) -> parses m p -> parses m q.
Proof. intros E Hm l w Hw Hl. rewrite <- E. by apply Hm. Qed.

Lemma parses_expect_more {A} what (k : unit -> M A) p :
  parses (k tt) p -> parses (bind (expect_more INF what) k) p.
Proof.
  intros Hk. apply parses_skip. intros P w Hw. exists tt, w. split; [|by split].
  unfold expect_more. rewrite bind_stream. change (get_stream INF w) with (inf w).
  by rewrite (ss_strict _ _ (va_stream _ _ Hw)).
Qed.

Lemma parses_readInt : parses (readInt INF)
  (pbind strict_int64 (fun v => pbind (guard_that (negb ((v <? INT_MIN) || (INT_MAX <? v))))
    (fun _ => pret v))).
Proof.
  apply parses_expect_more. eapply parses_ext; [|eapply parses_bind; [apply parses_readWord|]].
  2: { intros word. eapply parses_bind; [apply parses_stringToLongLong|].
       intros v. instantiate (1 := fun v => pbind (guard_that (negb ((v <? INT_MIN) || (INT_MAX <? v))))
                                             (fun _ => pret v)). cbv beta.
       intros l w Hw Hl. unfold pbind, guard_that. destruct (_ || _); simpl; [by eapply fails_quit|].
       by exists w. }
  intros l. unfold pbind, strict_int64, pbind. destruct (strict_word l) as [[word l']|]; [|done].
  by destruct (parse_int64 word).
Qed.

(** Recording what a variable was does not disturb the process. *)
Definition quiet (f : Validator -> Validator) : Prop := forall v,
  _testOverviewLogFileName (f v) = _testOverviewLogFileName v
  /\ _testMarkupFileName (f v) = _testMarkupFileName v /\ _testCase (f v) = _testCase v.

Lemma quiet_addBoundsHit name hit : quiet (addBoundsHit name hit).
Proof. intros v. unfold addBoundsHit. by destruct (_ && _). Qed.
Lemma quiet_adjust name lo hi : quiet (adjustConstantBounds name lo hi).
Proof. intros v. unfold adjustConstantBounds. by destruct (_ && _). Qed.
Lemma quiet_addVariable name : quiet (addVariable name).
Proof. intros v. unfold addVariable. by destruct (_ && _). Qed.

Lemma valid_quiet P f w : quiet f -> valid_at P w ->
  exists w', on_validator f w = MRet tt w' /\ valid_at P w'.
Proof.
  intros Hf [[] ? ? ?]. eexists. split; [reflexivity|]. destruct (Hf (validator w)) as (E1 & E2 & E3).
  constructor; simpl; [|done..]. constructor; simpl; rewrite ?E1, ?E2, ?E3; done.
Qed.

Lemma parses_quiet (b : bool) (f : Validator -> Validator) :
  quiet f -> parses (when b (on_validator f)) (pret tt).
Proof.
  intros Hf l w Hw Hl. destruct b; simpl; [|by exists w].
  destruct (valid_quiet _ f _ Hf Hw) as (w' & E & H'). exists w'. done.
Qed.

Lemma parses_note_variable name : parses (note_variable INF name) (pret tt).
Proof. apply parses_strict. intros s _ _. apply parses_quiet, quiet_addVariable. Qed.

Lemma parses_note_bounds name hit lo hi : parses (note_bounds INF name hit lo hi) (pret tt).
Proof.
  apply parses_strict. intros s _ _ l w Hw Hl. destruct (_ && _); simpl; [|by exists w].
  destruct (valid_quiet _ _ _ (quiet_addBoundsHit name hit) Hw) as (w1 & E1 & H1).
  destruct (valid_quiet _ _ _ (quiet_adjust name lo hi) H1) as (w2 & E2 & H2).
  destruct (valid_quiet _ _ _ (quiet_addVariable name) H2) as (w3 & E3 & H3).
  exists w3. rewrite (bind_ret _ _ _ _ _ E1), (bind_ret _ _ _ _ _ E2). done.
Qed.

Lemma parses_check_range outside kind name result lo hi :
  parses (check_range INF outside kind name result lo hi) (guard_that (negb outside)).
Proof. apply parses_strict. intros s _ _. apply parses_when. Qed.

Lemma parses_readInt_range minv maxv name : parses (readInt_range INF minv maxv name) (strict_int minv maxv).
Proof.
  unfold readInt_range, read_bounded.
  eapply parses_ext; [|eapply parses_bind; [apply parses_readInt|]].
  2: { intros v. eapply parses_then; [apply parses_check_range|].
       eapply parses_then; [apply parses_note_bounds|]. apply parses_ret. }
  intros l. unfold strict_int, pbind, pret. destruct (strict_int64 l) as [[v l']|]; [|done].
  unfold guard_that. by destruct (_ || _); simpl.
Qed.

(** ** Separators *)

Definition strict_char (c : ascii) : parser ascii := fun l =>
  match l with d :: l => if bool_decide (c = d) then Some (d, l) else None | [] => None end.

Lemma parses_readChar c : (ascii_code c =? EOFC) = false -> parses (readChar_expect INF c) (strict_char c).
Proof.
  intros Hc l w Hw Hl. unfold readChar_expect.
  destruct (valid_on1 _ _ note_line w Hw (rest_note l)) as (w1 & E1 & H1).
  rewrite (bind_ret _ _ _ _ _ E1).
  destruct (valid_on (rest_at l) (just_read l) readChar (int_to_char (next_code l)) w1 H1) as (w2 & E2 & H2).
  { intros s Hs. destruct (rest_next l s Hs) as (s' & E & Hs'). exists s'. split; [|done].
    unfold readChar, nextChar. by rewrite E. }
  rewrite (bind_ret _ _ _ _ _ E2). destruct l as [|d l]; cbn [next_code strict_char].
  - rewrite bool_decide_false; [destruct (negb _); by eapply fails_quit|]. intros ->. done.
  - rewrite char_of_code. case_bool_decide; [|destruct (negb _); by eapply fails_quit].
    exists w2. rewrite zlen_cons in Hl. split; [done|]. split; [|lia].
    destruct H2. constructor; try done. by eapply rest_keep.
Qed.

Definition strict_eoln : parser unit := pbind (strict_char lf_char) (fun _ => pret tt).

Lemma rest_eoln l s : strict_stdin (rest_at l) s ->
  exists s', eoln s = RRet (bool_decide (head l = Some lf_char), s')
    /\ strict_stdin (rest_at (if bool_decide (head l = Some lf_char) then tail l else l)) s'.
Proof.
  intros Hs. pose proof Hs as [(r & Er & _) Est _ _].
  destruct (rest_next l s Hs) as (s1 & E1 & H1). pose proof (ss_strict _ _ H1) as Est1.
  assert (E : eoln s = if negb (next_code l =? LF)
                       then let% s' := reader_unreadChar (next_code l) s1 in RRet (false, s')
                       else RRet (true, s1)).
  { unfold eoln. rewrite Er, E1. simpl. by rewrite Est1. }
  rewrite E. clear E. destruct (rest_unread l s1 H1) as (s2 & E2 & H2).
  assert (Eb : (next_code l =? LF) = bool_decide (head l = Some lf_char)).
  { destruct l as [|[[] [] [] [] [] [] [] []] l]; done. }
  rewrite Eb. destruct (bool_decide (head l = Some lf_char)); simpl.
  - exists s1. split; [done|]. destruct l as [|c l]; [done|]. by eapply rest_keep.
  - rewrite E2. simpl. by exists s2.
Qed.

Lemma parses_readEoln : parses (readEoln INF) strict_eoln.
Proof.
  intros l w Hw Hl. unfold readEoln, strict_eoln, pbind, strict_char.
  destruct (valid_on1 _ _ note_line w Hw (rest_note l)) as (w1 & E1 & H1).
  rewrite (bind_ret _ _ _ _ _ E1).
  destruct (valid_on _ _ eoln _ w1 H1 (rest_eoln l)) as (w2 & E2 & H2). rewrite (bind_ret _ _ _ _ _ E2).
  destruct l as [|c l]; simpl in *; [by eapply fails_quit|].
  rewrite (bool_decide_ext (Some c = Some lf_char) (lf_char = c)) in * by (split; congruence).
  case_bool_decide; simpl; [|by eapply fails_quit].
  exists w2. rewrite zlen_cons in Hl. split; [done|]. split; [done|lia].
Qed.
