(* ===== verification/ValidatorSpec.v ===== *)
(** * A validator accepts its format

    [array_validator] is a validator in the documented style: a count, the end
    of the line, so many integers separated by single spaces, the end of the
    line and the end of the file.  It accepts exactly the texts of this format,
    with canonical integers in their ranges, and refuses any other with the
    failure code. *)

From S2P Require Import Prelude Text Doubles Readers Validator Streams World Pattern Reading Numbers Register StreamSpec QuitSpec ProcessSpec NumbersSpec TextSpec StrictSpec.

(** ** Repetition *)

Definition strict_space : parser unit := pbind (strict_char " "%char) (fun _ => pret tt).

Fixpoint many {A} (n : nat) (p : parser A) : parser (list A) :=
  match n with
  | O => pret []
  | S n => pbind p (fun x => pbind (if Nat.eqb n O then pret tt else strict_space)
                     (fun _ => pbind (many n p) (fun xs => pret (x :: xs))))
  end.

Lemma parses_modify {A} (f : InStream -> InStream) (k : unit -> M A) p :
  (forall s, reader (f s) = reader s /\ strict (f s) = strict s /\ mode (f s) = mode s
             /\ maxTokenLength (f s) = maxTokenLength s) ->
  parses (k tt) p -> parses (bind (modify_stream INF f) k) p.
Proof.
  intros Hf Hk. apply parses_skip. intros P w Hw.
  destruct (valid_modify _ f w Hw Hf) as (w' & E & H'). by exists tt, w'.
Qed.

Lemma parses_readMany_loop {A} n (readOne : M A) p :
  parses readOne p -> parses (readMany_loop n INF readOne true) (many n p).
Proof.
  intros Hp. induction n as [|n IH]; [apply parses_ret|]. cbn [readMany_loop many].
  apply parses_bind; [done|]. intros x.
  apply parses_modify; [done|]. apply parses_strict. intros s Hs _. rewrite Hs. simpl.
  apply parses_then.
  - destruct (Nat.eqb n 0); simpl; [apply parses_ret|].
    apply parses_bind; [by apply parses_readChar|]. intros ?. apply parses_ret.
  - apply parses_bind; [done|]. intros xs. apply parses_ret.
Qed.

Lemma parses_readInts size minv maxv names indexBase : 0 <= size <= 100000000 ->
  parses (readInts_range INF size minv maxv names indexBase)
         (many (Z.to_nat size) (strict_int minv maxv)).
Proof.
  intros Hs. unfold readInts_range, many_named.
  apply (parses_then _ _ (pret tt) (many (Z.to_nat size) (strict_int minv maxv)));
    [apply parses_note_variable|]. unfold __testlib_readMany.
  destruct (Z.ltb_spec size 0); [lia|]. destruct (Z.ltb_spec 100000000 size); [lia|].
  apply parses_modify; [done|].
  eapply parses_ext; [|apply parses_bind; [apply parses_readMany_loop, parses_readInt_range|]].
  2: { intros xs. apply parses_modify; [done|]. apply parses_ret. }
  intros l. unfold pbind. by destruct (many _ _ l) as [[xs l']|].
Qed.

(** ** The end *)

Lemma valid_readEof l w : valid_at (rest_at l) w ->
  if at_end l
  then exists w', readEof INF w = MRet tt w' /\ calm_in _validator w' /\ alive w' = true
                  /\ 0 < readEofCount w'
  else fails (readEof INF w).
Proof.
  intros Hw. unfold readEof.
  destruct (valid_on1 _ _ note_line w Hw (rest_note l)) as (w1 & E1 & H1).
  rewrite (bind_ret _ _ _ _ _ E1).
  destruct (valid_on _ _ eof _ w1 H1 (rest_eof l)) as (w2 & E2 & [[] Hs He Ha]).
  rewrite (bind_ret _ _ _ _ _ E2).
  destruct (at_end l); simpl; [|eapply fails_quit; by constructor].
  eexists. split; [reflexivity|]. rewrite Ha. simpl. repeat split; [done..|lia].
Qed.

(** A validator that returns after reading the end of the file. *)
Lemma finish_validator w : calm_in _validator w -> alive w = true -> 0 < readEofCount w ->
  exit_code (finish (HExit 0 w)) = Some 0.
Proof.
  intros [] Ha He. unfold finish, finalize. rewrite Ha.
  unfold guard_checks, autoEnsureNoUnusedOpts, fail_when, writeTestOverviewLog, writeTestMarkup, writeTestCase.
  simpl. rewrite calm_mode. simpl. rewrite (proj2 (Z.eqb_neq _ _)) by lia. simpl.
  rewrite andb_false_r. simpl. rewrite calm_opts. simpl. rewrite calm_registered. simpl.
  destruct (__testlib_exitCode w =? 0); [|done]. rewrite calm_overview. simpl. rewrite calm_markup. simpl.
  by rewrite (proj2 (Z.ltb_ge _ _)).
Qed.

(** ** Registration *)

Lemma registered_validator e : exists w,
  registerValidation_cmd [] (initial_world e) = MRet tt w /\ valid_at (rest_at (stdin_bytes e)) w.
Proof.
  eexists. split; [reflexivity|]. constructor; [|..|done|done].
  - by constructor.
  - constructor; try done. eexists. split; [reflexivity|]. left. eexists. split; [reflexivity|].
    repeat split; simpl; lia.
Qed.

(** ** What the parsers accept *)

(** A token ends here. *)
Definition token_ends (l : bytes) : Prop := match l with [] => True | c :: _ => stops c = true end.

Lemma span_spec l : Forall (fun c => stops c = false) (span l).1 /\ token_ends (span l).2.
Proof.
  induction l as [|c l IH]; simpl; [done|]. destruct (stops c) eqn:Ec; [by simpl|].
  destruct (span l). simpl in *. destruct IH. split; [by constructor|done].
Qed.

Lemma span_word word rest : Forall (fun c => stops c = false) word -> token_ends rest ->
  span (word ++ rest) = (word, rest).
Proof.
  intros Hw Hr. induction Hw as [|c word Hc _ IH]; cbn [span app].
  - destruct rest; [done|]. cbn [span app]. by rewrite Hr.
  - by rewrite Hc, IH.
Qed.

Lemma vtos_word v : Forall (fun c => stops c = false) (vtos v) /\ vtos v <> [].
Proof.
  assert (Hd : forall c, is_digit c = true -> stops c = false)
    by (intros [[] [] [] [] [] [] [] []]; done).
  assert (Hn : forall n, 0 <= n -> Forall (fun c => stops c = false) (vtos n) /\ vtos n <> []).
  { intros n Hn. destruct (vtos_nonneg n Hn) as [(Hds & Hne & _) _]. split; [|done].
    eapply Forall_impl; [|exact Hds]. apply Hd. }
  destruct (Z.le_gt_cases 0 v) as [Hv|Hv]; [by apply Hn|].
  replace v with (- (- v)) by lia. rewrite vtos_neg by lia.
  destruct (Hn (- v)) as [H _]; [lia|]. split; [by constructor|done].
Qed.

Lemma strict_int_spec lo hi l v rest : INT_MIN <= lo -> hi <= INT_MAX ->
  strict_int lo hi l = Some (v, rest)
  <-> l = vtos v ++ rest /\ lo <= v <= hi /\ token_ends rest.
Proof.
  intros Hlo Hhi. unfold strict_int, strict_int64, strict_word, pbind, guard_that, pret. split.
  - pose proof (span_app l) as El. pose proof (span_spec l) as [_ Hr].
    destruct (span l) as [word rest']. simpl in *. case_bool_decide; [done|].
    destruct (parse_int64 word) as [v'|] eqn:Ep; [|done]. apply parse_int64_spec in Ep as [-> _].
    destruct (_ || _) eqn:E1; simpl; [done|]. destruct ((v' <? lo) || _) eqn:E2; simpl; [done|].
    intros [= -> ->]. apply orb_false_elim in E2 as [?%Z.ltb_ge ?%Z.ltb_ge].
    split; [done|]. split; [lia|done].
  - intros (-> & Hv & Hr). destruct (vtos_word v) as [Hw Hne]. rewrite span_word by done.
    rewrite bool_decide_false by done. rewrite (proj2 (parse_int64_spec (vtos v) v)).
    + rewrite (proj2 (orb_false_iff _ _)) by (split; apply Z.ltb_ge; lia). simpl.
      by rewrite (proj2 (orb_false_iff _ _)) by (split; apply Z.ltb_ge; lia).
    + split; [done|]. unfold is_int64, INT_MIN, INT_MAX, LLONG_MIN, LLONG_MAX in *. lia.
Qed.

Definition line_of (xs : list Z) : bytes := join (vtos <$> xs) ($" ").

Lemma strict_char_spec c l d rest : strict_char c l = Some (d, rest) <-> d = c /\ l = c :: rest.
Proof.
  destruct l as [|x l]; simpl; [by split; [|intros [_ ?]]|]. case_bool_decide as E.
  - subst x. split; [by intros [= <- <-]|by intros [-> [= ->]]].
  - split; [done|]. by intros [_ [= -> _]].
Qed.

Lemma pbind_Some {A B} (p : parser A) (k : A -> parser B) l b rest :
  pbind p k l = Some (b, rest) <-> exists a l', p l = Some (a, l') /\ k a l' = Some (b, rest).
Proof.
  unfold pbind. destruct (p l) as [[a l']|]; [|by split; [|intros (? & ? & ? & _)]].
  split; [by eauto|]. by intros (a' & l'' & [= <- <-] & E).
Qed.

Lemma many_S {A} n (p : parser A) l xs rest : many (S n) p l = Some (xs, rest)
  <-> exists x ys l', xs = x :: ys /\ p l = Some (x, l')
      /\ match n with
         | O => ys = [] /\ l' = rest
         | _ => exists l'', l' = " "%char :: l'' /\ many n p l'' = Some (ys, rest)
         end.
Proof.
  cbn [many]. rewrite pbind_Some. split.
  - intros (x & l' & Ex & E). destruct n as [|n]; [by injection E as <- <-; exists x, [], l'|].
    apply pbind_Some in E as ([] & l1 & Es & (ys & l2 & Em & [= <- <-])%pbind_Some).
    apply pbind_Some in Es as (c & l3 & [-> ->]%strict_char_spec & [= <-]). exists x, ys, (" "%char :: l3).
    eauto.
  - intros (x & ys & l' & -> & Ex & E). exists x, l'. split; [done|].
    destruct n as [|n]; [by destruct E as [-> ->]|]. destruct E as (l'' & -> & Em).
    apply pbind_Some. exists tt, l''. split; [done|]. apply pbind_Some. by exists ys, rest.
Qed.

Lemma line_of_cons x xs :
  line_of (x :: xs) = vtos x ++ match xs with [] => [] | _ => " "%char :: line_of xs end.
Proof.
  unfold line_of. cbn [fmap list_fmap]. rewrite (join_cons (vtos x)). destruct xs as [|y xs]; [done|].
  cbn [fmap list_fmap]. by rewrite (join_cons (vtos y)).
Qed.

Lemma many_ints lo hi n l xs rest : INT_MIN <= lo -> hi <= INT_MAX -> (0 < n)%nat ->
  many n (strict_int lo hi) l = Some (xs, rest)
  <-> length xs = n /\ Forall (fun x => lo <= x <= hi) xs /\ l = line_of xs ++ rest /\ token_ends rest.
Proof.
  intros Hlo Hhi Hn. destruct n as [|n]; [lia|]. clear Hn. revert l xs.
  induction n as [|n IH]; intros l xs; rewrite many_S.
  - split.
    + intros (x & ys & l' & -> & (-> & Hx & Hr)%strict_int_spec & -> & ->); [|done..].
      rewrite line_of_cons, app_nil_r. split; [done|]. split; [by apply Forall_singleton|done].
    + intros (Hl & Hf & -> & Hr). destruct xs as [|x [|]]; [done| |done]. apply Forall_cons_iff in Hf as [Hx _].
      exists x, [], rest. split; [done|]. split; [|done]. apply strict_int_spec; [done..|].
      by rewrite line_of_cons, app_nil_r.
  - split.
    + intros (x & ys & l' & -> & (-> & Hx & Hr)%strict_int_spec & l'' & -> & Hys); [|done..].
      apply IH in Hys as (Hl & Hf & -> & Hr'). split; [simpl; lia|]. split; [by constructor|].
      split; [|done]. rewrite line_of_cons. destruct ys; [done|]. by rewrite <- !app_assoc.
    + intros (Hl & Hf & -> & Hr). destruct xs as [|x ys]; [done|]. apply Forall_cons_iff in Hf as [Hx Hf].
      simpl in Hl. exists x, ys, (" "%char :: line_of ys ++ rest). split; [done|]. split.
      * apply strict_int_spec; [done..|]. rewrite line_of_cons. destruct ys; [done|].
        by rewrite <- !app_assoc.
      * exists (line_of ys ++ rest). split; [done|]. apply IH. repeat split; [lia|done..].
Qed.

(** ** The validator *)

Definition read_array (maxn lo hi : Z) : M unit :=
  let* n := readInt_range INF 1 maxn ($"n") in
  do* readEoln INF in
  let* _ := readInts_range INF n lo hi ($"a") 1 in
  readEoln INF.

Definition array_validator (maxn lo hi : Z) : M unit :=
  do* registerValidation_cmd [] in
  do* read_array maxn lo hi in
  readEof INF.

(** A count, its numbers, and nothing that the reader sees after them. *)
Definition array_text (maxn lo hi : Z) (l : bytes) : Prop :=
  exists xs rest, l = vtos (zlen xs) ++ newline ++ line_of xs ++ newline ++ rest
    /\ 1 <= zlen xs <= maxn /\ Forall (fun x => lo <= x <= hi) xs /\ at_end rest = true.

(** What is read before the end of the file. *)
Definition array_parser (maxn lo hi : Z) : parser unit :=
  pbind (strict_int 1 maxn) (fun n => pbind strict_eoln (fun _ =>
    pbind (many (Z.to_nat n) (strict_int lo hi)) (fun _ => strict_eoln))).

Lemma strict_eoln_spec l rest : strict_eoln l = Some (tt, rest) <-> l = newline ++ rest.
Proof.
  unfold strict_eoln. rewrite pbind_Some. split.
  - by intros (c & l' & [-> ->]%strict_char_spec & [= <-]).
  - intros ->. exists lf_char, rest. by split; [apply strict_char_spec|].
Qed.

Lemma array_parser_spec maxn lo hi l : maxn <= 100000000 -> INT_MIN <= lo -> hi <= INT_MAX ->
  array_text maxn lo hi l
  <-> exists rest, array_parser maxn lo hi l = Some (tt, rest) /\ at_end rest = true.
Proof.
  intros Hmax Hlo Hhi.
  assert (Hm : INT_MIN <= 1 /\ maxn <= INT_MAX) by (unfold INT_MIN, INT_MAX; lia). destruct Hm as [Hm1 Hm2].
  unfold array_parser. split.
  - intros (xs & rest & -> & Hn & Hf & He). exists rest. split; [|done].
    apply pbind_Some. exists (zlen xs), (newline ++ line_of xs ++ newline ++ rest).
    split; [by apply strict_int_spec|]. apply pbind_Some. exists tt, (line_of xs ++ newline ++ rest).
    split; [by apply strict_eoln_spec|]. apply pbind_Some. exists xs, (newline ++ rest).
    split; [|by apply strict_eoln_spec]. unfold zlen in *. rewrite Nat2Z.id. apply many_ints; [done..|lia|done].
  - intros (rest & E & He). apply pbind_Some in E as (n & l1 & (-> & Hn & _)%strict_int_spec & E); [|done..].
    apply pbind_Some in E as ([] & l2 & ->%strict_eoln_spec & E).
    apply pbind_Some in E as (xs & l3 & (Hl & Hf & -> & _)%many_ints & ->%strict_eoln_spec); [|done..|lia].
    assert (n = zlen xs) as -> by (unfold zlen; lia). exists xs, rest. done.
Qed.

Lemma strict_int_range lo hi l v rest : strict_int lo hi l = Some (v, rest) -> lo <= v <= hi.
Proof.
  unfold strict_int. intros E. apply pbind_Some in E as (v' & l2 & _ & E).
  apply pbind_Some in E as ([] & l3 & _ & E). apply pbind_Some in E as ([] & l4 & Eg & [= <- <-]).
  unfold guard_that in Eg. destruct (_ || _) eqn:Eo; [done|].
  apply orb_false_elim in Eo as [?%Z.ltb_ge ?%Z.ltb_ge]. done.
Qed.

Lemma parses_read_array maxn lo hi : maxn <= 100000000 ->
  parses (read_array maxn lo hi) (array_parser maxn lo hi).
Proof.
  intros Hmax l w Hw Hl. pose proof (parses_readInt_range 1 maxn ($"n") l w Hw Hl) as Hn.
  unfold read_array, array_parser, pbind at 1. destruct (strict_int 1 maxn l) as [[n l1]|] eqn:En;
    [|by apply fails_bind].
  destruct Hn as (w1 & E1 & H1 & Hl1). rewrite (bind_ret _ _ _ _ _ E1).
  apply strict_int_range in En. apply parses_then; [apply parses_readEoln| |done..].
  apply parses_bind; [apply parses_readInts; lia|]. intros _. apply parses_readEoln.
Qed.

(** C11: the validator exits with code zero exactly when its input is a count
    from [1] to [maxn], an end of line, so many integers between [lo] and
    [hi] separated by single spaces, all in canonical form, an end of line,
    and then the end of the file (or byte 255, which its reader takes for
    it); it exits with the failure code on every other input of at most 32
    megabytes. *)
Theorem validator_accepts_format maxn lo hi e :
  maxn <= 100000000 -> INT_MIN <= lo -> hi <= INT_MAX -> zlen (stdin_bytes e) <= TOKEN_LIMIT ->
  (array_text maxn lo hi (stdin_bytes e) /\
     exit_code (run_program (array_validator maxn lo hi) e) = Some 0)
  \/ (~ array_text maxn lo hi (stdin_bytes e) /\
     exit_code (run_program (array_validator maxn lo hi) e) = Some FAIL_EXIT_CODE).
Proof.
  intros Hmax Hlo Hhi Hl. rewrite array_parser_spec by done. unfold run_program, array_validator.
  destruct (registered_validator e) as (w & E & Hw). rewrite (bind_ret _ _ _ _ _ E).
  pose proof (parses_read_array maxn lo hi Hmax _ _ Hw Hl) as Hb.
  assert (Hfails : forall r : mres unit, fails r -> exit_code (finish match r with
      | MHalt h => h | MRet _ w => HExit 0 w end) = Some FAIL_EXIT_CODE) by (by intros r (h & -> & Hh)).
  destruct (array_parser maxn lo hi (stdin_bytes e)) as [[[] rest]|].
  - destruct Hb as (w1 & E1 & H1 & _). rewrite (bind_ret _ _ _ _ _ E1).
    pose proof (valid_readEof _ _ H1) as Heof. destruct (at_end rest) eqn:Ee.
    + left. split; [by exists rest|]. destruct Heof as (w2 & -> & Hc & Ha & Hcount).
      by apply finish_validator.
    + right. split; [|by apply Hfails]. intros (rest' & [= <-] & He). congruence.
  - right. split; [by intros (rest & E1 & _)|]. apply Hfails. by apply fails_bind.
Qed.

Lemma validator_accepts_format_witness :
  let e text := MkEnv ∅ (fun _ => true) (fun _ => true) text false in
  exit_code (run_program (array_validator 10 (-5) 5) (e ($"3" ++ newline ++ $"1 -2 0" ++ newline))) = Some 0
  /\ exit_code (run_program (array_validator 10 (-5) 5) (e ($"3" ++ newline ++ $"1 -2  0" ++ newline))) = Some 3.
Proof.
  intros e. split.
  - destruct (validator_accepts_format 10 (-5) 5 (e ($"3" ++ newline ++ $"1 -2 0" ++ newline)))
      as [[_ H]|[H _]]; [lia|vm_compute; discriminate..|exact H|].
    destruct H. exists [1; -2; 0], []. split; [reflexivity|]. split; [vm_compute; split; discriminate|].
    split; [|done]. repeat constructor; discriminate.
  - destruct (validator_accepts_format 10 (-5) 5 (e ($"3" ++ newline ++ $"1 -2  0" ++ newline)))
      as [[H _]|[_ H]]; [lia|vm_compute; discriminate..| |exact H].
    apply array_parser_spec in H; [|lia|vm_compute; discriminate..].
    destruct H as (rest & H & _). vm_compute in H. discriminate.
Defined.
