(* ===== verification/PatternSpec.v ===== *)
(** * What a pattern matches

    [matches] walks over positions of the text; [match_rest] is the same
    function on the rest of the text.  What it accepts belongs to the regular
    language the pattern denotes; being greedy it need not accept all of it. *)

From S2P Require Import Prelude Text Doubles Pattern NumbersSpec.

(** Induction through the list of children. *)
Section PatternInd.
Context (P : pattern -> Prop).
Context (Hp : forall s children chars from to, Forall P children -> P (Pattern s children chars from to)).

Fixpoint pattern_ind' (p : pattern) : P p :=
  let 'Pattern s children chars from to := p in
  Hp s children chars from to
    ((fix all (l : list pattern) : Forall P l :=
        match l with
        | [] => Forall_nil_2 P
        | x :: l => Forall_cons_2 P x l (pattern_ind' x) (all l)
        end) children).
End PatternInd.

(** ** Matching the rest of a text *)

Definition in_set (chars : bytes) (c : ascii) : bool := binary_search chars c.

Fixpoint match_rest (p : pattern) (l : bytes) : bool :=
  let 'Pattern _ children chars from to := p in
  let size := count_while (in_set chars) l in
  if (0 <? to) && (size <? from) then false
  else
    let k := if 0 <? to then (if to <? size then to else size) else 0 in
    match children with
    | [] => k =? zlen l
    | _ :: _ => existsb (fun child => match_rest child (zdrop k l)) children
    end.

(** The language of a pattern.  The parser only builds patterns with
    [from <= to]. *)
Inductive in_language : pattern -> bytes -> Prop :=
| lang_end s chars from to a : repeats chars from to a -> in_language (Pattern s [] chars from to) a
| lang_next s children chars from to child a b : repeats chars from to a -> child ∈ children ->
    in_language child b -> in_language (Pattern s children chars from to) (a ++ b)
with repeats : bytes -> Z -> Z -> bytes -> Prop :=
| repeats_none chars from to : to <= 0 -> repeats chars from to []
| repeats_some chars from to a : 0 < to -> Z.min from to <= zlen a <= to ->
    Forall (fun c => c ∈ chars) a -> repeats chars from to a.

Lemma count_while_bounds P l : 0 <= count_while P l <= zlen l.
Proof.
  induction l as [|c l IH]; [done|]. simpl. rewrite zlen_cons. case_match; lia.
Qed.

Lemma count_while_take P l k : 0 <= k <= count_while P l -> Forall (fun c => P c = true) (ztake k l).
Proof.
  intros H. pose proof (count_while_bounds P l). rewrite ztake_take by lia.
  assert (Hk : (Z.to_nat k <= Z.to_nat (count_while P l))%nat) by lia. clear H. revert Hk.
  generalize (Z.to_nat k) as n. intros n Hn. revert n Hn.
  induction l as [|c l IH]; intros [|n] Hn; simpl in *; try constructor; destruct (P c) eqn:E.
  - done.
  - change (Z.to_nat 0) with O in Hn. lia.
  - pose proof (count_while_bounds P l). rewrite zlen_cons in *. apply IH; lia.
  - change (Z.to_nat 0) with O in Hn. lia.
Qed.

Lemma zlen_zdrop {A} n (l : list A) : 0 <= n <= zlen l -> zlen (zdrop n l) = zlen l - n.
Proof. intros H. rewrite zdrop_drop by lia. unfold zlen in *. rewrite length_drop. lia. Qed.

Lemma zdrop_zdrop {A} n k (l : list A) : 0 <= n -> 0 <= k -> zdrop k (zdrop n l) = zdrop (n + k) l.
Proof.
  intros Hn Hk. rewrite !zdrop_drop by lia. rewrite drop_drop. f_equal. lia.
Qed.

(** The walk over positions is the walk over rests. *)
Lemma matches_at_rest p s pos : 0 <= pos <= zlen s ->
  matches_at p s pos = match_rest p (zdrop pos s).
Proof.
  revert pos. induction p as [t children chars from to IH] using pattern_ind'. intros pos Hpos.
  cbn [matches_at match_rest]. unfold __pattern_greedyMatch.
  change (binary_search chars) with (in_set chars).
  set (size := count_while (in_set chars) (zdrop pos s)).
  pose proof (count_while_bounds (in_set chars) (zdrop pos s)) as Hs. fold size in Hs.
  rewrite (zlen_zdrop pos s Hpos) in Hs |- *.
  destruct ((0 <? to) && (size <? from)); [done|].
  set (k := if 0 <? to then if to <? size then to else size else 0).
  assert (Hk : 0 <= k <= size).
  { subst k. destruct (Z.ltb_spec 0 to); [|lia]. destruct (Z.ltb_spec to size); lia. }
  replace (if 0 <? to then pos + (if to <? size then to else size) else pos) with (pos + k)
    by (subst k; destruct (0 <? to); lia).
  destruct children as [|p0 children]; [lia|].
  assert (H : forall l, Forall (fun p => forall pos, 0 <= pos <= zlen s ->
      matches_at p s pos = match_rest p (zdrop pos s)) l ->
    existsb (fun child => matches_at child s (pos + k)) l
    = existsb (fun child => match_rest child (zdrop k (zdrop pos s))) l).
  { induction 1 as [|p l Hp _ IHl]; [done|]. simpl. rewrite IHl, Hp by lia.
    by rewrite zdrop_zdrop by lia. }
  by apply H.
Qed.

Lemma matches_rest p s : matches p s = match_rest p s.
Proof.
  unfold matches. pose proof (zlen_nonneg s). rewrite matches_at_rest by lia.
  by rewrite zdrop_drop by lia.
Qed.

Lemma existsb_elem {A} (f : A -> bool) l : existsb f l = true -> exists x, x ∈ l /\ f x = true.
Proof.
  induction l as [|x l IH]; [done|]. simpl. intros [E|E]%orb_prop.
  - exists x. split; [left|done].
  - destruct (IH E) as (y & ? & ?). exists y. split; [by right|done].
Qed.

Lemma list_Forall_elem {A} (P : A -> Prop) l x : Forall P l -> x ∈ l -> P x.
Proof. induction 1 as [|y l Hy _ IH]; [by intros ?%not_elem_of_nil|]. intros [->|?]%elem_of_cons; auto. Qed.

Lemma match_rest_sound p l : match_rest p l = true -> in_language p l.
Proof.
  revert l. induction p as [t children chars from to IH] using pattern_ind'. intros l.
  cbn [match_rest]. set (size := count_while (in_set chars) l).
  pose proof (count_while_bounds (in_set chars) l) as Hs. fold size in Hs.
  destruct ((0 <? to) && (size <? from)) eqn:Eb; [done|].
  set (k := if 0 <? to then if to <? size then to else size else 0). intros Hm.
  assert (Hk : 0 <= k <= size).
  { subst k. destruct (Z.ltb_spec 0 to); [|lia]. destruct (Z.ltb_spec to size); lia. }
  assert (Hrep : repeats chars from to (ztake k l)).
  { subst k. destruct (Z.ltb_spec 0 to) as [Hto|Hto].
    - apply repeats_some; [done| |].
      + rewrite zlen_ztake by lia. simpl in Eb. destruct (Z.ltb_spec to size); lia.
      + eapply Forall_impl; [|by apply (count_while_take (in_set chars))]. simpl. intros c Hc.
        by apply bool_decide_eq_true in Hc.
    - rewrite ztake_take by lia. by apply repeats_none. }
  destruct children as [|p0 children].
  - rewrite ztake_ge in Hrep by lia. by constructor.
  - destruct (existsb_elem _ _ Hm) as (child & Hin & Hc).
    rewrite <- (ztake_zdrop k l) by lia. apply (lang_next _ _ _ _ _ child); [done..|].
    by apply (list_Forall_elem _ _ _ IH Hin).
Qed.

(** C32: whatever text a pattern matches belongs to the regular language the
    pattern denotes (the converse fails: the repetitions are greedy and never
    give characters back). *)
Theorem matches_sound p s : matches p s = true -> in_language p s.
Proof. rewrite matches_rest. apply match_rest_sound. Qed.

Definition id_pattern : pattern :=
  Pattern ($"ab*") [Pattern ($"b*") [] ($"b") 0 INT_MAX] ($"a") 1 1.

Lemma matches_sound_witness : matches id_pattern ($"abb") = true /\ in_language id_pattern ($"abb").
Proof. split; [vm_compute; reflexivity|apply matches_sound; vm_compute; reflexivity]. Defined.
