(* ===== verification/PatternParse.v ===== *)
(** * What the parser of patterns builds

    The constructor of [pattern] recurses on strictly shorter texts, so the
    fuel of [pattern_of] and of its scans is enough, and every pattern it
    builds is well formed: its characters are sorted, as [std::binary_search]
    requires, and its counts are ordered [int]s. *)

From stdpp Require Import sorting.
From S2P Require Import Prelude Text Doubles Pattern NumbersSpec PatternSpec.

(** ** Positions only grow *)

Lemma getChar_grows s pos c pos' : __pattern_getChar s pos = (c, pos') -> pos < pos'.
Proof. unfold __pattern_getChar. case_match; intros [= _ <-]; lia. Qed.

Lemma scan_parts_grows fuel s pos parts part parts' part' pos' :
  scan_parts fuel s pos parts part = (parts', part', pos') -> pos <= pos'.
Proof.
  revert pos parts part. induction fuel as [|fuel IH]; intros pos parts part; cbn [scan_parts];
    [intros [= _ _ <-]; lia|].
  destruct (_ && _); [|intros [= _ _ <-]; lia]. destruct (__pattern_isCommandChar s pos _).
  - intros E%IH. lia.
  - destruct (__pattern_getChar s pos) as [c p] eqn:Eg. apply getChar_grows in Eg. intros E%IH. lia.
Qed.

Lemma scan_set_grows fuel s pos result prev result' prev' pos' :
  scan_set fuel s pos result prev = inr (result', prev', pos') -> pos <= pos'.
Proof.
  revert pos result prev. induction fuel as [|fuel IH]; intros pos result prev; cbn [scan_set];
    [intros [= _ _ <-]; lia|].
  destruct (_ && _); [|intros [= _ _ <-]; lia]. destruct (_ && _).
  - destruct (_ || _); [intros E%IH; lia|].
    destruct (__pattern_getChar s (pos + 1)) as [c p] eqn:Eg. apply getChar_grows in Eg.
    destruct (_ <? _); [done|]. intros E%IH. lia.
  - destruct (__pattern_getChar s pos) as [c p] eqn:Eg. apply getChar_grows in Eg. intros E%IH. lia.
Qed.

(** The scans stop at the end of the text whatever fuel is left. *)
Lemma scan_parts_enough fuel more s pos parts part : zlen s - pos <= Z.of_nat fuel ->
  scan_parts (fuel + more) s pos parts part = scan_parts fuel s pos parts part.
Proof.
  revert pos parts part. induction fuel as [|fuel IH]; intros pos parts part Hf; cbn [Nat.add scan_parts].
  - destruct more; [done|]. cbn [scan_parts]. by rewrite (proj2 (Z.ltb_ge _ _)) by lia.
  - destruct (_ && _); [|done]. destruct (__pattern_isCommandChar s pos _); [apply IH; lia|].
    destruct (__pattern_getChar s pos) as [c p] eqn:Eg. apply getChar_grows in Eg. apply IH. lia.
Qed.

Lemma scan_set_enough fuel more s pos result prev : zlen s - pos <= Z.of_nat fuel ->
  scan_set (fuel + more) s pos result prev = scan_set fuel s pos result prev.
Proof.
  revert pos result prev. induction fuel as [|fuel IH]; intros pos result prev Hf.
  - destruct more; [done|]. cbn [Nat.add scan_set]. by rewrite (proj2 (Z.ltb_ge _ _)) by lia.
  - cbn [Nat.add scan_set]. destruct (_ && _); [|done]. destruct (_ && _).
    + destruct (_ || _); [apply IH; lia|].
      destruct (__pattern_getChar s (pos + 1)) as [c p] eqn:Eg. apply getChar_grows in Eg.
      destruct (_ <? _); [done|]. apply IH. lia.
    + destruct (__pattern_getChar s pos) as [c p] eqn:Eg. apply getChar_grows in Eg. apply IH. lia.
Qed.

Lemma scanCharSet_grows s pos chars pos' : __pattern_scanCharSet s pos = inr (chars, pos') -> pos < pos'.
Proof.
  unfold __pattern_scanCharSet. destruct (zlen s <=? pos); [done|]. destruct (__pattern_isCommandChar s pos _).
  - set (start := if __pattern_isCommandChar s (pos + 1) "^"%char then _ else _).
    assert (Hs : pos < start) by (unfold start; case_match; lia). cbv zeta.
    destruct (scan_set _ s start _ _) as [|[[result prev] p]] eqn:E; [done|]. simpl.
    apply scan_set_grows in E. destruct (negb _); [done|]. intros [= _ <-]. lia.
  - destruct (__pattern_getChar s pos) as [c p] eqn:Eg. apply getChar_grows in Eg. by intros [= _ <-].
Qed.

Lemma scanCounts_grows s pos p from to : __pattern_scanCounts s pos = inr (p, from, to) -> pos <= p.
Proof.
  unfold __pattern_scanCounts. case_match; [intros [= <- _ _]; lia|]. case_match.
  - destruct (scan_parts _ _ _ _ _) as [[parts part] p1] eqn:E. apply scan_parts_grows in E.
    destruct (negb _); [done|]. destruct (_ || _); [done|].
    destruct (scan_numbers s _) as [|numbers]; [done|]. cbn [ebind].
    match goal with |- (let '(_, _) := ?m in _) = _ -> _ => destruct m as [f t] end.
    destruct (t <? f); [done|]. intros [= <- _ _]. lia.
  - destruct (__pattern_isCommandChar s pos "?"%char); [intros [= <- _ _]; lia|].
    destruct (__pattern_isCommandChar s pos "*"%char); [intros [= <- _ _]; lia|].
    destruct (__pattern_isCommandChar s pos "+"%char); intros [= <- _ _]; lia.
Qed.

(** ** The texts of the children are shorter *)

Lemma drop_spaces_shorter s : zlen (drop_spaces s) <= zlen s.
Proof.
  unfold drop_spaces. assert (H : forall (f : Z -> option ascii) l, zlen (omap f l) <= zlen l).
  { intros f l. induction l as [|x l IH]; [done|].
    change (omap f (x :: l)) with (match f x with Some y => y :: omap f l | None => omap f l end).
    destruct (f x); rewrite !zlen_cons; lia. }
  etransitivity; [apply H|]. unfold zlen at 1. rewrite length_seqZ. pose proof (zlen_nonneg s). lia.
Qed.

Lemma substr_bound s pos n : 0 <= pos <= zlen s -> 0 <= n -> zlen (substr s pos n) <= Z.min n (zlen s - pos).
Proof. intros Hp Hn. unfold substr. by rewrite zlen_ztake, zlen_zdrop by done. Qed.

Lemma scan_brackets_seps s idx opened firstClose seps o f seps' :
  scan_brackets s idx opened firstClose seps = inr (o, f, seps') ->
  Forall (fun i => 0 <= i < zlen s) idx -> Forall (fun i => 0 <= i < zlen s) seps ->
  Forall (fun i => 0 <= i < zlen s) seps'.
Proof.
  revert opened firstClose seps. induction idx as [|i idx IH]; intros opened firstClose seps; cbn [scan_brackets].
  - by intros [= _ _ <-].
  - destruct (__pattern_isCommandChar s i "("%char).
    { intros E [_ Hi]%list.Forall_cons Hs. by eapply IH. }
    destruct (__pattern_isCommandChar s i ")"%char).
    { intros E [_ Hi]%list.Forall_cons Hs. by eapply IH. }
    destruct (opened <? 0); [done|]. intros E [Hx Hi]%list.Forall_cons Hs. eapply IH; [exact E|done|].
    destruct (_ && _); [|done]. apply Forall_app. split; [done|]. by apply list.Forall_singleton.
Qed.

Lemma substr_shorter s pos n : 0 <= pos -> n < zlen s \/ 0 < pos -> 0 < zlen s -> zlen (substr s pos n) < zlen s.
Proof.
  intros Hp Hn Hs. unfold substr.
  assert (Hd : zlen (zdrop pos s) <= zlen s - pos \/ zlen (zdrop pos s) = 0).
  { destruct (Z.leb_spec pos (zlen s)); [left; rewrite zlen_zdrop; lia|right].
    rewrite zdrop_drop by lia. unfold zlen in *. rewrite length_drop. lia. }
  unfold ztake. destruct (Z.leb_spec (zlen (zdrop pos s)) n); [lia|].
  unfold zlen in *. rewrite length_take. lia.
Qed.

Lemma alternatives_shorter s seps last : 0 <= last -> (last = 0 -> seps <> []) -> 0 < zlen s ->
  Forall (fun i => 0 <= i < zlen s) seps ->
  Forall (fun t => zlen t < zlen s) (alternatives s (seps ++ [zlen s]) last).
Proof.
  revert last. induction seps as [|sep seps IH]; intros last Hl Hne Hpos Hs.
  - simpl. apply list.Forall_singleton, substr_shorter; [done| |done].
    destruct (Z.eqb_spec last 0) as [->|]; [by destruct (Hne eq_refl)|lia].
  - apply list.Forall_cons in Hs as [Hx Hs]. cbn [app alternatives].
    constructor; [apply substr_shorter; lia|]. apply IH; [lia|lia|done..].
Qed.

(** ** The fuel of the constructor *)

Lemma sequence_ext {A B} (f g : A -> exc B) l : Forall (fun x => f x = g x) l -> sequence (f <$> l) = sequence (g <$> l).
Proof. induction 1 as [|x l E _ IH]; [done|]. cbn. by rewrite E, IH. Qed.

Lemma parse_fuel fuel1 fuel2 text : zlen text < Z.of_nat fuel1 -> zlen text < Z.of_nat fuel2 ->
  parse_pattern fuel1 text = parse_pattern fuel2 text.
Proof.
  revert fuel2 text. induction fuel1 as [|fuel1 IH]; intros [|fuel2] text H1 H2;
    [pose proof (zlen_nonneg text); lia..|]. cbn [parse_pattern]. cbv zeta.
  pose proof (drop_spaces_shorter text) as Hd. set (s := drop_spaces text) in *. clearbody s.
  destruct (scan_brackets s _ _ _ _) as [|[[opened firstClose] seps]] eqn:Eb; [done|]. cbn [ebind].
  apply scan_brackets_seps in Eb; [|apply Forall_seqZ; lia|constructor].
  destruct (negb (opened =? 0)); [done|].
  assert (Hrec : forall t, zlen t < zlen s -> parse_pattern fuel1 t = parse_pattern fuel2 t) by (intros t Ht; apply IH; lia).
  destruct (_ && __pattern_isCommandChar s (zlen s - 1) _) eqn:Ep.
  { assert (Hs : 0 < zlen s).
    { rewrite !andb_true_iff in Ep. destruct Ep as [[_ Ep] _]. unfold __pattern_isCommandChar in Ep.
      destruct (Z.leb_spec (zlen s) 0); [done|lia]. }
    by rewrite Hrec by (apply substr_shorter; lia). }
  destruct (negb (bool_decide (seps = []))) eqn:En.
  { apply negb_true_iff, bool_decide_eq_false in En. f_equal. apply sequence_ext.
    assert (Hs : 0 < zlen s) by (destruct Eb; [done|lia]).
    eapply Forall_impl; [|apply alternatives_shorter; [lia|done|exact Hs|exact Eb]]. exact Hrec. }
  destruct (__pattern_scanCharSet s 0) as [|[chars pos]] eqn:Ec; [done|]. cbn [ebind].
  destruct (__pattern_scanCounts s pos) as [|[[p from] to]] eqn:En2; [done|]. cbn [ebind].
  apply scanCharSet_grows in Ec. apply scanCounts_grows in En2.
  destruct (Z.ltb_spec p (zlen s)); [|done]. rewrite Hrec; [done|]. rewrite zlen_zdrop; lia.
Qed.

(** ** Well-formed patterns *)

#[warnings="-register-all"]
Inductive well_formed : pattern -> Prop :=
| wf_end s chars from to : StronglySorted char_le chars -> INT_MIN <= from <= to -> to <= INT_MAX ->
    well_formed (Pattern s [] chars from to)
| wf_next s child chars from to : StronglySorted char_le chars -> INT_MIN <= from <= to -> to <= INT_MAX ->
    well_formed child -> well_formed (Pattern s [child] chars from to)
| wf_choice s children : (1 < length children)%nat -> Forall well_formed children ->
    well_formed (Pattern s children [] 0 0).

#[local] Instance char_le_trans : Transitive char_le.
Proof. intros x y z. unfold char_le. lia. Qed.
#[local] Instance char_le_total : Total char_le.
Proof. intros x y. unfold char_le. lia. Qed.

Lemma scanCharSet_sorted s pos chars p : __pattern_scanCharSet s pos = inr (chars, p) -> StronglySorted char_le chars.
Proof.
  unfold __pattern_scanCharSet. destruct (zlen s <=? pos); [done|]. destruct (__pattern_isCommandChar s pos _).
  - cbv zeta. destruct (scan_set _ s _ _ _) as [|[[result prev] q]]; [done|]. cbn [ebind].
    destruct (negb _); [done|]. intros [= <- _]. apply (StronglySorted_merge_sort char_le).
  - destruct (__pattern_getChar s pos) as [c q]. intros [= <- _]. by repeat constructor.
Qed.

Lemma sscanf_int text n : sscanf_d text = Some n -> INT_MIN <= n <= INT_MAX.
Proof.
  unfold sscanf_d. destruct (scan_sign _) as [neg ds]. destruct (scan_digits _ _ _) as [[v k] ?].
  destruct (k =? 0); [done|]. intros [= <-].
  pose proof (swrap_range 32 (Z.max LLONG_MIN (Z.min LLONG_MAX (if neg : bool then - v else v))) ltac:(lia)) as H.
  unfold INT_MIN, INT_MAX. lia.
Qed.

Lemma scan_numbers_int s parts numbers : scan_numbers s parts = inr numbers ->
  Forall (fun n => INT_MIN <= n <= INT_MAX) numbers.
Proof.
  revert numbers. induction parts as [|part parts IH]; intros numbers; cbn [scan_numbers]; [by intros [= <-]|].
  destruct (bool_decide (part = [])); [done|]. destruct (sscanf_d _) as [n|] eqn:En; [|done].
  destruct (scan_numbers s parts) as [|ns]; [done|]. intros [= <-].
  constructor; [by apply sscanf_int in En|by apply IH].
Qed.

Definition int_range (from to : Z) : Prop := INT_MIN <= from <= to /\ to <= INT_MAX.

Lemma scanCounts_ordered s pos p from to : __pattern_scanCounts s pos = inr (p, from, to) -> int_range from to.
Proof.
  assert (R : forall f t (E : (INT_MIN <=? f) && (f <=? t) && (t <=? INT_MAX) = true), int_range f t).
  { intros f t E. rewrite !andb_true_iff, !Z.leb_le in E. unfold int_range. tauto. }
  unfold __pattern_scanCounts. destruct (zlen s <=? pos); [intros [= _ <- <-]; by apply R|].
  destruct (__pattern_isCommandChar s pos "{"%char).
  - destruct (scan_parts _ _ _ _ _) as [[parts part] p1].
    destruct (negb _); [done|]. destruct (_ || _); [done|].
    destruct (scan_numbers s _) as [|numbers] eqn:En; [done|]. apply scan_numbers_int in En. cbn [ebind].
    match goal with |- (let '(_, _) := ?m in _) = _ -> _ => destruct m as [f t] eqn:Em end.
    destruct (Z.ltb_spec t f); [done|]. intros [= _ <- <-].
    assert (Hb : forall n, n ∈ numbers -> INT_MIN <= n <= INT_MAX) by (by apply list.Forall_forall).
    assert (H0 : INT_MIN <= 0 <= INT_MAX) by (by vm_compute). unfold int_range.
    destruct numbers as [|n [|m ?]]; injection Em as <- <-.
    + lia.
    + specialize (Hb n ltac:(set_solver)). lia.
    + pose proof (Hb n ltac:(set_solver)). pose proof (Hb m ltac:(set_solver)). lia.
  - destruct (__pattern_isCommandChar s pos "?"%char); [intros [= _ <- <-]; by apply R|].
    destruct (__pattern_isCommandChar s pos "*"%char); [intros [= _ <- <-]; by apply R|].
    destruct (__pattern_isCommandChar s pos "+"%char); intros [= _ <- <-]; by apply R.
Qed.

Lemma sequence_inr {A} (l : list (exc A)) r : sequence l = inr r -> Forall2 (fun m a => m = inr a) l r.
Proof.
  revert r. induction l as [|m l IH]; intros r; cbn [sequence]; [intros [= <-]; constructor|].
  destruct m as [|a]; [done|]. cbn [ebind]. destruct (sequence l) as [|rest]; [done|]. intros [= <-].
  constructor; [done|by apply IH].
Qed.

Lemma parse_well_formed fuel text p : parse_pattern fuel text = inr p -> src p = text /\ well_formed p.
Proof.
  revert text p. induction fuel as [|fuel IH]; intros text p; [done|]. cbn [parse_pattern]. cbv zeta.
  set (s := drop_spaces text). clearbody s.
  destruct (scan_brackets s _ _ _ _) as [|[[opened firstClose] seps]]; [done|]. cbn [ebind].
  destruct (negb (opened =? 0)); [done|].
  assert (Z0 : int_range 0 0) by (by vm_compute). destruct Z0 as [Z1 Z2].
  destruct (_ && __pattern_isCommandChar s (zlen s - 1) _).
  { destruct (parse_pattern fuel _) as [|child] eqn:E; [done|]. intros [= <-]. apply IH in E as [_ E].
    split; [done|]. by constructor; [constructor|..]. }
  destruct (negb (bool_decide (seps = []))) eqn:En.
  { destruct (sequence _) as [|children] eqn:E; [done|]. intros [= <-]. apply sequence_inr in E. split; [done|].
    apply negb_true_iff, bool_decide_eq_false in En. constructor.
    - apply Forall2_length in E. rewrite length_fmap in E. rewrite <- E.
      destruct seps as [|x [|y seps]]; [done|simpl; lia..].
    - clear - E IH. revert E. generalize (alternatives s (seps ++ [zlen s]) 0) as l. intros l E.
      remember (parse_pattern fuel <$> l) as r eqn:Er. revert l Er. induction E as [|m c r children Hm _ IHr]; intros l Er; [constructor|].
      destruct l as [|t l]; [done|]. injection Er as -> Er. constructor; [by apply (IH t)|by eapply IHr]. }
  destruct (__pattern_scanCharSet s 0) as [|[chars pos]] eqn:Ec; [done|]. cbn [ebind].
  destruct (__pattern_scanCounts s pos) as [|[[q from] to]] eqn:En2; [done|]. cbn [ebind].
  apply scanCharSet_sorted in Ec. apply scanCounts_ordered in En2 as [H1 H2].
  destruct (q <? zlen s).
  - destruct (parse_pattern fuel _) as [|child] eqn:E; [done|]. intros [= <-]. apply IH in E as [_ E].
    split; [done|]. by constructor.
  - intros [= <-]. split; [done|]. by constructor.
Qed.

(** C39: the constructor of [pattern] ends, whatever the text: the fuel does
    not matter once it exceeds the length; and what it builds is well formed:
    it keeps its source, the characters of every node are sorted (as the binary
    search of [matches] requires), its counts are [int]s in order, and a
    choice has at least two alternatives. *)
Theorem pattern_typed text :
  (forall fuel, zlen text < Z.of_nat fuel -> parse_pattern fuel text = pattern_of text)
  /\ (forall p, pattern_of text = inr p -> src p = text /\ well_formed p).
Proof.
  split; [|intros p; apply parse_well_formed].
  intros fuel Hf. unfold pattern_of. apply parse_fuel; [done|]. unfold zlen. lia.
Qed.

Lemma pattern_typed_witness :
  parse_pattern 100 ($"id-([ca]|b{2,5})") = pattern_of ($"id-([ca]|b{2,5})")
  /\ exists p, pattern_of ($"id-([ca]|b{2,5})") = inr p /\ well_formed p.
Proof.
  split; [apply (proj1 (pattern_typed ($"id-([ca]|b{2,5})"))); vm_compute; reflexivity|].
  eexists. split; [vm_compute; reflexivity|].
  apply (proj2 (pattern_typed ($"id-([ca]|b{2,5})"))). vm_compute. reflexivity.
Defined.
