(* ===== verification/FloatSpec.v ===== *)
(** * Integers in floating point

    On integers of at most [prec] bits the operations of [SpecFloat] are
    exact: the sum, difference and product of two integers are the floats of
    their sum, difference and product whenever these have at most [prec] bits
    too.  This holds of [double] and of the x87 [long double]. *)

From Stdlib Require Import SpecFloat.
From S2P Require Import Prelude.

(** ** Digits and shifts *)

Lemma digits2_log2 p : Z.pos (digits2_pos p) = Z.log2 (Z.pos p) + 1.
Proof.
  induction p as [p IH|p IH|]; [| |done]; simpl digits2_pos; rewrite Pos2Z.inj_succ, IH.
  - rewrite Pos2Z.inj_xI. rewrite Z.log2_succ_double by lia. lia.
  - rewrite Pos2Z.inj_xO. rewrite Z.log2_double by lia. lia.
Qed.

Lemma iter_pos_nat {A} (f : A -> A) (p : positive) (x : A) : SpecFloat.iter_pos f p x = Nat.iter (Pos.to_nat p) f x.
Proof.
  assert (Hadd : forall n m y, Nat.iter (n + m) f y = Nat.iter n f (Nat.iter m f y)).
  { induction n as [|n IH]; [done|]. intros m y. simpl. by rewrite IH. }
  revert x. induction p as [p IH|p IH|]; intros x; cbn [SpecFloat.iter_pos]; [| |done].
  - rewrite !IH, Pos2Nat.inj_xI.
    replace (S (2 * Pos.to_nat p)) with (Pos.to_nat p + (Pos.to_nat p + 1))%nat by lia.
    by rewrite !Hadd.
  - rewrite !IH, Pos2Nat.inj_xO.
    replace (2 * Pos.to_nat p)%nat with (Pos.to_nat p + Pos.to_nat p)%nat by lia. by rewrite Hadd.
Qed.

Lemma shr_1_even m : shr_1 (Build_shr_record (2 * m) false false) = Build_shr_record m false false.
Proof. by destruct m. Qed.

Lemma shr_exact m p :
  SpecFloat.iter_pos shr_1 p (Build_shr_record (m * 2 ^ Z.pos p) false false) = Build_shr_record m false false.
Proof.
  rewrite iter_pos_nat, <- (positive_nat_Z p). generalize (Pos.to_nat p) as n. clear p. intros n.
  revert m. induction n as [|n IH]; intros m; [simpl; f_equal; lia|].
  rewrite Nat.iter_succ_r.
  replace (m * 2 ^ Z.of_nat (S n)) with (2 * (m * 2 ^ Z.of_nat n))
    by (rewrite Nat2Z.inj_succ, Z.pow_succ_r; lia).
  by rewrite shr_1_even.
Qed.

Lemma iter_xO m p : Z.pos (Pos.iter xO m p) = Z.pos m * 2 ^ Z.pos p.
Proof.
  induction p as [|p IH] using Pos.peano_ind; [simpl; lia|].
  rewrite Pos.iter_succ, Pos2Z.inj_xO, IH, Pos2Z.inj_succ, Z.pow_succ_r by lia. lia.
Qed.

Section Exact.
Context (prec emax : Z) (Hprec : 0 < prec) (Hemax : prec <= emax) (Hemax2 : 2 <= emax).

(** The float of an integer. *)
Definition of_Z (z : Z) : spec_float := binary_normalize prec emax z 0 false.

(** The number of bits, and the float of a positive integer in full. *)
Definition bits (n : Z) : Z := Z.log2 n + 1.

Definition canon (s : bool) (n : Z) : spec_float :=
  S754_finite s (Z.to_pos (n * 2 ^ (prec - bits n))) (bits n - prec).

Lemma bits_pos n : 0 < n -> 1 <= bits n.
Proof. intros. unfold bits. pose proof (Z.log2_nonneg n). lia. Qed.

Lemma bits_shift n k : 0 < n -> 0 <= k -> bits (n * 2 ^ k) = bits n + k.
Proof. intros Hn Hk. unfold bits. rewrite Z.log2_mul_pow2 by lia. lia. Qed.

Lemma bits_le n : 0 < n < 2 ^ prec -> bits n <= prec.
Proof. intros Hn. unfold bits. apply Z.le_succ_l. apply Z.log2_lt_pow2; lia. Qed.

Lemma Zdigits2_bits m : 0 < m -> Zdigits2 m = bits m.
Proof. destruct m as [|p|p]; try lia. intros _. apply digits2_log2. Qed.

Lemma fexp_bits n : 0 < n -> fexp prec emax (bits n) = bits n - prec.
Proof. intros Hn. unfold fexp, emin. pose proof (bits_pos n Hn). lia. Qed.

(** Rounding the integer [n], written with [k] bits after the point. *)
Lemma round_aux_exact s n k : 0 < n < 2 ^ prec -> prec - bits n <= k ->
  binary_round_aux prec emax s (n * 2 ^ k) (- k) loc_Exact = canon s n.
Proof.
  intros Hn Hk. pose proof (bits_le n Hn) as Hb. pose proof (bits_pos n ltac:(lia)) as Hb1.
  assert (Hm : 0 < n * 2 ^ k) by (apply Z.mul_pos_pos; [lia|]; apply Z.pow_pos_nonneg; lia).
  set (c := n * 2 ^ (prec - bits n)).
  assert (Hc : 0 < c) by (apply Z.mul_pos_pos; [lia|]; apply Z.pow_pos_nonneg; lia).
  assert (Hbc : bits c = prec) by (unfold c; rewrite bits_shift; lia).
  unfold binary_round_aux.
  assert (E : shr_fexp prec emax (n * 2 ^ k) (- k) loc_Exact
              = (Build_shr_record c false false, bits n - prec)).
  { unfold shr_fexp. simpl shr_record_of_loc. rewrite Zdigits2_bits, bits_shift by lia.
    replace (bits n + k + - k) with (bits n) by lia. rewrite fexp_bits by lia.
    destruct (bits n - prec - - k) as [|p|p] eqn:Ep; [| |lia].
    - simpl. f_equal; [|lia]. f_equal. unfold c. do 2 f_equal. lia.
    - unfold shr. replace (n * 2 ^ k) with (c * 2 ^ Z.pos p).
      + rewrite shr_exact. f_equal. lia.
      + unfold c. rewrite <- Z.mul_assoc, <- Z.pow_add_r by lia. f_equal. f_equal. lia. }
  rewrite E. simpl loc_of_shr_record. unfold round_nearest_even. simpl shr_m.
  unfold shr_fexp. simpl shr_record_of_loc. rewrite Zdigits2_bits, Hbc by done.
  replace (prec + (bits n - prec)) with (bits n) by lia. rewrite fexp_bits by lia.
  rewrite Z.sub_diag. simpl. unfold canon. fold c. destruct c as [|p|p]; try lia.
  simpl. destruct (Z.leb_spec (bits n - prec) (emax - prec)); [done|lia].
Qed.

Lemma round_exact s n k : 0 < n < 2 ^ prec -> 0 <= k ->
  binary_round prec emax s (Z.to_pos (n * 2 ^ k)) (- k) = canon s n.
Proof.
  intros Hn Hk. pose proof (bits_le n Hn) as Hb.
  assert (Hm : 0 < n * 2 ^ k) by (apply Z.mul_pos_pos; [lia|]; apply Z.pow_pos_nonneg; lia).
  unfold binary_round. rewrite digits2_log2, Z2Pos.id by done.
  fold (bits (n * 2 ^ k)). rewrite bits_shift by lia.
  replace (bits n + k + - k) with (bits n) by lia. rewrite fexp_bits by lia.
  unfold shl_align. destruct (bits n - prec - - k) as [|p|p] eqn:Ep.
  - rewrite Z2Pos.id by done. apply round_aux_exact; lia.
  - rewrite Z2Pos.id by done. apply round_aux_exact; lia.
  - rewrite iter_xO, Z2Pos.id by done.
    replace (n * 2 ^ k * 2 ^ Z.pos p) with (n * 2 ^ (prec - bits n))
      by (rewrite <- Z.mul_assoc, <- Z.pow_add_r by lia; do 2 f_equal; lia).
    replace (bits n - prec) with (- (prec - bits n)) by lia. apply round_aux_exact; lia.
Qed.

(** The float of an integer does not depend on how it is written. *)
Lemma normalize_exact z k : Z.abs z < 2 ^ prec -> 0 <= k ->
  binary_normalize prec emax (z * 2 ^ k) (- k) false
  = if z =? 0 then S754_zero false else canon (z <? 0) (Z.abs z).
Proof.
  intros Hz Hk. assert (H2 : 0 < 2 ^ k) by (apply Z.pow_pos_nonneg; lia).
  destruct (Z.eqb_spec z 0) as [->|Hne]; [done|].
  unfold binary_normalize. destruct (z * 2 ^ k) as [|p|p] eqn:E; [nia| |].
  - assert (0 < z) by nia. rewrite (proj2 (Z.ltb_ge _ _)), Z.abs_eq by lia.
    replace p with (Z.to_pos (z * 2 ^ k)) by by rewrite E. apply round_exact; lia.
  - assert (z < 0) by nia. rewrite (proj2 (Z.ltb_lt _ _)), Z.abs_neq by lia.
    replace p with (Z.to_pos (- z * 2 ^ k)); [apply round_exact; lia|].
    replace (- z * 2 ^ k) with (- (z * 2 ^ k)) by lia. by rewrite E.
Qed.

Lemma of_Z_cases z : Z.abs z < 2 ^ prec ->
  of_Z z = if z =? 0 then S754_zero false else canon (z <? 0) (Z.abs z).
Proof.
  intros Hz. pose proof (normalize_exact z 0 Hz ltac:(lia)) as H.
  by rewrite Z.mul_1_r in H.
Qed.

Lemma normalize_of_Z z k : Z.abs z < 2 ^ prec -> 0 <= k ->
  binary_normalize prec emax (z * 2 ^ k) (- k) false = of_Z z.
Proof. intros Hz Hk. by rewrite normalize_exact, of_Z_cases. Qed.

(** A significand aligned to [j] bits after the point. *)
Lemma align_exact n j : 0 < n < 2 ^ prec -> prec - bits n <= j ->
  Z.pos (fst (shl_align (Z.to_pos (n * 2 ^ (prec - bits n))) (bits n - prec) (- j))) = n * 2 ^ j.
Proof.
  intros Hn Hj. pose proof (bits_le n Hn) as Hb.
  assert (H2 : 0 < n * 2 ^ (prec - bits n)) by (apply Z.mul_pos_pos; [lia|]; apply Z.pow_pos_nonneg; lia).
  unfold shl_align. destruct (- j - (bits n - prec)) as [|p|p] eqn:E; [|lia|]; simpl fst.
  - rewrite Z2Pos.id by done. do 2 f_equal. lia.
  - rewrite iter_xO, Z2Pos.id by done. rewrite <- Z.mul_assoc, <- Z.pow_add_r by lia. do 2 f_equal. lia.
Qed.

Lemma signed_align z j : z <> 0 -> Z.abs z < 2 ^ prec -> prec - bits (Z.abs z) <= j ->
  cond_Zopp (z <? 0) (Z.pos (fst (shl_align (Z.to_pos (Z.abs z * 2 ^ (prec - bits (Z.abs z))))
                                      (bits (Z.abs z) - prec) (- j)))) = z * 2 ^ j.
Proof.
  intros Hne Hz Hj. rewrite align_exact by lia. unfold cond_Zopp.
  destruct (Z.ltb_spec z 0); [rewrite Z.abs_neq|rewrite Z.abs_eq]; lia.
Qed.

(** The common exponent of a sum. *)
Lemma min_exponents x y : x <> 0 -> y <> 0 -> Z.abs x < 2 ^ prec -> Z.abs y < 2 ^ prec ->
  exists j, 0 <= j /\ Z.min (bits (Z.abs x) - prec) (bits (Z.abs y) - prec) = - j
    /\ prec - bits (Z.abs x) <= j /\ prec - bits (Z.abs y) <= j.
Proof.
  intros Hx Hy Hxp Hyp. pose proof (bits_le (Z.abs x) ltac:(lia)).
  pose proof (bits_le (Z.abs y) ltac:(lia)).
  exists (- Z.min (bits (Z.abs x) - prec) (bits (Z.abs y) - prec)). lia.
Qed.

Lemma opp_of_Z y : y <> 0 -> Z.abs y < 2 ^ prec ->
  S754_finite (negb (y <? 0)) (Z.to_pos (Z.abs y * 2 ^ (prec - bits (Z.abs y)))) (bits (Z.abs y) - prec)
  = of_Z (- y).
Proof.
  intros Hne Hy. rewrite of_Z_cases by lia. rewrite (proj2 (Z.eqb_neq _ _)) by lia.
  rewrite Z.abs_opp. unfold canon. f_equal. destruct (Z.ltb_spec y 0), (Z.ltb_spec (- y) 0); lia || done.
Qed.

Section Operations.
Context (x y : Z) (Hx : Z.abs x < 2 ^ prec) (Hy : Z.abs y < 2 ^ prec).

Lemma add_exact : Z.abs (x + y) < 2 ^ prec ->
  SFadd prec emax (of_Z x) (of_Z y) = of_Z (x + y).
Proof.
  intros Hxy. rewrite (of_Z_cases x), (of_Z_cases y) by done.
  destruct (Z.eqb_spec x 0) as [Ex|Hx0], (Z.eqb_spec y 0) as [Ey|Hy0].
  - rewrite Ex, Ey. done.
  - rewrite Ex, of_Z_cases by lia. simpl. by rewrite (proj2 (Z.eqb_neq _ _)).
  - rewrite Ey, Z.add_0_r, of_Z_cases by lia. simpl. by rewrite (proj2 (Z.eqb_neq _ _)).
  - unfold canon. simpl SFadd. destruct (min_exponents x y) as (j & Hj & -> & Hjx & Hjy); [done..|].
    rewrite !signed_align by done. rewrite <- Z.mul_add_distr_r. by apply normalize_of_Z.
Qed.

Lemma sub_exact : Z.abs (x - y) < 2 ^ prec ->
  SFsub prec emax (of_Z x) (of_Z y) = of_Z (x - y).
Proof.
  intros Hxy. rewrite (of_Z_cases x), (of_Z_cases y) by done.
  destruct (Z.eqb_spec x 0) as [Ex|Hx0], (Z.eqb_spec y 0) as [Ey|Hy0].
  - rewrite Ex, Ey. done.
  - rewrite Ex. simpl. by apply opp_of_Z.
  - rewrite Ey, Z.sub_0_r, of_Z_cases by lia. simpl. by rewrite (proj2 (Z.eqb_neq _ _)).
  - unfold canon. simpl SFsub. destruct (min_exponents x y) as (j & Hj & -> & Hjx & Hjy); [done..|].
    rewrite !signed_align by done. rewrite <- Z.mul_sub_distr_r. by apply normalize_of_Z.
Qed.

Lemma mul_exact : Z.abs (x * y) < 2 ^ prec -> 0 <= x -> 0 <= y \/ x <> 0 ->
  SFmul prec emax (of_Z x) (of_Z y) = of_Z (x * y).
Proof.
  intros Hxy Hx0 Hy0. rewrite (of_Z_cases x), (of_Z_cases y), (of_Z_cases (x * y)) by done.
  destruct (Z.eqb_spec x 0) as [Ex|Hxne], (Z.eqb_spec y 0) as [Ey|Hyne].
  - rewrite Ex, Ey. done.
  - rewrite Ex. simpl. rewrite (proj2 (Z.ltb_ge y 0)) by lia. done.
  - rewrite Ey, Z.mul_0_r. simpl. by rewrite (proj2 (Z.ltb_ge x 0)).
  - rewrite (proj2 (Z.eqb_neq (x * y) 0)) by nia. unfold canon at 1 2. simpl SFmul.
    set (X := Z.abs x) in *. set (Y := Z.abs y) in *.
    assert (HX : 0 < X) by lia. assert (HY : 0 < Y) by lia.
    assert (EXY : Z.abs (x * y) = X * Y) by apply Z.abs_mul. rewrite EXY in *.
    assert (Hsign : xorb (x <? 0) (y <? 0) = (x * y <? 0)).
    { rewrite (proj2 (Z.ltb_ge x 0)) by lia. simpl. destruct (Z.ltb_spec y 0), (Z.ltb_spec (x * y) 0); done || nia. }
    rewrite Hsign.
    assert (P : forall n, 0 < n -> 0 < n * 2 ^ (prec - bits n) \/ bits n > prec)
      by (intros n Hn; destruct (Z_le_gt_dec (bits n) prec); [left|by right];
          apply Z.mul_pos_pos; [lia|]; apply Z.pow_pos_nonneg; lia).
    pose proof (bits_le X ltac:(lia)) as HbX. pose proof (bits_le Y ltac:(lia)) as HbY.
    destruct (P X HX) as [PX|]; [|lia]. destruct (P Y HY) as [PY|]; [|lia].
    assert (EM : Z.pos (Z.to_pos (X * 2 ^ (prec - bits X)) * Z.to_pos (Y * 2 ^ (prec - bits Y)))
                 = X * Y * 2 ^ (prec - bits X + (prec - bits Y))).
    { rewrite Pos2Z.inj_mul, !Z2Pos.id, Z.pow_add_r by lia. ring. }
    rewrite EM.
    replace (bits X - prec + (bits Y - prec)) with (- (prec - bits X + (prec - bits Y))) by lia.
    apply round_aux_exact; [nia|].
    assert (bits X + bits Y - 1 <= bits (X * Y)).
    { unfold bits. pose proof (Z.log2_mul_below X Y ltac:(lia) ltac:(lia)). lia. }
    lia.
Qed.
End Operations.
End Exact.
