(* ===== verification/RoundSpec.v ===== *)
(** * Rounding

    What the operations of [SpecFloat] compute, as integers: a float is
    counted in units of the least positive one, [2 ^ emin], and every
    operation returns a float within half a unit in the last place of the
    exact result.  On this rest the bounds of the comparison of doubles.  A value that
    is a float is not rounded, and [SFpred] of a positive double lies below it. *)

From Stdlib Require Import SpecFloat.
From S2P Require Import Prelude FloatSpec.

(** ** Shifts with a remainder *)

(** The record is the quotient of [N] by [T], with the place of the remainder:
    at or above one half, and neither nothing nor one half. *)
Record quotient (N T : Z) (x : shr_record) : Prop := {
  quo_pos : 0 <= shr_m x;
  quo_rem : Z := N - shr_m x * T;
  quo_range : 0 <= quo_rem < T;
  quo_r : shr_r x = (T <=? 2 * quo_rem);
  quo_s : shr_s x = negb (quo_rem =? 0) && negb (2 * quo_rem =? T);
}.

Lemma quotient_exact m : 0 <= m -> quotient m 1 (Build_shr_record m false false).
Proof.
  intros Hm. constructor; simpl; [done|lia|..]; replace (m - m * 1) with 0 by lia; done.
Qed.

Lemma quotient_shr_1 N T x : quotient N T x -> quotient N (2 * T) (shr_1 x).
Proof.
  destruct x as [m r s]. intros [Hm rem Hr Er Es]. simpl in *. subst rem.
  assert (Hrs : r || s = negb (N - m * T =? 0)).
  { subst r s. destruct (Z.leb_spec T (2 * (N - m * T))), (Z.eqb_spec (N - m * T) 0),
      (Z.eqb_spec (2 * (N - m * T)) T); try done; lia. }
  assert (Hodd : forall p, m = 2 * p + 1 -> 0 <= p ->
            quotient N (2 * T) (Build_shr_record p true (r || s))).
  { intros p -> Hp. constructor; simpl; [done|lia|..].
    - symmetry. apply Z.leb_le. lia.
    - rewrite Hrs. destruct (Z.eqb_spec (N - (2 * p + 1) * T) 0), (Z.eqb_spec (N - p * (2 * T)) 0),
        (Z.eqb_spec (2 * (N - p * (2 * T))) (2 * T)); done || lia. }
  assert (Heven : forall p, m = 2 * p -> 0 <= p ->
            quotient N (2 * T) (Build_shr_record p false (r || s))).
  { intros p -> Hp. constructor; simpl; [done|lia|..].
    - symmetry. apply Z.leb_gt. lia.
    - rewrite Hrs. destruct (Z.eqb_spec (N - 2 * p * T) 0), (Z.eqb_spec (N - p * (2 * T)) 0),
        (Z.eqb_spec (2 * (N - p * (2 * T))) (2 * T)); done || lia. }
  unfold shr_1. destruct m as [|[p|p|]|p]; [apply (Heven 0)|apply (Hodd (Z.pos p))|apply (Heven (Z.pos p))
    |apply (Hodd 0)|]; lia.
Qed.

Lemma quotient_shr N T x e n : quotient N T x -> 0 <= n ->
  exists y, shr x e n = (y, e + n) /\ quotient N (T * 2 ^ n) y.
Proof.
  intros Hx Hn. destruct n as [|p|p]; [| |lia].
  { exists x. split; [simpl; f_equal; lia|]. by rewrite Z.mul_1_r. }
  unfold shr. eexists. split; [reflexivity|]. rewrite iter_pos_nat, <- (positive_nat_Z p).
  generalize (Pos.to_nat p) as k. clear p Hn. induction k as [|k IH]; [by rewrite Z.mul_1_r|].
  rewrite Nat2Z.inj_succ, Z.pow_succ_r by lia. apply quotient_shr_1 in IH. simpl Nat.iter.
  by replace (T * (2 * 2 ^ Z.of_nat k)) with (2 * (T * 2 ^ Z.of_nat k)) by ring.
Qed.

(** The nearest integer to a quotient. *)
Lemma round_quotient N T x : quotient N T x ->
  let c := round_nearest_even (shr_m x) (loc_of_shr_record x) in
  2 * Z.abs (c * T - N) <= T /\ shr_m x <= c <= shr_m x + 1.
Proof.
  destruct x as [m r s]. intros [Hm rem Hr Er Es]. simpl in *. subst rem.
  destruct r, s; simpl.
  - symmetry in Er. apply Z.leb_le in Er. lia.
  - symmetry in Er. apply Z.leb_le in Er. destruct (Z.eqb_spec (N - m * T) 0), (Z.eqb_spec (2 * (N - m * T)) T);
      try done; try lia. destruct (Z.even m); lia.
  - symmetry in Er. apply Z.leb_gt in Er. lia.
  - symmetry in Er. apply Z.leb_gt in Er. destruct (Z.eqb_spec (N - m * T) 0), (Z.eqb_spec (2 * (N - m * T)) T);
      try done; lia.
Qed.

Section Rounding.
Context (prec emax : Z) (Hprec : 1 < prec) (Hemax : prec < emax).

(** ** Floats as integers *)

Abbreviation emin := (emin prec emax).
Abbreviation fexp := (fexp prec emax).

Definition units (x : spec_float) : Z :=
  match x with
  | S754_finite s m e => cond_Zopp s (Z.pos m * 2 ^ (e - emin))
  | _ => 0
  end.

(** A zero or a finite float in its canonical form. *)
Definition regular (x : spec_float) : bool :=
  match x with
  | S754_zero _ => true
  | S754_finite _ _ _ => valid_binary prec emax x
  | _ => false
  end.

Lemma regular_finite s m e : regular (S754_finite s m e) = true ->
  emin <= e <= emax - prec /\ Z.pos m < 2 ^ prec /\ (e = emin \/ 2 ^ (prec - 1) <= Z.pos m).
Proof.
  unfold regular, valid_binary, bounded, canonical_mantissa. intros [Hc Hb]%andb_true_iff.
  apply Z.eqb_eq in Hc. apply Z.leb_le in Hb. rewrite digits2_log2 in Hc. unfold SpecFloat.fexp in Hc.
  pose proof (Z.log2_spec (Z.pos m) eq_refl) as [Hl Hh]. pose proof (Z.log2_nonneg (Z.pos m)).
  split; [lia|]. split.
  - eapply Z.lt_le_trans; [exact Hh|]. apply Z.pow_le_mono_r; lia.
  - destruct (Z.eq_dec e emin); [by left|]. right. etransitivity; [|exact Hl]. apply Z.pow_le_mono_r; lia.
Qed.

Lemma finite_regular s m e : emin <= e <= emax - prec -> Z.pos m < 2 ^ prec ->
  e = emin \/ 2 ^ (prec - 1) <= Z.pos m -> regular (S754_finite s m e) = true.
Proof.
  intros He Hm Hn. unfold regular, valid_binary, bounded, canonical_mantissa.
  apply andb_true_iff. split; [apply Z.eqb_eq|apply Z.leb_le; lia]. rewrite digits2_log2. unfold SpecFloat.fexp.
  apply Z.log2_lt_pow2 in Hm; [|lia]. destruct Hn as [->|Hn]; [lia|].
  apply Z.log2_le_pow2 in Hn; lia.
Qed.

(** ** Rounding to the nearest float *)

Lemma fexp_le d e : d <= prec + e -> emin <= e -> fexp (d) <= e.
Proof. unfold SpecFloat.fexp. lia. Qed.

Lemma Zdigits2_spec m : 0 <= m -> 0 <= Zdigits2 m /\ m < 2 ^ Zdigits2 m /\ (m = 0 \/ 2 ^ (Zdigits2 m - 1) <= m).
Proof.
  destruct m as [|p|p]; [|intros _|lia]; [simpl; lia|]. simpl Zdigits2. rewrite digits2_log2.
  pose proof (Z.log2_spec (Z.pos p) eq_refl) as [Hl Hh]. pose proof (Z.log2_nonneg (Z.pos p)).
  replace (Z.log2 (Z.pos p) + 1 - 1) with (Z.log2 (Z.pos p)) by lia.
  replace (Z.log2 (Z.pos p) + 1) with (Z.succ (Z.log2 (Z.pos p))) by lia. auto with lia.
Qed.

(** The second step of a rounding has at most one bit to drop, a zero. *)
Lemma settle c e : 0 <= c <= 2 ^ prec -> emin <= e < emax - prec -> e = emin \/ 2 ^ (prec - 1) <= c ->
  exists x, regular x = true /\ units x = c * 2 ^ (e - emin) /\
    forall s, (let '(mrs, e') := shr_fexp prec emax c e loc_Exact in
               match shr_m mrs with
               | Z0 => S754_zero s
               | Z.pos m => if e' <=? emax - prec then S754_finite s m e' else S754_infinity s
               | _ => S754_nan
               end) = if s then SFopp x else x.
Proof.
  intros Hc He Hn.
  destruct (Z.eq_dec c (2 ^ prec)) as [->|Hne].
  - exists (S754_finite false (Z.to_pos (2 ^ (prec - 1))) (e + 1)).
    assert (H2 : 0 < 2 ^ (prec - 1)) by (apply Z.pow_pos_nonneg; lia).
    assert (E2 : 2 ^ prec = 2 ^ (prec - 1) * 2) by (rewrite <- (Z.succ_pred prec) at 1; rewrite Z.pow_succ_r by lia; lia).
    split; [|split].
    + apply finite_regular; rewrite ?Z2Pos.id; lia.
    + simpl. rewrite Z2Pos.id, E2 by done. rewrite <- Z.mul_assoc, <- Z.pow_succ_r by lia. do 2 f_equal. lia.
    + intros s. assert (E : shr_fexp prec emax (2 ^ prec) e loc_Exact
        = (Build_shr_record (2 ^ (prec - 1)) false false, e + 1)).
      { unfold shr_fexp. rewrite Zdigits2_bits by lia. unfold bits. rewrite Z.log2_pow2 by lia.
        replace (fexp (prec + 1 + e) - e) with 1 by (unfold SpecFloat.fexp; lia).
        rewrite E2. change (2 ^ (prec - 1) * 2) with (2 ^ (prec - 1) * 2 ^ Z.pos 1).
        unfold shr, shr_record_of_loc. by rewrite shr_exact. }
      rewrite E. simpl shr_m. destruct (2 ^ (prec - 1)) as [|p|p] eqn:Ep; try lia.
      rewrite (proj2 (Z.leb_le _ _)) by lia. by destruct s.
  - assert (E : shr_fexp prec emax c e loc_Exact = (Build_shr_record c false false, e)).
    { unfold shr_fexp. assert (fexp (Zdigits2 c + e) - e <= 0) as Hle.
      { apply Z.le_sub_0. apply fexp_le; [|lia].
        destruct (Zdigits2_spec c) as (Hd & _ & [->|Hd2]); [lia|simpl; lia|].
        assert (Zdigits2 c - 1 < prec); [|lia]. apply (Z.pow_lt_mono_r_iff 2); lia. }
      unfold shr. destruct (fexp (Zdigits2 c + e) - e); [done|lia|done]. }
    rewrite E. simpl shr_m. destruct c as [|p|p]; [| |lia].
    + exists (S754_zero false). split; [done|]. split; [done|]. by intros [].
    + exists (S754_finite false p e). split; [apply finite_regular; lia|]. split; [done|].
      intros s. rewrite (proj2 (Z.leb_le _ _)) by lia. by destruct s.
Qed.

(** The quotient a rounding starts from, at the precision of the result. *)
Lemma shift_quotient N T m e n y : 0 < T -> 0 <= m -> m * T <= N < (m + 1) * T ->
  n = fexp (Zdigits2 m + e) - e -> 0 <= n -> quotient N (T * 2 ^ n) y ->
  shr_m y < 2 ^ prec /\ (e + n = emin \/ 2 ^ (prec - 1) <= shr_m y /\ 2 ^ (prec - 1) * (T * 2 ^ n) <= N).
Proof.
  intros HT Hm HN En Hn [Hy rem Hr _ _]. subst rem.
  destruct (Zdigits2_spec m Hm) as (Hd & Hhi & Hlo). set (d := Zdigits2 m) in *.
  assert (H2n : 0 < 2 ^ n) by (apply Z.pow_pos_nonneg; lia).
  assert (HTn : 0 < T * 2 ^ n) by lia. split.
  - assert (2 ^ d <= 2 ^ (prec + n)) as Hle by (apply Z.pow_le_mono_r; [lia|]; unfold SpecFloat.fexp in En; lia).
    rewrite Z.pow_add_r in Hle by lia.
    assert ((m + 1) * T <= 2 ^ prec * (T * 2 ^ n)); [|nia].
    replace (2 ^ prec * (T * 2 ^ n)) with (2 ^ prec * 2 ^ n * T) by ring. apply Z.mul_le_mono_nonneg_r; lia.
  - destruct (Z.eq_dec (e + n) emin) as [|Hne]; [by left|]. right.
    assert (n = d - prec) as End by (unfold SpecFloat.fexp in En; lia).
    destruct Hlo as [->|Hlo]; [unfold d in *; simpl Zdigits2 in *; lia|].
    assert (2 ^ (prec - 1) * 2 ^ n = 2 ^ (d - 1)) as E.
    { rewrite <- Z.pow_add_r by lia. f_equal. lia. }
    assert (2 ^ (prec - 1) * (T * 2 ^ n) <= N).
    { replace (2 ^ (prec - 1) * (T * 2 ^ n)) with (2 ^ (prec - 1) * 2 ^ n * T) by ring. rewrite E.
      transitivity (m * T); [apply Z.mul_le_mono_nonneg_r; lia|lia]. }
    split; [|done]. assert (2 ^ (prec - 1) * (T * 2 ^ n) < (shr_m y + 1) * (T * 2 ^ n)) by lia.
    apply Z.lt_succ_r. eapply Z.mul_lt_mono_pos_r; [exact HTn|]. lia.
Qed.

(** A float within half a unit in the last place of [N / T * 2 ^ e], all
    values scaled by [2 ^ K]. *)
Definition nearest (x : spec_float) (N T e : Z) : Prop :=
  regular x = true /\ 0 <= units x /\
  forall K, 0 <= e + K -> 0 <= emin + K ->
    2 ^ prec * Z.abs (units x * 2 ^ (emin + K) * T - N * 2 ^ (e + K))
    <= Z.max (N * 2 ^ (e + K)) (2 ^ (prec - 1) * 2 ^ (emin + K) * T).

Lemma round_aux_nearest m e l N T : 0 < T -> quotient N T (shr_record_of_loc m l) ->
  e <= fexp (Zdigits2 m + e) -> Zdigits2 m + e < emax ->
  exists x, nearest x N T e /\ forall s, binary_round_aux prec emax s m e l = if s then SFopp x else x.
Proof.
  intros HT Hq He Hov. set (n := fexp (Zdigits2 m + e) - e) in *.
  assert (Hn : 0 <= n) by (unfold n; lia).
  assert (Em : shr_m (shr_record_of_loc m l) = m) by by destruct l as [|[]].
  assert (Hm : 0 <= m /\ m * T <= N < (m + 1) * T).
  { destruct Hq as [Hp rem Hr _ _]. subst rem. rewrite Em in *. lia. }
  destruct Hm as [Hm HN].
  destruct (quotient_shr N T _ e n Hq ltac:(lia)) as (y & Ey & Hy).
  pose proof (shift_quotient N T m e n y HT Hm HN eq_refl ltac:(lia) Hy) as [Hhi Hlo].
  pose proof (round_quotient _ _ _ Hy) as [Hr Hc]. set (c := round_nearest_even _ _) in *.
  pose proof (quo_pos _ _ _ Hy) as Hy0.
  destruct (settle c (e + n)) as (x & Hx & Hu & Hs).
  { lia. } { unfold n, SpecFloat.fexp, SpecFloat.emin in *. lia. } { lia. }
  exists x. split.
  - split; [done|]. assert (0 <= e + n - emin) by (unfold n, SpecFloat.fexp; lia).
    split; [rewrite Hu; apply Z.mul_nonneg_nonneg; [lia|]; apply Z.pow_nonneg; lia|].
    intros K HeK HK. rewrite Hu.
    replace (c * 2 ^ (e + n - emin) * 2 ^ (emin + K) * T) with (c * (T * 2 ^ n) * 2 ^ (e + K)).
    2:{ rewrite <- (Z.mul_assoc c (2 ^ _)), <- Z.pow_add_r by lia.
        replace (e + n - emin + (emin + K)) with (n + (e + K)) by lia. rewrite (Z.pow_add_r 2 n) by lia. ring. }
    rewrite <- Z.mul_sub_distr_r, Z.abs_mul, (Z.abs_eq (2 ^ (e + K))) by (apply Z.pow_nonneg; lia).
    assert (H2K : 0 < 2 ^ (e + K)) by (apply Z.pow_pos_nonneg; lia).
    assert (Ep : 2 ^ prec = 2 ^ (prec - 1) * 2)
      by (rewrite <- (Z.succ_pred prec) at 1; rewrite Z.pow_succ_r by lia; lia).
    assert (H2p : 0 < 2 ^ (prec - 1)) by (apply Z.pow_pos_nonneg; lia).
    set (D := Z.abs (c * (T * 2 ^ n) - N)) in *.
    assert (2 ^ prec * (D * 2 ^ (e + K)) <= 2 ^ (prec - 1) * (T * 2 ^ n) * 2 ^ (e + K)) as Hb.
    { rewrite Ep. replace (2 ^ (prec - 1) * 2 * (D * 2 ^ (e + K))) with (2 ^ (prec - 1) * (2 * D) * 2 ^ (e + K)) by ring.
      apply Z.mul_le_mono_nonneg_r; [lia|]. apply Z.mul_le_mono_nonneg_l; lia. }
    etransitivity; [exact Hb|]. destruct Hlo as [Hlo|[_ Hlo]].
    + etransitivity; [|apply Z.le_max_r]. rewrite <- Hlo.
      replace (e + n + K) with (n + (e + K)) by lia. rewrite (Z.pow_add_r 2 n) by lia. apply Z.eq_le_incl. ring.
    + etransitivity; [|apply Z.le_max_l]. apply Z.mul_le_mono_nonneg_r; lia.
  - intros s. unfold binary_round_aux. unfold shr_fexp at 1. fold n. rewrite Ey. apply Hs.
Qed.

Lemma units_opp x : units (SFopp x) = - units x.
Proof. destruct x as [| | |[] m e]; simpl; lia. Qed.

Lemma regular_opp x : regular (SFopp x) = regular x.
Proof. by destruct x. Qed.

Lemma units_signed (s : bool) x : units (if s then SFopp x else x) = cond_Zopp s (units x).
Proof. destruct s; [apply units_opp|done]. Qed.

Lemma regular_signed (s : bool) x : regular (if s then SFopp x else x) = regular x.
Proof. destruct s; [apply regular_opp|done]. Qed.

(** [2 ^ prec * |u - t| <= max |t| (2 ^ (prec - 1) * w)]: the float [u / w] is
    the value [t / w], rounded. *)
Definition rounded (u t w : Z) : Prop :=
  2 ^ prec * Z.abs (u - t) <= Z.max (Z.abs t) (2 ^ (prec - 1) * w).

Lemma rounded_signed (s : bool) u t w : rounded u t w -> rounded (cond_Zopp s u) (cond_Zopp s t) w.
Proof.
  destruct s; simpl; [|done]. unfold rounded.
  replace (- u - - t) with (- (u - t)) by lia. by rewrite !Z.abs_opp.
Qed.

Lemma nearest_rounded x N T e K : nearest x N T e -> 0 <= N -> 0 <= e + K -> 0 <= emin + K ->
  rounded (units x * 2 ^ (emin + K) * T) (N * 2 ^ (e + K)) (2 ^ (emin + K) * T).
Proof.
  intros (_ & _ & H) HN HeK HK. unfold rounded. specialize (H K HeK HK).
  rewrite (Z.abs_eq (N * _)), Z.mul_assoc; [done|]. apply Z.mul_nonneg_nonneg; [done|]. by apply Z.pow_nonneg.
Qed.

(** A value that counts whole units is exact when it is small. *)
Lemma rounded_whole u t : rounded u t 1 -> 2 ^ prec * Z.abs (u - t) <= Z.abs t.
Proof.
  unfold rounded. intros H. destruct (Z.le_gt_cases (2 ^ (prec - 1)) (Z.abs t)); [lia|].
  assert (Ep : 2 ^ prec = 2 ^ (prec - 1) * 2)
    by (rewrite <- (Z.succ_pred prec) at 1; rewrite Z.pow_succ_r by lia; lia).
  assert (Z.abs (u - t) = 0) as ->; [|lia]. rewrite Ep in H.
  assert (0 < 2 ^ (prec - 1)) by (apply Z.pow_pos_nonneg; lia). nia.
Qed.

(** ** The operations *)

Lemma shl_align_value m e e' :
  exists n, snd (shl_align m e e') = e - n /\ 0 <= n /\ n = Z.max 0 (e - e')
    /\ Z.pos (fst (shl_align m e e')) = Z.pos m * 2 ^ n.
Proof.
  unfold shl_align. destruct (e' - e) as [|d|d] eqn:E; simpl.
  - exists 0. lia.
  - exists 0. lia.
  - exists (Z.pos d). rewrite iter_xO. lia.
Qed.

Lemma round_nearest m e : bits (Z.pos m) + e < emax ->
  exists x, nearest x (Z.pos m) 1 e /\ forall s, binary_round prec emax s m e = if s then SFopp x else x.
Proof.
  intros Hov. unfold binary_round. rewrite digits2_log2. fold (bits (Z.pos m)).
  destruct (shl_align_value m e (fexp (bits (Z.pos m) + e))) as (n & Es & Hn & En & Ef).
  destruct (shl_align m e _) as [mz ez]. simpl in Es, Ef. subst ez.
  assert (Hb : Zdigits2 (Z.pos mz) = bits (Z.pos m) + n) by (rewrite Zdigits2_bits, Ef, bits_shift; lia).
  destruct (round_aux_nearest (Z.pos mz) (e - n) loc_Exact (Z.pos mz) 1) as (x & (Hx & Hu & Hr) & Es).
  { done. } { by apply quotient_exact. } { rewrite Hb. replace (bits _ + n + _) with (bits (Z.pos m) + e) by lia. lia. }
  { lia. }
  exists x. split; [|done]. split; [done|]. split; [done|]. intros K HeK HK.
  destruct (Z.le_gt_cases 0 (e - n + K)) as [Hk|Hk].
  - specialize (Hr K Hk HK). rewrite Ef in Hr.
    replace (Z.pos m * 2 ^ n * 2 ^ (e - n + K)) with (Z.pos m * 2 ^ (e + K)) in Hr; [done|].
    rewrite <- Z.mul_assoc, <- Z.pow_add_r by lia. do 2 f_equal. lia.
  - unfold SpecFloat.fexp in En. lia.
Qed.

Lemma normalize_rounded z e szero : emin <= e -> Z.abs z * 2 ^ (e - emin) < 2 ^ (emax - 1 - emin) ->
  let r := binary_normalize prec emax z e szero in
  regular r = true /\ 2 ^ prec * Z.abs (units r - z * 2 ^ (e - emin)) <= Z.abs (z * 2 ^ (e - emin)).
Proof.
  intros He Hov. cbv zeta.
  assert (H : forall s m, z = cond_Zopp s (Z.pos m) ->
    let r := binary_round prec emax s m e in
    regular r = true /\ 2 ^ prec * Z.abs (units r - z * 2 ^ (e - emin)) <= Z.abs (z * 2 ^ (e - emin))).
  { intros s m Ez. cbv zeta. assert (Ea : Z.abs z = Z.pos m) by (destruct s; simpl in Ez; lia). rewrite Ea in Hov.
    destruct (round_nearest m e) as (x & Hx & Es).
    { apply Z.log2_lt_pow2 in Hov; [|lia]. rewrite Z.log2_mul_pow2 in Hov by lia. unfold bits. lia. }
    rewrite Es, regular_signed, units_signed. split; [apply Hx|]. apply rounded_whole.
    apply (nearest_rounded _ _ _ _ (- emin)) in Hx; [|lia..]. rewrite Z.add_opp_diag_r, !Z.mul_1_r in Hx.
    apply (rounded_signed s) in Hx. subst z.
    replace (cond_Zopp s (Z.pos m) * 2 ^ (e - emin)) with (cond_Zopp s (Z.pos m * 2 ^ (e + - emin))); [done|].
    replace (e + - emin) with (e - emin) by lia. destruct s; simpl cond_Zopp; lia. }
  destruct z as [|p|p]; [|by apply (H false)|by apply (H true)].
  split; [done|]. simpl. lia.
Qed.

Lemma align_units s m e e' : regular (S754_finite s m e) = true -> emin <= e' <= e ->
  cond_Zopp s (Z.pos (fst (shl_align m e e'))) * 2 ^ (e' - emin) = units (S754_finite s m e).
Proof.
  intros H He. destruct (shl_align_value m e e') as (n & _ & Hn & En & ->). simpl units.
  assert (Z.pos m * 2 ^ n * 2 ^ (e' - emin) = Z.pos m * 2 ^ (e - emin)).
  { rewrite <- Z.mul_assoc, <- Z.pow_add_r by lia. do 2 f_equal. lia. }
  destruct s; simpl cond_Zopp; lia.
Qed.

Lemma sub_rounded x y : regular x = true -> regular y = true ->
  Z.abs (units x - units y) < 2 ^ (emax - 1 - emin) ->
  let r := SFsub prec emax x y in
  regular r = true /\ 2 ^ prec * Z.abs (units r - (units x - units y)) <= Z.abs (units x - units y).
Proof.
  intros Hx Hy Hov. destruct x as [sx| | |sx mx ex]; try done; destruct y as [sy| | |sy my ey]; try done.
  - cbn [SFsub]. destruct sx, sy; (split; [done|simpl; lia]).
  - cbn [SFsub]. change (S754_finite (negb sy) my ey) with (SFopp (S754_finite sy my ey)).
    cbv zeta. rewrite regular_opp, units_opp. split; [done|]. cbn [units]. lia.
  - cbn [SFsub]. split; [done|]. cbn [units]. lia.
  - pose proof (regular_finite _ _ _ Hx) as [Hex _]. pose proof (regular_finite _ _ _ Hy) as [Hey _].
    cbn [SFsub]. cbv zeta.
    pose proof (align_units sx mx ex (Z.min ex ey) Hx ltac:(lia)) as Ex.
    pose proof (align_units sy my ey (Z.min ex ey) Hy ltac:(lia)) as Ey.
    set (zx := cond_Zopp sx _) in *. set (zy := cond_Zopp sy _) in *.
    rewrite <- Ex, <- Ey, <- Z.mul_sub_distr_r in *. apply normalize_rounded; [lia|].
    rewrite Z.abs_mul, (Z.abs_eq (2 ^ _)) in Hov by (apply Z.pow_nonneg; lia). done.
Qed.

(** A float with a full significand. *)
Definition normal (x : spec_float) : Prop :=
  match x with
  | S754_finite _ m _ => 2 ^ (prec - 1) <= Z.pos m
  | _ => False
  end.

Lemma mul_rounded x y : regular x = true -> regular y = true -> normal y ->
  Z.abs (units x * units y) < 2 ^ (emax - 1 - 2 * emin) ->
  let r := SFmul prec emax x y in
  regular r = true /\ rounded (units r * 2 ^ (- emin)) (units x * units y) (2 ^ (- emin)).
Proof.
  intros Hx Hy Hn Hov. assert (Hm : emin <= 0) by (unfold SpecFloat.emin; lia).
  assert (Hp2 : 0 < 2 ^ (- emin)) by (apply Z.pow_pos_nonneg; lia).
  destruct y as [|s| |sy my ey]; try done. destruct x as [sx| | |sx mx ex]; try done.
  { split; [done|]. unfold rounded. simpl. assert (0 <= 2 ^ (prec - 1)) by (apply Z.pow_nonneg; lia). nia. }
  pose proof (regular_finite _ _ _ Hx) as [Hex _]. pose proof (regular_finite _ _ _ Hy) as [Hey _].
  simpl in Hn. cbn [SFmul]. cbv zeta.
  assert (EU : units (S754_finite sx mx ex) * units (S754_finite sy my ey)
    = cond_Zopp (xorb sx sy) (Z.pos (mx * my) * 2 ^ (ex + ey + - (2 * emin)))).
  { replace (ex + ey + - (2 * emin)) with ((ex - emin) + (ey - emin)) by lia.
    rewrite Z.pow_add_r, Pos2Z.inj_mul by lia. cbn [units]. destruct sx, sy; simpl cond_Zopp; ring. }
  rewrite EU in *.
  assert (Z.abs (cond_Zopp (xorb sx sy) (Z.pos (mx * my) * 2 ^ (ex + ey + - (2 * emin))))
    = Z.pos (mx * my) * 2 ^ (ex + ey + - (2 * emin))) as Ea.
  { assert (0 <= Z.pos (mx * my) * 2 ^ (ex + ey + - (2 * emin)))
      by (apply Z.mul_nonneg_nonneg; [lia|]; apply Z.pow_nonneg; lia). destruct (xorb sx sy); simpl cond_Zopp; lia. }
  rewrite Ea in Hov. apply Z.log2_lt_pow2 in Hov;
    [|apply Z.mul_pos_pos; [lia|]; apply Z.pow_pos_nonneg; lia].
  rewrite Z.log2_mul_pow2 in Hov by lia.
  assert (Hb : prec - 1 <= Z.log2 (Z.pos (mx * my))).
  { apply Z.log2_le_pow2; [lia|]. rewrite Pos2Z.inj_mul. nia. }
  destruct (round_aux_nearest (Z.pos (mx * my)) (ex + ey) loc_Exact (Z.pos (mx * my)) 1) as (x & Hr & Es).
  { done. } { by apply quotient_exact. }
  { rewrite Zdigits2_bits by lia. unfold SpecFloat.fexp, bits. lia. }
  { rewrite Zdigits2_bits by lia. unfold bits. lia. }
  rewrite Es, regular_signed, units_signed. split; [apply Hr|].
  apply (nearest_rounded _ _ _ _ (- (2 * emin))) in Hr; [|lia..].
  replace (emin + - (2 * emin)) with (- emin) in Hr by lia. rewrite !Z.mul_1_r in Hr.
  apply (rounded_signed (xorb sx sy)) in Hr. by destruct (xorb sx sy); simpl in *; rewrite ?Z.mul_opp_l in *.
Qed.

(** ** Division *)

Lemma location_quotient m d : 0 <= m -> 0 < d ->
  quotient m d (shr_record_of_loc (m / d) (new_location d (m mod d))).
Proof.
  intros Hm Hd. pose proof (Z.mod_pos_bound m d Hd) as Hr. pose proof (Z.div_mod m d ltac:(lia)) as Ed.
  assert (Hq : 0 <= m / d) by (by apply Z.div_pos).
  assert (Er : m - m / d * d = m mod d) by lia.
  assert (Hcase : forall l, shr_m (shr_record_of_loc (m / d) l) = m / d) by by intros [|[]].
  assert (H : shr_r (shr_record_of_loc (m / d) (new_location d (m mod d))) = (d <=? 2 * (m mod d))
    /\ shr_s (shr_record_of_loc (m / d) (new_location d (m mod d)))
       = negb (m mod d =? 0) && negb (2 * (m mod d) =? d)).
  { unfold new_location, new_location_even, new_location_odd.
    destruct (Z.eq_dec (m mod d) 0) as [->|Hne].
    { destruct (Z.even d); simpl; (split; [|done]); symmetry; apply Z.leb_gt; lia. }
    apply Z.eqb_neq in Hne. destruct (Z.even d) eqn:Ev; rewrite !Hne.
    - destruct (Z.compare_spec (2 * (m mod d)) d), (Z.leb_spec d (2 * (m mod d))), (Z.eqb_spec (2 * (m mod d)) d);
        try lia; done.
    - assert (2 * (m mod d) <> d).
      { intros E2. assert (Z.even (2 * (m mod d)) = false) as E by by rewrite E2. by rewrite Z.even_mul in E. }
      destruct (Z.compare_spec (2 * (m mod d) + 1) d), (Z.leb_spec d (2 * (m mod d))), (Z.eqb_spec (2 * (m mod d)) d);
        try lia; done. }
  destruct H as [H1 H2]. constructor; rewrite Hcase; cbv zeta; rewrite ?Er; lia || done.
Qed.

Lemma quotient_digits m d : 0 < m -> 0 < d ->
  bits m - bits d <= Zdigits2 (m / d) <= Z.max 0 (bits m - bits d + 1).
Proof.
  intros Hm Hd. destruct (Z.eq_dec (m / d) 0) as [E|Hne].
  - rewrite E. simpl. apply Z.div_small_iff in E; [|lia]. unfold bits.
    destruct E as [E|E]; [|lia]. pose proof (Z.log2_le_mono m d ltac:(lia)). lia.
  - assert (Hq : 0 < m / d) by (pose proof (Z.div_pos m d ltac:(lia) Hd); lia).
    rewrite Zdigits2_bits by done. unfold bits.
    pose proof (Z.mul_div_le m d Hd). pose proof (Z.mul_succ_div_gt m d Hd).
    pose proof (Z.log2_mul_below d (m / d) ltac:(lia) ltac:(lia)).
    pose proof (Z.log2_le_mono (d * (m / d)) m ltac:(lia)).
    assert (Z.log2 m < Z.log2 d + Z.log2 (m / d) + 2); [|lia].
    apply Z.log2_lt_pow2; [done|]. pose proof (Z.log2_spec d Hd). pose proof (Z.log2_spec (m / d) Hq).
    pose proof (Z.log2_nonneg d). pose proof (Z.log2_nonneg (m / d)).
    replace (Z.log2 d + Z.log2 (m / d) + 2) with (Z.succ (Z.log2 d) + Z.succ (Z.log2 (m / d))) by lia.
    rewrite Z.pow_add_r by lia. nia.
Qed.

(** The quotient of two positive integers. *)
Lemma div_nearest a b : bits (Z.pos a) - bits (Z.pos b) + 1 < emax ->
  exists x, (regular x = true /\ 0 <= units x /\ rounded (units x * Z.pos b) (Z.pos a * 2 ^ (- emin)) (Z.pos b))
    /\ forall s, SFdiv prec emax (S754_finite s a 0) (S754_finite false b 0) = if s then SFopp x else x.
Proof.
  intros Hov. assert (Hem : emin <= 0) by (unfold SpecFloat.emin; lia).
  cbn [SFdiv]. unfold SFdiv_core_binary. rewrite !Zdigits2_bits, !Z.add_0_r by lia. change (0 - 0) with 0.
  set (e := Z.min (fexp (bits (Z.pos a) - bits (Z.pos b))) 0).
  assert (He : e <= 0) by lia.
  assert (Em : match 0 - e with
               | 0 => Z.pos a
               | Z.pos _ => Z.shiftl (Z.pos a) (0 - e)
               | Z.neg _ => 0
               end = Z.pos a * 2 ^ (- e)).
  { rewrite <- Z.shiftl_mul_pow2 by lia. change (0 - e) with (- e). destruct (- e) eqn:E'; [done|done|lia]. }
  rewrite Em. set (m := Z.pos a * 2 ^ (- e)).
  assert (Hm : 0 < m) by (apply Z.mul_pos_pos; [lia|]; apply Z.pow_pos_nonneg; lia).
  assert (Hbm : bits m = bits (Z.pos a) - e) by (unfold m; rewrite bits_shift; lia).
  pose proof (quotient_digits m (Z.pos b) Hm eq_refl) as Hdq.
  pose proof (location_quotient m (Z.pos b) ltac:(lia) eq_refl) as Hq.
  assert (Eq : Z.div_eucl m (Z.pos b) = (m / Z.pos b, m mod Z.pos b)).
  { unfold Z.div, Z.modulo. by destruct (Z.div_eucl m (Z.pos b)). }
  rewrite Eq. destruct (round_aux_nearest _ e _ m (Z.pos b) eq_refl Hq) as (x & Hr & Es).
  { unfold e, SpecFloat.fexp in *. lia. }
  { unfold e, SpecFloat.fexp, SpecFloat.emin in *. lia. }
  exists x. split; [|intros s; rewrite xorb_false_r; apply Es].
  split; [apply Hr|]. split; [apply Hr|].
  assert (0 <= e - emin) by (unfold e, SpecFloat.fexp; lia).
  apply (nearest_rounded _ _ _ _ (- emin)) in Hr; [|lia..].
  rewrite Z.add_opp_diag_r, Z.mul_1_r, Z.mul_1_l in Hr.
  replace (m * 2 ^ (e + - emin)) with (Z.pos a * 2 ^ (- emin)) in Hr; [done|].
  unfold m. rewrite <- Z.mul_assoc, <- Z.pow_add_r by lia. do 2 f_equal. lia.
Qed.

(** ** Comparison *)

Lemma exponent_less s1 m1 e1 s2 m2 e2 : regular (S754_finite s1 m1 e1) = true ->
  regular (S754_finite s2 m2 e2) = true -> e1 < e2 -> Z.pos m1 * 2 ^ (e1 - emin) < Z.pos m2 * 2 ^ (e2 - emin).
Proof.
  intros (He1 & Hm1 & _)%regular_finite (He2 & _ & [->|Hm2])%regular_finite Hlt; [lia|].
  assert (H1 : 0 < 2 ^ (e1 - emin)) by (apply Z.pow_pos_nonneg; lia).
  assert (2 ^ (e2 - emin) >= 2 * 2 ^ (e1 - emin)).
  { rewrite <- Z.pow_succ_r by lia. apply Z.le_ge, Z.pow_le_mono_r; lia. }
  assert (Ep : 2 ^ prec = 2 ^ (prec - 1) * 2)
    by (rewrite <- (Z.succ_pred prec) at 1; rewrite Z.pow_succ_r by lia; lia).
  nia.
Qed.

Lemma compare_units x y : regular x = true -> regular y = true -> SFcompare x y = Some (units x ?= units y).
Proof.
  intros Hx Hy. assert (Hp : forall m e, regular (S754_finite false m e) = true -> 0 < Z.pos m * 2 ^ (e - emin)).
  { intros m e H%regular_finite. apply Z.mul_pos_pos; [lia|]. apply Z.pow_pos_nonneg; lia. }
  assert (Hmag : forall m1 e1 m2 e2, regular (S754_finite false m1 e1) = true ->
     regular (S754_finite false m2 e2) = true ->
     match e1 ?= e2 with Eq => Z.pos m1 ?= Z.pos m2 | c => c end
     = (Z.pos m1 * 2 ^ (e1 - emin) ?= Z.pos m2 * 2 ^ (e2 - emin))).
  { intros m1 e1 m2 e2 H1 H2. pose proof (Hp _ _ H1). pose proof (Hp _ _ H2).
    destruct (Z.compare_spec e1 e2) as [->|Hlt|Hlt]; symmetry.
    - assert (0 < 2 ^ (e2 - emin)) by (apply Z.pow_pos_nonneg; apply regular_finite in H2; lia).
      destruct (Z.compare_spec (Z.pos m1) (Z.pos m2)) as [->|?|?]; [apply Z.compare_refl|..];
        [apply Z.compare_lt_iff|apply Z.compare_gt_iff]; by apply Z.mul_lt_mono_pos_r.
    - apply Z.compare_lt_iff. by apply (exponent_less false m1 e1 false m2 e2).
    - apply Z.compare_gt_iff. by apply (exponent_less false m2 e2 false m1 e1). }
  destruct x as [sx| | |sx mx ex]; try done; destruct y as [sy| | |sy my ey]; try done.
  - pose proof (Hp my ey Hy). destruct sy; cbn [SFcompare units cond_Zopp]; f_equal; symmetry;
      [apply Z.compare_gt_iff|apply Z.compare_lt_iff]; lia.
  - pose proof (Hp mx ex Hx). destruct sx; cbn [SFcompare units cond_Zopp]; f_equal; symmetry;
      [apply Z.compare_lt_iff|apply Z.compare_gt_iff]; lia.
  - pose proof (Hp my ey Hy). pose proof (Hp mx ex Hx). specialize (Hmag mx ex my ey Hx Hy).
    destruct sx, sy; cbn [SFcompare units cond_Zopp]; f_equal.
    + transitivity (CompOpp (match ex ?= ey with Eq => Z.pos mx ?= Z.pos my | c => c end));
        [by destruct (ex ?= ey)|]. rewrite Hmag.
      destruct (Z.compare_spec (Z.pos mx * 2 ^ (ex - emin)) (Z.pos my * 2 ^ (ey - emin))),
        (Z.compare_spec (- (Z.pos mx * 2 ^ (ex - emin))) (- (Z.pos my * 2 ^ (ey - emin)))); done || lia.
    + symmetry. apply Z.compare_lt_iff. lia.
    + symmetry. apply Z.compare_gt_iff. lia.
    + rewrite <- Hmag. by destruct (ex ?= ey).
Qed.

Lemma ltb_units x y : regular x = true -> regular y = true -> SFltb x y = (units x <? units y).
Proof. intros Hx Hy. unfold SFltb. rewrite compare_units by done. unfold Z.ltb. by destruct (_ ?= _). Qed.

Lemma leb_units x y : regular x = true -> regular y = true -> SFleb x y = (units x <=? units y).
Proof. intros Hx Hy. unfold SFleb. rewrite compare_units by done. unfold Z.leb. by destruct (_ ?= _). Qed.
End Rounding.

(** ** Exact values *)

Section Exactly.
Context (prec emax : Z) (Hprec : 1 < prec) (Hemax : prec < emax).
Abbreviation emin := (emin prec emax).
Abbreviation fexp := (fexp prec emax).
Abbreviation units := (units prec emax).
Abbreviation regular := (regular prec emax).

Lemma regular_digits s m e : regular (S754_finite s m e) = true -> fexp (bits (Z.pos m) + e) = e /\ e <= emax - prec.
Proof.
  unfold RoundSpec.regular, valid_binary, bounded, canonical_mantissa. intros [Hc Hb]%andb_true_iff.
  apply Z.eqb_eq in Hc. apply Z.leb_le in Hb. by rewrite digits2_log2 in Hc.
Qed.

(** A float written with a smaller exponent is rounded to itself. *)
Lemma binary_round_regular s m e p ez : regular (S754_finite s m e) = true -> ez <= e ->
  Z.pos p = Z.pos m * 2 ^ (e - ez) -> binary_round prec emax s p ez = S754_finite s m e.
Proof.
  intros H He Ep. destruct (regular_digits s m e H) as [Hf Hmax].
  unfold binary_round. rewrite digits2_log2. fold (bits (Z.pos p)). rewrite Ep, bits_shift by lia.
  replace (bits (Z.pos m) + (e - ez) + ez) with (bits (Z.pos m) + e) by lia. rewrite Hf.
  replace (shl_align p ez e) with (p, ez) by (unfold shl_align; destruct (e - ez) eqn:E'; [done|done|lia]).
  unfold binary_round_aux, shr_fexp. rewrite Zdigits2_bits, Ep, bits_shift by lia.
  replace (bits (Z.pos m) + (e - ez) + ez) with (bits (Z.pos m) + e) by lia. rewrite Hf.
  change (shr_record_of_loc (Z.pos m * 2 ^ (e - ez)) loc_Exact) with (Build_shr_record (Z.pos m * 2 ^ (e - ez)) false false).
  assert (Es : shr (Build_shr_record (Z.pos m * 2 ^ (e - ez)) false false) ez (e - ez)
               = (Build_shr_record (Z.pos m) false false, e)).
  { destruct (e - ez) as [|d|d] eqn:E; [..|lia]; simpl.
    - rewrite Z.mul_1_r. f_equal. lia.
    - change (2 ^ Z.pos d) with (2 ^ Z.pos d). pose proof (shr_exact (Z.pos m) d) as Hs. simpl in Hs. rewrite Hs.
      f_equal. lia. }
  rewrite Es. cbn [shr_m loc_of_shr_record round_nearest_even]. rewrite Zdigits2_bits by lia. rewrite Hf, Z.sub_diag.
  cbn [shr shr_m shr_record_of_loc]. by rewrite (proj2 (Z.leb_le _ _)) by lia.
Qed.
End Exactly.

(** The powers of two from which [SFpred] takes its steps. *)
Lemma power_units : forallb (fun k => let d := SFldexp 53 1024 (SFone 53 1024) k in
    match d with
    | S754_finite false _ _ => regular 53 1024 d && (units 53 1024 d =? 2 ^ (k + 1074))
    | _ => false
    end) (seqZ (-1074) 2046) = true.
Proof. vm_compute. reflexivity. Qed.

(** ** The predecessor *)

Abbreviation regular64 := (regular 53 1024).
Abbreviation units64 := (units 53 1024).

Lemma power_of_two k : -1074 <= k <= 971 -> exists md ed, SFldexp 53 1024 (SFone 53 1024) k = S754_finite false md ed
  /\ regular64 (S754_finite false md ed) = true /\ units64 (S754_finite false md ed) = 2 ^ (k + 1074).
Proof.
  intros Hk. pose proof power_units as F. rewrite forallb_forall in F. specialize (F k).
  rewrite <- list_elem_of_In, elem_of_seqZ in F. specialize (F ltac:(lia)). cbv zeta in F.
  destruct (SFldexp 53 1024 (SFone 53 1024) k) as [| | |[] md ed]; try done.
  apply andb_true_iff in F as [Hr Hu]. apply Z.eqb_eq in Hu. by exists md, ed.
Qed.

(** The float below [m * 2 ^ e] is one less in the last place, or half of one
    when [m] is the least mantissa of its exponent. *)
Lemma sub_power m e k m' : regular64 (S754_finite false m e) = true -> -1074 <= k <= e ->
  0 <= m' -> Z.pos m * 2 ^ (e - k) - 1 = m' -> (k = -1074 \/ 2 ^ 52 <= m') -> m' < 2 ^ 53 ->
  let r := SFsub 53 1024 (S754_finite false m e) (SFldexp 53 1024 (SFone 53 1024) k) in
  regular64 r = true /\ units64 r = m' * 2 ^ (k + 1074).
Proof.
  intros Hm Hk Hm' Em Hlow Hhigh. pose proof (regular_digits 53 1024 _ _ _ Hm) as [_ He].
  destruct (power_of_two k ltac:(lia)) as (md & ed & -> & Hd & Hu). cbv zeta.
  pose proof (regular_finite 53 1024 _ _ _ Hm) as (He' & _ & _).
  pose proof (regular_finite 53 1024 _ _ _ Hd) as (Hed & _ & _).
  change (emin 53 1024) with (-1074) in *.
  assert (Hedk : ed <= k).
  { simpl in Hu. change (emin 53 1024) with (-1074) in Hu. apply Z.nlt_ge. intros Hlt.
    assert (2 ^ (k + 1074) < 2 ^ (ed - -1074)) by (apply Z.pow_lt_mono_r; lia). nia. }
  unfold SFsub. set (ez := Z.min e ed).
  destruct (shl_align_value m e ez) as (n1 & _ & _ & En1 & Ev1).
  destruct (shl_align_value md ed ez) as (n2 & _ & _ & En2 & Ev2).
  assert (Ez : Z.pos (fst (shl_align m e ez)) - Z.pos (fst (shl_align md ed ez)) = m' * 2 ^ (k - ez)).
  { rewrite Ev1, Ev2. replace n1 with (e - ez) by lia. replace n2 with (ed - ez) by lia.
    assert (E2 : Z.pos md * 2 ^ (ed - ez) = 2 ^ (k - ez)).
    { simpl in Hu. change (emin 53 1024) with (-1074) in Hu.
      assert (Hp : 0 < 2 ^ (ez + 1074)) by (apply Z.pow_pos_nonneg; lia).
      apply (Z.mul_cancel_r _ _ (2 ^ (ez + 1074))); [lia|].
      rewrite <- Z.mul_assoc, <- !Z.pow_add_r by lia. replace (ed - ez + (ez + 1074)) with (ed - -1074) by lia.
      rewrite Hu. f_equal. lia. }
    rewrite E2, <- Em. replace (e - ez) with (e - k + (k - ez)) by lia. rewrite Z.pow_add_r by lia. lia. }
  cbn [cond_Zopp]. change (if false then ?a else ?b) with b.
  assert (Hn : binary_normalize 53 1024 (m' * 2 ^ (k - ez)) ez false
               = match m' with Z.pos p => S754_finite false p k | _ => S754_zero false end).
  { destruct m' as [|p|p]; [by rewrite Z.mul_0_l| |lia].
    assert (Hp : 0 < 2 ^ (k - ez)) by (apply Z.pow_pos_nonneg; lia).
    destruct (Z.pos p * 2 ^ (k - ez)) as [|q|q] eqn:Eq; [lia| |lia]. simpl.
    apply (binary_round_regular 53 1024); [|lia|lia].
    apply finite_regular; change (emin 53 1024) with (-1074); change (53 - 1) with 52; lia. }
  cbv zeta. unfold ez in *. rewrite Ez, Hn. destruct m' as [|p|p]; [done| |lia]. split.
  - apply finite_regular; change (emin 53 1024) with (-1074); change (53 - 1) with 52; lia.
  - simpl. change (emin 53 1024) with (-1074). do 2 f_equal; lia.
Qed.

Lemma frexp_exponent m e : regular64 (S754_finite false m e) = true ->
  snd (SFfrexp 53 1024 (S754_finite false m e)) = bits (Z.pos m) + e.
Proof.
  intros (_ & Hm & _)%regular_finite. pose proof (bits_le 53 (Z.pos m) ltac:(lia)) as Hb.
  unfold SFfrexp. rewrite digits2_log2. fold (bits (Z.pos m)).
  destruct (Z.leb_spec 53 (bits (Z.pos m))); simpl snd; lia.
Qed.

Lemma pred_below x : regular64 x = true -> 0 < units64 x ->
  regular64 (SFpred 53 1024 x) = true /\ 0 <= units64 (SFpred 53 1024 x) < units64 x.
Proof.
  intros Hx Hu. destruct x as [| | |[] m e]; try done; [simpl in Hu; lia|].
  pose proof (regular_digits 53 1024 _ _ _ Hx) as [Hf He].
  pose proof (regular_finite 53 1024 _ _ _ Hx) as (He' & Hm & Hlow). change (emin 53 1024) with (-1074) in *.
  assert (Ho : forall y, SFopp (SFopp y) = y) by (by intros [[]|[]| |[] ? ?]).
  change (SFpred 53 1024 (S754_finite false m e)) with (SFopp (SFopp (SFpred_pos 53 1024 (S754_finite false m e)))).
  rewrite Ho. unfold SFpred_pos.
  assert (Hi : Pos.iter xO xH (Z.to_pos 53) = 9007199254740992%positive) by reflexivity. rewrite Hi.
  assert (Hstep : exists k m', (if (m~0 =? 9007199254740992)%positive
              then SFldexp 53 1024 (SFone 53 1024) (fexp 53 1024 (snd (SFfrexp 53 1024 (S754_finite false m e)) - 1))
              else SFulp 53 1024 (S754_finite false m e)) = SFldexp 53 1024 (SFone 53 1024) k
            /\ -1074 <= k <= e /\ 0 <= m' /\ Z.pos m * 2 ^ (e - k) - 1 = m' /\ (k = -1074 \/ 2 ^ 52 <= m') /\ m' < 2 ^ 53).
  { unfold SFulp. rewrite !frexp_exponent, Hf by done.
    destruct (Pos.eqb_spec (m~0) 9007199254740992) as [E|E].
    - assert (Em : Z.pos m = 2 ^ 52) by (by injection E as ->).
      rewrite Em in *. change (bits (2 ^ 52)) with 53 in *. exists (fexp 53 1024 (53 + e - 1)).
      unfold fexp, emin in *. destruct (decide (e = -1074)) as [->|Hne].
      + exists (2 ^ 52 - 1). split; [done|]. change (Z.max (53 + -1074 - 1 - 53) (3 - 1024 - 53)) with (-1074).  change (-1074 - -1074) with 0. split; [lia|]. split; [lia|]. split; [reflexivity|]. split; [by left|reflexivity].
      + replace (Z.max (53 + e - 1 - 53) (3 - 1024 - 53)) with (e - 1) by lia. exists (2 * 2 ^ 52 - 1).
        split; [done|]. replace (e - (e - 1)) with 1 by lia. lia.
    - exists e, (Z.pos m - 1). rewrite Z.sub_diag, Z.mul_1_r. split_and!; try done; try lia. }
  destruct Hstep as (k & m' & Ed & Hk & Hm' & Em & Hl & Hh). cbv zeta. rewrite Ed.
  destruct (sub_power m e k m' Hx Hk Hm' Em Hl Hh) as [Hr Hv]. split; [exact Hr|]. rewrite Hv. simpl units.
  change (emin 53 1024) with (-1074).
  replace (e - -1074) with (e - k + (k + 1074)) by lia. rewrite (Z.pow_add_r 2 (e - k)), Z.mul_assoc by lia.
  assert (0 < 2 ^ (k + 1074)) by (apply Z.pow_pos_nonneg; lia).
  split; [apply Z.mul_nonneg_nonneg; lia|]. apply Z.mul_lt_mono_pos_r; lia.
Qed.
