(* ===== verification/RandomSpec.v ===== *)
(** * What the random generator draws

    The linear congruential generator has the full period [2 ^ 48]: from any
    state it visits every state.  The rejection loops of [next] therefore
    accept within one period, so a drawing always returns, and the values, the
    permutations and the texts it returns are those asked for. *)

From stdpp Require Import sorting.
From Stdlib Require Import SpecFloat.
From S2P Require Import Prelude Text Doubles Pattern PatternSpec Random RoundSpec.

(** ** Certain and safe drawings *)

(** [m] returns from every state, and its value satisfies [P]. *)
Definition sure {A} (m : draw A) (P : A -> Prop) : Prop :=
  forall version seed, exists a seed', m version seed = Drawn a seed' /\ P a.

(** [m] never fails; if it returns, its value satisfies [P]. *)
Definition safe {A} (m : draw A) (P : A -> Prop) : Prop :=
  forall version seed, match m version seed with
                       | Drawn a _ => P a
                       | DrawFail _ => False
                       | DrawUndef => True
                       end.

(** [m] fails from every state; or its value is undefined. *)
Definition fails {A} (m : draw A) : Prop := forall version seed, exists message, m version seed = DrawFail message.
Definition undefined {A} (m : draw A) : Prop := forall version seed, m version seed = DrawUndef.

Section Drawings.
Context {A B : Type}.
Implicit Types (m : draw A) (P : A -> Prop) (Q : B -> Prop).

Lemma sure_ret P a : P a -> sure (dret a) P.
Proof. intros H version seed. by exists a, seed. Qed.

Lemma sure_bind m (k : A -> draw B) P Q :
  sure m P -> (forall a, P a -> sure (k a) Q) -> sure (dbind m k) Q.
Proof.
  intros Hm Hk version seed. destruct (Hm version seed) as (a & seed' & E & Ha).
  unfold dbind. rewrite E. by apply Hk.
Qed.

Lemma sure_weaken m P (P' : A -> Prop) : sure m P -> (forall a, P a -> P' a) -> sure m P'.
Proof.
  intros Hm HP version seed. destruct (Hm version seed) as (a & seed' & E & Ha). eauto.
Qed.

Lemma sure_safe m P : sure m P -> safe m P.
Proof. intros Hm version seed. destruct (Hm version seed) as (a & seed' & E & Ha). by rewrite E. Qed.

Lemma safe_ret P a : P a -> safe (dret a) P.
Proof. by intros H version seed. Qed.

Lemma safe_undef P : safe dundef P.
Proof. by intros version seed. Qed.

Lemma safe_bind m (k : A -> draw B) P Q :
  safe m P -> (forall a, P a -> safe (k a) Q) -> safe (dbind m k) Q.
Proof.
  intros Hm Hk version seed. specialize (Hm version seed). unfold dbind.
  destruct (m version seed) as [a seed'|message|]; [by apply Hk|done|done].
Qed.
End Drawings.

#[export] Hint Resolve sure_ret safe_ret safe_undef sure_safe : judge.

(** ** The period of the generator *)

Definition affine (x : Z) : Z := x * multiplier + addend.

Lemma iter_add {A} (f : A -> A) n m x : Nat.iter (n + m) f x = Nat.iter n f (Nat.iter m f x).
Proof. induction n as [|n IH]; [done|]. simpl. by rewrite IH. Qed.

(** [2 ^ k] steps multiply by [1] modulo [2 ^ (k + 2)] and add an odd multiple
    of [2 ^ k]. *)
Lemma affine_power (k : nat) : exists u w, forall x,
  Nat.iter (2 ^ k) affine x
  = x * (1 + 2 ^ (Z.of_nat k + 2) * u) + 2 ^ Z.of_nat k * (2 * w + 1).
Proof.
  induction k as [|k (u & w & IH)].
  - exists 6303725979, 5. intros x. simpl. unfold affine, multiplier, addend. lia.
  - set (e := 2 ^ Z.of_nat k) in *.
    assert (E2 : 2 ^ (Z.of_nat k + 2) = 4 * e) by (unfold e; rewrite Z.pow_add_r; lia).
    assert (E1 : 2 ^ Z.of_nat (S k) = 2 * e)
      by (unfold e; rewrite Nat2Z.inj_succ, Z.pow_succ_r; lia).
    assert (E3 : 2 ^ (Z.of_nat (S k) + 2) = 8 * e) by (rewrite Z.pow_add_r, E1; lia).
    rewrite E1, E3. rewrite E2 in IH.
    exists (u + 2 * e * u * u), (w + 2 * e * u * w + e * u). intros x.
    replace (2 ^ S k)%nat with (2 ^ k + 2 ^ k)%nat by (simpl; lia).
    rewrite iter_add, !IH. ring.
Qed.

(** Every residue modulo [2 ^ k] is met within [2 ^ k] steps. *)
Lemma affine_visits (k : nat) x y : exists n : nat,
  Z.of_nat n < 2 ^ Z.of_nat k /\ (2 ^ Z.of_nat k | Nat.iter n affine x - y).
Proof.
  induction k as [|k (n & Hn & q & Hq)].
  { exists 0%nat. split; [done|]. apply Z.divide_1_l. }
  destruct (affine_power k) as (u & w & Hp).
  assert (Ek : 2 ^ Z.of_nat (S k) = 2 * 2 ^ Z.of_nat k)
    by (rewrite Nat2Z.inj_succ, Z.pow_succ_r; lia).
  assert (E2 : 2 ^ (Z.of_nat k + 2) = 4 * 2 ^ Z.of_nat k) by (rewrite Z.pow_add_r; lia).
  assert (Et : Z.of_nat (2 ^ k) = 2 ^ Z.of_nat k) by (rewrite Nat2Z.inj_pow; done).
  rewrite Ek. destruct (Z.Even_or_Odd q) as [[r ->]|[r ->]].
  - exists n. split; [lia|]. exists r. lia.
  - exists (2 ^ k + n)%nat. split; [lia|]. rewrite iter_add, Hp, E2.
    set (z := Nat.iter n affine x) in *. set (e := 2 ^ Z.of_nat k) in *.
    exists (r + 1 + 2 * u * z + w).
    replace (z * (1 + 4 * e * u) + e * (2 * w + 1) - y)
      with ((z - y) + (4 * e * u * z + e * (2 * w + 1))) by ring.
    rewrite Hq. ring.
Qed.

Lemma next_seed_mod s : next_seed s = affine s mod 2 ^ 48.
Proof.
  unfold next_seed, mask, uwrap. change (2 ^ 48 - 1) with (Z.ones 48).
  rewrite Z.land_ones by done.
  rewrite (Znumtheory.Zmod_div_mod (2 ^ 48) (2 ^ 64) (affine s)); [done|done|done|by exists (2 ^ 16)].
Qed.

Lemma next_seed_range s : 0 <= next_seed s < 2 ^ 48.
Proof. rewrite next_seed_mod. apply Z.mod_pos_bound. done. Qed.

Lemma affine_mod x m : m <> 0 -> affine (x mod m) mod m = affine x mod m.
Proof. intros Hm. unfold affine.
  by rewrite <- (Z.add_mod_idemp_l (x * _)), <- Z.mul_mod_idemp_l, Z.add_mod_idemp_l by done. Qed.

Lemma iter_next_seed n s : Nat.iter n next_seed s mod 2 ^ 48 = Nat.iter n affine s mod 2 ^ 48.
Proof.
  induction n as [|n IH]; [done|]. simpl. rewrite next_seed_mod, Z.mod_mod by done.
  by rewrite <- affine_mod, IH, affine_mod by done.
Qed.

Lemma iter_next_range n s : 0 <= s < 2 ^ 48 -> 0 <= Nat.iter n next_seed s < 2 ^ 48.
Proof. destruct n; [done|]. intros _. apply next_seed_range. Qed.

Lemma full_period s y : 0 <= s < 2 ^ 48 -> 0 <= y < 2 ^ 48 ->
  exists n : nat, Z.of_nat n < 2 ^ 48 /\ Nat.iter n next_seed s = y.
Proof.
  intros Hs Hy. destruct (affine_visits 48 s y) as (n & Hn & q & Hq).
  change (2 ^ Z.of_nat 48) with (2 ^ 48) in *. exists n. split; [done|].
  rewrite <- (Z.mod_small (Nat.iter n next_seed s) (2 ^ 48)) by by apply iter_next_range.
  rewrite iter_next_seed. replace (Nat.iter n affine s) with (y + q * 2 ^ 48) by lia.
  rewrite Z.mod_add by done. by apply Z.mod_small.
Qed.

(** Each step flips the parity of the state. *)
Lemma odd_affine x : Z.odd (affine x) = negb (Z.odd x).
Proof. unfold affine, multiplier, addend. rewrite Z.odd_add, Z.odd_mul.
  by destruct (Z.odd x).
Qed.

Lemma odd_next_seed s : Z.odd (next_seed s) = negb (Z.odd s).
Proof.
  rewrite next_seed_mod, <- odd_affine.
  rewrite (Z.div_mod (affine s) (2 ^ 48)) at 2 by done.
  rewrite Z.odd_add, Z.odd_mul. change (Z.odd (2 ^ 48)) with false. by rewrite andb_false_l, xorb_false_l.
Qed.

Lemma odd_iter n s : Z.odd (Nat.iter n next_seed s) = xorb (Nat.odd n) (Z.odd s).
Proof.
  induction n as [|n IH]; [simpl; by destruct (Z.odd s)|].
  change (Nat.iter (S n) next_seed s) with (next_seed (Nat.iter n next_seed s)).
  rewrite odd_next_seed, IH, Nat.odd_succ, <- Nat.negb_odd.
  by destruct (Nat.odd n), (Z.odd s).
Qed.

(** ** Rejection *)

Section Until.
Context {A : Type} (body : draw (option A)) (version : Z).
Context (result : Z -> option A) (after : Z -> Z).
Context (Hbody : forall seed, body version seed = Drawn (result seed) (after seed)).

(** At most [n] drawings, up to the first accepted one. *)
Fixpoint tries (n : nat) (seed : Z) : option A * Z :=
  match n with
  | O => (None, seed)
  | S n => match result seed with
           | Some a => (Some a, after seed)
           | None => tries n (after seed)
           end
  end.

Lemma tries_add n m seed :
  tries (n + m) seed = match tries n seed with
                       | (Some a, s) => (Some a, s)
                       | (None, s) => tries m s
                       end.
Proof.
  revert seed. induction n as [|n IH]; intros seed; [done|]. simpl.
  by destruct (result seed).
Qed.

Lemma until_tries (fuel : positive) seed :
  until fuel body version seed
  = Drawn (fst (tries (Pos.to_nat fuel) seed)) (snd (tries (Pos.to_nat fuel) seed)).
Proof.
  revert seed. induction fuel as [p IH|p IH|]; intros seed.
  - rewrite Pos2Nat.inj_xI. replace (S (2 * Pos.to_nat p)) with (1 + (Pos.to_nat p + Pos.to_nat p))%nat
      by lia. rewrite tries_add. simpl. unfold dbind. rewrite Hbody.
    destruct (result seed) as [a|]; [done|]. rewrite IH, tries_add.
    by destruct (tries (Pos.to_nat p) (after seed)) as [[a|] s]; simpl.
  - rewrite Pos2Nat.inj_xO. replace (2 * Pos.to_nat p)%nat with (Pos.to_nat p + Pos.to_nat p)%nat
      by lia. rewrite tries_add. simpl. unfold dbind. rewrite IH.
    by destruct (tries (Pos.to_nat p) seed) as [[a|] s]; simpl.
  - simpl. rewrite Hbody. by destruct (result seed).
Qed.

Lemma tries_accepts (P : A -> Prop) n i seed :
  (forall s a, result s = Some a -> P a) -> (i < n)%nat ->
  is_Some (result (Nat.iter i after seed)) -> exists a, fst (tries n seed) = Some a /\ P a.
Proof.
  intros HP. revert i seed. induction n as [|n IH]; intros i seed Hi Hs; [lia|]. simpl.
  destruct (result seed) as [a|] eqn:E; [by eauto|].
  destruct i as [|i]; [exfalso; destruct Hs as [a Ha]; simpl in Ha; congruence|].
  apply (IH i); [lia|]. by rewrite <- Nat.iter_succ_r.
Qed.
End Until.

(** ** Integers *)

Lemma shiftr_range s k bits : 0 <= bits <= k -> 0 <= s < 2 ^ k ->
  0 <= Z.shiftr s (k - bits) < 2 ^ bits.
Proof.
  intros Hb Hs. rewrite Z.shiftr_div_pow2 by lia.
  assert (E : 2 ^ k = 2 ^ (k - bits) * 2 ^ bits) by (rewrite <- Z.pow_add_r by lia; f_equal; lia).
  split; [apply Z.div_pos; lia|]. apply Z.div_lt_upper_bound; lia.
Qed.

Lemma step_bits_sure bits : 0 <= bits <= 48 -> sure (step_bits bits) (fun x => 0 <= x < 2 ^ bits).
Proof.
  intros Hb version seed. eexists _, _. split; [reflexivity|].
  apply shiftr_range; [done|apply next_seed_range].
Qed.

Lemma lxor_bits x y k : 0 <= k -> 0 <= x < 2 ^ k -> 0 <= y < 2 ^ k -> 0 <= Z.lxor x y < 2 ^ k.
Proof.
  intros Hk Hx Hy.
  assert (Hm : forall z, 0 <= z < 2 ^ k -> Z.land z (Z.ones k) = z)
    by (intros; rewrite Z.land_ones by done; by apply Z.mod_small).
  assert (E : Z.lxor x y = Z.land (Z.lxor x y) (Z.ones k)).
  { rewrite <- (Hm x), <- (Hm y) by done. apply Z.bits_inj'. intros i Hi.
    rewrite !Z.land_spec, !Z.lxor_spec, !Z.land_spec.
    by destruct (Z.testbit x i), (Z.testbit y i), (Z.testbit (Z.ones k) i). }
  rewrite E, Z.land_ones by done. apply Z.mod_pos_bound. lia.
Qed.

(** The 63 bits of two drawings, for a state [s]. *)
Definition low_bits (version : Z) : Z := if version =? 0 then 31 else 32.
Definition bits63 (version s : Z) : Z :=
  Z.lxor (Z.shiftl (Z.shiftr (next_seed s) 17) 32)
         (Z.shiftr (next_seed (next_seed s)) (48 - low_bits version)).

Lemma nextBits63 version s : nextBits 63 version s = Drawn (bits63 version s) (next_seed (next_seed s)).
Proof. reflexivity. Qed.

(** With [high] below [2 ^ h] the 63 bits are below [2 ^ (h + 32)]. *)
Lemma bits63_below version s h : 0 <= h -> Z.shiftr (next_seed s) 17 < 2 ^ h ->
  0 <= bits63 version s < 2 ^ (h + 32).
Proof.
  intros Hh Hs. pose proof (next_seed_range s) as Hr.
  assert (0 <= Z.shiftr (next_seed s) 17) by (apply Z.shiftr_nonneg; lia).
  apply lxor_bits; [lia| |].
  - rewrite Z.shiftl_mul_pow2, Z.pow_add_r by lia. nia.
  - unfold low_bits. pose proof (next_seed_range (next_seed s)) as Hr'.
    assert (H32 : 2 ^ 32 <= 2 ^ (h + 32)) by (apply Z.pow_le_mono_r; lia).
    case_test.
    + pose proof (shiftr_range _ 48 31 ltac:(lia) Hr'). lia.
    + pose proof (shiftr_range _ 48 32 ltac:(lia) Hr'). lia.
Qed.

Lemma quot_limit max n : 0 < n <= max -> n <= Z.quot max n * n /\ max < 2 * (Z.quot max n * n)
  /\ Z.quot max n * n <= max.
Proof.
  intros Hn. rewrite Z.quot_div_nonneg by lia.
  pose proof (Z.div_mod max n ltac:(lia)). pose proof (Z.mod_pos_bound max n ltac:(lia)).
  assert (1 <= max / n) by (apply Z.div_le_lower_bound; lia). nia.
Qed.

(** The drawings of [draw_below], as a function of the state. *)
Lemma draw_below_sure count limit (bits : Z -> Z -> Z) after :
  (forall version s, nextBits count version s = Drawn (bits version s) (after s)) ->
  (forall version s, exists i : nat, (i < Pos.to_nat PERIOD)%nat
    /\ bits version (Nat.iter i after s) < limit) ->
  (forall version s, 0 <= bits version s) ->
  sure (draw_below count limit) (fun x => 0 <= x < limit).
Proof.
  intros Hbits Hhit Hpos version seed. unfold draw_below.
  set (result := fun s => if limit <=? bits version s then None else Some (bits version s)).
  unfold dbind at 1. rewrite (until_tries _ version result after)
    by (intros s; unfold dbind; by rewrite Hbits).
  destruct (Hhit version seed) as (i & Hi & Hlt).
  destruct (tries_accepts result after (fun x => 0 <= x < limit)
    (Pos.to_nat PERIOD) i seed) as (a & -> & Ha).
  - intros s a. unfold result. specialize (Hpos version s). case_test; [done|]. intros; simplify_eq; lia.
  - done.
  - unfold result. case_test; [lia|]. by eexists.
  - by eexists _, _.
Qed.

Lemma period_lt (n : nat) : Z.of_nat n < 2 ^ 48 -> (n < Pos.to_nat PERIOD)%nat.
Proof. intros H. apply Nat2Z.inj_lt. by rewrite positive_nat_Z. Qed.

Lemma next_int_sure n : 0 < n <= INT_MAX -> sure (next_int n) (fun x => 0 <= x < n).
Proof.
  intros Hn. unfold next_int. destruct (Z.leb_spec n 0); [lia|]. destruct (Z.land n (- n) =? n).
  - apply (sure_bind _ _ (fun bits => 0 <= bits < 2 ^ 31)); [by apply step_bits_sure|].
    intros bits Hb. apply sure_ret. rewrite Z.shiftr_div_pow2 by done.
    split; [apply Z.div_pos; lia|]. apply Z.div_lt_upper_bound; [done|]. nia.
  - destruct (quot_limit INT_MAX n Hn) as (Hl & _ & _).
    apply (sure_bind _ _ (fun bits => 0 <= bits < Z.quot INT_MAX n * n)).
    + apply (draw_below_sure 31 _ (fun _ s => Z.shiftr (next_seed s) 17) next_seed); [done| |].
      * intros _ s. destruct (full_period (next_seed s) 0) as (i & Hi & E); [apply next_seed_range|done|].
        exists i. split; [by apply period_lt|].
        rewrite <- Nat.iter_succ, Nat.iter_succ_r, E. change (Z.shiftr 0 17) with 0. lia.
      * intros _ s. apply Z.shiftr_nonneg, next_seed_range.
    + intros bits Hb. apply sure_ret. rewrite Z.rem_mod_nonneg by lia. apply Z.mod_pos_bound. lia.
Qed.

(** Two steps a drawing: the state whose first half is below [2] is reached
    after an even number of steps. *)
Lemma even_period s : exists i : nat,
  Z.of_nat i < 2 ^ 48 /\ 0 <= Nat.iter (i + i) next_seed (next_seed s) < 2.
Proof.
  set (y := Z.b2z (Z.odd (next_seed s))).
  assert (Hy : 0 <= y < 2) by (unfold y; destruct (Z.odd (next_seed s)); simpl; lia).
  destruct (full_period (next_seed s) y) as (n & Hn & E); [apply next_seed_range|lia|].
  assert (Ho : Nat.odd n = false).
  { pose proof (odd_iter n (next_seed s)) as H. rewrite E in H. unfold y in H.
    destruct (Nat.odd n); destruct (Z.odd (next_seed s)); simpl in H; congruence. }
  rewrite <- Nat.negb_even in Ho. apply negb_false_iff, Nat.even_spec in Ho as [i ->].
  exists i. split; [lia|]. replace (i + i)%nat with (2 * i)%nat by lia. by rewrite E.
Qed.

Lemma iter_twice (f : Z -> Z) n s : Nat.iter n (fun x => f (f x)) s = Nat.iter (n + n) f s.
Proof.
  induction n as [|n IH]; [done|]. replace (S n + S n)%nat with (S (S (n + n))) by lia.
  simpl. by rewrite IH.
Qed.

Lemma next_ll_sure n : 0 < n <= LLONG_MAX -> sure (next_ll n) (fun x => 0 <= x < n).
Proof.
  intros Hn. unfold next_ll. case_test; [lia|].
  destruct (quot_limit LLONG_MAX n Hn) as (_ & Hl & _).
  apply (sure_bind _ _ (fun bits => 0 <= bits < Z.quot LLONG_MAX n * n)).
  - apply (draw_below_sure 63 _ bits63 (fun s => next_seed (next_seed s))); [done| |].
    + intros version s. destruct (even_period s) as (i & Hi & E). exists i.
      split; [by apply period_lt|]. rewrite iter_twice.
      rewrite <- Nat.iter_succ_r, Nat.iter_succ in E.
      assert (Hb : Z.shiftr (next_seed (Nat.iter (i + i) next_seed s)) 17 < 2 ^ 0).
      { rewrite Z.shiftr_div_pow2 by done. apply Z.div_lt_upper_bound; lia. }
      pose proof (bits63_below version _ 0 ltac:(done) Hb). unfold LLONG_MAX in *. lia.
    + intros version s. apply (bits63_below _ _ 31); [done|].
      apply (shiftr_range _ 48 31); [done|apply next_seed_range].
  - intros bits Hb. apply sure_ret. rewrite Z.rem_mod_nonneg by lia. apply Z.mod_pos_bound. lia.
Qed.

Lemma next_int_range_sure from to : INT_MIN <= from -> from <= to -> to <= INT_MAX ->
  sure (next_int_range from to) (fun x => from <= x <= to).
Proof.
  intros Hf Hft Ht. unfold next_int_range.
  apply (sure_bind _ _ (fun r => 0 <= r < to - from + 1)).
  - apply next_ll_sure. unfold INT_MIN, INT_MAX, LLONG_MAX in *. lia.
  - intros r Hr. apply sure_ret. lia.
Qed.

Lemma next_ll_range_sure from to : from <= to -> to - from < LLONG_MAX ->
  sure (next_ll_range from to) (fun x => from <= x <= to).
Proof.
  intros Hft Ht. unfold next_ll_range, in_ll.
  rewrite !(proj2 (Z.leb_le _ _)) by (unfold LLONG_MIN, LLONG_MAX in *; lia). simpl.
  apply (sure_bind _ _ (fun r => 0 <= r < to - from + 1)); [by apply next_ll_sure; lia|].
  intros r Hr. apply sure_ret. lia.
Qed.

(** *** Failures, and the unsigned overloads *)

Lemma dfail_fails {A} message : fails (@dfail A message).
Proof. intros version seed. by exists message. Qed.

Lemma dbind_fails {A B} (m : draw A) (k : A -> draw B) : fails m -> fails (dbind m k).
Proof. intros Hm version seed. destruct (Hm version seed) as [message E]. exists message. unfold dbind. by rewrite E. Qed.

Lemma next_int_fails n : n <= 0 -> fails (next_int n).
Proof. intros Hn. unfold next_int. destruct (Z.leb_spec n 0); [apply dfail_fails|lia]. Qed.

Lemma next_ll_fails n : n <= 0 -> fails (next_ll n).
Proof. intros Hn. unfold next_ll. destruct (Z.leb_spec n 0); [apply dfail_fails|lia]. Qed.

Lemma next_uint_sure n : 0 < n < INT_MAX -> sure (next_uint n) (fun x => 0 <= x < n).
Proof. intros Hn. unfold next_uint. case_test; [lia|]. apply next_int_sure. lia. Qed.

Lemma next_uint_fails n : n <= 0 \/ INT_MAX <= n -> fails (next_uint n).
Proof. intros Hn. unfold next_uint. case_test; [apply dfail_fails|]. apply next_int_fails. lia. Qed.

Lemma next_ull_sure n : 0 < n < LLONG_MAX -> sure (next_ull n) (fun x => 0 <= x < n).
Proof. intros Hn. unfold next_ull. case_test; [lia|]. apply next_ll_sure. lia. Qed.

Lemma next_ull_fails n : n <= 0 \/ LLONG_MAX <= n -> fails (next_ull n).
Proof. intros Hn. unfold next_ull. case_test; [apply dfail_fails|]. apply next_ll_fails. lia. Qed.

Lemma next_ulong_sure n : 0 < n < LLONG_MAX -> sure (next_ulong n) (fun x => 0 <= x < n).
Proof. intros Hn. unfold next_ulong. case_test; [lia|]. by apply next_ull_sure. Qed.

Lemma next_ulong_fails n : n <= 0 \/ LLONG_MAX <= n -> fails (next_ulong n).
Proof. intros Hn. unfold next_ulong. case_test; [apply dfail_fails|]. by apply next_ull_fails. Qed.

(** Ranges of [unsigned int]: their values fit [long long]. *)
Lemma next_wide_range_sure from to : from <= to -> to - from < LLONG_MAX ->
  sure (next_int_range from to) (fun x => from <= x <= to).
Proof.
  intros Hft Ht. unfold next_int_range. apply (sure_bind _ _ (fun r => 0 <= r < to - from + 1)).
  - apply next_ll_sure. lia.
  - intros r Hr. apply sure_ret. lia.
Qed.

Lemma next_int_range_fails from to : to < from -> fails (next_int_range from to).
Proof. intros H. apply dbind_fails, next_ll_fails. lia. Qed.

(** [to - from + 1] is not positive, or overflows. *)
Lemma next_ll_range_fails from to : to < from -> LLONG_MIN <= to - from -> fails (next_ll_range from to).
Proof.
  intros H Hl. unfold next_ll_range, in_ll.
  rewrite !(proj2 (Z.leb_le _ _)) by (unfold LLONG_MIN, LLONG_MAX in *; lia). simpl.
  apply dbind_fails, next_ll_fails. lia.
Qed.

Lemma next_ll_range_undefined from to : to - from < LLONG_MIN \/ LLONG_MAX <= to - from ->
  undefined (next_ll_range from to).
Proof.
  intros H version seed. unfold next_ll_range, in_ll.
  destruct (Z.leb_spec LLONG_MIN (to - from)), (Z.leb_spec (to - from) LLONG_MAX),
    (Z.leb_spec LLONG_MIN (to - from + 1)), (Z.leb_spec (to - from + 1) LLONG_MAX); simpl; done || lia.
Qed.

(** The ranges of 64-bit unsigned integers, over either generator of one. *)
Definition unsigned_range (next : Z -> draw Z) (from to : Z) : draw Z :=
  draw* r := next (uwrap 64 (to - from + 1)) in dret (uwrap 64 (r + from)).

Lemma unsigned_range_sure next from to :
  (forall n, 0 < n < LLONG_MAX -> sure (next n) (fun x => 0 <= x < n)) ->
  0 <= from <= to -> to < 2 ^ 64 -> to - from + 1 < LLONG_MAX ->
  sure (unsigned_range next from to) (fun x => from <= x <= to).
Proof.
  intros Hnext Hf Ht Hr. unfold unsigned_range. unfold LLONG_MAX in *.
  rewrite (uwrap_small 64) by lia.
  apply (sure_bind _ _ (fun r => 0 <= r < to - from + 1)); [apply Hnext; lia|].
  intros r Hb. apply sure_ret. rewrite uwrap_small by lia. lia.
Qed.

Lemma unsigned_range_fails next from to :
  (forall n, n <= 0 \/ LLONG_MAX <= n -> fails (next n)) ->
  0 <= from <= to -> to < 2 ^ 64 -> LLONG_MAX <= to - from + 1 -> fails (unsigned_range next from to).
Proof.
  intros Hnext Hf Ht Hr. apply dbind_fails, Hnext. destruct (Z.eq_dec (to - from + 1) (2 ^ 64)) as [->|Hne].
  - by left.
  - right. by rewrite uwrap_small by lia.
Qed.

(** What a range of [unsigned long long], or of [unsigned long], gives. *)
Definition unsigned_range_spec (next_range : Z -> Z -> draw Z) (from to : Z) : Prop :=
  (from <= to -> to - from + 1 < LLONG_MAX -> sure (next_range from to) (fun x => from <= x <= to))
  /\ (to < from \/ LLONG_MAX <= to - from + 1 -> fails (next_range from to)).

Lemma next_ull_range_spec from to : 0 <= from < 2 ^ 64 -> 0 <= to < 2 ^ 64 ->
  unsigned_range_spec next_ull_range from to.
Proof.
  intros Hf Ht. split.
  - intros Hle Hr. unfold next_ull_range. case_test; [lia|].
    apply unsigned_range_sure; [apply next_ull_sure|lia..].
  - intros Hr. unfold next_ull_range. case_test; [apply dfail_fails|].
    apply unsigned_range_fails; [apply next_ull_fails|lia..].
Qed.

Lemma next_ulong_range_spec from to : 0 <= from < 2 ^ 64 -> 0 <= to < 2 ^ 64 ->
  unsigned_range_spec next_ulong_range from to.
Proof.
  intros Hf Ht. split.
  - intros Hle Hr. unfold next_ulong_range. case_test; [lia|].
    apply unsigned_range_sure; [apply next_ulong_sure|lia..].
  - intros Hr. unfold next_ulong_range. case_test; [apply dfail_fails|].
    apply unsigned_range_fails; [apply next_ulong_fails|lia..].
Qed.

(** ** Doubles *)

(** A positive double, infinity among them. *)
Definition positive_double (b : double) : Prop :=
  valid_binary 53 1024 b = true /\ dlt dzero b = true.

Lemma dlt_dle a b : dlt a b = true -> dle a b = true.
Proof. unfold dlt, dle, SFltb, SFleb. by destruct (SFcompare a b) as [[]|]. Qed.

Lemma pred_double b : positive_double b ->
  dle dzero (SFpred 53 1024 b) = true /\ dlt (SFpred 53 1024 b) b = true.
Proof.
  intros [Hv Hp]. destruct b as [[]|[]| |s m e]; try done.
  assert (Hr : regular 53 1024 (S754_finite s m e) = true) by exact Hv.
  assert (Hu : 0 < units 53 1024 (S754_finite s m e))
    by (unfold dlt in Hp; rewrite (ltb_units 53 1024) in Hp by done; by apply Z.ltb_lt in Hp).
  destruct (pred_below _ Hr Hu) as [Hrp Hup]. unfold dle, dlt.
  rewrite (leb_units 53 1024), (ltb_units 53 1024) by done. split; [apply Z.leb_le|apply Z.ltb_lt]; apply Hup.
Qed.

(** [__testlib_crop] to [[0, b)]. *)
Lemma crop_below v b : positive_double b ->
  dle dzero (crop v dzero b) = true /\ dlt (crop v dzero b) b = true.
Proof.
  intros Hb. pose proof (pred_double b Hb) as Hpred. destruct Hb as [_ Hb]. unfold crop.
  assert (Hx : dle dzero (dmax v dzero) = true).
  { unfold dmax. destruct (dlt dzero v) eqn:E; [by apply dlt_dle|done]. }
  unfold dmin. destruct (dlt (dmax v dzero) b) eqn:E.
  - by destruct (dle b (dmax v dzero)).
  - destruct (dle b b) eqn:Er; [done|]. exfalso. clear - Hb Er.
    unfold dlt, dle, SFltb, SFleb in *. destruct b as [[]|[]| |[] m e]; simpl in *; try done;
      by rewrite ?Z.compare_refl, ?Pos.compare_refl in Er.
Qed.

Lemma next_double_sure : sure next_double (fun x => dle dzero x = true /\ dlt x done_ = true).
Proof.
  unfold next_double. eapply (sure_bind _ _ (fun _ => True)).
  { intros version seed. by eexists _, _. }
  intros high _. eapply (sure_bind _ _ (fun _ => True)).
  { intros version seed. by eexists _, _. }
  intros low _. apply sure_ret, crop_below. by split.
Qed.

Lemma next_double_n_sure n : positive_double n ->
  sure (next_double_n n) (fun x => dle dzero x = true /\ dlt x n = true).
Proof.
  intros Hn. unfold next_double_n. replace (dle n dzero) with false.
  - eapply sure_bind; [apply next_double_sure|]. intros x _. by apply sure_ret, crop_below.
  - destruct Hn as [_ Hn]. clear - Hn. by destruct n as [[]|[]| |[] m e].
Qed.

Lemma next_double_n_fails n : dle n dzero = true -> fails (next_double_n n).
Proof. intros Hn. unfold next_double_n. rewrite Hn. apply dfail_fails. Qed.

Lemma next_double_range_fails from to : dle to from = true -> fails (next_double_range from to).
Proof. intros Hn. unfold next_double_range. rewrite Hn. apply dfail_fails. Qed.

(** The end of a range of doubles can be drawn: the sum is rounded. *)
Lemma next_double_range_end : exists seed,
  next_double_range (double_of_Z (2 ^ 53)) (double_of_Z (2 ^ 53 + 2)) 1 (setSeed 7)
  = Drawn (double_of_Z (2 ^ 53 + 2)) seed.
Proof. vm_compute. by eexists. Qed.

(** ** Shuffling *)

Lemma swap_at_Permutation {A} (p : list A) i j : swap_at p i j ≡ₚ p.
Proof.
  unfold swap_at. destruct (p !! i) as [x|] eqn:Ei; [|done].
  destruct (p !! j) as [y|] eqn:Ej; [|done]. by apply Permutation_insert_swap.
Qed.

Lemma shuffle_loop_sure {A} n i (p : list A) : Z.of_nat (i + n) <= INT_MAX ->
  sure (shuffle_loop n i p) (fun q => q ≡ₚ p).
Proof.
  revert i p. induction n as [|n IH]; intros i p Hn; simpl; [by apply sure_ret|].
  eapply sure_bind; [apply next_int_sure; lia|]. intros j _. simpl.
  eapply sure_weaken; [apply IH; lia|]. intros q ->. apply swap_at_Permutation.
Qed.

Lemma shuffle_sure {A} (p : list A) : zlen p <= INT_MAX -> sure (shuffle p) (fun q => q ≡ₚ p).
Proof. intros Hp. apply shuffle_loop_sure. unfold zlen, INT_MAX in *. lia. Qed.

Lemma perm_sure size first : 0 <= size <= INT_MAX ->
  sure (perm size first) (fun q => q ≡ₚ seqZ first size).
Proof.
  intros Hs. unfold perm. destruct (Z.ltb_spec size 0); [lia|].
  destruct (Z.eqb_spec size 0) as [->|]; [by apply sure_ret|].
  apply shuffle_sure. unfold zlen. rewrite length_seqZ. lia.
Qed.

(** ** Distinct numbers *)

Definition distinct_of (size from to : Z) (l : list Z) : Prop :=
  zlen l = size /\ NoDup l /\ Forall (fun x => from <= x <= to) l.

Lemma distinct_loop_safe fuel size from to result :
  from <= to -> to - from < LLONG_MAX -> distinct_of (zlen result) from to result ->
  zlen result <= size -> safe (distinct_loop fuel size from to result) (distinct_of size from to).
Proof.
  intros Hft Hll. revert result. induction fuel as [|fuel IH]; intros result (_ & Hnd & Hr) Hs; simpl.
  - case_test; [apply safe_undef|]. apply safe_ret. split; [lia|done].
  - case_test; [|apply safe_ret; split; [lia|done]].
    eapply safe_bind; [apply sure_safe, next_ll_range_sure; lia|]. intros x Hx.
    apply IH; destruct (bool_decide (x ∈ result)) eqn:E; [done| |lia|rewrite zlen_app, zlen_cons, zlen_nil; lia].
    apply bool_decide_eq_false in E. split; [done|]. split.
    + apply list.NoDup_app. split; [done|]. split; [|apply NoDup_singleton].
      intros z Hz ->%list_elem_of_singleton. done.
    + apply Forall_app. split; [done|]. by constructor.
Qed.

(** Neither an infinite loop nor a table of more than [10 ^ 9] numbers. *)
Definition tabulated (size n : Z) : bool :=
  negb (dlt (expected_draws n size) (double_of_Z n)) && (n <=? 1000000000).

Lemma take_distinct size from to p : 0 <= size <= to - from + 1 ->
  p ≡ₚ seqZ from (to - from + 1) -> distinct_of size from to (ztake size p).
Proof.
  intros Hs Hp. rewrite ztake_take by lia.
  assert (Hlen : length p = Z.to_nat (to - from + 1)) by (rewrite Hp; apply length_seqZ).
  split; [|split].
  - unfold zlen. rewrite length_take. lia.
  - apply (sublist_NoDup _ p); [rewrite Hp; apply NoDup_seqZ|apply sublist_take].
  - apply Forall_take. rewrite Hp. apply Forall_seqZ. lia.
Qed.

Section Distinct.
Context (fuel : nat) (size from to : Z).
Context (Hs : 0 <= size <= INT_MAX) (Hn : 0 < size -> size <= to - from + 1 <= LLONG_MAX).

Lemma distinct_branches : 0 < size ->
  distinct fuel size from to
  = if dlt (expected_draws (to - from + 1) size) (double_of_Z (to - from + 1))
    then distinct_loop fuel size from to []
    else if 1000000000 <? to - from + 1
    then dfail ($"random_t::distinct here expected to - from + 1 <= 1000000000")
    else draw* p := perm (to - from + 1) from in dret (ztake size p).
Proof.
  intros Hpos. specialize (Hn Hpos). unfold distinct, in_ll.
  destruct (Z.eqb_spec size 0); [lia|].
  destruct (Z.ltb_spec to from); [lia|]. destruct (Z.ltb_spec size 0); [lia|].
  rewrite !(proj2 (Z.leb_le _ _)) by (unfold LLONG_MIN, LLONG_MAX in *; lia). simpl.
  destruct (Z.ltb_spec (to - from + 1) size); [lia|done].
Qed.

Lemma distinct_sure : size = 0 \/ tabulated size (to - from + 1) = true ->
  sure (distinct fuel size from to) (distinct_of size from to).
Proof.
  intros Ht. destruct (decide (size = 0)) as [E|Hne].
  { unfold distinct. rewrite E. apply sure_ret. by repeat constructor. }
  destruct Ht as [Ht|(Hd%negb_true_iff & Hb%Z.leb_le)%andb_true_iff]; [done|].
  rewrite distinct_branches, Hd, (proj2 (Z.ltb_ge _ _)) by lia.
  eapply sure_bind; [apply perm_sure; unfold INT_MAX; lia|].
  intros p Hp. apply sure_ret, take_distinct; [lia|done].
Qed.

Lemma distinct_safe : to - from + 1 <= 1000000000 ->
  safe (distinct fuel size from to) (distinct_of size from to).
Proof.
  intros Hbig. destruct (decide (size = 0)) as [|Hne]; [by apply sure_safe, distinct_sure; left|].
  destruct (tabulated size (to - from + 1)) eqn:Ht; [by apply sure_safe, distinct_sure; right|].
  unfold tabulated in Ht. rewrite (proj2 (Z.leb_le _ _) Hbig), andb_true_r in Ht.
  apply negb_false_iff in Ht. rewrite distinct_branches, Ht by lia.
  apply distinct_loop_safe; [lia|lia| |rewrite zlen_nil; lia]. split; [done|]. split; constructor.
Qed.
End Distinct.

(** ** Partitions *)

Lemma sum_list_foldr l : sum_list l = foldr Z.add 0 l.
Proof.
  unfold sum_list. replace (foldr Z.add 0 l) with (0 + foldr Z.add 0 l) by lia.
  generalize 0 at 1 2 as acc. induction l as [|x l IH]; intros acc; simpl; [lia|]. rewrite IH. lia.
Qed.

Lemma gaps_spec l s end_ : StronglySorted Z.lt (s :: l) -> Forall (fun x => x <= end_) (s :: l) ->
  zlen (gaps (s :: l) end_) = zlen (s :: l) /\ Forall (fun g => 0 <= g) (gaps (s :: l) end_)
  /\ foldr Z.add 0 (gaps (s :: l) end_) = end_ - s - zlen l.
Proof.
  revert s. induction l as [|t l IH]; intros s Hs Hf.
  - split; [done|]. apply Forall_inv in Hf. change (zlen []) with 0. simpl. split; [|lia].
    constructor; [lia|done].
  - inversion Hs as [|? ? Ht Hlt]; subst. apply Forall_inv in Hlt.
    destruct (IH t Ht) as (Hlen & Hpos & Hsum); [by apply Forall_inv_tail in Hf|].
    change (gaps (s :: t :: l) end_) with (t - s - 1 :: gaps (t :: l) end_).
    rewrite !zlen_cons in *. split; [lia|]. split; [constructor; [lia|done]|].
    change (foldr Z.add 0 (t - s - 1 :: gaps (t :: l) end_))
      with (t - s - 1 + foldr Z.add 0 (gaps (t :: l) end_)). lia.
Qed.

Lemma sum_shift m l : foldr Z.add 0 ((fun g => g + m) <$> l) = foldr Z.add 0 l + m * zlen l.
Proof.
  induction l as [|g l IH]; [unfold zlen; simpl; lia|].
  rewrite zlen_cons, fmap_cons. simpl. lia.
Qed.

(** Sorting distinct numbers with the smallest one known. *)
Lemma sorted_from l s : NoDup (s :: l) -> Forall (fun x => s <= x) l ->
  exists k, merge_sort Z.le (s :: l) = s :: k /\ k ≡ₚ l /\ StronglySorted Z.lt (s :: k).
Proof.
  intros Hnd Hmin. pose proof (merge_sort_Permutation Z.le (s :: l)) as Hp.
  assert (Hs : StronglySorted Z.le (merge_sort Z.le (s :: l))) by apply (StronglySorted_merge_sort _).
  destruct (merge_sort Z.le (s :: l)) as [|t k]; [by apply Permutation_nil_cons in Hp|].
  assert (t = s) as ->.
  { assert (Ht : t ∈ s :: l) by (rewrite <- Hp; by left).
    assert (Hx : s ∈ t :: k) by (rewrite Hp; by left).
    inversion Hs as [|? ? _ Hle]; subst. rewrite Forall_forall in Hmin, Hle.
    apply list_elem_of_In in Ht, Hx. destruct Ht as [->|Ht]; [done|]. destruct Hx as [->|Hx]; [done|].
    specialize (Hmin _ Ht). specialize (Hle _ Hx). lia. }
  exists k. split; [done|]. split; [by apply Permutation_cons_inv in Hp|].
  rewrite <- Hp in Hnd. clear Hp Hmin.
  induction Hs as [|x k' Hs IH Hle]; constructor.
  - apply IH. by apply list.NoDup_cons in Hnd as [_ ?].
  - apply list.NoDup_cons in Hnd as [Hx _]. rewrite Forall_forall in *. intros z Hz.
    specialize (Hle _ Hz). assert (z <> x) by (intros ->; by apply Hx, list_elem_of_In). lia.
Qed.

(** [size] parts of at least [min_part] that add up to [sum]. *)
Definition partition_of (size sum min_part : Z) (parts : list Z) : Prop :=
  zlen parts = size /\ Forall (fun x => min_part <= x) parts /\ foldr Z.add 0 parts = sum.

Lemma partition_parts_ret size rest sum min_part d : 0 < size -> 0 <= rest ->
  sum = rest + min_part * size -> distinct_of (size - 1) 1 (rest + size - 1) d ->
  sure (partition_parts size rest sum min_part d) (partition_of size sum min_part).
Proof.
  intros Hs Hr -> (Hlen & Hnd & Hb). rewrite Forall_forall in Hb. unfold partition_parts.
  destruct (sorted_from d 0) as (k & -> & Hk & Hsort).
  { apply list.NoDup_cons. split; [|done]. intros H%list_elem_of_In%Hb. lia. }
  { apply Forall_forall. intros x Hx%Hb. lia. }
  assert (Hzk : zlen k = size - 1) by (unfold zlen in *; by rewrite Hk).
  destruct (gaps_spec k 0 (rest + size - 1) Hsort) as (Hl & Hpos & Hsum).
  { constructor; [lia|]. rewrite Hk. apply Forall_forall. intros x Hx%Hb. lia. }
  rewrite zlen_cons in Hl. set (result := _ <$> gaps (0 :: k) _).
  assert (Hsize : zlen result = size)
    by (unfold zlen, result; rewrite length_fmap; unfold zlen in *; lia).
  assert (Hadd : foldr Z.add 0 result = rest + min_part * size)
    by (unfold result; rewrite sum_shift, Hsum, Hl, Hzk; ring).
  assert (Hmin : Forall (fun x => min_part <= x) result)
    by (apply Forall_fmap; eapply Forall_impl; [|exact Hpos]; simpl; intros; lia).
  rewrite sum_list_foldr, Hadd, Hsize, !Z.eqb_refl. simpl.
  destruct (existsb _ _) eqn:E; [|apply sure_ret; by repeat split].
  apply existsb_exists in E as (x & Hx & Hlt%Z.ltb_lt).
  rewrite Forall_forall in Hmin. specialize (Hmin _ Hx). simpl in Hmin. lia.
Qed.

Section Partition.
Context (fuel : nat) (size sum min_part : Z).
Context (Hs : 0 < size <= INT_MAX) (Hsum : min_part * size <= sum).
Let rest := sum - min_part * size.
Context (Hbig : rest + size - 1 <= 1000000000).

Lemma partition_draws : 
  partition fuel size sum min_part
  = if in_ll (min_part * size) && (in_ll rest && in_ll (rest + size))
    then draw* d := distinct fuel (size - 1) 1 (rest + size - 1) in
         partition_parts size rest sum min_part d
    else dundef.
Proof.
  unfold partition, rest. destruct (Z.ltb_spec size 0); [lia|].
  destruct (Z.eqb_spec size 0); [lia|]. simpl.
  destruct (in_ll (min_part * size)); [|done]. simpl.
  destruct (Z.ltb_spec sum (min_part * size)); [lia|]. by destruct (in_ll _ && _).
Qed.

Lemma partition_safe :
  safe (partition fuel size sum min_part) (partition_of size sum min_part).
Proof.
  rewrite partition_draws. destruct (_ && _); [|apply safe_undef].
  eapply safe_bind.
  { apply distinct_safe; [lia| |lia]. unfold rest, INT_MAX, LLONG_MAX in *. lia. }
  intros d Hd. apply sure_safe, partition_parts_ret; [lia|unfold rest; lia..|done].
Qed.

Lemma partition_sure : in_ll (min_part * size) = true ->
  size = 1 \/ tabulated (size - 1) (rest + size - 1) = true ->
  sure (partition fuel size sum min_part) (partition_of size sum min_part).
Proof.
  intros Hm Ht. assert (Hr : in_ll rest && in_ll (rest + size) = true).
  { unfold in_ll, rest, LLONG_MIN, LLONG_MAX in *.
    by rewrite !(proj2 (Z.leb_le _ _)) by lia. }
  rewrite partition_draws, Hm, Hr. simpl. eapply sure_bind.
  - apply distinct_sure; [lia|unfold rest, INT_MAX, LLONG_MAX in *; lia|].
    replace (rest + size - 1 - 1 + 1) with (rest + size - 1) by lia.
    destruct Ht as [->|Ht]; [by left|by right].
  - intros d Hd. apply partition_parts_ret; [lia|unfold rest; lia..|done].
Qed.
End Partition.

(** ** Texts of a pattern *)

Lemma znth_in {A} (l : list A) i : 0 <= i < zlen l -> exists x, znth l i = Some x /\ x ∈ l.
Proof.
  intros Hi. unfold znth. rewrite (proj2 (Z.ltb_ge _ _)), (proj2 (Z.leb_gt _ _)) by lia. simpl.
  destruct (lookup_lt_is_Some_2 l (Z.to_nat i)) as [x Hx]; [unfold zlen in Hi; lia|].
  exists x. split; [done|]. by apply list_elem_of_lookup_2 in Hx.
Qed.

Lemma draw_chars_sure count chars : 0 < zlen chars <= INT_MAX ->
  sure (draw_chars count chars)
       (fun s => zlen s = Z.of_nat count /\ Forall (fun c => c ∈ chars) s).
Proof.
  intros Hc. induction count as [|count IH]; simpl; [by apply sure_ret|].
  eapply sure_bind; [by apply next_int_sure|]. intros i Hi. simpl in *.
  destruct (znth_in chars i Hi) as (c & -> & Hin).
  eapply sure_bind; [exact IH|]. intros s [Hs Hf]. apply sure_ret.
  rewrite zlen_cons. split; [lia|]. by constructor.
Qed.

(** Patterns without an unbounded repetition, whose choices are not empty. *)
Fixpoint generable (p : pattern) : bool :=
  let 'Pattern _ children chars from to := p in
  (to <? INT_MAX)
  && ((to <=? 0) || ((from <=? to) && (to - from <? INT_MAX) && (0 <? zlen chars)
                     && (zlen chars <=? INT_MAX)))
  && (zlen children <=? INT_MAX) && forallb generable children.

Lemma choose_sure {A B} (f : A -> draw B) (P : A -> Prop) (Q : B -> Prop) l i :
  Forall P l -> 0 <= i < zlen l -> (forall x, x ∈ l -> P x -> sure (f x) Q) ->
  sure (choose f dundef l (Z.to_nat i)) Q.
Proof.
  intros HP Hi Hf. assert (Hlt : (Z.to_nat i < length l)%nat) by (unfold zlen in Hi; lia).
  clear Hi. revert Hlt. generalize (Z.to_nat i) as n.
  induction HP as [|x l Hx HP IH]; intros [|n] Hn; simpl in *; [lia|lia|apply Hf; [by left|done]|].
  apply IH; [|lia]. intros y Hy. apply Hf. by right.
Qed.

Lemma repetition_sure chars from to :
  to <= 0 \/ (from <= to /\ to - from < INT_MAX /\ 0 < zlen chars <= INT_MAX) ->
  sure (if 0 <? to
        then if INT_MAX <? to - from + 1 then dundef
             else draw* k := next_int (to - from + 1) in draw_chars (Z.to_nat (k + from)) chars
        else dret []) (repeats chars from to).
Proof.
  intros H. destruct (Z.ltb_spec 0 to); [|apply sure_ret; by constructor].
  destruct H as [?|(Hft & Hb & Hc)]; [lia|].
  rewrite (proj2 (Z.ltb_ge _ _)) by lia.
  eapply sure_bind; [apply next_int_sure; lia|]. intros k Hk. simpl in *.
  eapply sure_weaken; [by apply draw_chars_sure|]. intros s [Hs Hf]. constructor; [done|lia|done].
Qed.

Lemma pattern_next_sure p : generable p = true -> sure (pattern_next p) (in_language p).
Proof.
  induction p as [s children chars from to IH] using pattern_ind'. simpl.
  intros (((Hto%Z.ltb_lt & Hrep)%andb_true_iff & Hch%Z.leb_le)%andb_true_iff & Hall)%andb_true_iff.
  rewrite (proj2 (Z.eqb_neq _ _)) by lia.
  eapply sure_bind.
  { apply repetition_sure. apply orb_true_iff in Hrep as [?%Z.leb_le|H]; [by left|right].
    rewrite !andb_true_iff, !Z.leb_le, !Z.ltb_lt in H. tauto. }
  intros head Hh. destruct children as [|child children]; [by apply sure_ret; constructor|].
  eapply sure_bind; [apply next_int_sure; rewrite zlen_cons in *; pose proof (zlen_nonneg children); lia|].
  intros i Hi. simpl in Hi. eapply sure_bind.
  - apply (choose_sure _ _ (fun t => exists c, c ∈ child :: children /\ in_language c t) _ _ IH Hi).
    intros c Hc Hs. eapply sure_weaken; [apply Hs|by eauto].
    rewrite forallb_forall in Hall. by apply Hall, list_elem_of_In.
  - intros tail (c & Hc & Hl). apply sure_ret. by econstructor.
Qed.

(** ** The claims *)

(** C33: every overload of [next] for integers returns, whatever the state of
    the generator (the rejection loops accept within one period of it), with a
    value of the range that was asked for: below [n], or from [from] to [to].
    It fails exactly when there is no such value, or when the range of an
    unsigned overload has [LLONG_MAX] values or more ([INT_MAX], for one bound
    of [unsigned]); a [long long] range is undefined when its size overflows.
    The bounds are those of the parameters' types, and [long] is [long long].
    [next()] returns a double in [[0, 1)], and [next(n)] one in [[0, n)] for
    every positive [n], infinity included; a range of doubles fails when it is
    empty, and nothing else is said of it, since rounding can take its values
    to its end ([next_double_range_end]). *)
Theorem next_in_range (n from to : Z) (x a b : double) :
  ((0 < n <= INT_MAX -> sure (next_int n) (fun x => 0 <= x < n)) /\ (n <= 0 -> fails (next_int n)))
  /\ ((0 < n <= LLONG_MAX -> sure (next_ll n) (fun x => 0 <= x < n)) /\ (n <= 0 -> fails (next_ll n)))
  /\ ((0 < n < INT_MAX -> sure (next_uint n) (fun x => 0 <= x < n))
      /\ (n = 0 \/ INT_MAX <= n -> fails (next_uint n)))
  /\ ((0 < n < LLONG_MAX -> sure (next_ull n) (fun x => 0 <= x < n))
      /\ (n = 0 \/ LLONG_MAX <= n -> fails (next_ull n)))
  /\ ((0 < n < LLONG_MAX -> sure (next_ulong n) (fun x => 0 <= x < n))
      /\ (n = 0 \/ LLONG_MAX <= n -> fails (next_ulong n)))
  /\ (INT_MIN <= from -> to < 2 ^ 32 ->
      (from <= to -> sure (next_int_range from to) (fun x => from <= x <= to))
      /\ (to < from -> fails (next_int_range from to)))
  /\ ((from <= to -> to - from < LLONG_MAX -> sure (next_ll_range from to) (fun x => from <= x <= to))
      /\ (to < from -> LLONG_MIN <= to - from -> fails (next_ll_range from to))
      /\ (to - from < LLONG_MIN \/ LLONG_MAX <= to - from -> undefined (next_ll_range from to)))
  /\ (0 <= from < 2 ^ 64 -> 0 <= to < 2 ^ 64 ->
      unsigned_range_spec next_ull_range from to /\ unsigned_range_spec next_ulong_range from to)
  /\ sure next_double (fun y => dle dzero y = true /\ dlt y done_ = true)
  /\ ((positive_double x -> sure (next_double_n x) (fun y => dle dzero y = true /\ dlt y x = true))
      /\ (dle x dzero = true -> fails (next_double_n x)))
  /\ (dle b a = true -> fails (next_double_range a b)).
Proof.
  refine (conj (conj _ _) (conj (conj _ _) (conj (conj _ _) (conj (conj _ _) (conj (conj _ _) (conj _ (conj _
    (conj _ (conj _ (conj (conj _ _) _)))))))))); try intros Hn.
  - by apply next_int_sure.
  - by apply next_int_fails.
  - by apply next_ll_sure.
  - by apply next_ll_fails.
  - by apply next_uint_sure.
  - apply next_uint_fails. lia.
  - by apply next_ull_sure.
  - apply next_ull_fails. lia.
  - by apply next_ulong_sure.
  - apply next_ulong_fails. lia.
  - intros Ht. split; [|apply next_int_range_fails]. intros Hft. apply next_wide_range_sure; [done|].
    unfold INT_MIN, LLONG_MAX in *. lia.
  - split; [apply next_ll_range_sure|]. split; [apply next_ll_range_fails|apply next_ll_range_undefined].
  - intros Ht. split; [by apply next_ull_range_spec|by apply next_ulong_range_spec].
  - apply next_double_sure.
  - by apply next_double_n_sure.
  - by apply next_double_n_fails.
  - by apply next_double_range_fails.
Qed.

(** A drawing from a range of each kind; the whole of [unsigned long long]
    cannot be asked for. *)
Lemma next_in_range_witness :
  (exists x seed, next_ll_range (-5) 1000000000000 1 (setSeed 7) = Drawn x seed /\ -5 <= x <= 1000000000000)
  /\ (exists x seed, next_ull_range 5 1000000000000 1 (setSeed 7) = Drawn x seed /\ 5 <= x <= 1000000000000)
  /\ (exists message, next_ull_range 0 (2 ^ 64 - 1) 1 (setSeed 7) = DrawFail message)
  /\ exists y seed, next_double_n (double_of_Z 10) 1 (setSeed 7) = Drawn y seed
     /\ dle dzero y = true /\ dlt y (double_of_Z 10) = true.
Proof.
  destruct (next_in_range 1 (-5) 1000000000000 (double_of_Z 10) dzero done_)
    as (_ & _ & _ & _ & _ & _ & [H1 _] & _ & _ & [H2 _] & _).
  destruct (next_in_range 1 5 1000000000000 dzero dzero done_) as (_ & _ & _ & _ & _ & _ & _ & H3 & _).
  destruct (next_in_range 1 0 (2 ^ 64 - 1) dzero dzero done_) as (_ & _ & _ & _ & _ & _ & _ & H4 & _).
  destruct H3 as [[H3 _] _]; [lia|lia|]. destruct H4 as [[_ H4] _]; [lia|lia|].
  split; [exact (H1 ltac:(lia) ltac:(unfold LLONG_MAX; lia) 1 (setSeed 7))|].
  split; [exact (H3 ltac:(lia) ltac:(unfold LLONG_MAX; lia) 1 (setSeed 7))|].
  split; [exact (H4 ltac:(right; unfold LLONG_MAX; lia) 1 (setSeed 7))|].
  exact (H2 (conj eq_refl eq_refl) 1 (setSeed 7)).
Defined.

(** [shuffle] and [perm] always return, and what they return is a
    permutation of the elements they were given. *)
Theorem shuffle_permutes (p : list Z) size first :
  zlen p <= INT_MAX -> 0 <= size <= INT_MAX ->
  sure (shuffle p) (fun q => q ≡ₚ p) /\ sure (perm size first) (fun q => q ≡ₚ seqZ first size).
Proof. intros Hp Hs. split; [by apply shuffle_sure|by apply perm_sure]. Qed.

Lemma shuffle_permutes_witness :
  exists q seed, perm 5 10 1 (setSeed 7) = Drawn q seed /\ q ≡ₚ [10; 11; 12; 13; 14].
Proof.
  destruct (shuffle_permutes [] 5 10) as [_ H]; [vm_compute; congruence|unfold INT_MAX; lia|].
  exact (H 1 (setSeed 7)).
Defined.

(** [partition] splits [sum] into [size] parts of at least [min_part]:
    the checks it makes of its own result never fire, for at most [10 ^ 9]
    separators; it always returns where the separators come from a shuffled
    table (elsewhere its loop ends with probability one only). *)
Theorem partition_correct fuel size sum min_part :
  0 < size <= INT_MAX -> min_part * size <= sum ->
  sum - min_part * size + size - 1 <= 1000000000 ->
  safe (partition fuel size sum min_part) (partition_of size sum min_part)
  /\ (in_ll (min_part * size) = true ->
      size = 1 \/ tabulated (size - 1) (sum - min_part * size + size - 1) = true ->
      sure (partition fuel size sum min_part) (partition_of size sum min_part)).
Proof. intros Hs Hsum Hbig. split; [by apply partition_safe|by apply partition_sure]. Qed.

Lemma partition_correct_witness :
  exists parts seed, partition 0 6 7 1 1 (setSeed 7) = Drawn parts seed
    /\ partition_of 6 7 1 parts.
Proof.
  destruct (partition_correct 0 6 7 1) as [_ H]; [unfold INT_MAX; lia|lia|lia|].
  exact (H eq_refl (or_intror eq_refl) 1 (setSeed 7)).
Defined.

(** C34: a text drawn from a pattern belongs to the language the pattern
    denotes, and the drawing always returns, for the patterns the generator
    accepts. *)
Theorem generated_in_language ptrn p :
  pattern_of ptrn = inr p -> generable p = true -> sure (next_pattern ptrn) (in_language p).
Proof. intros E Hg. unfold next_pattern. rewrite E. by apply pattern_next_sure. Qed.

Lemma generated_in_language_witness :
  exists p, pattern_of ($"id-([ac]|b{2,5})") = inr p /\ generable p = true
    /\ sure (next_pattern ($"id-([ac]|b{2,5})")) (in_language p).
Proof.
  eexists. split; [vm_compute; reflexivity|]. split; [vm_compute; reflexivity|].
  apply generated_in_language; vm_compute; reflexivity.
Defined.
