(* ===== verification/ToleranceSpec.v ===== *)
(** * The tolerance of the real-number checkers

    What [doubleCompare] means for the numbers as they are written: the
    decimals of the answer and of the output are rounded to doubles, their
    difference and the ends of the accepted interval are rounded again, and
    the [1E-15] the comparison adds to its tolerance pays for all of it. *)

From Stdlib Require Import SpecFloat QArith Qabs Qminmax Qpower Lqa.
From S2P Require Import Prelude Text Doubles NumbersSpec FloatSpec RoundSpec.

#[local] Open Scope Q_scope.

(** ** The real numbers of the comparison *)

(** Half a unit in the last place of one. *)
Abbreviation half_ulp := (1 # 9007199254740992).

(** [1E-15], and an absolute error far below it, [1E-30]. *)
Abbreviation slack := 0.000000000000001.
Abbreviation tiny := 0.000000000000000000000000000001.

(** A rounding: the relative error of a normal double, the absolute one of a
    subnormal, for which [tiny] is more than enough. *)
Definition near (x y : Q) : Prop := Qabs (x - y) <= half_ulp * Qabs y + tiny.

(** The bounds of the doubles [M], [1 - M] and [1 + M] of a comparison. *)
Record tolerances (eps M a b : Q) : Prop := {
  tol_eps : eps == 0.0001 \/ eps == 0.000001 \/ eps == 0.000000001;
  tol_M : eps + 0.9 * slack <= M <= eps + 1.1 * slack;
  tol_a : 1 - eps - 1.1 * slack <= a <= 1 - eps - 0.9 * slack;
  tol_b : 1 + eps + 0.88 * slack <= b <= 1 + eps + 1.12 * slack;
}.

Lemma Qabs_cases x : 0 <= x /\ Qabs x == x \/ x <= 0 /\ Qabs x == - x.
Proof.
  destruct (Qlt_le_dec x 0) as [H|H]; [right|left]; (split; [by auto using Qlt_le_weak|]).
  - apply Qabs_neg. by apply Qlt_le_weak.
  - by apply Qabs_pos.
Qed.

(** A product with a factor between two bounds. *)
Lemma mul_nonneg_between x c c1 c2 : 0 <= x -> c1 <= c <= c2 -> x * c1 <= x * c <= x * c2.
Proof. intros Hx [H1 H2]. split; nra. Qed.

Lemma mul_nonpos_between x c c1 c2 : x <= 0 -> c1 <= c <= c2 -> x * c2 <= x * c <= x * c1.
Proof. intros Hx [H1 H2]. split; nra. Qed.

Lemma scale_le c x y : 0 <= c -> x <= y -> c * x <= c * y.
Proof. intros. nra. Qed.

Lemma near_nonneg x y : near x y -> 0 <= y ->
  y - half_ulp * y - tiny <= x <= y + half_ulp * y + tiny.
Proof.
  unfold near. intros H Hy. rewrite (Qabs_pos y) in H by done. apply Qabs_Qle_condition in H. lra.
Qed.

Lemma near_small x y c : near x y -> - c <= y <= c -> y - half_ulp * c - tiny <= x <= y + half_ulp * c + tiny.
Proof.
  unfold near. intros H Hy. apply Qabs_Qle_condition in Hy. apply Qabs_Qle_condition in H. lra.
Qed.

Lemma near_opp x y : near x y -> near (- x) (- y).
Proof.
  unfold near. intros H. rewrite Qabs_opp. assert (E : - x - - y == - (x - y)) by ring. by rewrite E, Qabs_opp.
Qed.

Lemma near_compat x x' y y' : x == x' -> y == y' -> near x y -> near x' y'.
Proof. intros Ex Ey. unfold near. by rewrite Ex, Ey. Qed.

Section Tolerance.
Context (eps M a b : Q) (Htol : tolerances eps M a b).

(** The numbers of a comparison: as written, as doubles, the rounded
    difference and the ends of the interval. *)
Record compared (j p fj fp d lo hi : Q) : Prop := {
  cmp_j : near fj j;
  cmp_p : near fp p;
  cmp_d : near d (fp - fj);
  cmp_lo : near lo (fj * a);
  cmp_hi : near hi (fj * b);
}.

Definition within (lo fp hi : Q) : Prop := lo <= fp <= hi \/ hi <= fp <= lo.

Lemma compared_opp j p fj fp d lo hi : compared j p fj fp d lo hi ->
  compared (- j) (- p) (- fj) (- fp) (- d) (- lo) (- hi).
Proof.
  intros [Hj Hp Hd Hl Hh]. constructor; [by apply near_opp..| | |];
    (eapply near_compat; [reflexivity| |by apply near_opp; eassumption]); ring.
Qed.

Lemma accepts_nonneg j p fj fp d lo hi : compared j p fj fp d lo hi -> 0 <= j ->
  Qabs (p - j) <= eps \/ Qabs (p - j) <= eps * j -> Qabs d <= M \/ within lo fp hi.
Proof.
  intros [Hj Hp Hd Hlo Hhi] Hj0 H. destruct Htol as [He HM Ha Hb].
  apply (near_nonneg _ _) in Hj; [|done]. rewrite !Qabs_Qle_condition in *.
  assert (0 <= eps <= 0.0001) by (destruct He as [->|[->| ->]]; lra).
  destruct (Qlt_le_dec j 1) as [Hj1|Hj1]; [left|right; left].
  - assert (H' : - eps <= p - j <= eps) by (destruct H; nra). clear H.
    apply (near_small _ _ 1.1) in Hp; [|lra]. apply (near_small _ _ (eps + 0.9 * slack)) in Hd; lra.
  - assert (H' : - (eps * j) <= p - j <= eps * j) by (destruct H; nra). clear H.
    assert (eps * j <= 0.0001 * j) by nra.
    apply near_nonneg in Hp; [|lra].
    pose proof (mul_nonneg_between fj a _ _ ltac:(lra) Ha) as Ma.
    pose proof (mul_nonneg_between fj b _ _ ltac:(lra) Hb) as Mb.
    set (A := fj * a) in *. set (B := fj * b) in *. clearbody A B. clear Ha Hb HM Hd Htol.
    destruct He as [He|[He|He]]; rewrite He in *; clear He;
      (apply near_nonneg in Hlo; [|lra]); (apply near_nonneg in Hhi; [|lra]); split; lra.
Qed.

Lemma near_back x y c : near x y -> - c <= x <= c ->
  x - 1.1 * half_ulp * c - 2 * tiny <= y <= x + 1.1 * half_ulp * c + 2 * tiny.
Proof.
  intros H Hx. destruct (Qlt_le_dec y 0) as [Hy|Hy].
  - apply near_opp, near_nonneg in H; [|lra]. lra.
  - apply near_nonneg in H; [|lra]. lra.
Qed.

(** The difference of the doubles, from either branch of the comparison. *)
Lemma accepted_difference j p fj fp d lo hi : compared j p fj fp d lo hi -> 0 <= j ->
  Qabs d <= M \/ within lo fp hi ->
  - (eps + 1.4 * slack) <= fp - fj <= eps + 1.4 * slack
  \/ 1 <= j /\ - ((eps + 1.4 * slack) * j) <= fp - fj <= (eps + 1.4 * slack) * j.
Proof.
  intros [Hj Hp Hd Hlo Hhi] Hj0 H. destruct Htol as [He HM Ha Hb].
  apply (near_nonneg _ _) in Hj; [|done]. clear Hp Htol. rewrite Qabs_Qle_condition in H.
  assert (0 <= eps <= 0.0001) by (destruct He as [->|[->| ->]]; lra). clear He.
  destruct H as [H|H]; [left|].
  - apply (near_back _ _ (eps + 1.1 * slack)) in Hd; lra.
  - destruct (Qlt_le_dec fj 0) as [Hf|Hf].
    + left. assert (- tiny <= fj) by lra.
      pose proof (mul_nonpos_between fj a 0 2 ltac:(lra) ltac:(lra)).
      pose proof (mul_nonpos_between fj b 0 2 ltac:(lra) ltac:(lra)).
      apply (near_small _ _ (2 * tiny)) in Hlo; [|lra]. apply (near_small _ _ (2 * tiny)) in Hhi; [|lra].
      unfold within in H. destruct H; lra.
    + pose proof (mul_nonneg_between fj a _ _ Hf Ha) as Ma. pose proof (mul_nonneg_between fj b _ _ Hf Hb) as Mb.
      assert (0 <= eps * fj <= 0.0001 * fj) by nra.
      apply near_nonneg in Hlo; [|lra]. apply near_nonneg in Hhi; [|lra].
      set (A := fj * a) in *. set (B := fj * b) in *. clearbody A B. clear Ha Hb HM Hd.
      destruct (Qlt_le_dec j 1); [left|right; split; [done|]].
      * pose proof (scale_le eps fj (1 + half_ulp + tiny) ltac:(lra) ltac:(lra)). unfold within in H. destruct H; lra.
      * pose proof (scale_le eps fj (j + half_ulp * j + tiny) ltac:(lra) ltac:(lra)).
        assert (0 <= eps * j <= 0.0001 * j) by nra. unfold within in H. destruct H; lra.
Qed.

Lemma sound_nonneg j p fj fp d lo hi : compared j p fj fp d lo hi -> 0 <= j ->
  Qabs d <= M \/ within lo fp hi ->
  Qabs (p - j) <= eps + 2 * slack \/ Qabs (p - j) <= (eps + 2 * slack) * j.
Proof.
  intros Hc Hj0 H. pose proof (accepted_difference _ _ _ _ _ _ _ Hc Hj0 H) as HD.
  destruct Hc as [Hj Hp _ _ _]. destruct Htol as [He _ _ _]. apply near_nonneg in Hj; [|done].
  rewrite !Qabs_Qle_condition. clear H Htol.
  assert (0 <= eps <= 0.0001) by (destruct He as [->|[->| ->]]; lra). clear He.
  destruct (Qlt_le_dec j 1) as [Hj1|Hj1].
  - left. destruct HD as [HD|[? _]]; [|lra]. apply (near_back _ _ 1.001) in Hp; lra.
  - right. assert (0 <= eps * j <= 0.0001 * j) by nra.
    assert (eps <= eps * j) by nra.
    apply (near_back _ _ (1.001 * j)) in Hp; destruct HD as [HD|[_ HD]]; lra.
Qed.

(** Both directions, for an answer of either sign. *)
Lemma tolerance_both j p fj fp d lo hi : compared j p fj fp d lo hi ->
  (Qabs (p - j) <= eps * Qmax 1 (Qabs j) -> Qabs d <= M \/ within lo fp hi)
  /\ (Qabs d <= M \/ within lo fp hi -> Qabs (p - j) <= (eps + 2 * slack) * Qmax 1 (Qabs j)).
Proof.
  intros Hc. assert (He : 0 <= eps) by (destruct Htol as [[->|[->| ->]] _ _ _]; lra).
  assert (Hmax : forall c, 0 <= c -> (Qabs (p - j) <= c * Qmax 1 (Qabs j) <->
                              Qabs (p - j) <= c \/ Qabs (p - j) <= c * Qabs j)).
  { intros c Hc0. destruct (Q.max_spec 1 (Qabs j)) as [[Hm ->]|[Hm ->]]; split; intros; nra. }
  rewrite !Hmax by lra. destruct (Qabs_cases j) as [[Hj0 Ej]|[Hj0 Ej]]; rewrite Ej; clear Ej Hmax.
  - split; [by eapply accepts_nonneg|by eapply sound_nonneg].
  - apply compared_opp in Hc. assert (Eo : - p - - j == - (p - j)) by ring.
    pose proof (accepts_nonneg _ _ _ _ _ _ _ Hc) as H1. pose proof (sound_nonneg _ _ _ _ _ _ _ Hc) as H2.
    rewrite Eo, !Qabs_opp in *.
    assert (Hw : within (- lo) (- fp) (- hi) <-> within lo fp hi) by (unfold within; split; lra).
    rewrite Hw in *. split; [apply H1|apply H2]; lra.
Qed.
End Tolerance.

(** ** The doubles of the comparison *)

(** The value of a regular double. *)
Definition value (x : double) : Q := units 53 1024 x # 2 ^ 1074.

Abbreviation proper := (regular 53 1024).

Lemma Qmake_scale u s : u # s == inject_Z u * (1 # s).
Proof. unfold Qeq. simpl. lia. Qed.

(** A rounding of integers as a rounding of quotients. *)
Lemma near_Z u t w s : (0 <= w)%Z -> (10 ^ 30 * w <= Z.pos s)%Z -> rounded 53 u t w -> near (u # s) (t # s).
Proof.
  intros Hw Hs H. unfold near.
  assert (E : (u # s) - (t # s) == (u - t # s)%Z) by (unfold Qeq; simpl; rewrite Pos2Z.inj_mul; ring).
  rewrite E. unfold Qabs. rewrite (Qmake_scale (Z.abs (u - t))), (Qmake_scale (Z.abs t)).
  assert (Hx : 0 <= 1 # s) by done.
  assert (Hr : inject_Z (Z.abs (u - t)) * 9007199254740992 <= inject_Z (Z.abs t) + 4503599627370496 * inject_Z w).
  { unfold rounded in H. change (2 ^ 53)%Z with 9007199254740992%Z in H. change (2 ^ (53 - 1))%Z with 4503599627370496%Z in H.
    assert (Z.abs (u - t) * 9007199254740992 <= Z.abs t + 4503599627370496 * w)%Z as Hz by lia.
    rewrite Zle_Qle, inject_Z_plus, !inject_Z_mult in Hz. exact Hz. }
  assert (Hs' : inject_Z w * (1 # s) <= tiny).
  { rewrite <- Qmake_scale. unfold Qle. simpl. change (10 ^ 30)%Z with 1000000000000000000000000000000%Z in Hs. lia. }
  apply (scale_le (1 # s)) in Hr; [|done]. lra.
Qed.

Lemma same_value u s k : u * Z.pos k # s * k == u # s.
Proof. unfold Qeq. simpl. rewrite Pos2Z.inj_mul. ring. Qed.

Lemma value_le x y : proper x = true -> proper y = true -> dle x y = Qle_bool (value x) (value y).
Proof.
  intros Hx Hy. unfold dle. rewrite leb_units with (prec := 53%Z) (emax := 1024%Z) by (done || lia).
  unfold Qle_bool, value. cbn [Qnum Qden]. generalize (2 ^ 1074)%positive as p. intros p.
  destruct (Z.leb_spec (units 53 1024 x) (units 53 1024 y)), (Z.leb_spec (units 53 1024 x * Z.pos p) (units 53 1024 y * Z.pos p)); done || nia.
Qed.

Lemma value_lt x y : proper x = true -> proper y = true -> dlt x y = negb (dle y x).
Proof.
  intros Hx Hy. unfold dle, dlt. rewrite (leb_units 53 1024), (ltb_units 53 1024) by (done || lia).
  destruct (Z.ltb_spec (units 53 1024 x) (units 53 1024 y)), (Z.leb_spec (units 53 1024 y) (units 53 1024 x)); done || lia.
Qed.

Lemma dle_value x y : proper x = true -> proper y = true -> dle x y = true <-> value x <= value y.
Proof. intros Hx Hy. rewrite value_le by done. apply Qle_bool_iff. Qed.

Lemma dlt_value x y : proper x = true -> proper y = true -> dlt x y = true <-> value x < value y.
Proof.
  intros Hx Hy. rewrite value_lt, negb_true_iff by done. rewrite <- not_true_iff_false, dle_value by done.
  split; [apply Qnot_le_lt|apply Qlt_not_le].
Qed.

(** The doubles the checkers compare are far from the largest. *)
Definition moderate (x : double) : Prop := proper x = true /\ Qabs (value x) <= 2 * inject_Z (10 ^ 299).

Lemma moderate_units x : moderate x -> (Z.abs (units 53 1024 x) <= 2 * 10 ^ 299 * 2 ^ 1074)%Z.
Proof.
  intros [_ H]. unfold value, Qabs, Qle in H. cbn [Qnum Qden Qmult inject_Z] in H.
  change (Z.pos (1 * 1)) with 1%Z in H. change (Z.pos (2 ^ 1074)) with (2 ^ 1074)%Z in H.
  revert H. generalize (2 ^ 1074)%Z (10 ^ 299)%Z. intros u v. lia.
Qed.

Lemma sub_near x y : moderate x -> moderate y ->
  proper (dsub x y) = true /\ near (value (dsub x y)) (value x - value y).
Proof.
  intros Hx Hy. pose proof (moderate_units x Hx) as Bx. pose proof (moderate_units y Hy) as By.
  destruct (sub_rounded 53 1024 eq_refl eq_refl x y (proj1 Hx) (proj1 Hy)) as [Hr H].
  { assert (2 ^ (1024 - 1 - emin 53 1024) = 2 ^ 1023 * 2 ^ 1074)%Z as -> by (vm_compute; reflexivity).
    assert (4 * 10 ^ 299 < 2 ^ 1023)%Z by (vm_compute; reflexivity).
    assert (0 < 2 ^ 1074)%Z by (vm_compute; reflexivity). revert Bx By H H0.
    generalize (2 ^ 1074)%Z (10 ^ 299)%Z (2 ^ 1023)%Z. intros u v k. nia. }
  split; [exact Hr|]. unfold value, dsub.
  eapply near_compat; [reflexivity| |apply (near_Z _ (units 53 1024 x - units 53 1024 y) 0)].
  - unfold Qeq. simpl. generalize (2 ^ 1074)%positive. intros u. rewrite !Pos2Z.inj_mul. ring.
  - done.
  - done.
  - unfold rounded. lia.
Qed.

(** A factor near one. *)
Definition factor (c : double) : Prop := proper c = true /\ normal 53 c /\ 0 <= value c <= 2.

Lemma factor_units c : factor c -> (0 <= units 53 1024 c <= 2 * 2 ^ 1074)%Z.
Proof.
  intros (_ & _ & H0 & H2). unfold value, Qle in *. cbn [Qnum Qden] in *.
  change (Z.pos (2 ^ 1074)) with (2 ^ 1074)%Z in H2. revert H0 H2. generalize (2 ^ 1074)%Z. intros u. lia.
Qed.

Lemma mul_near x c : moderate x -> factor c ->
  proper (dmul x c) = true /\ near (value (dmul x c)) (value x * value c).
Proof.
  intros Hx Hc. pose proof (moderate_units x Hx) as Bx. pose proof (factor_units c Hc) as Bc.
  destruct (mul_rounded 53 1024 eq_refl eq_refl x c (proj1 Hx) (proj1 Hc) (proj1 (proj2 Hc))) as [Hr H].
  { assert (2 ^ (1024 - 1 - 2 * emin 53 1024) = 2 ^ 1023 * (2 ^ 1074 * 2 ^ 1074))%Z as -> by (vm_compute; reflexivity).
    assert (4 * 10 ^ 299 < 2 ^ 1023)%Z as Hk by (vm_compute; reflexivity).
    assert (0 < 2 ^ 1074)%Z as Hu by (vm_compute; reflexivity). rewrite Z.abs_mul, (Z.abs_eq (units 53 1024 c)) by lia.
    revert Bx Bc Hu Hk. generalize (2 ^ 1074)%Z (10 ^ 299)%Z (2 ^ 1023)%Z. intros u v k Bx Bc Hu Hk.
    apply Z.le_lt_trans with ((2 * v * u) * (2 * u))%Z; [apply Z.mul_le_mono_nonneg; lia|nia]. }
  split; [exact Hr|]. change (2 ^ (- emin 53 1024))%Z with (Z.pos (2 ^ 1074)) in H. unfold value, dmul.
  apply (near_compat (units 53 1024 (SFmul 53 1024 x c) * Z.pos (2 ^ 1074) # 2 ^ 1074 * 2 ^ 1074) _
           (units 53 1024 x * units 53 1024 c # 2 ^ 1074 * 2 ^ 1074) _); [apply same_value|reflexivity|].
  apply (near_Z _ _ (Z.pos (2 ^ 1074))); [done| |exact H].
  rewrite Pos2Z.inj_mul. apply Z.mul_le_mono_nonneg_r; [done|]. vm_compute. discriminate.
Qed.

Lemma dopp_value x : value (dopp x) == - value x.
Proof. unfold value, dopp. rewrite units_opp. reflexivity. Qed.

Lemma dabs_value x : proper x = true -> proper (dabs x) = true /\ value (dabs x) == Qabs (value x).
Proof.
  intros Hx. assert (Hz : value dzero == 0) by done. unfold dabs. destruct (dlt dzero x) eqn:E.
  - apply dlt_value in E; [|done..]. split; [done|]. rewrite Qabs_pos; [done|]. rewrite Hz in E. by apply Qlt_le_weak.
  - split; [by rewrite <- Hx; apply regular_opp|]. rewrite dopp_value. rewrite Qabs_neg; [done|].
    apply Qnot_lt_le. intros H. rewrite <- Hz in H. apply dlt_value in H; [congruence|done..].
Qed.

Lemma proper_not_nan x : proper x = true -> __testlib_isNaN x = false.
Proof.
  intros Hx. assert (Hd : forall y, nan_bits (dopp y) = nan_bits y) by by intros [].
  assert (nan_bits x = false) as En by by destruct x. unfold __testlib_isNaN. rewrite Hd, En, !orb_false_r.
  unfold __testlib_prelimIsNaN. assert (deq x x = true) as ->; [|done]. unfold deq, SFeqb.
  by rewrite (compare_units 53 1024), Z.compare_refl by (done || lia).
Qed.

Lemma moderate_not_infinite x : moderate x -> __testlib_isInfinite x = false.
Proof.
  intros [Hx H]. apply Qabs_Qle_condition in H.
  assert (HE : 2 * inject_Z (10 ^ 299) < value (E 300)) by (vm_compute; reflexivity).
  assert (HE' : proper (E 300) = true) by (vm_compute; reflexivity).
  unfold __testlib_isInfinite. apply orb_false_iff. split; apply not_true_iff_false.
  - rewrite dlt_value by done. lra.
  - rewrite dlt_value by done. rewrite dopp_value. lra.
Qed.

(** The interval, in whichever order its ends are. *)
Lemma interval_within lo hi p : proper lo = true -> proper hi = true -> proper p = true ->
  dle (dmin lo hi) p && dle p (dmax lo hi) = true <-> within (value lo) (value p) (value hi).
Proof.
  intros Hl Hh Hp. unfold dmin, dmax, within. rewrite andb_true_iff.
  destruct (dlt lo hi) eqn:E1; destruct (dlt hi lo) eqn:E2; rewrite !dle_value by done.
  all: repeat match goal with
    | H : dlt _ _ = true |- _ => apply dlt_value in H; [|done..]
    | H : dlt _ _ = false |- _ => apply not_true_iff_false in H; rewrite dlt_value in H by done; apply Qnot_lt_le in H
    end; split; lra.
Qed.

(** ** [doubleCompare] *)

(** The tolerances of [rcmp4], [rcmp6] and [rcmp9]. *)
Inductive checker_eps : Q -> double -> Prop :=
| eps4 : checker_eps 0.0001 (E (-4))
| eps6 : checker_eps 0.000001 (E (-6))
| eps9 : checker_eps 0.000000001 (E (-9)).

Abbreviation error_of EPS := (dadd EPS (E (-15))).

Lemma checker_eps_tolerances eps EPS : checker_eps eps EPS ->
  tolerances eps (value (error_of EPS)) (value (dsub done_ (error_of EPS))) (value (dadd done_ (error_of EPS)))
  /\ proper (error_of EPS) = true /\ factor (dsub done_ (error_of EPS)) /\ factor (dadd done_ (error_of EPS)).
Proof.
  intros He. assert (Hf : forall c, proper c = true -> normal 53 c -> Qle_bool 0 (value c) = true ->
    Qle_bool (value c) 2 = true -> factor c).
  { intros c Hc Hn H0 H2. split; [done|]. split; [done|]. split; by apply Qle_bool_iff. }
  assert (Hb : forall x y z, Qle_bool x y && Qle_bool y z = true -> x <= y <= z).
  { intros x y z [H1 H2]%andb_true_iff. split; by apply Qle_bool_iff. }
  split; [|split_and!; [|apply Hf..]; destruct He; by vm_compute].
  constructor; [destruct He; auto with qarith|apply Hb; destruct He; vm_compute; reflexivity..].
Qed.

Lemma doubleCompare_value eps EPS fj fp : checker_eps eps EPS -> moderate fj -> moderate fp ->
  doubleCompare fj fp EPS = true <->
  Qabs (value (dsub fp fj)) <= value (error_of EPS)
  \/ within (value (dmul fj (dsub done_ (error_of EPS)))) (value fp) (value (dmul fj (dadd done_ (error_of EPS)))).
Proof.
  intros He Hj Hp. destruct (checker_eps_tolerances _ _ He) as (_ & HM & Ha & Hb).
  unfold doubleCompare. cbv zeta. rewrite !proper_not_nan by apply Hj || apply Hp.
  rewrite !moderate_not_infinite by done. cbn [orb].
  destruct (sub_near fp fj Hp Hj) as [Hd _]. destruct (dabs_value _ Hd) as [Hda Eda].
  destruct (mul_near fj _ Hj Ha) as [Hlo _]. destruct (mul_near fj _ Hj Hb) as [Hhi _].
  rewrite <- Eda, <- dle_value by done.
  rewrite <- (interval_within _ _ fp Hlo Hhi (proj1 Hp)).
  destruct (dle (dabs (dsub fp fj)) _); [by split; [left|]|]. split; [by right|]. by intros [?|?].
Qed.

(** Two numbers as written, [j] and [p], and the doubles they are read as. *)
Lemma doubleCompare_tolerates eps EPS j p fj fp : checker_eps eps EPS ->
  proper fj = true -> proper fp = true -> near (value fj) j -> near (value fp) p ->
  Qabs j <= inject_Z (10 ^ 299) -> Qabs p <= inject_Z (10 ^ 299) ->
  (Qabs (p - j) <= eps * Qmax 1 (Qabs j) -> doubleCompare fj fp EPS = true)
  /\ (doubleCompare fj fp EPS = true -> Qabs (p - j) <= (eps + 2 * slack) * Qmax 1 (Qabs j)).
Proof.
  intros He Pj Pp Nj Np Bj Bp.
  assert (Hmod : forall x v, proper x = true -> near (value x) v -> Qabs v <= inject_Z (10 ^ 299) -> moderate x).
  { intros x v Px Nx Bx. split; [done|]. assert (1 <= inject_Z (10 ^ 299)) by (vm_compute; discriminate).
    apply Qabs_Qle_condition in Bx. apply near_small with (c := inject_Z (10 ^ 299)) in Nx; [|done].
    apply Qabs_Qle_condition. revert Bx Nx H. generalize (inject_Z (10 ^ 299)). intros b0 Bx Nx H. lra. }
  pose proof (Hmod _ _ Pj Nj Bj) as Mj. pose proof (Hmod _ _ Pp Np Bp) as Mp.
  rewrite doubleCompare_value by done. destruct (checker_eps_tolerances _ _ He) as (Ht & HM & Ha & Hb).
  apply (tolerance_both _ _ _ _ Ht) with (fj := value fj). constructor; [done|done|..].
  - apply sub_near; done.
  - apply mul_near; done.
  - apply mul_near; done.
Qed.

(** ** Decimals *)

(** [(-1) ^ neg * m * 10 ^ e]. *)
Definition dec_value (neg : bool) (m e : Z) : Q :=
  (if neg then - inject_Z m else inject_Z m) * Qpower 10 e.

Lemma value_rev_below rs : digits rs -> (value_rev rs < 10 ^ zlen rs)%Z.
Proof.
  induction 1 as [|c rs Hc Hrs IH]; [done|]. apply is_digit_range in Hc. rewrite zlen_cons. cbn [value_rev].
  pose proof (zlen_nonneg rs). replace (1 + zlen rs)%Z with (Z.succ (zlen rs)) by lia. rewrite Z.pow_succ_r by lia. lia.
Qed.

(** The number of digits of a number. *)
Lemma vtos_digits m : (0 < m)%Z -> (10 ^ (zlen (vtos m) - 1) <= m < 10 ^ zlen (vtos m))%Z.
Proof.
  intros Hm. destruct (vtos_nonneg m ltac:(lia)) as [(Hd & Hne & H0) Hv]. rewrite digits_value_rev in Hv.
  assert (Hr : digits (reverse (vtos m))) by by apply Forall_reverse.
  assert (Hz : zlen (reverse (vtos m)) = zlen (vtos m)) by (unfold zlen; by rewrite length_reverse).
  pose proof (value_rev_below _ Hr) as Hb. rewrite Hz, Hv in Hb. split; [|done].
  pose proof (value_rev_length (reverse (vtos m)) Hr) as Hl. rewrite Hz, Hv in Hl. apply Hl.
  - intros E. apply Hne. by rewrite <- (reverse_involutive (vtos m)), E.
  - rewrite last_reverse_head. intros E. rewrite (H0 E) in Hv. vm_compute in Hv. lia.
Qed.

Lemma Qpower_nonneg_Z e : (0 <= e)%Z -> Qpower 10 e == inject_Z (10 ^ e).
Proof. intros He. change 10 with (inject_Z 10). by rewrite Zpower_Qpower. Qed.

Lemma Qpower_neg_Z e : (e < 0)%Z -> Qpower 10 e == 1 # Z.to_pos (10 ^ (- e)).
Proof.
  intros He. replace e with (- (- e))%Z at 1 by lia. rewrite Qpower_opp, Qpower_nonneg_Z by lia.
  assert (0 < 10 ^ (- e))%Z by (apply Z.pow_pos_nonneg; lia).
  by destruct (10 ^ (- e))%Z.
Qed.

Lemma inject_abs m : Qabs (inject_Z m) == inject_Z (Z.abs m).
Proof. reflexivity. Qed.

Lemma dec_value_abs neg m e : (0 <= m)%Z -> Qabs (dec_value neg m e) == inject_Z m * Qpower 10 e.
Proof.
  intros Hm. unfold dec_value. rewrite Qabs_Qmult, (Qabs_pos (Qpower 10 e)) by (apply Qpower_0_le; done).
  destruct neg; rewrite ?Qabs_opp, inject_abs, Z.abs_eq by done; reflexivity.
Qed.

(** The bound on a decimal, in integers. *)
Lemma dec_bound neg m e k : (0 <= m)%Z -> (0 <= k)%Z -> Qabs (dec_value neg m e) <= inject_Z (10 ^ k) ->
  (if 0 <=? e then m * 10 ^ e <= 10 ^ k else m <= 10 ^ k * 10 ^ (- e))%Z.
Proof.
  intros Hm Hk. rewrite dec_value_abs by done. destruct (Z.leb_spec 0 e).
  - rewrite Qpower_nonneg_Z, <- inject_Z_mult by done. by rewrite <- Zle_Qle.
  - rewrite Qpower_neg_Z by done. assert (0 < 10 ^ (- e))%Z by (apply Z.pow_pos_nonneg; lia).
    unfold Qle. cbn [Qnum Qden Qmult inject_Z]. rewrite Pos.mul_1_l, Z2Pos.id by done. lia.
Qed.

Lemma normalize_near z szero : (Z.abs z <= 10 ^ 299)%Z -> let x := binary_normalize 53 1024 z 0 szero in
  proper x = true /\ near (value x) (inject_Z z).
Proof.
  intros Hz x. destruct (normalize_rounded 53 1024 eq_refl eq_refl z 0 szero) as [Hr H].
  { done. }
  { change (2 ^ (0 - emin 53 1024))%Z with (2 ^ 1074)%Z.
    assert (2 ^ (1024 - 1 - emin 53 1024) = 2 ^ 1023 * 2 ^ 1074)%Z as -> by (vm_compute; reflexivity).
    apply Z.mul_lt_mono_pos_r; [vm_compute; reflexivity|]. eapply Z.le_lt_trans; [exact Hz|]. vm_compute. reflexivity. }
  split; [exact Hr|]. fold x in H. change (2 ^ (0 - emin 53 1024))%Z with (Z.pos (2 ^ 1074)) in H.
  apply (near_compat (value x) _ (z * Z.pos (2 ^ 1074) # 2 ^ 1074) _); [reflexivity| |].
  - unfold Qeq. cbn [Qnum Qden inject_Z]. ring.
  - apply (near_Z _ _ 0); [done|done|]. unfold rounded. lia.
Qed.

Lemma divide_near (neg : bool) a b : (Z.pos a <= 10 ^ 299 * Z.pos b)%Z ->
  let x := SFdiv 53 1024 (S754_finite neg a 0) (S754_finite false b 0) in
  proper x = true /\ near (value x) ((if neg then Z.neg a else Z.pos a) # b).
Proof.
  intros Hab x. destruct (div_nearest 53 1024 eq_refl eq_refl a b) as (y & (Hy & _ & H) & Es).
  { unfold bits. assert (Z.log2 (Z.pos a) <= 994 + Z.log2 (Z.pos b) + 1)%Z; [|lia].
    etransitivity; [apply Z.log2_le_mono; exact Hab|]. etransitivity; [apply Z.log2_mul_above; done|].
    change (Z.log2 (10 ^ 299)) with 993%Z. lia. }
  change (2 ^ (- emin 53 1024))%Z with (Z.pos (2 ^ 1074)) in H. unfold x. rewrite Es. clear x Es.
  split; [by rewrite regular_signed|]. apply (rounded_signed 53 neg) in H.
  unfold value. rewrite units_signed.
  apply (near_compat (cond_Zopp neg (units 53 1024 y * Z.pos b) # 2 ^ 1074 * b) _
           (cond_Zopp neg (Z.pos a * Z.pos (2 ^ 1074)) # b * 2 ^ 1074) _).
  - rewrite <- (same_value (cond_Zopp neg (units 53 1024 y)) (2 ^ 1074) b). destruct neg; simpl cond_Zopp; [|done].
    by rewrite Z.mul_opp_l.
  - rewrite <- (same_value (if neg then Z.neg a else Z.pos a) b (2 ^ 1074)). destruct neg; reflexivity.
  - rewrite (Pos.mul_comm b). apply (near_Z _ _ (Z.pos b)); [done| |exact H].
    rewrite Pos2Z.inj_mul. apply Z.mul_le_mono_nonneg_r; [done|]. vm_compute. discriminate.
Qed.

Lemma near_zero s y : Qabs y <= tiny -> near (value (S754_zero s)) y.
Proof.
  unfold near. intros H. assert (Ez : value (S754_zero s) == 0) by done. rewrite Ez. assert (E : 0 - y == - y) by ring. rewrite E, Qabs_opp.
  pose proof (Qabs_nonneg y). lra.
Qed.

(** A decimal is read as a double next to it. *)
Lemma decimal_near neg m e : (0 <= m)%Z -> Qabs (dec_value neg m e) <= inject_Z (10 ^ 299) ->
  proper (decimal neg m e) = true /\ near (value (decimal neg m e)) (dec_value neg m e).
Proof.
  intros Hm Hb. pose proof (dec_bound neg m e 299 Hm ltac:(lia) Hb) as Hz. unfold decimal.
  destruct (Z.leb_spec m 0) as [H0|H0].
  { assert (m = 0%Z) as -> by lia. split; [done|]. apply near_zero. rewrite dec_value_abs by done.
    assert (E : inject_Z 0 * Qpower 10 e == 0) by ring. by rewrite E. }
  pose proof (vtos_digits m H0) as [Hlo Hhi]. set (n := zlen (vtos m)) in *. clearbody n.
  assert (H299 : (10 ^ 299 < 10 ^ 310)%Z) by (vm_compute; reflexivity).
  assert (Hn : (1 <= n)%Z).
  { destruct (Z.le_gt_cases 1 n); [done|]. assert (10 ^ n <= 10 ^ 0)%Z by (apply Z.pow_le_mono_r; lia).
    change (10 ^ 0)%Z with 1%Z in *. lia. }
  destruct (Z.ltb_spec 310 (n + e)) as [Hbig|_].
  { exfalso. assert (10 ^ 310 <= 10 ^ (n - 1 + Z.max e 0 - Z.max (- e) 0))%Z by (apply Z.pow_le_mono_r; lia).
    destruct (Z.leb_spec 0 e).
    - replace (n - 1 + Z.max e 0 - Z.max (- e) 0)%Z with (n - 1 + e)%Z in H by lia. rewrite Z.pow_add_r in H by lia.
      assert (0 < 10 ^ e)%Z by (apply Z.pow_pos_nonneg; lia). nia.
    - assert (10 ^ 310 * 10 ^ (- e) <= m)%Z.
      { etransitivity; [|exact Hlo]. rewrite <- Z.pow_add_r by lia. apply Z.pow_le_mono_r; lia. }
      assert (0 < 10 ^ (- e))%Z by (apply Z.pow_pos_nonneg; lia). nia. }
  destruct (Z.ltb_spec (n + e) (-330)) as [Hsmall|_].
  { split; [done|]. apply near_zero. rewrite dec_value_abs, Qpower_neg_Z by lia.
    assert (0 < 10 ^ (- e))%Z by (apply Z.pow_pos_nonneg; lia).
    assert (10 ^ 30 * m <= 10 ^ (- e))%Z.
    { transitivity (10 ^ 30 * 10 ^ n)%Z; [lia|]. rewrite <- Z.pow_add_r by lia. apply Z.pow_le_mono_r; lia. }
    unfold Qle. cbn [Qnum Qden Qmult inject_Z]. rewrite Pos.mul_1_l, Z2Pos.id by done. lia. }
  destruct (Z.leb_spec 0 e) as [He|He].
  - destruct (normalize_near ((if neg then -1 else 1) * (m * 10 ^ e)) neg) as [Hp Hx].
    { rewrite Z.abs_mul. assert (0 < 10 ^ e)%Z by (apply Z.pow_pos_nonneg; lia). destruct neg; simpl Z.abs; lia. }
    split; [exact Hp|]. eapply near_compat; [reflexivity| |exact Hx]. unfold dec_value.
    rewrite Qpower_nonneg_Z by done. rewrite !inject_Z_mult. destruct neg; cbn [inject_Z]; ring.
  - assert (Hp10 : (0 < 10 ^ (- e))%Z) by (apply Z.pow_pos_nonneg; lia).
    destruct (divide_near neg (Z.to_pos m) (Z.to_pos (10 ^ (- e)))) as [Hp Hx].
    { rewrite !Z2Pos.id by lia. lia. }
    split; [exact Hp|]. eapply near_compat; [reflexivity| |exact Hx]. unfold dec_value. rewrite Qpower_neg_Z by done.
    destruct m as [|p|p]; try lia. simpl Z.to_pos. destruct neg; unfold Qeq; cbn [Qnum Qden Qmult Qopp inject_Z]; lia.
Qed.
