(* ===== verification/OptsSpec.v ===== *)
(** * What the options of a command line are

    Rendering a list of options in the four documented forms and parsing the
    arguments gives the options back; the exponential notation is rewritten
    without changing its value; the decimal text of an integer is read as that
    integer. *)

From Stdlib Require Import SpecFloat QArith.
From S2P Require Import Prelude Text TextSpec Doubles Readers Validator Streams World Pattern Reading Numbers NumbersSpec Register Opts FloatSpec.

#[local] Open Scope Z_scope.

(** ** The command line *)

(** The forms of an option, with their dashes, and an argument that is none. *)
Inductive form :=
| KeyEqual (two : bool) (key value : bytes)
| KeyThen (two : bool) (key value : bytes)
| KeyNumber (two : bool) (letter : ascii) (number : bytes)
| Flag (two : bool) (key : bytes)
| Other (arg : bytes).

Definition dashes (two : bool) : bytes := if two then $"--" else $"-".

Definition render (f : form) : list bytes :=
  match f with
  | KeyEqual two key value => [dashes two ++ key ++ $"=" ++ value]
  | KeyThen two key value => [dashes two ++ key; value]
  | KeyNumber two letter number => [dashes two ++ letter :: number]
  | Flag two key => [dashes two ++ key]
  | Other arg => [arg]
  end.

Definition meaning (opts : gmap bytes TestlibOpt) (f : form) : gmap bytes TestlibOpt :=
  match f with
  | KeyEqual _ key value | KeyThen _ key value => set_opt key value opts
  | KeyNumber _ letter number => set_opt [letter] number opts
  | Flag _ key => set_opt key ($"true") opts
  | Other _ => opts
  end.

Definition alpha_first (s : bytes) : Prop := exists c k, s = c :: k /\ isalpha c = true.
Definition good_key (key : bytes) : Prop := "="%char ∉ key /\ alpha_first key.

Definition good_form (f : form) : Prop :=
  match f with
  | KeyEqual _ key _ => good_key key
  | KeyThen _ key value => good_key key /\ getOptType value = 0
  | KeyNumber _ letter number =>
      good_key (letter :: number) /\ exists d n, number = d :: n /\ is_digit d = true
  | Flag _ key => good_key key /\ (1 < zlen key -> is_digit (char_at key 1) = false)
  | Other arg => getOptType arg = 0
  end.

(** A flag takes an argument that follows it and is no option. *)
Definition takes_next (f : form) : bool :=
  match f with KeyNumber _ _ _ | Flag _ _ => true | _ => false end.

Definition is_other (f : form) : bool := match f with Other _ => true | _ => false end.

Fixpoint good_line (fs : list form) : Prop :=
  match fs with
  | [] => True
  | f :: fs => good_form f
               /\ (takes_next f = true -> match fs with g :: _ => is_other g = false | [] => True end)
               /\ good_line fs
  end.

Lemma char_at_lookup s i x : 0 <= i -> s !! Z.to_nat i = Some x -> char_at s i = x.
Proof.
  intros Hi Hx. pose proof (lookup_lt_Some _ _ _ Hx). unfold char_at, znth, zlen.
  rewrite (proj2 (Z.ltb_ge _ _)), (proj2 (Z.leb_gt _ _)) by lia. simpl. by rewrite Hx.
Qed.

Lemma alpha_first_app s t : alpha_first s -> alpha_first (s ++ t).
Proof. intros (c & k & -> & Hc). by exists c, (k ++ t). Qed.

Lemma getOptType_key (two : bool) (s : bytes) : alpha_first s ->
  getOptType (dashes two ++ s) = if two then 2 else 1.
Proof.
  intros (c & k & -> & Hc). unfold getOptType.
  assert (Hl : 1 < zlen (dashes two ++ c :: k)).
  { assert (1 <= zlen (dashes two)) by (by destruct two).
    rewrite zlen_app, zlen_cons. pose proof (zlen_nonneg k). lia. }
  rewrite (proj2 (Z.leb_gt _ _)) by done. destruct two.
  - rewrite (char_at_lookup _ 0 "-"%char), (char_at_lookup _ 1 "-"%char), (char_at_lookup _ 2 c) by done.
    rewrite bool_decide_true by done. simpl. by rewrite Hc.
  - rewrite (char_at_lookup _ 0 "-"%char), (char_at_lookup _ 1 c) by done.
    rewrite bool_decide_true by done. by rewrite Hc.
Qed.

Lemma zdrop_dashes (two : bool) (key : bytes) : zdrop (if two then 2 else 1) (dashes two ++ key) = key.
Proof. rewrite zdrop_drop by (by destruct two). by destruct two. Qed.

Lemma find_char_none c (s : bytes) : c ∉ s -> find_char c s = None.
Proof.
  induction s as [|d s IH]; [done|]. intros [Hd Hs]%not_elem_of_cons. simpl.
  destruct (decide (d = c)); [congruence|]. by rewrite IH.
Qed.

Lemma find_char_at c (s t : bytes) : c ∉ s -> find_char c (s ++ c :: t) = Some (zlen s).
Proof.
  induction s as [|d s IH]; intros Hs.
  - simpl. by destruct (decide (c = c)).
  - apply not_elem_of_cons in Hs as [Hd Hs]. simpl. destruct (decide (d = c)); [congruence|].
    rewrite IH by done. simpl. by rewrite zlen_cons, Z.add_comm.
Qed.

Lemma zdrop_app_length {A} (l k : list A) : zdrop (zlen l) (l ++ k) = k.
Proof.
  rewrite zdrop_drop by apply zlen_nonneg. unfold zlen. rewrite Nat2Z.id. apply drop_app_length.
Qed.

Lemma ztake_app_length {A} (l k : list A) : ztake (zlen l) (l ++ k) = l.
Proof.
  rewrite ztake_take by apply zlen_nonneg. unfold zlen. rewrite Nat2Z.id. apply take_app_length.
Qed.

Lemma znth_app_length {A} (l k : list A) : znth (l ++ k) (zlen l) = head k.
Proof.
  unfold znth. rewrite zlen_app. destruct k as [|x k].
  - by rewrite (proj2 (Z.leb_le _ _)), orb_true_r by (unfold zlen at 2; simpl; lia).
  - rewrite zlen_cons. pose proof (zlen_nonneg l). pose proof (zlen_nonneg k).
    rewrite (proj2 (Z.ltb_ge _ _)), (proj2 (Z.leb_gt _ _)) by lia. simpl.
    unfold zlen. by rewrite Nat2Z.id, lookup_app_r, Nat.sub_diag by lia.
Qed.

Lemma substr_0 (s : bytes) n : substr s 0 n = ztake n s.
Proof. unfold substr. by rewrite zdrop_drop. Qed.

(** The key that is left without an equals sign. *)
Lemma parse_pair_bare (two : bool) (key : bytes) next : "="%char ∉ key ->
  parse_pair (dashes two ++ key) (if two then 2 else 1) next
  = match next with
    | Some value =>
        if getOptType value =? 0 then (key, value, 2)
        else if (1 <? zlen key) && is_digit (char_at key 1)
        then (substr key 0 1, zdrop 1 key, 1) else (key, $"true", 1)
    | None => if (1 <? zlen key) && is_digit (char_at key 1)
              then (substr key 0 1, zdrop 1 key, 1) else (key, $"true", 1)
    end.
Proof. intros H. unfold parse_pair. by rewrite zdrop_dashes, find_char_none. Qed.

Lemma parse_pair_equal (two : bool) (key value : bytes) next : "="%char ∉ key ->
  parse_pair (dashes two ++ key ++ $"=" ++ value) (if two then 2 else 1) next = (key, value, 1).
Proof.
  intros H. unfold parse_pair. rewrite zdrop_dashes.
  change (key ++ $"=" ++ value) with (key ++ "="%char :: value). rewrite find_char_at by done.
  rewrite substr_0, (ztake_app_length key).
  replace (key ++ "="%char :: value) with ((key ++ $"=") ++ value) by (by rewrite <- app_assoc).
  replace (zlen key + 1) with (zlen (key ++ $"=")) by (by rewrite zlen_app).
  by rewrite zdrop_app_length.
Qed.

(** No argument follows, or one that is an option. *)
Definition no_value (next : option bytes) : Prop :=
  match next with Some value => getOptType value <> 0 | None => True end.

Lemma parse_pair_alone (two : bool) (key : bytes) next : "="%char ∉ key -> no_value next ->
  parse_pair (dashes two ++ key) (if two then 2 else 1) next
  = if (1 <? zlen key) && is_digit (char_at key 1)
    then (substr key 0 1, zdrop 1 key, 1) else (key, $"true", 1).
Proof.
  intros H Hn. rewrite parse_pair_bare by done. destruct next as [value|]; [|done].
  simpl in Hn. by rewrite (proj2 (Z.eqb_neq _ _)).
Qed.

(** One option at the head of the arguments that are left. *)
Lemma parseOpt_form pre f rest opts : good_form f -> (takes_next f = true -> no_value (head rest)) ->
  parseOpt (pre ++ render f ++ rest) (zlen pre) opts = (zlen (render f), meaning opts f).
Proof.
  intros Hf Hnext. unfold parseOpt. rewrite znth_app_length.
  assert (Hsecond : forall x l, znth (pre ++ x :: l) (zlen pre + 1) = head l).
  { intros x l. replace (pre ++ x :: l) with ((pre ++ [x]) ++ l) by (by rewrite <- app_assoc).
    replace (zlen pre + 1) with (zlen (pre ++ [x])) by (by rewrite zlen_app). apply znth_app_length. }
  destruct f as [two key value|two key value|two letter number|two key|x]; cbn [render app meaning];
    rewrite ?Hsecond; cbn [head].
  - destruct Hf as [Heq Hk]. rewrite getOptType_key by by apply alpha_first_app.
    rewrite parse_pair_equal by done. by destruct two.
  - destruct Hf as [[Heq Hk] Hv]. rewrite getOptType_key, parse_pair_bare by done.
    rewrite Hv. by destruct two.
  - destruct Hf as ([Heq Hk] & d & n & -> & Hd). rewrite getOptType_key, parse_pair_alone by auto.
    rewrite (char_at_lookup _ 1 d), Hd, andb_true_r by done.
    rewrite (proj2 (Z.ltb_lt 1 (zlen _))) by (rewrite !zlen_cons; pose proof (zlen_nonneg n); lia).
    rewrite substr_0, ztake_take, zdrop_drop by done. by destruct two.
  - destruct Hf as [[Heq Hk] Hd]. rewrite getOptType_key, parse_pair_alone by auto.
    destruct (Z.ltb_spec 1 (zlen key)); cbn [andb]; [rewrite Hd by done|]; by destruct two.
  - cbn in Hf. rewrite Hf. done.
Qed.

Lemma render_option f fs : good_form f -> is_other f = false ->
  no_value (head (render f ++ mbind render fs)).
Proof.
  assert (H : forall (two : bool) s, alpha_first s -> getOptType (dashes two ++ s) <> 0)
    by (intros two s Hs; rewrite getOptType_key by done; by destruct two).
  destruct f as [two key value|two key value|two letter number|two key|x]; cbn; intros Hf Hi; try done;
    apply H.
  - destruct Hf as [_ Hk]. by apply (alpha_first_app _ ($"=" ++ value)).
  - apply Hf.
  - apply Hf.
  - apply Hf.
Qed.

Lemma render_length f : 1 <= zlen (render f).
Proof. by destruct f. Qed.

Lemma parse_all_forms fs fuel pre opts : good_line fs ->
  (length (mbind render fs) <= fuel)%nat ->
  parse_all fuel (pre ++ mbind render fs) (zlen pre) opts = foldl meaning opts fs.
Proof.
  revert fuel pre opts. induction fs as [|f fs IH]; intros fuel pre opts Hg Hfuel.
  - simpl. rewrite app_nil_r. destruct fuel; [done|]. simpl. by rewrite Z.ltb_irrefl.
  - destruct Hg as (Hf & Hn & Hg). rewrite bind_cons in *. rewrite length_app in Hfuel.
    pose proof (render_length f) as Hl. unfold zlen in Hl.
    destruct fuel as [|fuel]; [lia|]. cbn [parse_all].
    rewrite (proj2 (Z.ltb_lt _ _)) by (rewrite !zlen_app; pose proof (zlen_nonneg (mbind render fs)); unfold zlen; lia).
    rewrite parseOpt_form; [|done|].
    + rewrite app_assoc. replace (zlen pre + zlen (render f)) with (zlen (pre ++ render f))
        by apply zlen_app. apply IH; [done|lia].
    + intros Ht. destruct fs as [|g fs]; [done|]. destruct Hg as (Hg & _).
      by apply render_option; [|apply Hn].
Qed.

Lemma prepare_options prog fs w : good_line fs ->
  prepareOpts (prog :: mbind render fs) w
  = MRet tt (put_testlib_argv (prog :: mbind render fs)
               (put_testlib_opts (foldl meaning ∅ fs) w)).
Proof.
  intros Hg. unfold prepareOpts. rewrite zlen_cons.
  rewrite (proj2 (Z.leb_gt _ _)) by (pose proof (zlen_nonneg (mbind render fs)); lia).
  unfold bind, modify. repeat f_equal.
  apply (parse_all_forms fs _ [prog] ∅ Hg). simpl. lia.
Qed.

Definition sample_line : list form :=
  [KeyEqual true ($"test-count") ($"20"); KeyThen false ($"n") ($"10"); KeyNumber false "t"%char ($"5");
   Flag true ($"tree-only"); KeyEqual false ($"n") ($"11"); Other ($"input.txt")].

Lemma sample_good : good_line sample_line.
Proof.
  assert (K : forall key, bool_decide ("="%char ∉ key) && match key with c :: _ => isalpha c | [] => false end
                          = true -> good_key key).
  { intros [|c k] [H%bool_decide_eq_true Hc]%andb_true_iff; [done|]. split; [done|]. by exists c, k. }
  unfold sample_line. cbn [good_line good_form].
  repeat split; try done; try (apply K; vm_compute; reflexivity); try (vm_compute; congruence).
  - by exists "5"%char, [].
Qed.

Example sample_values : (fun key => opt_value <$> foldl meaning ∅ sample_line !! key)
    <$> [ $"test-count"; $"n"; $"t"; $"tree-only"; $"x" ]
  = [Some ($"20"); Some ($"11"); Some ($"5"); Some ($"true"); None].
Proof. vm_compute. reflexivity. Qed.

(** ** Integers *)

(** The four integral types of the model. *)
Definition machine_type (T : int_type) : Prop := width T = 32 \/ width T = 64.

(** The magnitudes whose text is read without an intermediate overflow: the
    code computes [value * 10 + s[i] - '0'] from left to right. *)
Definition readable (T : int_type) (v : Z) : Prop :=
  0 <= v /\ v + 48 < 2 ^ 64 /\ (if signed T then v + 48 < 2 ^ (width T - 1) else v < 2 ^ width T).

Definition ld (z : Z) : ldouble := of_Z 64 16384 z.

(** One digit more, in the integral type and in [long double]. *)
Lemma digit_step T v d : machine_type T -> 0 <= v -> 0 <= d <= 9 -> readable T (v * 10 + d) ->
  (val* tens := arith T (v * 10) in
   val* sum := arith T (tens + (48 + d)) in arith T (sum - 48)) = Value (v * 10 + d).
Proof.
  intros HT Hv Hd (Hr0 & Hr1 & Hr2). unfold arith in *.
  destruct HT as [HT|HT]; rewrite HT in *; revert Hr2; destruct (signed T); intros Hr2;
    change (32 - 1) with 31 in *; change (64 - 1) with 63 in *.
  1, 3: do 3 (rewrite (proj2 (Z.leb_le _ _)), (proj2 (Z.ltb_lt _ _)) by lia; cbn [andb vbind]); f_equal; lia.
  - rewrite (uwrap_small 32 (v * 10)) by lia. simpl. f_equal.
    unfold uwrap. rewrite Zminus_mod_idemp_l. rewrite Z.mod_small by lia. lia.
  - rewrite (uwrap_small 64 (v * 10)) by lia. simpl. rewrite (uwrap_small 64 (v * 10 + (48 + d))) by lia. simpl.
    rewrite uwrap_small by lia. f_equal. lia.
Qed.

Lemma about_step v d : 0 <= v -> 0 <= d <= 9 -> v * 10 + d + 48 < 2 ^ 64 ->
  lsub (ladd (lmul (ld v) (ldouble_of_Z 10)) (ldouble_of_Z (48 + d))) (ldouble_of_Z 48)
  = ld (v * 10 + d).
Proof.
  intros Hv Hd Hr. unfold lsub, ladd, lmul, ld, ldouble_of_Z.
  fold (of_Z 64 16384 10) (of_Z 64 16384 (48 + d)) (of_Z 64 16384 48).
  rewrite mul_exact, add_exact, sub_exact by lia. f_equal. lia.
Qed.

Definition accumulate (v : Z) (s : bytes) : Z :=
  foldl (fun acc c => acc * 10 + (char_to_int c - 48)) v s.

Lemma accumulate_ge s v : digits s -> 0 <= v -> v <= accumulate v s.
Proof.
  intros Hs. revert v. induction Hs as [|c s Hc _ IH]; intros v Hv; [done|].
  apply is_digit_range in Hc. change (accumulate v (c :: s)) with (accumulate (v * 10 + (char_to_int c - 48)) s).
  specialize (IH (v * 10 + (char_to_int c - 48))). lia.
Qed.

Lemma readable_le T v w : 0 <= v <= w -> readable T w -> readable T v.
Proof. intros Hv (H0 & H1 & H2). split; [lia|]. split; [lia|]. destruct (signed T); lia. Qed.

Lemma integral_loop_digits T s_ s v : machine_type T -> digits s -> 0 <= v ->
  readable T (accumulate v s) ->
  integral_loop T s_ s v (ld v) = Value (accumulate v s, ld (accumulate v s)).
Proof.
  intros HT Hs. revert v. induction Hs as [|c s Hc Hs IH]; intros v Hv Hr; [done|].
  apply is_digit_range in Hc. cbn [integral_loop].
  change (accumulate v (c :: s)) with (accumulate (v * 10 + (char_to_int c - 48)) s) in *.
  set (d := char_to_int c - 48) in *. replace (char_to_int c) with (48 + d) by lia.
  rewrite (proj2 (Z.ltb_ge (48 + d) 48)), (proj2 (Z.ltb_ge 57 (48 + d))) by lia. simpl orb. cbv iota.
  pose proof (accumulate_ge s (v * 10 + d) Hs ltac:(lia)) as Hge.
  pose proof (readable_le T _ _ (conj (ltac:(lia) : 0 <= v * 10 + d) Hge) Hr) as Hr'.
  pose proof (digit_step T v d HT Hv ltac:(lia) Hr') as E.
  destruct (arith T (v * 10)) as [tens|m|]; [|done|done]. simpl in E |- *.
  destruct (arith T (tens + (48 + d))) as [sum|m|]; [|done|done]. simpl in E |- *.
  destruct Hr' as (_ & Hr1 & _). rewrite E, about_step by lia. simpl. apply IH; [lia|done].
Qed.

(** The value and its [long double] agree, so no overflow is reported. *)
Lemma no_overflow z : Z.abs z < 2 ^ 64 ->
  SFltb (ldouble_of (decimal false 1 (-1))) (SFabs (lsub (ldouble_of_Z z) (ld z))) = false.
Proof.
  intros Hz. unfold lsub, ld, ldouble_of_Z. fold (of_Z 64 16384 z).
  rewrite sub_exact by lia. rewrite Z.sub_diag. vm_compute. reflexivity.
Qed.

Lemma arith_sign T v (minus : bool) : machine_type T -> readable T v -> (minus = true -> signed T = true) ->
  arith T (v * (if minus then -1 else 1)) = Value (v * (if minus then -1 else 1)).
Proof.
  intros HT (H0 & H1 & H2) Hm. unfold arith.
  destruct HT as [HT|HT]; rewrite HT in *; revert Hm H2; destruct (signed T); intros Hm H2;
    change (32 - 1) with 31 in *; change (64 - 1) with 63 in *.
  1, 3: by rewrite (proj2 (Z.leb_le _ _)), (proj2 (Z.ltb_lt _ _)) by (destruct minus; lia).
  all: destruct minus; [by specialize (Hm eq_refl)|]; by rewrite uwrap_small by lia.
Qed.

(** [minus] and the digits [s] of [v]. *)
Lemma integral_of_digits T nonnegative s_ (minus : bool) s :
  machine_type T -> digits s -> s <> [] -> readable T (digits_value s) ->
  (minus = true -> signed T = true /\ nonnegative = false /\ digits_value s <> 0) ->
  integral_of T nonnegative s_ ((if minus then $"-" else []) ++ s)
  = Value (digits_value s * (if minus then -1 else 1)).
Proof.
  intros HT Hs Hne Hr Hm.
  assert (E : integral_loop T s_ s 0 dzero = Value (digits_value s, ld (digits_value s)))
    by apply (integral_loop_digits T s_ s 0 HT Hs ltac:(lia) Hr).
  assert (H : forall b : bool, b = minus -> integral_of T nonnegative s_ ((if minus then $"-" else []) ++ s)
    = if minus && nonnegative then refuse ($"non-negative integer") s_
      else val* (value, about) := integral_loop T s_ s 0 dzero in
           val* value := arith T (value * (if minus then -1 else 1)) in
           let about := lmul about (ldouble_of_Z (if minus then -1 else 1)) in
           if SFltb (ldouble_of (decimal false 1 (-1))) (SFabs (lsub (ldouble_of_Z value) about))
           then Refused ($"Opts: integer overflow: expected integer but '" ++ compress s_ ++ $"' found")
           else Value value).
  { intros b _. destruct minus; [done|]. destruct s as [|c s']; [done|]. simpl app. unfold integral_of.
    rewrite (bool_decide_false (c = "-"%char)); [done|].
    apply Forall_inv in Hs. intros ->. vm_compute in Hs. discriminate. }
  rewrite (H minus eq_refl), E. clear H E.
  replace (minus && nonnegative) with false
    by (destruct minus; [by destruct Hm as (_ & -> & _)|done]).
  simpl. rewrite arith_sign by (done || (intros Em; by apply Hm)). simpl.
  destruct Hr as (Hr0 & Hr1 & _).
  assert (Ea : lmul (ld (digits_value s)) (ldouble_of_Z (if minus then -1 else 1))
               = ld (digits_value s * (if minus then -1 else 1))).
  { unfold lmul, ld, ldouble_of_Z. fold (of_Z 64 16384 (if minus then -1 else 1)).
    destruct minus; apply mul_exact; try lia. }
  rewrite Ea, no_overflow; [done|]. destruct minus; lia.
Qed.

Lemma mark_loop_none s_ s i pos : Forall (fun c => is_mark c = false) s ->
  mark_loop s_ s i pos = Value pos.
Proof.
  intros H. revert i. induction H as [|c s Hc _ IH]; intros i; [done|]. simpl. by rewrite Hc.
Qed.

Lemma digit_not_mark c : is_digit c = true -> is_mark c = false.
Proof.
  intros H. unfold is_mark. by rewrite !bool_decide_false by (intros ->; vm_compute in H; discriminate).
Qed.

Lemma no_exponent depth s : Forall (fun c => is_mark c = false) s ->
  parse_exponential (S depth) s = Value s.
Proof. intros H. cbn [parse_exponential]. by rewrite mark_loop_none. Qed.

Lemma vtos_split n : exists s, digits s /\ s <> [] /\ digits_value s = Z.abs n
  /\ vtos n = (if n <? 0 then $"-" else []) ++ s.
Proof.
  destruct (Z.ltb_spec n 0) as [Hn|Hn].
  - destruct (vtos_nonneg (- n) ltac:(lia)) as [(Hd & Hne & _) Hv].
    exists (vtos (- n)). split; [done|]. split; [done|]. split; [lia|].
    replace n with (- (- n)) at 1 by lia. by rewrite vtos_neg by lia.
  - destruct (vtos_nonneg n Hn) as [(Hd & Hne & _) Hv]. exists (vtos n). repeat split; [done..|lia].
Qed.

Lemma read_integral T n : machine_type T -> readable T (Z.abs n) -> (n < 0 -> signed T = true) ->
  optValueToIntegral T (vtos n) (negb (signed T)) = Value n.
Proof.
  intros HT Hr Hn. destruct (vtos_split n) as (s & Hd & Hne & Hv & E).
  unfold optValueToIntegral, parseExponentialOptValue. rewrite no_exponent.
  - simpl. rewrite E. rewrite integral_of_digits; rewrite ?Hv; [|done..|].
    + destruct (Z.ltb_spec n 0); f_equal; lia.
    + intros H%Z.ltb_lt. rewrite Hn by done. repeat split. lia.
  - rewrite E. apply Forall_app. split; [by destruct (n <? 0); repeat constructor|].
    eapply Forall_impl; [|exact Hd]. apply digit_not_mark.
Qed.

(** C37: the options a command line was rendered from are the ones
    [prepareOpts] finds in it, in the four forms of the documentation, with
    later values of a key replacing earlier ones, and the arguments are kept as
    they are; and an option whose value is the decimal text of an integer is
    read as that integer at every integral type that can hold it with 48 to spare
    (the code adds the character before it subtracts ['0']; the largest 48
    values of a signed type overflow, and so do the [long double] companions
    of the largest [unsigned long long] values). *)
Theorem options_roundtrip prog fs w : good_line fs ->
  prepareOpts (prog :: mbind render fs) w
  = MRet tt (put_testlib_argv (prog :: mbind render fs) (put_testlib_opts (foldl meaning ∅ fs) w))
  /\ forall T n, machine_type T -> readable T (Z.abs n) -> (n < 0 -> signed T = true) ->
       integral_value T (vtos n) w = MRet n w.
Proof.
  intros Hg. split; [by apply prepare_options|]. intros T n HT Hr Hn. unfold integral_value. by rewrite read_integral.
Qed.

Lemma options_roundtrip_witness :
  let w := initial_world (MkEnv ∅ (fun _ => true) (fun _ => true) [] false) in
  prepareOpts ($"gen" :: mbind render sample_line) w
  = MRet tt (put_testlib_argv ($"gen" :: mbind render sample_line)
               (put_testlib_opts (foldl meaning ∅ sample_line) w))
  /\ integral_value T_int ($"-2147483599") w = MRet (-2147483599) w.
Proof.
  intros w. destruct (options_roundtrip ($"gen") sample_line w sample_good) as [H1 H2]. split; [exact H1|].
  apply (H2 T_int (-2147483599)); [by left| |done]. repeat split; vm_compute; congruence.
Defined.

(** At the boundary: the largest [int] is undefined, the largest [unsigned
    long long] is refused. *)
Example boundary_int : optValueToIntegral T_int ($"2147483647") false = Undefined.
Proof. vm_compute. reflexivity. Qed.
Example boundary_ull : optValueToIntegral T_ull ($"18446744073709551615") true
  = Refused ($"Opts: integer overflow: expected integer but '18446744073709551615' found").
Proof. vm_compute. reflexivity. Qed.
