(* ===== verification/ExponentSpec.v ===== *)
(** * The exponential notation of option values

    [parseExponentialOptValue] moves the decimal point of the text before the
    mark; what it writes is the canonical decimal text of the value. *)

From Stdlib Require Import SpecFloat QArith Qpower.
From S2P Require Import Prelude Text TextSpec Doubles Readers Validator Streams World Pattern Reading Numbers NumbersSpec Register Opts FloatSpec OptsSpec.

#[local] Open Scope Z_scope.

(** ** Decimal texts *)

(** The digits before and after an optional point. *)
Abbreviation point_char := "."%char (only parsing).
Definition number (a b : bytes) (point : bool) : bytes := a ++ (if point then point_char :: b else []).

Definition well_formed (a b : bytes) (point : bool) : Prop :=
  digits a /\ digits b /\ (point = false -> b = []).

Definition value (a b : bytes) : Q := (inject_Z (digits_value (a ++ b)) * Qpower 10 (- zlen b))%Q.

(** No superfluous zero on either side of the point. *)
Definition canonical_number (a b : bytes) (point : bool) : Prop :=
  canonical_nat a /\ (point = true -> b <> [] /\ list.last b <> Some "0"%char).

Lemma digit_not_point c : is_digit c = true -> c <> point_char.
Proof. intros H ->. vm_compute in H. discriminate. Qed.

Lemma digits_no_point s : digits s -> point_char ∉ s.
Proof.
  intros H Hin. unfold digits in H. rewrite Forall_forall in H. apply list_elem_of_In in Hin.
  by apply (digit_not_point _ (H _ Hin)).
Qed.

Lemma digits_app s t : digits (s ++ t) <-> digits s /\ digits t.
Proof. unfold digits. by rewrite Forall_app. Qed.

Lemma digits_value_app s t : digits_value (s ++ t) = digits_value s * 10 ^ zlen t + digits_value t.
Proof.
  unfold digits_value. rewrite foldl_app. generalize (foldl (fun acc c => acc * 10 + (char_to_int c - 48)) 0 s) as v.
  assert (H : forall t v, foldl (fun acc c => acc * 10 + (char_to_int c - 48)) v t
    = v * 10 ^ zlen t + foldl (fun acc c => acc * 10 + (char_to_int c - 48)) 0 t).
  { clear. intros t. induction t as [|c t IH]; intros v; [unfold zlen; simpl; lia|].
    simpl. rewrite IH, (IH (0 * 10 + _)), zlen_cons, Z.pow_add_r by (pose proof (zlen_nonneg t); lia). lia. }
  intros v. apply H.
Qed.

Lemma find_point a b : digits a -> find_char point_char (number a b true) = Some (zlen a).
Proof. intros Ha. apply find_char_at, digits_no_point, Ha. Qed.

Lemma find_no_point a : digits a -> find_char point_char (number a [] false) = None.
Proof.
  intros Ha. unfold number. rewrite app_nil_r. apply find_char_none, digits_no_point, Ha.
Qed.

Lemma well_formed_whole a : digits a -> well_formed a [] false.
Proof. intros H. split; [done|]. split; [constructor|done]. Qed.

Lemma number_nonempty a c b point : number (a ++ [c]) b point <> [].
Proof. unfold number. by destruct a. Qed.

(** ** Moving the point *)

Lemma Qpower_10_pred z : (Qpower 10 (z - 1) * 10 == Qpower 10 z)%Q.
Proof.
  replace (Qpower 10 z) with (Qpower 10 (z - 1 + 1)) by (f_equal; lia).
  rewrite Qpower_plus by discriminate. reflexivity.
Qed.

Lemma put_char_at (s t : bytes) c d : put_char (zlen s) c (s ++ d :: t) = s ++ c :: t.
Proof.
  unfold put_char. rewrite ztake_app_length.
  replace (s ++ d :: t) with ((s ++ [d]) ++ t) by (by rewrite <- app_assoc).
  replace (zlen s + 1) with (zlen (s ++ [d])) by (by rewrite zlen_app).
  by rewrite zdrop_app_length.
Qed.

Lemma char_at_app (s t : bytes) c : char_at (s ++ c :: t) (zlen s) = c.
Proof. unfold char_at. by rewrite znth_app_length. Qed.

(** A move of the point: a well-formed text whose value is scaled. *)
Definition scaled (a b : bytes) (k : Z) (num : bytes) : Prop :=
  exists a' b' point', num = number a' b' point' /\ well_formed a' b' point'
    /\ number a' b' point' <> [] /\ (value a' b' == value a b * Qpower 10 k)%Q.

Lemma mul_ten_scaled a b point : well_formed a b point -> scaled a b 1 (mul_ten (number a b point)).
Proof.
  intros (Ha & Hb & Hp). unfold mul_ten.
  assert (Hzero : digits (a ++ $"0")) by (apply digits_app; split; [done|by repeat constructor]).
  assert (Hvalue : b = [] -> (value (a ++ $"0") [] == value a b * Qpower 10 1)%Q).
  { intros ->. unfold value. rewrite !app_nil_r, digits_value_app. change (digits_value ($"0")) with 0.
    change (10 ^ zlen ($"0")) with 10. rewrite Z.add_0_r, inject_Z_mult. change (- zlen []) with 0.
    change (inject_Z 10) with 10%Q. ring. }
  destruct point.
  - rewrite find_point by done. destruct b as [|c b].
    + unfold number at 1. rewrite zlen_app, (proj2 (Z.eqb_eq _ _)) by done.
      exists (a ++ $"0"), [], false. split; [unfold number; by rewrite put_char_at, app_nil_r|].
      split; [by apply well_formed_whole|]. split; [apply number_nonempty|by apply Hvalue].
    + unfold number at 1. rewrite zlen_app, !zlen_cons.
      rewrite (proj2 (Z.eqb_neq _ _)) by (pose proof (zlen_nonneg b); lia).
      exists (a ++ [c]), b, true. apply Forall_cons_iff in Hb as [Hc Hb]. unfold number.
      assert (E : a ++ point_char :: c :: b = (a ++ [point_char]) ++ c :: b) by (by rewrite <- app_assoc).
      assert (Hl : zlen a + 1 = zlen (a ++ [point_char])) by (by rewrite zlen_app).
      rewrite Hl, E, char_at_app, put_char_at, <- app_assoc. simpl app. rewrite put_char_at.
      split; [by rewrite <- app_assoc|]. split; [split; [apply digits_app; split; [done|by constructor]|done]|].
      split; [apply (number_nonempty a c b true)|]. unfold value. rewrite <- app_assoc, zlen_cons. simpl app.
      rewrite <- (Qpower_10_pred (- zlen b)). change (Qpower 10 1) with 10%Q.
      replace (- (1 + zlen b)) with (- zlen b - 1) by lia. ring.
  - rewrite (Hp eq_refl), find_no_point by done. exists (a ++ $"0"), [], false.
    split; [unfold number; by rewrite !app_nil_r|].
    split; [by apply well_formed_whole|]. split; [apply number_nonempty|].
    rewrite (Hp eq_refl) in Hvalue. by apply Hvalue.
Qed.

Lemma insert_char_at (s t : bytes) c : insert_char (zlen s) c (s ++ t) = s ++ c :: t.
Proof. unfold insert_char. by rewrite ztake_app_length, zdrop_app_length. Qed.

(** The last digit before the point moves behind it. *)
Lemma value_shift a c b : (value a (c :: b) == value (a ++ [c]) b * Qpower 10 (-1))%Q.
Proof.
  unfold value. rewrite <- app_assoc, zlen_cons. simpl app.
  replace (- (1 + zlen b)) with (- zlen b + -1) by lia.
  rewrite (Qpower_plus 10 (- zlen b) (-1)) by discriminate. ring.
Qed.

Lemma value_zero_front b : (value [] ("0"%char :: b) == value [] b * Qpower 10 (-1))%Q.
Proof.
  unfold value. simpl app. rewrite zlen_cons.
  replace (- (1 + zlen b)) with (- zlen b + -1) by lia.
  rewrite (Qpower_plus 10 (- zlen b) (-1)) by discriminate.
  change (digits_value ("0"%char :: b)) with (digits_value b). ring.
Qed.

Lemma div_ten_scaled a b point : well_formed a b point -> number a b point <> [] ->
  exists num, div_ten (number a b point) = Value num /\ scaled a b (-1) num.
Proof.
  intros (Ha & Hb & Hp) Hne. unfold div_ten. destruct point.
  - rewrite find_point by done. destruct a as [|c a _] using rev_ind.
    + exists (number [] ("0"%char :: b) true). split; [|].
      { change (zlen []) with 0. rewrite Z.eqb_refl. f_equal. change 1 with (zlen [point_char]) at 1.
        apply (insert_char_at [point_char] b). }
      exists [], ("0"%char :: b), true. split; [done|]. split; [|split; [done|apply value_zero_front]].
      split; [done|]. split; [by constructor|done].
    + rewrite zlen_app. change (zlen [c]) with 1.
      rewrite (proj2 (Z.eqb_neq _ _)) by (pose proof (zlen_nonneg a); lia).
      exists (number a (c :: b) true). apply digits_app in Ha as [Ha Hc]. apply Forall_inv in Hc.
      split.
      { f_equal. replace (zlen a + 1 - 1) with (zlen a) by lia. unfold number.
        replace ((a ++ [c]) ++ point_char :: b) with (a ++ c :: point_char :: b) at 1 2
          by (by rewrite <- app_assoc).
        rewrite char_at_app, (put_char_at a (point_char :: b) point_char c).
        replace (a ++ point_char :: point_char :: b) with ((a ++ [point_char]) ++ point_char :: b)
          by (by rewrite <- app_assoc).
        replace (zlen a + 1) with (zlen (a ++ [point_char])) by (by rewrite zlen_app).
        rewrite put_char_at. by rewrite <- app_assoc. }
      exists a, (c :: b), true. split; [done|]. split; [split; [done|]; split; [by constructor|done]|].
      split; [by destruct a|apply value_shift].
  - rewrite (Hp eq_refl) in *. rewrite find_no_point by done.
    destruct a as [|c a _] using rev_ind; [done|].
    unfold number. rewrite app_nil_r, zlen_app. change (zlen [c]) with 1.
    rewrite (proj2 (Z.eqb_neq _ _)) by (pose proof (zlen_nonneg a); lia).
    exists (number a [c] true). apply digits_app in Ha as [Ha Hc]. split.
    { f_equal. replace (zlen a + 1 - 1) with (zlen a) by lia. apply insert_char_at. }
    exists a, [c], true. split; [done|]. split; [split; [done|]; split; [done|done]|].
    split; [by destruct a|apply value_shift].
Qed.

Lemma scaled_trans a b k1 a' b' k2 num :
  (value a' b' == value a b * Qpower 10 k1)%Q -> scaled a' b' k2 num -> scaled a b (k1 + k2) num.
Proof.
  intros E (a2 & b2 & p2 & -> & Hw & Hne & E2). exists a2, b2, p2. split; [done|]. split; [done|].
  split; [done|]. rewrite E2, E, Qpower_plus by discriminate. ring.
Qed.

Lemma scaled_here a b point : well_formed a b point -> number a b point <> [] ->
  scaled a b 0 (number a b point).
Proof. intros Hw Hne. exists a, b, point. repeat split; try apply Hw; [done|]. rewrite Qmult_1_r. reflexivity. Qed.

Lemma times_mul_ten n a b point : well_formed a b point -> number a b point <> [] ->
  exists num, times n (fun num => Value (mul_ten num)) (number a b point) = Value num
    /\ scaled a b (Z.of_nat n) num.
Proof.
  revert a b point. induction n as [|n IH]; intros a b point Hw Hne.
  - exists (number a b point). split; [done|]. by apply scaled_here.
  - cbn [times vbind]. destruct (mul_ten_scaled a b point Hw) as (a' & b' & p' & -> & Hw' & Hne' & E).
    destruct (IH a' b' p' Hw' Hne') as (num & Hnum & Hs). exists num. split; [done|].
    replace (Z.of_nat (S n)) with (1 + Z.of_nat n) by lia. by eapply scaled_trans.
Qed.

Lemma times_div_ten n a b point : well_formed a b point -> number a b point <> [] ->
  exists num, times n div_ten (number a b point) = Value num /\ scaled a b (- Z.of_nat n) num.
Proof.
  revert a b point. induction n as [|n IH]; intros a b point Hw Hne.
  - exists (number a b point). split; [done|]. by apply scaled_here.
  - cbn [times]. destruct (div_ten_scaled a b point Hw Hne) as (num1 & -> & a' & b' & p' & -> & Hw' & Hne' & E).
    cbn [vbind]. destruct (IH a' b' p' Hw' Hne') as (num & Hnum & Hs). exists num. split; [done|].
    replace (- Z.of_nat (S n)) with (-1 + - Z.of_nat n) by lia. by eapply scaled_trans.
Qed.

(** Both loops: one of them does not run. *)
Lemma move_point ne a b point : well_formed a b point -> number a b point <> [] ->
  exists num, (val* num := times (Z.to_nat ne) (fun num => Value (mul_ten num)) (number a b point) in
               times (Z.to_nat (- ne)) div_ten num) = Value num /\ scaled a b ne num.
Proof.
  intros Hw Hne. destruct (Z.le_gt_cases 0 ne) as [H|H].
  - destruct (times_mul_ten (Z.to_nat ne) a b point Hw Hne) as (num & -> & Hs).
    replace (Z.to_nat (- ne)) with 0%nat by lia. exists num. split; [done|]. by rewrite Z2Nat.id in Hs.
  - replace (Z.to_nat ne) with 0%nat by lia.
    destruct (times_div_ten (Z.to_nat (- ne)) a b point Hw Hne) as (num & E & Hs).
    exists num. split; [done|]. rewrite Z2Nat.id, Z.opp_involutive in Hs by lia. done.
Qed.

(** ** Superfluous characters *)

Lemma drop_zeroes_split s : exists k, s = replicate k "0"%char ++ drop_zeroes s
  /\ head (drop_zeroes s) <> Some "0"%char.
Proof.
  induction s as [|c s (k & E & H)]; [by exists 0%nat|]. simpl. case_bool_decide as Hc.
  - subst c. exists (S k). simpl. by rewrite <- E.
  - exists 0%nat. split; [done|]. simpl. congruence.
Qed.

Lemma drop_zeroes_app s c t : c <> "0"%char -> drop_zeroes (s ++ c :: t) = drop_zeroes s ++ c :: t.
Proof.
  intros Hc. induction s as [|d s IH]; simpl; [by rewrite bool_decide_false|].
  by case_bool_decide.
Qed.

Lemma drop_zeroes_number a b point : digits a ->
  drop_zeroes (number a b point) = number (drop_zeroes a) b point.
Proof. intros Ha. unfold number. destruct point; [by apply drop_zeroes_app|by rewrite !app_nil_r]. Qed.

Lemma digits_value_zeroes k s : digits_value (replicate k "0"%char ++ s) = digits_value s.
Proof. induction k as [|k IH]; [done|]. simpl. rewrite <- IH. reflexivity. Qed.

Lemma digits_value_last_zeroes k s : digits_value (s ++ replicate k "0"%char) = digits_value s * 10 ^ Z.of_nat k.
Proof.
  rewrite digits_value_app, zlen_replicate.
  replace (digits_value (replicate k "0"%char)) with 0; [lia|].
  pose proof (digits_value_zeroes k []) as H. by rewrite app_nil_r in H.
Qed.

Lemma value_drop_front a b : value (drop_zeroes a) b = value a b.
Proof.
  destruct (drop_zeroes_split a) as (k & E & _). unfold value. rewrite E at 2.
  by rewrite <- app_assoc, digits_value_zeroes.
Qed.

(** [b] without the zeroes at its end. *)
Definition trim_zeroes (b : bytes) : bytes := reverse (drop_zeroes (reverse b)).

Lemma trim_zeroes_split b : exists k, b = trim_zeroes b ++ replicate k "0"%char
  /\ list.last (trim_zeroes b) <> Some "0"%char.
Proof.
  destruct (drop_zeroes_split (reverse b)) as (k & E & H). exists k. unfold trim_zeroes. split.
  - apply (f_equal reverse) in E. by rewrite reverse_involutive, reverse_app, reverse_replicate in E.
  - by rewrite last_reverse_head.
Qed.

Lemma value_trim_end a b : (value a (trim_zeroes b) == value a b)%Q.
Proof.
  destruct (trim_zeroes_split b) as (k & E & _). set (t := trim_zeroes b) in *. clearbody t. subst b.
  unfold value. rewrite app_assoc, digits_value_last_zeroes, zlen_app, zlen_replicate, inject_Z_mult.
  rewrite Zpower_Qpower by lia.
  replace (- (zlen t + Z.of_nat k)) with (- zlen t + - Z.of_nat k) by lia.
  rewrite Qpower_plus by discriminate. change (inject_Z 10) with 10%Q.
  assert (H : (Qpower 10 (Z.of_nat k) * Qpower 10 (- Z.of_nat k) == 1)%Q)
    by (rewrite <- Qpower_plus by discriminate; by rewrite Z.add_opp_diag_r).
  rewrite <- (Qmult_1_r (inject_Z (digits_value (a ++ t)) * Qpower 10 (- zlen t))), <- H. ring.
Qed.

Lemma has_point_number a b point : digits a -> has_point (number a b point) = point.
Proof.
  intros Ha. unfold has_point, number. destruct point.
  - apply bool_decide_true, elem_of_app. right. by left.
  - rewrite app_nil_r. apply bool_decide_false, digits_no_point, Ha.
Qed.

Lemma drop_last_zeroes_number a b point : digits a ->
  drop_last_zeroes (number a b point) = number a (if point then trim_zeroes b else b) point.
Proof.
  intros Ha. unfold drop_last_zeroes. rewrite has_point_number by done. destruct point; [|done].
  unfold number. rewrite reverse_app, reverse_cons, <- app_assoc. simpl.
  rewrite drop_zeroes_app by done. rewrite reverse_app, reverse_cons, reverse_involutive.
  by rewrite <- app_assoc.
Qed.

Lemma last_digit s x : digits s -> list.last s = Some x -> x <> point_char.
Proof.
  intros Hs Hx%last_Some_elem_of Hp. apply digits_no_point in Hs. by subst x.
Qed.

Lemma drop_last_point_number a b point : well_formed a b point ->
  drop_last_point (number a b point) = number a b (point && negb (bool_decide (b = []))).
Proof.
  intros (Ha & Hb & Hp). unfold drop_last_point.
  assert (H : forall s, digits s -> s <> [] -> exists c r, reverse s = c :: r /\ c <> point_char).
  { intros s Hs Hne. destruct (reverse s) as [|c r] eqn:E.
    - exfalso. apply Hne. by rewrite <- (reverse_involutive s), E.
    - exists c, r. split; [done|]. assert (Hr : digits (reverse s)) by by apply Forall_reverse.
      rewrite E in Hr. apply digit_not_point. by apply Forall_inv in Hr. }
  destruct point.
  - destruct (decide (b = [])) as [->|Hne].
    + rewrite bool_decide_true by done. simpl. unfold number. rewrite reverse_app. simpl.
      by rewrite reverse_involutive, app_nil_r.
    + rewrite bool_decide_false by done. simpl. unfold number.
      destruct (H b Hb Hne) as (c & r & E & Hc). rewrite reverse_app, reverse_cons, E. simpl.
      by rewrite bool_decide_false.
  - rewrite (Hp eq_refl) in *. simpl. unfold number. rewrite app_nil_r.
    destruct (decide (a = [])) as [->|Hne]; [done|].
    destruct (H a Ha Hne) as (c & r & E & Hc). rewrite E. by rewrite bool_decide_false.
Qed.

Lemma add_zero_number a b point : digits a ->
  add_zero (number a b point) = number (if bool_decide (a = []) then $"0" else a) b point.
Proof.
  intros Ha. unfold add_zero. destruct a as [|c a].
  - by destruct point.
  - rewrite (bool_decide_false (c :: a = [])) by done. unfold number. simpl.
    rewrite bool_decide_false; [done|]. apply digit_not_point. by apply Forall_inv in Ha.
Qed.

Lemma digits_drop a : digits a -> digits (drop_zeroes a).
Proof. intros Ha. destruct (drop_zeroes_split a) as (k & E & _). rewrite E in Ha. by apply digits_app in Ha as [_ ?]. Qed.

Lemma digits_trim b : digits b -> digits (trim_zeroes b).
Proof. intros Hb. by apply Forall_reverse, digits_drop, Forall_reverse. Qed.

Lemma canonical_front a : digits a ->
  canonical_nat (if bool_decide (drop_zeroes a = []) then $"0" else drop_zeroes a).
Proof.
  intros Ha. case_bool_decide as E; [split; [by repeat constructor|done]|].
  destruct (drop_zeroes_split a) as (_ & _ & H). split; [by apply digits_drop|done].
Qed.

Lemma value_front a b : value (if bool_decide (a = []) then $"0" else a) b = value a b.
Proof. case_bool_decide as E; [by subst a|done]. Qed.

(** What [normalize_number] makes of a decimal text. *)
Lemma normalize_spec a b point : well_formed a b point ->
  exists a' b' point', normalize_number (number a b point) = number a' b' point'
    /\ well_formed a' b' point' /\ canonical_number a' b' point' /\ (value a' b' == value a b)%Q.
Proof.
  intros (Ha & Hb & Hp). unfold normalize_number.
  rewrite drop_zeroes_number, drop_last_zeroes_number by (done || by apply digits_drop).
  set (b1 := if point then trim_zeroes b else b).
  assert (Hb1 : digits b1) by (unfold b1; destruct point; [by apply digits_trim|done]).
  assert (Hw : well_formed (drop_zeroes a) b1 point).
  { split; [by apply digits_drop|]. split; [done|]. unfold b1. intros ->. by apply Hp. }
  rewrite drop_last_point_number, add_zero_number by (done || by apply digits_drop).
  exists (if bool_decide (drop_zeroes a = []) then $"0" else drop_zeroes a), b1,
         (point && negb (bool_decide (b1 = []))).
  split; [done|]. split; [|split].
  - split; [by apply canonical_front|]. split; [done|].
    intros [->|E%negb_false_iff%bool_decide_eq_true]%andb_false_iff; [by apply Hw|done].
  - split; [by apply canonical_front|]. intros [-> E%negb_true_iff%bool_decide_eq_false]%andb_true_iff.
    split; [done|]. unfold b1. by destruct (trim_zeroes_split b) as (_ & _ & ?).
  - rewrite value_front, value_drop_front. unfold b1. destruct point; [apply value_trim_end|reflexivity].
Qed.

(** ** The claim *)

(** The number before the mark is read as one. *)
Lemma floating_loop_digits s_ s value mul period : digits s ->
  exists x, floating_loop s_ s value mul period = Value x.
Proof.
  intros Hs. revert value mul. induction Hs as [|c s Hc _ IH]; intros value mul; [by eexists|].
  pose proof (digit_not_point _ Hc) as Hp. apply is_digit_range in Hc. simpl.
  rewrite (bool_decide_false _ Hp), (proj2 (Z.ltb_ge _ 48)), (proj2 (Z.ltb_ge 57 _)) by lia. apply IH.
Qed.

Lemma floating_loop_number s_ a b point value mul : well_formed a b point ->
  exists x, floating_loop s_ (number a b point) value mul false = Value x.
Proof.
  intros (Ha & Hb & Hp). revert value mul. induction Ha as [|c a Hc _ IH]; intros value mul.
  - destruct point; [|by eexists]. unfold number. simpl. by apply floating_loop_digits.
  - pose proof (digit_not_point _ Hc) as Hpc. apply is_digit_range in Hc. unfold number. simpl.
    rewrite (bool_decide_false _ Hpc), (proj2 (Z.ltb_ge _ 48)), (proj2 (Z.ltb_ge 57 _)) by lia.
    apply IH.
Qed.

Definition minus_text (minus : bool) : bytes := if minus then $"-" else [].

Lemma number_no_minus a b point : well_formed a b point -> char_at (number a b point) 0 <> "-"%char.
Proof.
  intros (Ha & Hb & Hp). unfold number. destruct a as [|c a]; [by destruct point|].
  rewrite (char_at_lookup _ 0 c) by done. apply Forall_inv in Ha. intros ->.
  vm_compute in Ha. discriminate.
Qed.

#[local] Arguments number : simpl never.

Lemma floating_of_number s_ minus a b point : well_formed a b point -> number a b point <> [] ->
  exists x, floating_of s_ (minus_text minus ++ number a b point) = Value x.
Proof.
  intros Hw Hne. destruct minus.
  - change (minus_text true ++ number a b point) with ("-"%char :: number a b point). unfold floating_of. rewrite bool_decide_true by done. cbv iota zeta.
    destruct (floating_loop_number s_ a b point dzero (ldouble_of_Z 1) Hw) as (x & ->). by eexists.
  - pose proof (number_no_minus a b point Hw) as Hm. simpl.
    destruct (number a b point) as [|c r] eqn:E; [done|].
    assert (Hc : c <> "-"%char).
    { intros ->. apply Hm. by apply char_at_lookup. }
    unfold floating_of. rewrite bool_decide_false by done. cbv iota zeta. rewrite <- E.
    destruct (floating_loop_number s_ a b point dzero (ldouble_of_Z 1) Hw) as (x & ->). by eexists.
Qed.

Definition no_mark (s : bytes) : Prop := Forall (fun c => is_mark c = false) s.

Lemma no_mark_digits s : digits s -> no_mark s.
Proof. intros H. eapply Forall_impl; [|exact H]. apply digit_not_mark. Qed.

Lemma no_mark_number minus a b point : well_formed a b point ->
  no_mark (minus_text minus ++ number a b point).
Proof.
  intros (Ha & Hb & Hp). apply Forall_app. split; [by destruct minus; repeat constructor|].
  apply Forall_app. split; [by apply no_mark_digits|].
  destruct point; [|constructor]. constructor; [done|by apply no_mark_digits].
Qed.

Lemma mark_loop_at s_ s m t i : no_mark s -> is_mark m = true -> no_mark t ->
  mark_loop s_ (s ++ m :: t) i None = Value (Some (i + zlen s)).
Proof.
  intros Hs Hm Ht. revert i. induction Hs as [|c s Hc _ IH]; intros i.
  - simpl. rewrite Hm, mark_loop_none by done. do 2 f_equal. unfold zlen. simpl. lia.
  - simpl. rewrite Hc, IH, zlen_cons. do 2 f_equal. lia.
Qed.

(** An optional plus in front of a text that starts with none. *)
Definition plus_text (plus : bool) : bytes := if plus then $"+" else [].

Lemma drop_plus_text plus s : head s <> Some "+"%char -> drop_plus (plus_text plus ++ s) = s.
Proof.
  intros Hs. destruct plus; [done|]. destruct s as [|c s]; [done|]. simpl in *.
  by rewrite bool_decide_false by congruence.
Qed.

(** The text before the mark: a sign and a decimal number. *)
Inductive sign := NoSign | Plus | Minus.
Definition sign_text (s : sign) : bytes :=
  match s with NoSign => [] | Plus => $"+" | Minus => $"-" end.
Definition is_minus (s : sign) : bool := match s with Minus => true | _ => false end.

Lemma sign_plus s a b point : well_formed a b point ->
  drop_plus (sign_text s ++ number a b point) = minus_text (is_minus s) ++ number a b point.
Proof.
  intros Hw. assert (H : head (number a b point) <> Some "+"%char).
  { destruct Hw as (Ha & _). unfold number. destruct a as [|c a]; [by destruct point|].
    apply Forall_inv in Ha. simpl. intros [= ->]. vm_compute in Ha. discriminate. }
  destruct s; simpl; [|done|done]. by apply (drop_plus_text false).
Qed.

Lemma strip_minus (minus : bool) a b point : well_formed a b point ->
  let num := minus_text minus ++ number a b point in
  bool_decide (char_at num 0 = "-"%char) = minus
  /\ (if minus then zdrop 1 num else num) = number a b point.
Proof.
  intros Hw num. unfold num. destruct minus.
  - split; [by apply bool_decide_true, char_at_lookup|]. by rewrite zdrop_drop.
  - split; [|done]. by apply bool_decide_false, number_no_minus.
Qed.

(** The exponent, an optional plus or a minus and digits. *)
Lemma exponent_value (e_minus : bool) e : digits e -> e <> [] -> digits_value e <= 2147483599 ->
  (e_minus = true -> digits_value e <> 0) ->
  integral_of T_int false (minus_text e_minus ++ e) (minus_text e_minus ++ e)
  = Value (digits_value e * (if e_minus then -1 else 1)).
Proof.
  intros He Hne Hmax Hm. apply integral_of_digits; [by left|done|done| |].
  - pose proof (digits_value_nonneg e He). repeat split; simpl; lia.
  - intros H. repeat split. by apply Hm.
Qed.

Lemma exponent_parses s a b point mark (e_plus e_minus : bool) e :
  well_formed a b point -> number a b point <> [] -> is_mark mark = true ->
  digits e -> e <> [] -> digits_value e <= 2147483599 -> (e_minus = true -> digits_value e <> 0) ->
  zlen (sign_text s ++ number a b point) <= 20 -> zlen (minus_text e_minus ++ e) <= 20 ->
  exists num, parseExponentialOptValue (sign_text s ++ number a b point
                  ++ mark :: plus_text e_plus ++ minus_text e_minus ++ e)
              = Value (minus_text (is_minus s) ++ normalize_number num)
    /\ scaled a b (digits_value e * (if e_minus then -1 else 1)) num.
Proof.
  intros Hw Hne Hmark He Hene Hmax Hm Hlen Helen. unfold parseExponentialOptValue.
  set (front := sign_text s ++ number a b point). set (back := minus_text e_minus ++ e).
  assert (Hback : no_mark back).
  { apply Forall_app. split; [by destruct e_minus; repeat constructor|by apply no_mark_digits]. }
  assert (Hfront : no_mark front).
  { pose proof (no_mark_number false a b point Hw) as H. apply Forall_app in H as [_ H].
    apply Forall_app. split; [by destruct s; repeat constructor|done]. }
  rewrite (app_assoc (sign_text s)). fold front. cbn [parse_exponential].
  rewrite mark_loop_at; [|done|done|]; cycle 1.
  { apply Forall_app. split; [by destruct e_plus; repeat constructor|done]. }
  cbn [vbind]. rewrite Z.add_0_l.
  replace (front ++ mark :: plus_text e_plus ++ back) with ((front ++ [mark]) ++ plus_text e_plus ++ back)
    by (by rewrite <- app_assoc).
  replace (zlen front + 1) with (zlen (front ++ [mark])) by (by rewrite zlen_app).
  rewrite zdrop_app_length, <- app_assoc, ztake_app_length.
  assert (Eb : drop_plus (plus_text e_plus ++ back) = back).
  { apply drop_plus_text. unfold back. destruct e_minus; [done|]. destruct e as [|c e]; [done|].
    apply Forall_inv in He. simpl. intros [= ->]. vm_compute in He. discriminate. }
  rewrite Eb. clear Eb.
  assert (Hbne : back <> []) by (unfold back; by destruct e_minus, e).
  rewrite (bool_decide_false (back = [])), (proj2 (Z.ltb_ge 20 (zlen back))) by done. cbn [orb].
  rewrite (mark_loop_none back back) by done. cbn [vbind].
  unfold back at 1 2. rewrite exponent_value by done. cbn [vbind].
  rewrite (proj2 (Z.ltb_ge 20 (zlen front))) by done.
  unfold front. rewrite sign_plus by done.
  rewrite (mark_loop_none (minus_text (is_minus s) ++ number a b point) (minus_text (is_minus s) ++ number a b point))
    by by apply no_mark_number.
  cbn [vbind].
  destruct (floating_of_number (minus_text (is_minus s) ++ number a b point) (is_minus s) a b point Hw Hne)
    as (x & ->). cbn [vbind].
  destruct (strip_minus (is_minus s) a b point Hw) as [E1 E2]. rewrite E1, E2.
  destruct (move_point (digits_value e * (if e_minus then -1 else 1)) a b point Hw Hne) as (num & En & Hs).
  exists num. split; [|done].
  destruct (times (Z.to_nat (digits_value e * (if e_minus then -1 else 1))) (fun num => Value (mul_ten num))
              (number a b point)) as [n1|m|]; [|done|done].
  cbn [vbind] in En |- *. rewrite En. done.
Qed.

(** C34: [parseExponentialOptValue] rewrites [<sign><number>e<exponent>] (at
    most twenty characters on each side of the mark) to a canonical decimal
    text, without superfluous zeroes, of exactly the value of the notation. *)
Theorem exponential_value s a b point mark (e_plus e_minus : bool) e :
  well_formed a b point -> number a b point <> [] -> is_mark mark = true ->
  digits e -> e <> [] -> digits_value e <= 2147483599 -> (e_minus = true -> digits_value e <> 0) ->
  zlen (sign_text s ++ number a b point) <= 20 -> zlen (minus_text e_minus ++ e) <= 20 ->
  exists a' b' point',
    parseExponentialOptValue (sign_text s ++ number a b point
                              ++ mark :: plus_text e_plus ++ minus_text e_minus ++ e)
    = Value (minus_text (is_minus s) ++ number a' b' point')
    /\ well_formed a' b' point' /\ canonical_number a' b' point'
    /\ (value a' b' == value a b * Qpower 10 (digits_value e * (if e_minus then -1 else 1)))%Q.
Proof.
  intros Hw Hne Hmark He Hene Hmax Hm Hlen Helen.
  destruct (exponent_parses s a b point mark e_plus e_minus e) as (num & -> & a1 & b1 & p1 & -> & Hw1 & _ & E1);
    [done..|].
  destruct (normalize_spec a1 b1 p1 Hw1) as (a' & b' & p' & -> & Hw' & Hc' & E').
  exists a', b', p'. split; [done|]. split; [done|]. split; [done|]. by rewrite E', E1.
Qed.

Lemma exponential_value_witness : exists a' b' point',
  parseExponentialOptValue ($"-012.5e-2") = Value ($"-" ++ number a' b' point')
  /\ well_formed a' b' point' /\ canonical_number a' b' point'
  /\ (value a' b' == value ($"012") ($"5") * Qpower 10 (2 * -1))%Q.
Proof.
  apply (exponential_value Minus ($"012") ($"5") true "e"%char false true ($"2")); try done.
  - split; [by repeat constructor|]. split; [by repeat constructor|done].
  - by repeat constructor.
Defined.

Example exponential_sample : parseExponentialOptValue ($"-012.5e-2") = Value ($"-0.125").
Proof. vm_compute. reflexivity. Qed.
