(* ===== verification/GeneratorSpec.v ===== *)
(** * Generators, from the command line to the output

    Registration fixes the seed and the options as functions of the command
    line; a generator that prints a random permutation does print one and
    exits with code zero; one that does so in several tests writes a file per
    test and nothing else. *)

From stdpp Require Import sorting.
From S2P Require Import Prelude Text TextSpec Doubles Readers Validator Streams World Pattern Reading Numbers NumbersSpec Register RegisterSpec QuitSpec Random RandomSpec Opts FloatSpec OptsSpec Generator.

(** ** Registration *)

(** The state [registerGen] leaves. *)
Definition registered_gen (version : Z) (prog : bytes) (fs : list form) (w : World) : World :=
  put_testlib_argv (prog :: mbind render fs)
    (put_testlib_opts (foldl meaning ∅ fs)
       (put_rnd_seed (setSeed_args (mbind render fs))
          (put_testlibMode _generator (put_registered true (put_rnd_version version w))))).

Lemma registerGen_ret version prog fs w : version = 0 \/ version = 1 -> good_line fs ->
  registerGen (prog :: mbind render fs) version w = MRet tt (registered_gen version prog fs w).
Proof.
  intros Hv Hg. unfold registerGen.
  assert (E : (version <? 0) || (1 <? version) = false) by (destruct Hv as [-> | ->]; done).
  rewrite E. simpl when. unfold bind at 1, ret at 1.
  rewrite bind_modify. unfold bind at 1. rewrite preconditions_hold. rewrite !bind_modify.
  by rewrite prepare_options.
Qed.

(** ** Printing *)

Lemma print_print s t w : print t (print s w) = print (s ++ t) w.
Proof.
  unfold print. destruct (w_stdout_file w) as [name|] eqn:E; cbn; rewrite E; [|by rewrite app_assoc].
  unfold put_file. cbn. by rewrite lookup_insert_eq, insert_insert_eq, app_assoc.
Qed.

Lemma print_rest texts w :
  bind (print_separated print_text false texts) (fun _ => endl) w
  = MRet tt (print (mbind (fun e => $" " ++ e) texts ++ newline) w).
Proof.
  revert w. induction texts as [|t texts IH]; intros w; [done|].
  cbn [print_separated negb when]. unfold print_text at 1. rewrite bind_assoc, bind_modify, bind_assoc, bind_modify.
  rewrite IH, !print_print. cbn [mbind list_bind]. by rewrite <- !app_assoc.
Qed.

(** A collection is printed as its [join]. *)
Lemma println_many texts w :
  println [Many texts] w = MRet tt (print (join texts ($" ") ++ newline) w).
Proof.
  unfold println. cbn [print_separated negb when __testlib_print_one].
  destruct texts as [|t texts]; [done|]. rewrite join_cons. cbn [print_separated negb when].
  assert (unit_left : forall B (k : unit -> M B), bind (ret tt) k = k tt) by done.
  unfold print_text at 1. rewrite !unit_left, !bind_assoc, bind_modify.
  etransitivity; [|etransitivity; [apply (print_rest texts)|by rewrite print_print, app_assoc]].
  unfold bind. by destruct (print_separated _ _ _ _) as [[] ?|].
Qed.

(** ** A generator's process *)

(** [int main: registerGen(argc, argv, version); println(rnd.perm(n, 1));] *)
Definition permutation_main (argv : list bytes) (version n : Z) : M unit :=
  do* registerGen argv version in
  let* p := rnd (perm n 1) in
  println [Many (vtos <$> p)].

(** A generator that prints [rnd.perm(n, 1)] exits with code zero on
    every well-formed command line, and prints on one line a permutation of
    [1 .. n]. *)
Theorem generator_prints_permutation version prog fs n e :
  version = 0 \/ version = 1 -> good_line fs -> 0 <= n <= INT_MAX ->
  exists q w, run_program (permutation_main (prog :: mbind render fs) version n) e = HExit 0 w
    /\ q ≡ₚ seqZ 1 n /\ w_stdout w = join (vtos <$> q) ($" ") ++ newline.
Proof.
  intros Hv Hg Hn. unfold run_program, permutation_main.
  unfold bind at 1. rewrite registerGen_ret by done.
  set (w := registered_gen version prog fs (initial_world e)).
  destruct (perm_sure n 1 Hn (rnd_version w) (rnd_seed w)) as (q & seed & E & Hq).
  exists q. unfold bind, rnd. rewrite E, println_many.
  eexists. split; [cbv -[join vtos foldl meaning setSeed_args mbind list_bind render newline app fmap list_fmap list_ascii_of_string]; reflexivity|].
  split; [done|reflexivity].
Qed.

Lemma generator_prints_permutation_witness :
  let e := MkEnv ∅ (fun _ => true) (fun _ => true) [] false in exists q w,
  run_program (permutation_main ($"gen" :: mbind render sample_line) 1 5) e = HExit 0 w
  /\ q ≡ₚ [1; 2; 3; 4; 5] /\ w_stdout w = join (vtos <$> q) ($" ") ++ newline.
Proof.
  intros e. apply (generator_prints_permutation 1 ($"gen") sample_line 5 e); [by right|exact sample_good|].
  unfold INT_MAX. lia.
Defined.

Example permutation_sample :
  match run_program (permutation_main [ $"gen"; $"-n=5" ] 1 5)
          (MkEnv ∅ (fun _ => true) (fun _ => true) [] false) with
  | HExit code w => Some (code, w_stdout w)
  | HStuck => None
  end = Some (0, $"2 1 3 4 5" ++ newline).
Proof. vm_compute. reflexivity. Qed.

(** ** A generator of several tests *)

(** The state with standard output reopened on [target] and these files. *)
Definition output_to (target : option bytes) (fs : gmap bytes bytes) (w : World) : World :=
  let e := env w in
  put_w_stdout_file target
    (put_env (MkEnv fs (can_write e) (can_close e) (stdin_bytes e) (stderr_is_tty e)) w).

Lemma output_to_nowhere w : w_stdout_file w = None -> output_to None (files (env w)) w = w.
Proof. destruct w as [? ? ? ? ? ? ? ? ? ? ? ? ? ? ? ? ? ? ? ? ? ? ? ? ? ? ? ? ? ? ? ? []]. by intros [= ->]. Qed.

(** [startTest(test); println(rnd.perm(n, 1));] for each test. *)
Fixpoint write_tests (n : Z) (tests : list Z) : M unit :=
  match tests with
  | [] => ret tt
  | test :: tests =>
      do* startTest test in
      let* p := rnd (perm n 1) in
      do* println [Many (vtos <$> p)] in
      write_tests n tests
  end.

Definition tests_main (argv : list bytes) (version n tests : Z) : M unit :=
  do* registerGen argv version in write_tests n (seqZ 1 tests).

Definition test_text (q : list Z) : bytes := join (vtos <$> q) ($" ") ++ newline.

(** The files after the first tests were written. *)
Fixpoint test_files (tests : list Z) (qs : list (list Z)) (fs : gmap bytes bytes) : gmap bytes bytes :=
  match tests, qs with
  | test :: tests, q :: qs => test_files tests qs (<[vtos test := test_text q]> fs)
  | _, _ => fs
  end.

Lemma test_files_other tests qs fs name : name ∉ vtos <$> take (length qs) tests ->
  test_files tests qs fs !! name = fs !! name.
Proof.
  revert tests fs. induction qs as [|q qs IH]; intros [|test tests] fs Hn; [done..|].
  simpl in *. apply not_elem_of_cons in Hn as [Hne Hn]. rewrite IH by done. by rewrite lookup_insert_ne.
Qed.

Lemma test_files_lookup tests qs fs i test q : NoDup (vtos <$> tests) ->
  tests !! i = Some test -> qs !! i = Some q -> test_files tests qs fs !! vtos test = Some (test_text q).
Proof.
  revert tests qs fs. induction i as [|i IH]; intros [|t tests] [|q' qs] fs; try done; simpl.
  - intros [Hn _]%list.NoDup_cons [= ->] [= ->]. rewrite test_files_other; [by rewrite lookup_insert_eq|].
    intros Hin. apply Hn. rewrite <- (take_drop (length qs) tests), fmap_app. apply elem_of_app. by left.
  - intros [_ Hd]%list.NoDup_cons Ht Hq. by apply IH.
Qed.

(** A generator whose exit nothing disturbs ends well. *)
Lemma finalize_generator w : calm_in _generator w -> finalize w = inr (put_alive false w).
Proof. intros H. by apply (finalize_quiet w H). Qed.

(** How the tests end: all written, or stopped by a file that cannot be. *)
Definition tests_end (e : Env) (tests : list Z) (written : nat) (code : Z) : Prop :=
  (code = 0 /\ written = length tests)
  \/ (code = FAIL_EXIT_CODE /\ exists test, tests !! written = Some test /\ can_write e (vtos test) = false).

Lemma write_tests_end n tests target fs w : 0 <= n <= INT_MAX -> calm_in _generator w ->
  exists qs code w',
    finish (match write_tests n tests (output_to target fs w) with MHalt h => h | MRet _ w => HExit 0 w end)
    = HExit code w'
    /\ tests_end (env w) tests (length qs) code /\ Forall (fun q => q ≡ₚ seqZ 1 n) qs
    /\ files (env w') = test_files tests qs fs /\ w_stdout w' = w_stdout w.
Proof.
  intros Hn. revert target fs w. induction tests as [|test tests IH]; intros target fs w Hw.
  { exists [], 0, (put_alive false (output_to target fs w)). split.
    - cbn [write_tests]. unfold ret, finish. rewrite finalize_generator; [done|].
      destruct Hw. by constructor.
    - split; [by left|]. by repeat split. }
  cbn [write_tests]. unfold bind at 1, startTest. cbn [output_to put_w_stdout_file put_env env can_write].
  destruct (can_write (env w) (vtos test)) eqn:Ew.
  - change (put_w_stdout_file _ _) with (output_to (Some (vtos test)) (<[vtos test := []]> fs) w).
    destruct (perm_sure n 1 Hn (rnd_version w) (rnd_seed w)) as (q & seed & E & Hq).
    unfold bind at 1, rnd. cbn [output_to rnd_version rnd_seed put_w_stdout_file put_env]. rewrite E.
    unfold bind at 1. rewrite println_many.
    set (w1 := print _ _).
    assert (E1 : w1 = output_to (Some (vtos test)) (<[vtos test := test_text q]> fs) (put_rnd_seed seed w)).
    { unfold w1, print, output_to, put_file. cbn. by rewrite lookup_insert_eq, insert_insert_eq. }
    rewrite E1. destruct (IH (Some (vtos test)) (<[vtos test := test_text q]> fs) (put_rnd_seed seed w))
      as (qs & code & w' & Ef & He & Hqs & Hfs & Ho); [by destruct Hw|].
    exists (q :: qs), code, w'. split; [exact Ef|]. split; [|by split; [constructor|]].
    destruct He as [[-> El]|(-> & t & Ht & Hc)]; [left; simpl; by rewrite El|right]. split; [done|]. by exists t.
  - exists [], FAIL_EXIT_CODE.
    destruct (quit_fail_outputs (m := _generator) 5 OUF
      (testlib_format_ ($"%s") [FStr ($"Unable to write file '" ++ vtos test ++ $"'")])
      (output_to target fs w)) as (w' & Ef & Ho); [by destruct Hw|].
    exists w'. split; [exact Ef|]. injection Ho as He Hs _. split; [|by rewrite He, Hs].
    right. split; [done|]. by exists test.
Qed.

Lemma vtos_inj m n : 0 <= m -> 0 <= n -> vtos m = vtos n -> m = n.
Proof.
  intros Hm Hn E. destruct (vtos_nonneg m Hm) as [_ <-], (vtos_nonneg n Hn) as [_ <-]. by rewrite E.
Qed.

Lemma test_names tests : NoDup (vtos <$> seqZ 1 tests).
Proof.
  apply NoDup_fmap_2_strong; [|apply NoDup_seqZ].
  intros i j Hi%elem_of_seqZ Hj%elem_of_seqZ. apply vtos_inj; lia.
Qed.

(** C38: a generator that starts each of [tests] tests and prints
    [rnd.perm(n, 1)] in it: on every well-formed command line each test's file
    holds exactly one line with a permutation of [1 .. n], whatever the file
    held before; nothing else is written, standard output included; and it
    exits with code zero, or with that of a failure at the first test whose
    file cannot be written. *)
Theorem generator_writes_tests version prog fs n tests e :
  version = 0 \/ version = 1 -> good_line fs -> 0 <= n <= INT_MAX ->
  exists qs code w, run_program (tests_main (prog :: mbind render fs) version n tests) e = HExit code w
    /\ (forall i q, qs !! i = Some q -> q ≡ₚ seqZ 1 n /\
          files (env w) !! vtos (Z.of_nat i + 1) = Some (join (vtos <$> q) ($" ") ++ newline))
    /\ (forall name, name ∉ vtos <$> seqZ 1 (zlen qs) -> files (env w) !! name = files e !! name)
    /\ w_stdout w = []
    /\ ((code = 0 /\ zlen qs = Z.max 0 tests)
        \/ (code = FAIL_EXIT_CODE /\ zlen qs < tests /\ can_write e (vtos (zlen qs + 1)) = false)).
Proof.
  intros Hv Hg Hn. unfold run_program, tests_main. unfold bind. rewrite registerGen_ret by done.
  set (w := registered_gen version prog fs (initial_world e)).
  rewrite <- (output_to_nowhere w) by done.
  destruct (write_tests_end n (seqZ 1 tests) None (files e) w Hn) as (qs & code & w' & E & He & Hq & Hf & Ho);
    [by constructor|].
  exists qs, code, w'. split; [exact E|].
  assert (Hlen : zlen qs <= Z.max 0 tests).
  { destruct He as [[_ He]|(_ & t & Ht & _)]; [|apply lookup_lt_Some in Ht]; rewrite length_seqZ in *; unfold zlen; lia. }
  assert (Hseq : forall i, (i < length qs)%nat -> seqZ 1 tests !! i = Some (Z.of_nat i + 1)).
  { intros i Hi. apply lookup_seqZ. unfold zlen in Hlen. lia. }
  split; [|split; [|split; [done|]]].
  - intros i q Hi. split; [by eapply (Forall_lookup_1 (fun q => q ≡ₚ seqZ 1 n))|]. rewrite Hf.
    eapply test_files_lookup; [apply test_names| |done]. by eapply Hseq, lookup_lt_Some.
  - intros name Hname. rewrite Hf. apply test_files_other. intros Hin. apply Hname. revert Hin.
    intros (x & -> & (i & Hx & Hi)%elem_of_take)%list_elem_of_fmap. apply list_elem_of_fmap. exists x.
    split; [done|]. apply lookup_seqZ in Hx as [-> _]. apply elem_of_seqZ. unfold zlen. lia.
  - destruct He as [[-> He]|(-> & t & Ht & Hc)]; [left|right]; (split; [done|]); unfold zlen.
    + rewrite He, length_seqZ. lia.
    + apply lookup_seqZ in Ht as [-> Ht]. split; [lia|]. rewrite <- Hc. do 2 f_equal. lia.
Qed.

(** The second of three tests cannot be written. *)
Definition full_disk : Env :=
  MkEnv {[ $"1" := $"old" ]} (fun name => negb (bool_decide (name = $"2"))) (fun _ => true) [] false.

Lemma generator_writes_tests_witness : exists qs code w,
  run_program (tests_main ($"gen" :: mbind render sample_line) 1 5 3) full_disk = HExit code w
  /\ code = FAIL_EXIT_CODE /\ zlen qs = 1
  /\ (exists q, qs = [q] /\ q ≡ₚ seqZ 1 5 /\ files (env w) !! $"1" = Some (join (vtos <$> q) ($" ") ++ newline)).
Proof.
  destruct (generator_writes_tests 1 ($"gen") sample_line 5 3 full_disk) as (qs & code & w & E & Hq & _ & _ & He);
    [by right|exact sample_good|unfold INT_MAX; lia|].
  assert (H : code = FAIL_EXIT_CODE /\ zlen qs = 1).
  { assert (Ec : (match run_program (tests_main ($"gen" :: mbind render sample_line) 1 5 3) full_disk with
                  | HExit code _ => code | HStuck => 0 end) = FAIL_EXIT_CODE) by (vm_compute; reflexivity).
    rewrite E in Ec. destruct He as [[-> _]|(-> & Hl & Hc)]; [done|]. split; [done|].
    pose proof (zlen_nonneg qs). assert (Hz : zlen qs = 0 \/ zlen qs = 1 \/ zlen qs = 2) by lia.
    destruct Hz as [Ez|[Ez|Ez]]; rewrite Ez in *; done. }
  destruct H as [-> Hl]. exists qs, FAIL_EXIT_CODE, w. do 3 (split; [done|]).
  destruct qs as [|q [|q' qs]]; [done| |rewrite !zlen_cons in Hl; pose proof (zlen_nonneg qs); lia].
  exists q. split; [done|]. exact (Hq 0%nat q eq_refl).
Defined.

Example tests_sample :
  match run_program (tests_main [ $"gen"; $"-n=5" ] 1 5 2)
          (MkEnv {[ $"1" := $"old" ]} (fun _ => true) (fun _ => true) [] false) with
  | HExit code w => Some (code, w_stdout w, (fun name => files (env w) !! name) <$> [ $"1"; $"2" ])
  | HStuck => None
  end = Some (0, [], [ Some ($"2 1 3 4 5" ++ newline); Some ($"4 2 1 5 3" ++ newline) ]).
Proof. vm_compute. reflexivity. Qed.
