(* ===== verification/CheckersSpec.v ===== *)
(** * The verdicts of the token checkers

    For an output file and an answer file of any content (of at most
    [TOKEN_LIMIT] bytes), the exit code of each token checker is a closed
    function of the two texts. *)

From S2P Require Import Prelude Text Doubles Readers ReaderRep Validator Streams World Pattern Reading Numbers Register Checkers StreamSpec QuitSpec ProcessSpec RegisterSpec TokenSpec NumbersSpec PatternSpec.

(** The verdict [_ok] or [_wa] on a condition. *)
Definition ok_or_wa (b : bool) : Z := if b then OK_EXIT_CODE else WA_EXIT_CODE.

Lemma tok_both_more T w : at_tokens T w ->
  exists w', both_more w
    = MRet (negb (bool_decide (T ANS = [])) && negb (bool_decide (T OUF = []))) w' /\ at_tokens T w'.
Proof.
  intros H. unfold both_more. destruct (tok_seekEof ANS ltac:(done) _ _ H) as (w1 & E1 & H1).
  rewrite (bind_ret _ _ _ _ _ E1). case_bool_decide; [by exists w1|].
  destruct (tok_seekEof OUF ltac:(done) _ _ H1) as (w2 & E2 & H2).
  rewrite (bind_ret _ _ _ _ _ E2). by exists w2.
Qed.

(** The head tokens of both sides are consumed. *)
Definition tails (T : token_lists) : token_lists := fun i => tail (T i).

Lemma with_tails T j js p ps : T ANS = j :: js -> T OUF = p :: ps ->
  forall i, i <> INF -> with_tokens OUF ps (with_tokens ANS js T) i = tails T i.
Proof. intros Ea Eo [] ?; [done|..]; unfold with_tokens, tails; simpl; by rewrite ?Ea, ?Eo. Qed.

(** Reading one token on each side, for the two word readers. *)
Lemma tok_pair (read : StreamId -> M bytes) T w j js p ps (k : bytes -> bytes -> M unit) c :
  (forall this, this <> INF -> forall T w x xs, at_tokens T w -> T this = x :: xs ->
     exists w', read this w = MRet x w' /\ at_tokens (with_tokens this xs T) w') ->
  at_tokens T w -> T ANS = j :: js -> T OUF = p :: ps ->
  (forall w, at_tokens (tails T) w -> ends (k j p) w c) ->
  ends (let* x := read ANS in let* y := read OUF in k x y) w c.
Proof.
  intros Hread H Ea Eo Hk.
  destruct (Hread ANS ltac:(done) _ _ _ _ H Ea) as (w1 & E1 & H1). eapply ends_bind; [done|].
  destruct (Hread OUF ltac:(done) _ _ p ps H1 Eo) as (w2 & E2 & H2). eapply ends_bind; [done|].
  apply Hk. eapply at_tokens_ext; [done|]. by eapply with_tails.
Qed.

Lemma fuel_of_tokens (k : nat -> M unit) T w c this : at_tokens T w -> this <> INF ->
  (forall fuel, (length (T this) < fuel)%nat -> ends (k fuel) w c) ->
  ends (bind (fuel_of this) k) w c.
Proof.
  intros (t & Hw & Ht) Hthis Hk. unfold fuel_of. eapply ends_bind; [done|]. apply Hk.
  destruct (Ht this Hthis) as [Eb <- _]. destruct (t this) as [l m] eqn:E.
  pose proof (run_fuel this Hthis _ _ _ _ Hw E). pose proof (tokens_length l). simpl. lia.
Qed.

(** ** [wcmp] *)

(** The verdict a common part leads to is that of the rest. *)
Lemma same_tails (T : token_lists) x xs ys : T ANS = x :: xs -> T OUF = x :: ys ->
  bool_decide (tails T ANS = tails T OUF) = bool_decide (T ANS = T OUF).
Proof.
  intros Ea Eo. unfold tails. rewrite Ea, Eo. simpl. apply bool_decide_ext. naive_solver.
Qed.

Lemma tails_length (T : token_lists) x xs n : T ANS = x :: xs -> (length (T ANS) < S n)%nat ->
  (length (tails T ANS) < n)%nat.
Proof. intros Ea. unfold tails. rewrite Ea. simpl. lia. Qed.

Lemma wcmp_loop_ends (k : Z * bytes -> M unit) fuel T w n j :
  at_tokens T w -> (length (T ANS) < fuel)%nat ->
  (forall T' w' r, at_tokens T' w' -> T' ANS = [] \/ T' OUF = [] ->
     ends (k r) w' (ok_or_wa (bool_decide (T' ANS = T' OUF)))) ->
  ends (bind (Wcmp.loop fuel n j) k) w (ok_or_wa (bool_decide (T ANS = T OUF))).
Proof.
  revert T w n j. induction fuel as [|fuel IH]; intros T w n j H Hf Hk; [lia|].
  cbn [Wcmp.loop]. apply ends_assoc.
  destruct (tok_both_more _ _ H) as (w1 & E1 & H1). eapply ends_bind; [done|].
  destruct (T ANS) as [|x xs] eqn:Ea.
  { simpl. eapply ends_bind; [done|]. eapply ends_code; [apply Hk; [done|auto]|]. by rewrite Ea. }
  destruct (T OUF) as [|y ys] eqn:Eo.
  { simpl. eapply ends_bind; [done|]. eapply ends_code; [apply Hk; [done|auto]|]. by rewrite Ea, Eo. }
  simpl andb. cbv iota zeta. apply ends_assoc.
  destruct (tok_readWordTo ANS ltac:(done) _ _ _ _ H1 Ea) as (w2 & E2 & H2).
  eapply ends_bind; [done|]. apply ends_assoc.
  destruct (tok_readWordTo OUF ltac:(done) _ _ y ys H2 Eo) as (w3 & E3 & H3).
  eapply ends_bind; [done|].
  apply (at_tokens_ext _ (tails T)) in H3; [|by eapply with_tails].
  destruct (decide (x = y)) as [<-|Hxy].
  - rewrite (bool_decide_true (x = x)) by done. simpl negb. cbv iota.
    rewrite <- Ea, <- Eo, <- (same_tails T x xs ys) by done.
    apply IH; [done|apply (tails_length _ x xs); by rewrite ?Ea|done].
  - rewrite (bool_decide_false (x = y)), (bool_decide_false (x :: xs = y :: ys)) by congruence.
    exact (ends_die _wa _ _ _ _ _ H3).
Qed.

(** C6: [wcmp] accepts an output exactly when its blank-separated tokens,
    after a byte order mark, are those of the answer, and answers "wrong
    answer" otherwise; it never fails, hangs or rejects the format. *)
Theorem wcmp_correct e prog i o a to ta : checker_run e i o a to ta ->
  exit_code (run_program (Wcmp.main (Some prog) [i; o; a]) e)
  = Some (ok_or_wa (bool_decide (tokens ta = tokens (strip_bom to)))).
Proof.
  intros Hrun. apply (checker_start _ _ _ _ _ _ _ _ _ _ _ Hrun). intros w Hw.
  pose proof (start_tokens _ _ _ _ _ _ _ Hrun Hw) as H.
  apply (fuel_of_tokens _ _ _ _ ANS H ltac:(done)). intros fuel Hf.
  apply (wcmp_loop_ends _ fuel (pair_of (tokens ta) (tokens (strip_bom to)))); [done..|].
  clear. intros T w [n j] H Hend.
  destruct (tok_seekEof ANS ltac:(done) _ _ H) as (w1 & E1 & H1). eapply ends_bind; [done|].
  destruct (T ANS) as [|x xs] eqn:Ea.
  - simpl. destruct (tok_seekEof OUF ltac:(done) _ _ H1) as (w2 & E2 & H2).
    eapply ends_bind; [done|]. destruct (T OUF) as [|y ys] eqn:Eo; simpl.
    + case_match; (eapply ends_code; [exact (ends_die_last _ _ _ _ _ H2)|by rewrite Eo]).
    + destruct (tok_seekEof ANS ltac:(done) _ _ H2) as (w3 & E3 & H3). eapply ends_bind; [done|].
      rewrite Ea. exact (ends_die_last _wa _ _ _ _ H3).
  - destruct Hend as [?|Eo]; [done|]. rewrite Eo. eapply ends_bind; [done|]. cbv iota.
    destruct (tok_seekEof ANS ltac:(done) _ _ H1) as (w2 & E2 & H2). eapply ends_bind; [done|].
    rewrite Ea. exact (ends_die_last _wa _ _ _ _ H2).
Qed.

(** ** Counting what is left *)

(** A reader of one token that goes on with the tokens [ok] accepts, and ends
    the process with the code [bad] at any other. *)
Definition reads {A} (this : StreamId) (read : M A) (ok : bytes -> bool) (bad : Z) : Prop :=
  forall T w x xs, at_tokens T w -> T this = x :: xs ->
  if ok x then exists v w', read w = MRet v w' /\ at_tokens (with_tokens this xs T) w'
  else exists h, read w = MHalt h /\ exit_code (finish h) = Some bad.

Lemma reads_readToken this : this <> INF -> reads this (readToken this) (fun _ => true) 0.
Proof.
  intros Hthis T w x xs H E. destruct (tok_readWord this Hthis _ _ _ _ H E) as (w' & ? & ?). eauto.
Qed.

Lemma count_loop_ends {A} this (read : M A) ok bad (k : Z -> M unit) fuel T w n c :
  this <> INF -> reads this read ok bad -> at_tokens T w -> (length (T this) < fuel)%nat ->
  (forallb ok (T this) = false -> bad = c) ->
  (forallb ok (T this) = true -> forall w', at_tokens (with_tokens this [] T) w' ->
     ends (k (n + zlen (T this))) w' c) ->
  ends (bind (count_loop fuel this read n) k) w c.
Proof.
  intros Hthis Hread. revert T w n. induction fuel as [|fuel IH]; intros T w n H Hf Hbad Hk; [lia|].
  cbn [count_loop]. apply ends_assoc.
  destruct (tok_seekEof this Hthis _ _ H) as (w1 & E1 & H1). eapply ends_bind; [done|].
  destruct (T this) as [|x xs] eqn:E; cbn [bool_decide].
  { simpl. eapply ends_bind; [done|]. rewrite zlen_nil, Z.add_0_r in Hk. apply Hk; [done|].
    eapply at_tokens_ext; [done|]. intros i _. rewrite <- E. by rewrite with_tokens_id. }
  rewrite bool_decide_false by done. cbv iota. apply ends_assoc.
  pose proof (Hread _ _ _ _ H1 E) as Hr. simpl in Hbad, Hk. destruct (ok x); simpl in Hbad, Hk.
  - destruct Hr as (v & w2 & E2 & H2). eapply ends_bind; [done|]. apply (IH _ _ _ H2).
    + rewrite with_tokens_same. simpl in Hf. lia.
    + by rewrite with_tokens_same.
    + rewrite with_tokens_same. intros Hok w3 H3. rewrite zlen_cons, Z.add_assoc in Hk.
      apply Hk; [done|]. eapply at_tokens_ext; [done|]. intros i _. apply with_tokens_twice.
  - destruct Hr as (h & E2 & H2). eapply ends_halt; [done|]. by rewrite H2, Hbad.
Qed.

(** The verdict on what is left after the common part, one side being empty. *)
Definition extra_code (ok : bytes -> bool) (A O : list bytes) : option Z :=
  if negb (forallb ok A) then Some FAIL_EXIT_CODE
  else if negb (forallb ok O) then Some PE_EXIT_CODE
  else if bool_decide (A = []) && bool_decide (O = []) then None
  else Some WA_EXIT_CODE.

Lemma count_extra_ends {A} (read : StreamId -> M A) ok (k : unit -> M unit) T w n c :
  reads ANS (read ANS) ok FAIL_EXIT_CODE -> reads OUF (read OUF) ok PE_EXIT_CODE ->
  at_tokens T w ->
  match extra_code ok (T ANS) (T OUF) with
  | Some c' => c' = c
  | None => forall w', at_tokens (pair_of [] []) w' -> ends (k tt) w' c
  end ->
  ends (bind (count_extra read n) k) w c.
Proof.
  intros Ha Ho H Hk. unfold count_extra, extra_code in *. apply ends_assoc.
  apply (fuel_of_tokens _ _ _ _ ANS H ltac:(done)). intros fuel Hf. apply ends_assoc.
  apply (count_loop_ends ANS _ _ _ _ _ T w 0 c ltac:(done) Ha H Hf).
  { intros E. by rewrite E in Hk. }
  intros Eok w1 H1. rewrite Eok in Hk. apply ends_assoc.
  apply (fuel_of_tokens _ _ _ _ OUF H1 ltac:(done)). intros fuel2 Hf2. apply ends_assoc.
  apply (count_loop_ends OUF _ _ _ _ _ _ w1 0 c ltac:(done) Ho H1 Hf2); simpl.
  { intros E. unfold with_tokens in E; simpl in E. by rewrite E in Hk. }
  unfold with_tokens; simpl. intros Eok2 w2 H2. rewrite Eok2 in Hk. simpl in Hk.
  assert (H3 : at_tokens (pair_of [] []) w2).
  { eapply at_tokens_ext; [done|]. by intros []. }
  apply ends_assoc.
  destruct (T ANS) as [|x xs]; simpl in Hk.
  - change (0 <? 0 + zlen (@nil bytes)) with false. cbv iota.
    eapply ends_bind; [done|]. destruct (T OUF) as [|y ys]; simpl in Hk.
    + change (0 <? 0 + zlen (@nil bytes)) with false. eapply ends_bind; [done|]. by apply Hk.
    + rewrite zlen_cons. pose proof (zlen_nonneg ys). destruct (Z.ltb_spec 0 (0 + (1 + zlen ys))); [|lia].
      rewrite <- Hk. exact (ends_die _wa _ _ _ _ _ H3).
  - rewrite zlen_cons. pose proof (zlen_nonneg xs). destruct (Z.ltb_spec 0 (0 + (1 + zlen xs))); [|lia].
    rewrite <- Hk. apply (ends_die _wa _ _ _ _ _ H3).
Qed.

(** ** [ncmp] *)

Definition is_int_token (x : bytes) : bool := bool_decide (is_Some (parse_int64 x)).

(** The code of a stream's "wrong format". *)
Definition format_code (this : StreamId) : Z := quit_code (mode_of this) _pe false.

Lemma quit_format this msg T w : this <> INF -> at_tokens T w ->
  exit_code (finish (quit this _pe msg w)) = Some (format_code this).
Proof.
  intros Hthis H. pose proof (ends_quit this _pe msg T w ret H Hthis) as Hq.
  unfold ends, bind, noreturn in Hq. by rewrite Hq.
Qed.

Lemma quit_eof this msg T w : this <> INF -> at_tokens T w ->
  exit_code (finish (quit this _unexpected_eof msg w)) = Some (format_code this).
Proof.
  intros Hthis H. pose proof (ends_quit this _unexpected_eof msg T w ret H Hthis) as Hq.
  unfold ends, bind, noreturn in Hq. by rewrite Hq.
Qed.

Lemma tok_expect_more this what T w : this <> INF -> at_tokens T w ->
  if bool_decide (T this = [])
  then exists h, expect_more this what w = MHalt h /\ exit_code (finish h) = Some (format_code this)
  else exists w', expect_more this what w = MRet tt w' /\ at_tokens T w'.
Proof.
  intros Hthis H. pose proof H as (t & Ht & _).
  unfold expect_more. rewrite bind_stream, (run_lax _ Hthis _ _ Ht). cbv beta iota delta [negb].
  destruct (tok_seekEof this Hthis _ _ H) as (w1 & E1 & H1). rewrite (bind_ret _ _ _ _ _ E1).
  destruct (bool_decide (T this = [])); [|by exists w1].
  eexists. split; [reflexivity|]. by eapply quit_eof.
Qed.

Lemma tok_readLong this T w x xs : this <> INF -> at_tokens T w -> T this = x :: xs ->
  match parse_int64 x with
  | Some v => exists w', readLong this w = MRet v w' /\ at_tokens (with_tokens this xs T) w'
  | None => exists h, readLong this w = MHalt h /\ exit_code (finish h) = Some (format_code this)
  end.
Proof.
  intros Hthis H E. pose proof (tok_expect_more this ($"int64") T w Hthis H) as Hm.
  rewrite E, bool_decide_false in Hm by done. destruct Hm as (w1 & E1 & H1).
  unfold readLong. rewrite (bind_ret _ _ _ _ _ E1).
  destruct (tok_readWord this Hthis _ _ _ _ H1 E) as (w2 & E2 & H2).
  rewrite (bind_ret _ _ _ _ _ E2). unfold stringToLongLong, refuse_nul.
  destruct (parse_int64 x) as [v|] eqn:Ep.
  - rewrite bool_decide_false by by eapply parse_int64_no_nul. exists w2. done.
  - case_bool_decide; (eexists; split; [reflexivity|by eapply quit_format]).
Qed.

Lemma reads_readLong this : this <> INF -> reads this (readLong this) is_int_token (format_code this).
Proof.
  intros Hthis T w x xs H E. pose proof (tok_readLong this _ _ _ _ Hthis H E) as Hr.
  unfold is_int_token. destruct (parse_int64 x); simpl; [|done].
  destruct Hr as (w' & ? & ?). eauto.
Qed.

(** The exit code of [ncmp] as a function of the tokens. *)
Fixpoint ncmp_code (A O : list bytes) : Z :=
  match A, O with
  | x :: A', y :: O' =>
      match parse_int64 x, parse_int64 y with
      | None, _ => FAIL_EXIT_CODE
      | Some _, None => PE_EXIT_CODE
      | Some j, Some p => if j =? p then ncmp_code A' O' else WA_EXIT_CODE
      end
  | _, _ => default OK_EXIT_CODE (extra_code is_int_token A O)
  end.

Lemma ncmp_loop_ends (k : Z * bytes -> M unit) fuel T w n f :
  at_tokens T w -> (length (T ANS) < fuel)%nat ->
  (forall T' w' r, at_tokens T' w' -> T' ANS = [] \/ T' OUF = [] ->
     ends (k r) w' (ncmp_code (T' ANS) (T' OUF))) ->
  ends (bind (Ncmp.loop fuel n f) k) w (ncmp_code (T ANS) (T OUF)).
Proof.
  revert T w n f. induction fuel as [|fuel IH]; intros T w n f H Hf Hk; [lia|].
  cbn [Ncmp.loop]. apply ends_assoc.
  destruct (tok_both_more _ _ H) as (w1 & E1 & H1). eapply ends_bind; [done|].
  destruct (T ANS) as [|x xs] eqn:Ea.
  { simpl. eapply ends_bind; [done|]. eapply ends_code; [apply Hk; [done|auto]|]. by rewrite Ea. }
  destruct (T OUF) as [|y ys] eqn:Eo.
  { simpl. eapply ends_bind; [done|]. eapply ends_code; [apply Hk; [done|auto]|]. by rewrite Ea, Eo. }
  simpl andb. cbv iota zeta. cbn [ncmp_code]. apply ends_assoc.
  pose proof (tok_readLong ANS _ _ _ _ ltac:(done) H1 Ea) as Ha.
  destruct (parse_int64 x) as [j|]; [|destruct Ha as (h & E2 & H2); by eapply ends_halt].
  destruct Ha as (w2 & E2 & H2). eapply ends_bind; [done|]. apply ends_assoc.
  pose proof (tok_readLong OUF _ _ y ys ltac:(done) H2 Eo) as Ho.
  destruct (parse_int64 y) as [p|]; [|destruct Ho as (h & E3 & H3); by eapply ends_halt].
  destruct Ho as (w3 & E3 & H3). eapply ends_bind; [done|].
  apply (at_tokens_ext _ (tails T)) in H3; [|by eapply with_tails].
  destruct (Z.eqb_spec j p) as [->|Hne]; simpl negb; cbv iota.
  - replace xs with (tails T ANS) by (unfold tails; by rewrite Ea).
    replace ys with (tails T OUF) by (unfold tails; by rewrite Eo).
    apply IH; [done| |done]. unfold tails. rewrite Ea. simpl in *. lia.
  - exact (ends_die _wa _ _ _ _ _ H3).
Qed.

Lemma ncmp_main_correct e prog i o a to ta : checker_run e i o a to ta ->
  exit_code (run_program (Ncmp.main (Some prog) [i; o; a]) e)
  = Some (ncmp_code (tokens ta) (tokens (strip_bom to))).
Proof.
  intros Hrun. apply (checker_start _ _ _ _ _ _ _ _ _ _ _ Hrun). intros w Hw.
  pose proof (start_tokens _ _ _ _ _ _ _ Hrun Hw) as H.
  apply (fuel_of_tokens _ _ _ _ ANS H ltac:(done)). intros fuel Hf.
  apply (ncmp_loop_ends _ fuel (pair_of (tokens ta) (tokens (strip_bom to)))); [done..|].
  clear. intros T w [n f] H Hend.
  apply (count_extra_ends readLong is_int_token _ T); [by apply reads_readLong..|done|].
  assert (E : ncmp_code (T ANS) (T OUF) = default OK_EXIT_CODE (extra_code is_int_token (T ANS) (T OUF))).
  { destruct (T ANS); [by destruct (T OUF)|]. by destruct Hend as [?| ->]. }
  rewrite E. destruct (extra_code _ _ _); [done|]. intros w' H'. simpl.
  case_match; exact (ends_die_last _ok _ _ _ _ H').
Qed.

(** ** [hcmp] *)

(** A canonical spelling of an integer of any size. *)
Definition is_integer_text (s : bytes) : Prop := exists v : Z, s = vtos v.

(** What the pattern of [hcmp.cpp] tests, character by character. *)
Definition positive_text (s : bytes) : bool :=
  match s with
  | c :: s' => is_digit c && negb (bool_decide (c = "0"%char)) && forallb is_digit s'
  | [] => false
  end.

Definition integer_text (s : bytes) : bool :=
  bool_decide (s = $"0") || positive_text s
  || match s with c :: s' => bool_decide (c = "-"%char) && positive_text s' | [] => false end.

Lemma in_set_digits c : in_set ($"0123456789") c = is_digit c.
Proof. by destruct c as [[] [] [] [] [] [] [] []]. Qed.

Lemma in_set_nonzero c : in_set ($"123456789") c = is_digit c && negb (bool_decide (c = "0"%char)).
Proof. by destruct c as [[] [] [] [] [] [] [] []]. Qed.

Lemma in_set_minus c : in_set ($"-") c = bool_decide (c = "-"%char).
Proof. by destruct c as [[] [] [] [] [] [] [] []]. Qed.

Lemma in_set_0 c : in_set ($"0") c = bool_decide (c = "0"%char).
Proof. by destruct c as [[] [] [] [] [] [] [] []]. Qed.

Lemma count_while_all P l : (count_while P l =? zlen l) = forallb P l.
Proof.
  induction l as [|c l IH]; [done|]. simpl. rewrite zlen_cons. pose proof (zlen_nonneg l).
  destruct (P c); simpl; [rewrite <- IH; lia|lia].
Qed.

Lemma count_while_ext P Q l : (forall c, P c = Q c) -> count_while P l = count_while Q l.
Proof. intros E. induction l as [|c l IH]; [done|]. simpl. by rewrite E, IH. Qed.

Lemma zdrop_1 {A} (x : A) l : zdrop 1 (x :: l) = l.
Proof. by rewrite zdrop_drop by lia. Qed.

(** A character set without repetition: one character is taken. *)
Lemma match_rest_one s children chars l : match_rest (Pattern s children chars 1 1) l =
  match l with
  | c :: l' => in_set chars c && match children with [] => bool_decide (l' = []) | _ =>
                                   existsb (fun child => match_rest child l') children end
  | [] => false
  end.
Proof.
  cbn [match_rest]. change (0 <? 1) with true. destruct l as [|c l]; [done|]. cbn [count_while].
  destruct (in_set chars c); [|done]. pose proof (count_while_nonneg (in_set chars) l).
  destruct (Z.ltb_spec (1 + count_while (in_set chars) l) 1); [lia|]. simpl andb. cbv iota.
  replace (if 1 <? 1 + count_while (in_set chars) l then 1 else 1 + count_while (in_set chars) l)
    with 1 by (case_test; lia).
  destruct children; [|by rewrite zdrop_1]. rewrite zlen_cons. pose proof (zlen_nonneg l).
  case_bool_decide as E; [by subst|]. destruct l; [done|]. rewrite zlen_cons in *. 
  pose proof (zlen_nonneg l). lia.
Qed.

Lemma match_rest_star s chars l : zlen l <= INT_MAX ->
  match_rest (Pattern s [] chars 0 INT_MAX) l = forallb (in_set chars) l.
Proof.
  intros Hl. cbn [match_rest]. change (0 <? INT_MAX) with true.
  pose proof (count_while_bounds (in_set chars) l).
  destruct (Z.ltb_spec (count_while (in_set chars) l) 0); [lia|]. simpl andb. cbv iota.
  destruct (Z.ltb_spec INT_MAX (count_while (in_set chars) l)); [lia|]. apply count_while_all.
Qed.

Lemma match_rest_opt s child chars l : match_rest (Pattern s [child] chars 0 1) l =
  match l with
  | c :: l' => if in_set chars c then match_rest child l' else match_rest child l
  | [] => match_rest child []
  end.
Proof.
  cbn [match_rest]. change (0 <? 1) with true. pose proof (count_while_nonneg (in_set chars) l).
  destruct (Z.ltb_spec (count_while (in_set chars) l) 0); [lia|]. simpl andb. cbv iota.
  simpl existsb. rewrite orb_false_r. destruct l as [|c l]; [done|]. cbn [count_while].
  destruct (in_set chars c).
  - pose proof (count_while_nonneg (in_set chars) l).
    replace (if 1 <? 1 + count_while (in_set chars) l then 1 else 1 + count_while (in_set chars) l)
      with 1 by (case_test; lia). by rewrite zdrop_1.
  - change (if 1 <? 0 then 1 else 0) with 0. by rewrite zdrop_drop by lia.
Qed.

Lemma match_rest_any s children l : children <> [] ->
  match_rest (Pattern s children [] 0 0) l = existsb (fun child => match_rest child l) children.
Proof.
  intros Hne. cbn [match_rest]. change (0 <? 0) with false. simpl andb. cbv iota.
  rewrite zdrop_drop by lia. by destruct children.
Qed.

(** The pattern of [hcmp.cpp] is parsed, and tests what it should. *)
Lemma pnum_spec : exists p, Hcmp.pnum = inr p /\
  forall s, zlen s <= INT_MAX -> matches p s = integer_text s.
Proof.
  eexists. split; [vm_compute; reflexivity|]. intros s Hs. rewrite matches_rest.
  change ["0"%char; "1"%char; "2"%char; "3"%char; "4"%char; "5"%char; "6"%char; "7"%char; "8"%char; "9"%char]
    with ($"0123456789").
  change ["1"%char; "2"%char; "3"%char; "4"%char; "5"%char; "6"%char; "7"%char; "8"%char; "9"%char]
    with ($"123456789").
  change 2147483647 with INT_MAX.
  rewrite match_rest_any by done. cbn [existsb].
  rewrite match_rest_opt, match_rest_one. cbn [existsb]. rewrite !orb_false_r.
  assert (Hpos : forall t tag tag' l, zlen l <= INT_MAX ->
    match_rest (Pattern t [Pattern tag [] tag' 0 INT_MAX] ($"123456789") 1 1) l
    = match l with c :: l' => is_digit c && negb (bool_decide (c = "0"%char))
                              && forallb (in_set tag') l' | [] => false end).
  { intros t tag tag' l Hl. rewrite match_rest_one. destruct l as [|c l]; [done|].
    rewrite in_set_nonzero. cbn [existsb]. rewrite match_rest_star by (rewrite zlen_cons in Hl; lia).
    by rewrite orb_false_r. }
  assert (Hall : forall l, forallb (in_set ($"0123456789")) l = forallb is_digit l).
  { induction l as [|c l IH]; [done|]. simpl. by rewrite in_set_digits, IH. }
  destruct s as [|c s].
  { rewrite Hpos by done. done. }
  change ["0"%char] with ($"0"). change ["-"%char] with ($"-").
  rewrite in_set_minus, in_set_0, !Hpos by (rewrite ?zlen_cons in *; lia).
  unfold integer_text, positive_text. rewrite Hall.
  assert (Ez : bool_decide (c :: s = $"0") = bool_decide (c = "0"%char) && bool_decide (s = [])).
  { change ($"0") with ["0"%char]. destruct (decide (c = "0"%char)) as [->|Hc].
    - rewrite (bool_decide_true ("0"%char = "0"%char)) by done. apply bool_decide_ext. naive_solver.
    - rewrite !bool_decide_false by congruence. done. }
  rewrite Ez. rewrite <- orb_assoc. f_equal.
  destruct (decide (c = "-"%char)) as [->|Hc].
  - rewrite (bool_decide_true ("-"%char = "-"%char)) by done. simpl. destruct s as [|d s]; [done|].
    by rewrite Hall.
  - rewrite (bool_decide_false (c = "-"%char)) by done. simpl. by rewrite orb_false_r.
Qed.

Lemma positive_text_spec s : positive_text s = true <-> canonical_nat s /\ s <> $"0".
Proof.
  destruct s as [|c s]; [split; [done|by intros [?%canonical_not_nil _]]|].
  simpl. rewrite !andb_true_iff, negb_true_iff, bool_decide_eq_false, digits_forallb.
  unfold canonical_nat, digits. rewrite Forall_cons_iff. simpl. split.
  - intros [[Hc Hz] Hs]. split; [split_and!; [done..|congruence]|].
    change ($"0") with ["0"%char]. congruence.
  - intros [(Hd & _ & H0) Hne]. split_and!; [apply Hd| |apply Hd].
    intros ->. by apply Hne, H0.
Qed.

Lemma canonical_0 : canonical_nat ($"0").
Proof. split_and!; [by repeat constructor|done|done]. Qed.

Lemma integer_text_spec s : integer_text s = true <-> is_integer_text s.
Proof.
  unfold integer_text, is_integer_text. rewrite !orb_true_iff, bool_decide_eq_true. split.
  - intros [[->|[Hc _]%positive_text_spec]|Hm].
    + by exists 0.
    + exists (digits_value s). by rewrite vtos_canonical.
    + destruct s as [|c s]; [done|]. apply andb_true_iff in Hm as [Hc Hp].
      apply bool_decide_eq_true in Hc as ->. apply positive_text_spec in Hp as [Hc Hne].
      exists (- digits_value s). rewrite vtos_neg, vtos_canonical; [done|done|].
      pose proof (digits_value_nonneg s (proj1 Hc)).
      destruct (Z.eq_dec (digits_value s) 0) as [E|]; [|lia].
      exfalso. apply Hne. rewrite <- (vtos_canonical s Hc), E. done.
  - intros [v ->]. destruct (Z.lt_trichotomy v 0) as [Hv|[->|Hv]]; [|by left; left|].
    + right. replace v with (- (- v)) by lia. rewrite vtos_neg by lia.
      rewrite bool_decide_true by done. simpl. apply positive_text_spec.
      destruct (vtos_nonneg (- v) ltac:(lia)) as [Hc E]. split; [done|].
      intros E0. rewrite E0 in E. change (digits_value ($"0")) with 0 in E. lia.
    + left. right. apply positive_text_spec. destruct (vtos_nonneg v ltac:(lia)) as [Hc E].
      split; [done|]. intros E0. rewrite E0 in E. change (digits_value ($"0")) with 0 in E. lia.
Qed.

(** The exit code of [hcmp] as a function of the tokens. *)
Definition hcmp_code (A O : list bytes) : Z :=
  match A, O with
  | [], _ => FAIL_EXIT_CODE
  | _ :: _, [] => PE_EXIT_CODE
  | x :: A', y :: O' =>
      if negb (integer_text x) || negb (bool_decide (A' = [])) then FAIL_EXIT_CODE
      else if negb (integer_text y) then PE_EXIT_CODE
      else if negb (bool_decide (x = y)) then WA_EXIT_CODE
      else if bool_decide (O' = []) then OK_EXIT_CODE else PE_EXIT_CODE
  end.

Lemma hcmp_code_short A : A <> [] -> hcmp_code A [] = PE_EXIT_CODE.
Proof. by destruct A. Qed.

(** The two words that [hcmp] and [yesno] read first. *)
Lemma two_words_ends (k : bytes -> bytes -> M unit) T w (code : list bytes -> list bytes -> Z) :
  at_tokens T w ->
  (T ANS = [] -> code (T ANS) (T OUF) = FAIL_EXIT_CODE) ->
  (T ANS <> [] -> T OUF = [] -> code (T ANS) (T OUF) = PE_EXIT_CODE) ->
  (forall x xs y ys w', T ANS = x :: xs -> T OUF = y :: ys -> at_tokens (tails T) w' ->
     ends (k x y) w' (code (T ANS) (T OUF))) ->
  ends (let* x := readWord ANS in let* y := readWord OUF in k x y) w (code (T ANS) (T OUF)).
Proof.
  intros H Hfail Hpe Hk. destruct (T ANS) as [|x xs] eqn:Ea.
  { rewrite Hfail by done. destruct (tok_readWord_end ANS ltac:(done) _ _ H Ea) as (h & E & Hh).
    by eapply ends_halt. }
  destruct (tok_readWord ANS ltac:(done) _ _ _ _ H Ea) as (w1 & E1 & H1). eapply ends_bind; [done|].
  destruct (T OUF) as [|y ys] eqn:Eo.
  { rewrite Hpe by done. destruct (tok_readWord_end OUF ltac:(done) _ _ H1 Eo) as (h & E & Hh).
    by eapply ends_halt. }
  destruct (tok_readWord OUF ltac:(done) _ _ y ys H1 Eo) as (w2 & E2 & H2). eapply ends_bind; [done|].
  eapply Hk; [done..|]. eapply at_tokens_ext; [done|]. by eapply with_tails.
Qed.

(** [quitf] behind a condition: the process ends with the code, or goes on. *)
Lemma ends_when (b : bool) result format args T w (k : unit -> M unit) c : at_tokens T w ->
  (b = true -> quit_code _output result (negb (bool_decide (T OUF = []))) = c) ->
  (b = false -> ends (k tt) w c) ->
  ends (bind (when b (die result format args)) k) w c.
Proof.
  intros H Hquit Hk. destruct b.
  - eapply ends_code; [|by apply Hquit]. by apply ends_die.
  - eapply ends_bind; [done|]. by apply Hk.
Qed.

Lemma hcmp_main_correct e prog i o a to ta : checker_run e i o a to ta ->
  exit_code (run_program (Hcmp.main (Some prog) [i; o; a]) e)
  = Some (hcmp_code (tokens ta) (tokens (strip_bom to))).
Proof.
  intros Hrun. destruct pnum_spec as (p & Ep & Hp). unfold Hcmp.main.
  rewrite Ep. apply (checker_start _ _ _ _ _ _ _ _ _ _ _ Hrun).
  intros w Hw. pose proof (start_tokens _ _ _ _ _ _ _ Hrun Hw) as H.
  apply (two_words_ends _ (pair_of (tokens ta) (tokens (strip_bom to))) _ hcmp_code H).
  { simpl. intros ->. reflexivity. }
  { simpl. intros Hne ->. by apply hcmp_code_short. }
  assert (Hnum : forall x w', x ∈ tokens ta \/ x ∈ tokens (strip_bom to) ->
            Hcmp.isNumeric x w' = MRet (integer_text x) w').
  { intros x w' Hx. unfold Hcmp.isNumeric. rewrite Ep. simpl. unfold bind, ret. rewrite Hp; [done|].
    by eapply token_short. }
  intros x xs y ys w1 Ea Eo H1. rewrite Ea, Eo. simpl in Ea, Eo.
  set (T := pair_of _ _) in *.
  assert (Eta : tails T ANS = xs) by (unfold tails, T; simpl; by rewrite Ea).
  assert (Eto : tails T OUF = ys) by (unfold tails, T; simpl; by rewrite Eo).
  clearbody T. unfold hcmp_code. eapply ends_bind; [apply Hnum; left; rewrite Ea; left|].
  apply (ends_when _ _ _ _ _ _ _ _ H1); [by intros ->|]. intros ->%negb_false_iff. simpl negb.
  destruct (tok_seekEof ANS ltac:(done) _ _ H1) as (w2 & E2 & H2). eapply ends_bind; [done|].
  rewrite Eta. cbn [orb].
  apply (ends_when _ _ _ _ _ _ _ _ H2); [by intros ->|]. intros ->.
  eapply ends_bind; [apply Hnum; right; rewrite Eo; left|].
  apply (ends_when _ _ _ _ _ _ _ _ H2); [by intros ->|]. intros ->.
  apply (ends_when _ _ _ _ _ _ _ _ H2); [by intros ->|]. intros ->.
  eapply ends_code; [exact (ends_die_last _ok _ _ _ _ H2)|].
  rewrite Eto. by destruct (bool_decide (ys = [])).
Qed.

(** C13: the exit codes of [ncmp] and [hcmp] for any two files.  [ncmp]: a
    token of the answer that is not a 64-bit integer is the checker's failure,
    one of the output is a presentation error, a difference in value or in
    length is a wrong answer, in the order in which the checker meets them.
    [hcmp]: both files must hold exactly one canonical integer of any size, and
    the same one; a bad answer file is the checker's failure, a bad or longer
    output a presentation error. *)
Theorem integer_checkers_correct e prog i o a to ta : checker_run e i o a to ta ->
  exit_code (run_program (Ncmp.main (Some prog) [i; o; a]) e)
  = Some (ncmp_code (tokens ta) (tokens (strip_bom to))) /\
  exit_code (run_program (Hcmp.main (Some prog) [i; o; a]) e)
  = Some (hcmp_code (tokens ta) (tokens (strip_bom to))).
Proof. intros Hrun. split; [by apply ncmp_main_correct|by apply hcmp_main_correct]. Qed.

(** ** [yesno] and [nyesno] *)

Definition yesno_code (A O : list bytes) : Z :=
  match A, O with
  | [], _ => FAIL_EXIT_CODE
  | _ :: _, [] => PE_EXIT_CODE
  | x :: A', y :: O' =>
      let ja := upperCase x in
      let pa := upperCase y in
      if negb (is_yesno ja) then FAIL_EXIT_CODE
      else if negb (is_yesno pa) then PE_EXIT_CODE
      else if negb (bool_decide (ja = pa)) then WA_EXIT_CODE
      else if bool_decide (O' = []) then OK_EXIT_CODE else PE_EXIT_CODE
  end.

Lemma yesno_code_short A : A <> [] -> yesno_code A [] = PE_EXIT_CODE.
Proof. by destruct A. Qed.

(** [yesno]: only the first token of the answer counts, case is ignored, the
    output must hold nothing else. *)
Lemma yesno_main_correct e prog i o a to ta : checker_run e i o a to ta ->
  exit_code (run_program (Yesno.main (Some prog) [i; o; a]) e)
  = Some (yesno_code (tokens ta) (tokens (strip_bom to))).
Proof.
  intros Hrun. apply (checker_start _ _ _ _ _ _ _ _ _ _ _ Hrun). intros w Hw.
  pose proof (start_tokens _ _ _ _ _ _ _ Hrun Hw) as H.
  apply (two_words_ends _ (pair_of (tokens ta) (tokens (strip_bom to))) _ yesno_code H).
  { simpl. intros ->. reflexivity. }
  { simpl. intros Hne ->. by apply yesno_code_short. }
  intros x xs y ys w1 Ea Eo H1. rewrite Ea, Eo. set (T := pair_of _ _) in *.
  assert (Eto : tails T OUF = ys) by (unfold tails; by rewrite Eo).
  clearbody T. unfold yesno_code. cbv zeta.
  apply (ends_when _ _ _ _ _ _ _ _ H1); [by intros ->|]. intros ->.
  apply (ends_when _ _ _ _ _ _ _ _ H1); [by intros ->|]. intros ->.
  apply (ends_when _ _ _ _ _ _ _ _ H1); [by intros ->|]. intros ->.
  eapply ends_code; [exact (ends_die_last _ok _ _ _ _ H1)|].
  rewrite Eto. by destruct (bool_decide (ys = [])).
Qed.

Fixpoint nyesno_code (A O : list bytes) : Z :=
  match A, O with
  | x :: A', y :: O' =>
      if negb (is_yesno (upperCase x)) then FAIL_EXIT_CODE
      else if negb (is_yesno (upperCase y)) then PE_EXIT_CODE
      else if negb (bool_decide (upperCase x = upperCase y)) then WA_EXIT_CODE
      else nyesno_code A' O'
  | [], [] => OK_EXIT_CODE
  | _, _ => WA_EXIT_CODE
  end.

Lemma nyesno_loop_ends (k : Nyesno.counts -> M unit) fuel T w c :
  at_tokens T w -> (length (T ANS) < fuel)%nat ->
  (forall T' w' r, at_tokens T' w' -> T' ANS = [] \/ T' OUF = [] ->
     ends (k r) w' (nyesno_code (T' ANS) (T' OUF))) ->
  ends (bind (Nyesno.loop fuel c) k) w (nyesno_code (T ANS) (T OUF)).
Proof.
  revert T w c. induction fuel as [|fuel IH]; intros T w c H Hf Hk; [lia|].
  cbn [Nyesno.loop]. apply ends_assoc.
  destruct (tok_both_more _ _ H) as (w1 & E1 & H1). eapply ends_bind; [done|].
  destruct (T ANS) as [|x xs] eqn:Ea.
  { simpl. eapply ends_bind; [done|]. eapply ends_code; [apply Hk; [done|auto]|]. by rewrite Ea. }
  destruct (T OUF) as [|y ys] eqn:Eo.
  { simpl. eapply ends_bind; [done|]. eapply ends_code; [apply Hk; [done|auto]|]. by rewrite Ea, Eo. }
  simpl andb. cbv iota zeta. cbn [nyesno_code]. apply ends_assoc.
  destruct (tok_readWord ANS ltac:(done) _ _ _ _ H1 Ea) as (w2 & E2 & H2).
  eapply ends_bind; [done|]. apply ends_assoc.
  destruct (tok_readWord OUF ltac:(done) _ _ y ys H2 Eo) as (w3 & E3 & H3).
  eapply ends_bind; [done|]. apply (at_tokens_ext _ (tails T)) in H3; [|by eapply with_tails].
  do 3 (apply ends_assoc; apply (ends_when _ _ _ _ _ _ _ _ H3); [by intros ->|]; intros ->).
  replace xs with (tails T ANS) by (unfold tails; by rewrite Ea).
  replace ys with (tails T OUF) by (unfold tails; by rewrite Eo).
  apply IH; [done| |done]. unfold tails. rewrite Ea. simpl in *. lia.
Qed.

Lemma nyesno_main_correct e prog i o a to ta : checker_run e i o a to ta ->
  exit_code (run_program (Nyesno.main (Some prog) [i; o; a]) e)
  = Some (nyesno_code (tokens ta) (tokens (strip_bom to))).
Proof.
  intros Hrun. apply (checker_start _ _ _ _ _ _ _ _ _ _ _ Hrun). intros w Hw.
  pose proof (start_tokens _ _ _ _ _ _ _ Hrun Hw) as H.
  apply (fuel_of_tokens _ _ _ _ ANS H ltac:(done)). intros fuel Hf.
  apply (nyesno_loop_ends _ fuel (pair_of (tokens ta) (tokens (strip_bom to)))); [done..|].
  clear. intros T w c H Hend.
  assert (Hread : forall this bad, this <> INF -> reads this (readToken this) (fun _ => true) bad).
  { intros this bad Hthis T' w' x xs H' E. by apply (reads_readToken this Hthis T' w' x xs). }
  apply (count_extra_ends readToken (fun _ => true) _ T); [by apply Hread..|done|].
  assert (E : nyesno_code (T ANS) (T OUF) = default OK_EXIT_CODE (extra_code (fun _ => true) (T ANS) (T OUF))).
  { assert (Hall : forall l : list bytes, forallb (fun _ => true) l = true) by (induction l; done).
    unfold extra_code. rewrite !Hall. simpl.
    destruct (T ANS); [by destruct (T OUF)|]. by destruct Hend as [?| ->]. }
  rewrite E. destruct (extra_code _ _ _); [done|]. intros w' H'. simpl.
  repeat case_match; exact (ends_die_last _ok _ _ _ _ H').
Qed.

(** C17: the exit codes of [yesno] and [nyesno] for any two files: case is
    ignored; [yesno] compares the first token of the answer with the only token
    of the output, [nyesno] all of them in order. *)
Theorem yesno_checkers_correct e prog i o a to ta : checker_run e i o a to ta ->
  exit_code (run_program (Yesno.main (Some prog) [i; o; a]) e)
  = Some (yesno_code (tokens ta) (tokens (strip_bom to))) /\
  exit_code (run_program (Nyesno.main (Some prog) [i; o; a]) e)
  = Some (nyesno_code (tokens ta) (tokens (strip_bom to))).
Proof. intros Hrun. split; [by apply yesno_main_correct|by apply nyesno_main_correct]. Qed.

(** ** [rcmp4], [rcmp6], [rcmp9] *)

(** The double a token spells for [stringToDouble]. *)
Definition token_double (x : bytes) : option double :=
  if bool_decide (zero ∈ x) then None else parse_double x.

Lemma tok_readDouble this T w : this <> INF -> at_tokens T w ->
  match T this with
  | [] => exists h, readDouble this w = MHalt h /\ exit_code (finish h) = Some (format_code this)
  | x :: xs =>
      match token_double x with
      | Some v => exists w', readDouble this w = MRet v w' /\ at_tokens (with_tokens this xs T) w'
      | None => exists h, readDouble this w = MHalt h /\ exit_code (finish h) = Some (format_code this)
      end
  end.
Proof.
  intros Hthis H. pose proof (tok_expect_more this ($"double") T w Hthis H) as Hm.
  unfold readDouble, readReal. destruct (T this) as [|x xs] eqn:E.
  { destruct Hm as (h & E1 & Hh). exists h. split; [|done]. unfold bind at 1. by rewrite E1. }
  rewrite bool_decide_false in Hm by done. destruct Hm as (w1 & E1 & H1).
  rewrite (bind_ret _ _ _ _ _ E1).
  destruct (tok_readWord this Hthis _ _ _ _ H1 E) as (w2 & E2 & H2).
  rewrite (bind_ret _ _ _ _ _ E2). unfold stringToDouble, refuse_nul, token_double.
  case_bool_decide; [eexists; split; [reflexivity|by eapply quit_format]|].
  destruct (parse_double x) as [v|]; [by exists w2|].
  eexists; split; [reflexivity|by eapply quit_format].
Qed.

(** The exit code of the three checkers as a function of the tokens. *)
Fixpoint rcmp_code (EPS : double) (A O : list bytes) : Z :=
  match A with
  | [] => if bool_decide (O = []) then OK_EXIT_CODE else PE_EXIT_CODE
  | x :: A' =>
      match token_double x with
      | None => FAIL_EXIT_CODE
      | Some j =>
          match O with
          | [] => PE_EXIT_CODE
          | y :: O' =>
              match token_double y with
              | None => PE_EXIT_CODE
              | Some p => if doubleCompare j p EPS then rcmp_code EPS A' O' else WA_EXIT_CODE
              end
          end
      end
  end.

Lemma rcmp_loop_ends EPS format (k : Z * double * double -> M unit) fuel T w n j p :
  at_tokens T w -> (length (T ANS) < fuel)%nat ->
  (forall T' w' r, at_tokens T' w' -> T' ANS = [] ->
     ends (k r) w' (rcmp_code EPS (T' ANS) (T' OUF))) ->
  ends (bind (rcmp_loop EPS format fuel n j p) k) w (rcmp_code EPS (T ANS) (T OUF)).
Proof.
  revert T w n j p. induction fuel as [|fuel IH]; intros T w n j p H Hf Hk; [lia|].
  cbn [rcmp_loop]. apply ends_assoc.
  destruct (tok_seekEof ANS ltac:(done) _ _ H) as (w1 & E1 & H1). eapply ends_bind; [done|].
  pose proof (tok_readDouble ANS _ _ ltac:(done) H1) as Ha.
  destruct (T ANS) as [|x xs] eqn:Ea.
  { simpl. eapply ends_bind; [done|]. eapply ends_code; [by apply Hk|]. by rewrite Ea. }
  rewrite bool_decide_false by done. cbv iota zeta. cbn [rcmp_code]. apply ends_assoc.
  destruct (token_double x) as [dj|]; [|destruct Ha as (h & E2 & H2); by eapply ends_halt].
  destruct Ha as (w2 & E2 & H2). eapply ends_bind; [done|]. apply ends_assoc.
  pose proof (tok_readDouble OUF _ _ ltac:(done) H2) as Ho.
  rewrite (with_tokens_other OUF) in Ho by done.
  destruct (T OUF) as [|y ys] eqn:Eo; [destruct Ho as (h & E3 & H3); by eapply ends_halt|].
  destruct (token_double y) as [dp|]; [|destruct Ho as (h & E3 & H3); by eapply ends_halt].
  destruct Ho as (w3 & E3 & H3). eapply ends_bind; [done|].
  apply (at_tokens_ext _ (tails T)) in H3; [|by eapply with_tails].
  destruct (doubleCompare dj dp EPS); simpl negb; cbv iota.
  - replace xs with (tails T ANS) by (unfold tails; by rewrite Ea).
    replace ys with (tails T OUF) by (unfold tails; by rewrite Eo).
    apply IH; [done| |done]. unfold tails. rewrite Ea. simpl in *. lia.
  - exact (ends_die _wa _ _ _ _ _ H3).
Qed.

Lemma rcmp_main_correct EPS name differ_format single_format e prog i o a to ta :
  checker_run e i o a to ta ->
  exit_code (run_program (rcmp_main EPS name differ_format single_format (Some prog) [i; o; a]) e)
  = Some (rcmp_code EPS (tokens ta) (tokens (strip_bom to))).
Proof.
  intros Hrun. apply (checker_start _ _ _ _ _ _ _ _ _ _ _ Hrun). intros w Hw.
  pose proof (start_tokens _ _ _ _ _ _ _ Hrun Hw) as H.
  apply (fuel_of_tokens _ _ _ _ ANS H ltac:(done)). intros fuel Hf.
  apply (rcmp_loop_ends _ _ _ fuel (pair_of (tokens ta) (tokens (strip_bom to)))); [done..|].
  clear. intros T w [[n j] p] H E. rewrite E. simpl rcmp_code.
  case_match; (eapply ends_code; [exact (ends_die_last _ok _ _ _ _ H)|]);
    by destruct (bool_decide (T OUF = [])).
Qed.

(** C14: the exit codes of the three floating-point checkers for any two
    files: token by token under [doubleCompare] with their precision; a
    missing or malformed number of the output is a presentation error, and so
    is anything left after the answer's last number. *)
Theorem rcmp_correct e prog i o a to ta : checker_run e i o a to ta ->
  let code EPS := Some (rcmp_code EPS (tokens ta) (tokens (strip_bom to))) in
  exit_code (run_program (Rcmp4.main (Some prog) [i; o; a]) e) = code Rcmp4.EPS /\
  exit_code (run_program (Rcmp6.main (Some prog) [i; o; a]) e) = code Rcmp6.EPS /\
  exit_code (run_program (Rcmp9.main (Some prog) [i; o; a]) e) = code Rcmp9.EPS.
Proof. intros Hrun. split_and!; by apply rcmp_main_correct. Qed.

(** ** Concrete runs *)

Lemma wcmp_correct_witness : sample_code Wcmp.main ($" a  b") ($"a b") = Some 0.
Proof. by_sample wcmp_correct ($" a  b") ($"a b"). Defined.

Lemma integer_checkers_correct_witness : sample_code Ncmp.main ($"1 02") ($"1 2") = Some 2
  /\ sample_code Hcmp.main ($"-12345678901234567890123") ($"-12345678901234567890123") = Some 0.
Proof.
  split; unfold sample_code.
  - rewrite (proj1 (integer_checkers_correct _ _ _ _ _ ($"1 02") ($"1 2")
               (sample_run [] ($"1 02") ($"1 2") ltac:(done) ltac:(done) ltac:(done)))).
    vm_compute. reflexivity.
  - rewrite (proj2 (integer_checkers_correct _ _ _ _ _ _ _
               (sample_run [] ($"-12345678901234567890123") ($"-12345678901234567890123")
                  ltac:(done) ltac:(done) ltac:(done)))).
    vm_compute. reflexivity.
Defined.

Lemma yesno_checkers_correct_witness : sample_code Yesno.main ($"yes") ($"No") = Some 1
  /\ sample_code Nyesno.main ($"yes no maybe") ($"YES NO YES") = Some 2.
Proof.
  split; unfold sample_code.
  - rewrite (proj1 (yesno_checkers_correct _ _ _ _ _ ($"yes") ($"No")
               (sample_run [] ($"yes") ($"No") ltac:(done) ltac:(done) ltac:(done)))).
    vm_compute. reflexivity.
  - rewrite (proj2 (yesno_checkers_correct _ _ _ _ _ ($"yes no maybe") ($"YES NO YES")
               (sample_run [] ($"yes no maybe") ($"YES NO YES") ltac:(done) ltac:(done) ltac:(done)))).
    vm_compute. reflexivity.
Defined.

Lemma rcmp_correct_witness : sample_code Rcmp6.main ($"0.9999999999 2") ($"1 2.5") = Some 1.
Proof.
  unfold sample_code.
  rewrite (proj1 (proj2 (rcmp_correct _ _ _ _ _ ($"0.9999999999 2") ($"1 2.5")
             (sample_run [] ($"0.9999999999 2") ($"1 2.5") ltac:(done) ltac:(done) ltac:(done))))).
  vm_compute. reflexivity.
Defined.
