(* ===== verification/RealsSpec.v ===== *)
(** * The real-number checkers on decimals

    [rcmp4], [rcmp6] and [rcmp9] on files of decimal numbers: the checkers
    accept an output whose numbers, as they are written, are within the
    tolerance of the answer's, and what they accept is within it up to
    [2E-15]. *)

From Stdlib Require Import SpecFloat QArith Qabs Qminmax Qpower Lqa.
From S2P Require Import Prelude Text Doubles Readers ReaderRep Validator Streams World Pattern Reading Numbers Register Checkers StreamSpec QuitSpec ProcessSpec RegisterSpec TokenSpec NumbersSpec FloatSpec CheckersSpec RoundSpec ToleranceSpec.

#[local] Open Scope Z_scope.

(** ** The text of a decimal *)

(** A sign, the digits before the point and those after it. *)
Record written := Written { w_neg : bool; w_int : bytes; w_frac : bytes }.

Definition well_written (d : written) : Prop := digits (w_int d) /\ w_int d <> [] /\ digits (w_frac d).

Definition point_part (frac : bytes) : bytes := match frac with [] => [] | _ => "."%char :: frac end.

Definition text_of (d : written) : bytes :=
  (if w_neg d then $"-" else []) ++ w_int d ++ point_part (w_frac d).

Definition mantissa (d : written) : Z := digits_value (w_int d ++ w_frac d).

(** The number, and the double it is read as. *)
Definition number_of (d : written) : Q := dec_value (w_neg d) (mantissa d) (- zlen (w_frac d)).
Definition double_of (d : written) : double := decimal (w_neg d) (mantissa d) (- zlen (w_frac d)).

(** Numbers far from the largest double. *)
Definition ordinary (d : written) : Prop := well_written d /\ (Qabs (number_of d) <= inject_Z (10 ^ 299))%Q.

Lemma scan_digits_app d r acc n : digits d -> (forall c r', r = c :: r' -> is_digit c = false) ->
  scan_digits (d ++ r) acc n
  = (foldl (fun acc c => acc * 10 + (char_to_int c - 48)) acc d, n + zlen d, r).
Proof.
  intros Hd Hr. revert acc n. induction Hd as [|c d Hc Hd IH]; intros acc n.
  - simpl. replace (n + zlen []) with n by (unfold zlen; simpl; lia). destruct r as [|c r]; [done|].
    cbn [scan_digits]. by rewrite (Hr c r eq_refl).
  - cbn [scan_digits app foldl]. rewrite Hc, IH, zlen_cons. f_equal. f_equal. lia.
Qed.

Lemma digit_not_sign c : is_digit c = true -> is_sign c = false.
Proof. intros Hc. unfold is_sign. by repeat (case_bool_decide; [by subst|]). Qed.

Lemma strtod_written d : well_written d -> strtod (text_of d) = Some (double_of d).
Proof.
  intros (Hi & Hne & Hf). destruct d as [neg ip fp]. unfold text_of, double_of, mantissa in *. cbn [w_neg w_int w_frac] in *.
  assert (Hs : scan_sign ((if neg then $"-" else []) ++ ip ++ point_part fp) = (neg, ip ++ point_part fp)).
  { destruct neg; [done|]. destruct ip as [|c ip]; [done|]. cbn [app scan_sign].
    inversion_clear Hi as [|? ? Hc _]. by rewrite digit_not_sign. }
  unfold strtod. rewrite Hs, scan_digits_app; [|done|].
  2:{ intros c r'. destruct fp as [|f fp]; [done|]. simpl. by intros [= <- _]. }
  assert (Hz : 0 < zlen ip) by (destruct ip; [done|]; rewrite zlen_cons; pose proof (zlen_nonneg ip); lia).
  assert (Hv : digits_value (ip ++ fp) = foldl (fun acc c => acc * 10 + (char_to_int c - 48)) (digits_value ip) fp)
    by (unfold digits_value; by rewrite foldl_app).
  change (foldl _ 0 ip) with (digits_value ip). rewrite Hv. destruct fp as [|f fp].
  - simpl. rewrite (proj2 (Z.eqb_neq _ _)) by lia. done.
  - pose proof (scan_digits_app (f :: fp) [] (digits_value ip) 0 Hf ltac:(done)) as E. rewrite app_nil_r in E.
    cbn [point_part]. rewrite decide_True by done. rewrite E. pose proof (zlen_nonneg (f :: fp)).
    rewrite (proj2 (Z.eqb_neq _ _)) by lia. cbv iota. by do 2 f_equal.
Qed.

Lemma scan_lf_digits d r g p : digits d ->
  scan_lf (d ++ r) g p false false
  = (d ++ (scan_lf r (g || negb (bool_decide (d = []))) p false false).1, (scan_lf r (g || negb (bool_decide (d = []))) p false false).2).
Proof.
  intros Hd. revert g. induction Hd as [|c d Hc Hd IH]; intros g.
  - rewrite bool_decide_true by done. rewrite orb_false_r. simpl. by destruct (scan_lf r g p false false).
  - cbn [app scan_lf]. rewrite Hc, IH, (bool_decide_false (c :: d = [])) by done. cbn [orb negb]. by rewrite orb_true_r.
Qed.

Lemma sscanf_written d : well_written d -> sscanf_lf_s (text_of d) = (1, double_of d, []).
Proof.
  intros Hw. pose proof (strtod_written d Hw) as Hs. destruct Hw as (Hi & Hne & Hf). destruct d as [neg ip fp].
  unfold text_of in *. cbn [w_neg w_int w_frac] in *.
  assert (Hsplit : (match (if neg then $"-" else []) ++ ip ++ point_part fp with
                    | c :: b => if is_sign c then ([c], b) else ([], (if neg then $"-" else []) ++ ip ++ point_part fp)
                    | [] => ([], [])
                    end) = (if neg then $"-" else [], ip ++ point_part fp)).
  { destruct neg; [done|]. destruct ip as [|c ip]; [done|]. cbn [app].
    inversion_clear Hi as [|? ? Hc _]. by rewrite digit_not_sign. }
  unfold sscanf_lf_s. rewrite Hsplit.
  assert (Hscan : scan_lf (ip ++ point_part fp) false false false false = (ip ++ point_part fp, [])).
  { rewrite scan_lf_digits by done. rewrite bool_decide_false by done. destruct fp as [|f fp]; [done|].
    change (scan_lf (point_part (f :: fp)) (false || negb false) false false false)
      with (let '(t, r) := scan_lf (f :: fp) true true false false in ("."%char :: t, r)).
    pose proof (scan_lf_digits (f :: fp) [] true true Hf) as E. rewrite app_nil_r in E. rewrite E. simpl. by rewrite app_nil_r. }
  rewrite Hscan, Hs. done.
Qed.

(** ** The checks of [stringToDouble] *)

Lemma count_cons P c s : count P (c :: s) = (if P c then 1 else 0) + count P s.
Proof.
  unfold count. rewrite filter_cons. destruct (decide (P c = true)) as [E|E]; [by rewrite zlen_cons, E|].
  by apply not_true_is_false in E as ->.
Qed.

Lemma count_app P a b : count P (a ++ b) = count P a + count P b.
Proof. induction a as [|c a IH]; [done|]. simpl. rewrite !count_cons, IH. lia. Qed.

Lemma count_digits P d : digits d -> (forall c, is_digit c = true -> P c = false) -> count P d = 0.
Proof. intros Hd HP. induction Hd as [|c d Hc Hd IH]; [done|]. rewrite count_cons, (HP c Hc), IH. done. Qed.

Lemma digit_facts c : is_digit c = true ->
  double_char c = true /\ is_char "-"%char c = false /\ is_char "+"%char c = false
  /\ is_char "."%char c = false /\ is_e c = false /\ c <> zero.
Proof.
  intros Hc. unfold double_char. rewrite Hc. unfold is_char, is_e. split_and!; [done|..].
  all: try (by intros ->). all: by repeat (case_bool_decide; [by subst|]).
Qed.

(** What a count over a decimal's text is, for characters that are no digits. *)
Lemma count_text P d : well_written d -> (forall c, is_digit c = true -> P c = false) ->
  count P (text_of d) = (if w_neg d then count P ($"-") else 0)
                        + (if bool_decide (w_frac d = []) then 0 else count P ["."%char]).
Proof.
  intros (Hi & _ & Hf) HP. unfold text_of. rewrite !count_app, (count_digits P (w_int d)) by done.
  assert (E0 : count P [] = 0) by done. destruct (w_frac d) as [|f fp]; cbn [point_part].
  - rewrite bool_decide_true by done. destruct (w_neg d); lia.
  - rewrite bool_decide_false by done. change ("."%char :: f :: fp) with (["."%char] ++ f :: fp).
    rewrite count_app, (count_digits P (f :: fp)) by done. destruct (w_neg d); lia.
Qed.

Lemma text_chars P d : well_written d -> (forall c, is_digit c = true -> P c) -> P "-"%char -> P "."%char ->
  Forall P (text_of d).
Proof.
  intros (Hi & _ & Hf) Hd Hm Hp. unfold text_of. apply Forall_app_2; [by destruct (w_neg d); repeat constructor|].
  apply Forall_app_2; [by eapply Forall_impl; [|exact Hi]|].
  destruct (w_frac d) as [|f fp]; [constructor|]. constructor; [done|]. by eapply Forall_impl; [|exact Hf].
Qed.

Lemma ordinary_near d : ordinary d ->
  regular 53 1024 (double_of d) = true /\ near (value (double_of d)) (number_of d).
Proof.
  intros [Hw Hb]. apply decimal_near; [|exact Hb]. unfold mantissa. rewrite digits_value_rev. apply value_rev_nonneg.
  apply Forall_reverse, Forall_app_2; apply Hw.
Qed.

Lemma token_double_written d : ordinary d -> token_double (text_of d) = Some (double_of d).
Proof.
  intros Ho. pose proof Ho as [Hw _]. destruct (ordinary_near d Ho) as [Hp _].
  assert (Hz : zero ∉ text_of d).
  { assert (Forall (fun c => c <> zero) (text_of d)) as HF.
    { apply text_chars; [done| |done|done]. intros c Hc. apply (digit_facts c Hc). }
    rewrite Forall_forall in HF. intros Hin. by apply list_elem_of_In, HF in Hin. }
  unfold token_double. rewrite bool_decide_false by done. unfold parse_double.
  assert (forallb double_char (text_of d) = true) as ->.
  { apply forallb_forall. intros c Hin. assert (HF : Forall (fun c => double_char c = true) (text_of d)).
    { apply text_chars; [done| |done|done]. intros x Hx. apply (digit_facts x Hx). }
    rewrite Forall_forall in HF. by apply HF. }
  rewrite (count_text (is_char "-")), (count_text (is_char "+")), (count_text (is_char ".")), (count_text is_e)
    by (done || intros c Hc; apply (digit_facts c Hc)).
  assert (0 < count is_digit (text_of d)) as Hn.
  { unfold text_of. rewrite !count_app. destruct Hw as (Hi & Hne & _).
    assert (Hpos : forall s, 0 <= count is_digit s) by (intros s; apply zlen_nonneg).
    destruct (w_int d) as [|c s]; [done|]. rewrite count_cons. inversion_clear Hi as [|? ? Hc _]. rewrite Hc.
    pose proof (Hpos s). pose proof (Hpos (point_part (w_frac d))). pose proof (Hpos (if w_neg d then $"-" else [])). lia. }
  rewrite (proj2 (Z.eqb_neq (count is_digit (text_of d)) 0)) by lia.
  rewrite sscanf_written by done. rewrite proper_not_nan by done.
  by destruct (w_neg d), (bool_decide (w_frac d = [])).
Qed.

(** ** The verdict *)

(** Within an absolute or a relative error of [eps]. *)
Definition agree (eps : Q) (j p : written) : Prop :=
  (Qabs (number_of p - number_of j) <= eps * Qmax 1 (Qabs (number_of j)))%Q.

Lemma compare_written eps EPS j p : checker_eps eps EPS -> ordinary j -> ordinary p ->
  (agree eps j p -> doubleCompare (double_of j) (double_of p) EPS = true)
  /\ (doubleCompare (double_of j) (double_of p) EPS = true -> agree (eps + 2 * slack)%Q j p).
Proof.
  intros He Hj Hp. destruct (ordinary_near j Hj), (ordinary_near p Hp).
  apply doubleCompare_tolerates; try done; [apply Hj|apply Hp].
Qed.

Lemma rcmp_code_written eps EPS A O : checker_eps eps EPS -> Forall ordinary A -> Forall ordinary O ->
  length A = length O ->
  let code := rcmp_code EPS (text_of <$> A) (text_of <$> O) in
  (code = OK_EXIT_CODE \/ code = WA_EXIT_CODE)
  /\ (Forall2 (agree eps) A O -> code = OK_EXIT_CODE)
  /\ (code = OK_EXIT_CODE -> Forall2 (agree (eps + 2 * slack)%Q) A O).
Proof.
  intros He HA. revert O. induction HA as [|j A Hj HA IH]; intros O HO Hl.
  { destruct O; [|done]. split_and!; [by left|done|constructor]. }
  destruct HO as [|p O Hp HO]; [done|]. specialize (IH O HO ltac:(by injection Hl)). cbv zeta in *.
  rewrite !fmap_cons. cbn [rcmp_code]. rewrite !token_double_written by done.
  destruct (compare_written eps EPS j p He Hj Hp) as [H1 H2], IH as (H3 & H4 & H5).
  destruct (doubleCompare (double_of j) (double_of p) EPS); split_and!; [done| | |by right| |done].
  - intros Ha. inversion_clear Ha. auto.
  - intros Hc. constructor; auto.
  - intros Ha. inversion_clear Ha as [|? ? ? ? Hjp _]. discriminate (H1 Hjp).
Qed.

(** C12: on decimals [rcmp4], [rcmp6] and [rcmp9] answer right or wrong; they
    accept an output all of whose numbers, as written, are within the absolute
    or relative tolerance of the answer's, and in what they accept every
    number is within it up to [2E-15]: the roundings of the comparison never
    cost a correct output its verdict. *)
Theorem rcmp_tolerance e prog i o a to ta A O eps main : checker_run e i o a to ta ->
  tokens ta = text_of <$> A -> tokens (strip_bom to) = text_of <$> O -> length A = length O ->
  Forall ordinary A -> Forall ordinary O ->
  (eps, main) ∈ [(0.0001, Rcmp4.main); (0.000001, Rcmp6.main); (0.000000001, Rcmp9.main)]%Q ->
  let code := exit_code (run_program (main (Some prog) [i; o; a]) e) in
  (code = Some OK_EXIT_CODE \/ code = Some WA_EXIT_CODE)
  /\ (Forall2 (agree eps) A O -> code = Some OK_EXIT_CODE)
  /\ (code = Some OK_EXIT_CODE -> Forall2 (agree (eps + 2 * slack)%Q) A O).
Proof.
  intros Hrun Ha Ho Hl HA HO Hm code.
  assert (exists EPS, checker_eps eps EPS /\ code = Some (rcmp_code EPS (text_of <$> A) (text_of <$> O)))
    as (EPS & He & ->).
  { rewrite <- Ha, <- Ho. unfold code. rewrite !list_elem_of_In in Hm.
    destruct Hm as [[= <- <-]|[[= <- <-]|[[= <- <-]|[]]]]; eexists;
      (split; [constructor|by apply rcmp_main_correct]). }
  destruct (rcmp_code_written eps EPS A O He HA HO Hl) as (H1 & H2 & H3). cbv zeta in *.
  split_and!; [destruct H1 as [->| ->]; auto|intros H; by rewrite H2|intros [= H]; auto].
Qed.

Lemma ordinary_by d : forallb is_digit (w_int d ++ w_frac d) && (0 <? zlen (w_int d))
    && Qle_bool (Qabs (number_of d)) (inject_Z (10 ^ 299)) = true -> ordinary d.
Proof.
  intros [[Hd Hne%Z.ltb_lt]%andb_true_iff Hb%Qle_bool_iff]%andb_true_iff.
  rewrite forallb_app in Hd. apply andb_true_iff in Hd as [Hi Hf].
  assert (Hdig : forall s, forallb is_digit s = true -> digits s).
  { intros s H. apply List.Forall_forall. by apply forallb_forall. }
  repeat split; auto. intros E. by rewrite E in Hne.
Qed.

Lemma rcmp_tolerance_witness : sample_code Rcmp6.main ($"1.0000009 -2.5") ($"1 -2.50") = Some 0.
Proof.
  destruct (rcmp_tolerance (sample_env [] ($"1.0000009 -2.5") ($"1 -2.50")) ($"checker") ($"input.txt")
    ($"output.txt") ($"answer.txt") ($"1.0000009 -2.5") ($"1 -2.50")
    [Written false ($"1") []; Written true ($"2") ($"50")]
    [Written false ($"1") ($"0000009"); Written true ($"2") ($"5")] 0.000001%Q Rcmp6.main) as (_ & H & _).
  - apply sample_run; vm_compute; discriminate.
  - vm_compute. reflexivity.
  - vm_compute. reflexivity.
  - reflexivity.
  - do 2 (constructor; [apply ordinary_by; vm_compute; reflexivity|]). constructor.
  - do 2 (constructor; [apply ordinary_by; vm_compute; reflexivity|]). constructor.
  - right. left.
  - unfold sample_code. apply H. do 2 (constructor; [apply Qle_bool_iff; vm_compute; reflexivity|]). constructor.
Defined.
