(* ===== verification/ScorerSpec.v ===== *)
(** * Serialized test results, and what a scorer does

    The serialization of a [TestResult] is one line and reading it back gives
    the result again, up to the carriage returns the escape drops and with its
    points rounded to thousandths.  A scorer,
    however, never scores: [registerScorer] does not mark itself registered,
    so the finalize guard fails before the scorer runs. *)

From Stdlib Require Import SpecFloat.
From S2P Require Import Prelude Text TextSpec Doubles Readers Validator Streams World Pattern Reading Numbers NumbersSpec Register Scorer FloatSpec RoundSpec ToleranceSpec RealsSpec ExponentSpec.
#[local] Open Scope Z_scope.

(** ** Escapes *)

Lemma unescape_cons c s : c <> backslash ->
  unescapeTestResultString (c :: s) = c :: unescapeTestResultString s.
Proof. intros Hc. destruct s as [|d s]; [done|]. simpl. by rewrite bool_decide_false. Qed.

Definition drop_cr (s : bytes) : bytes := base.filter (fun c => c <> cr_char) s.

Lemma unescape_escape s : unescapeTestResultString (escapeTestResultString s) = drop_cr s.
Proof.
  unfold drop_cr. induction s as [|c s IH]; [done|]. simpl. rewrite filter_cons.
  case_bool_decide as Hr; [by rewrite decide_False by (intros ?; done)|].
  rewrite decide_True by done. case_bool_decide as Hn; [subst c; simpl; by rewrite IH|].
  destruct (bool_decide (c = backslash) || bool_decide (c = semicolon)) eqn:E; simpl app.
  - change (unescapeTestResultString (backslash :: c :: escapeTestResultString s) = c :: drop_cr s).
    assert (Hc : c = semicolon \/ c = backslash).
    { apply orb_true_iff in E as [?%bool_decide_eq_true|?%bool_decide_eq_true]; auto. }
    destruct Hc as [-> | ->]; simpl; by rewrite IH.
  - apply orb_false_iff in E as [Hb%bool_decide_eq_false _].
    by rewrite unescape_cons, IH.
Qed.

(** ** Items of a line *)

(** An item that the reader of a line takes whole, and that holds no line
    feed. *)
Definition item_text (x : bytes) : Prop :=
  (forall rest t, split_items (x ++ rest) t = split_items rest (t ++ x)) /\ lf_char ∉ x.

Definition special (c : ascii) : bool :=
  bool_decide (c = backslash) || bool_decide (c = semicolon) || bool_decide (c = lf_char).

Lemma plain_item x : Forall (fun c => special c = false) x -> item_text x.
Proof.
  intros H. split.
  - induction H as [|c x Hc _ IH]; intros rest t; [by rewrite app_nil_r|].
    apply orb_false_iff in Hc as [[Hb Hs]%orb_false_iff _].
    change ((c :: x) ++ rest) with (c :: (x ++ rest)). simpl split_items. rewrite Hb, Hs, IH.
    by rewrite <- app_assoc.
  - induction H as [|c x Hc _ IH]; [apply not_elem_of_nil|]. apply not_elem_of_cons.
    split; [|done]. apply orb_false_iff in Hc as [_ Hl%bool_decide_eq_false]. congruence.
Qed.

Lemma escaped_item s : item_text (escapeTestResultString s).
Proof.
  induction s as [|c s [IH IHl]]; [apply plain_item; constructor|]. simpl.
  case_bool_decide; [done|]. case_bool_decide.
  - split.
    + intros rest t. simpl. rewrite IH. by rewrite <- app_assoc.
    + rewrite !not_elem_of_cons. by repeat split.
  - destruct (bool_decide (c = backslash) || bool_decide (c = semicolon)) eqn:E; split.
    + intros rest t. simpl. rewrite IH. by rewrite <- app_assoc.
    + simpl. rewrite !not_elem_of_cons. by repeat split.
    + apply orb_false_iff in E as [E1 E2]. intros rest t. simpl. rewrite E1, E2, IH.
      by rewrite <- app_assoc.
    + simpl. by apply not_elem_of_cons.
Qed.

Lemma split_items_join x xs : Forall item_text (x :: xs) ->
  split_items (join (x :: xs) [semicolon]) [] = x :: xs.
Proof.
  rewrite join_cons. revert x.
  assert (H : forall xs x t, item_text x -> Forall item_text xs ->
    split_items (x ++ mbind (fun e => [semicolon] ++ e) xs) t = (t ++ x) :: xs).
  { clear. intros xs. induction xs as [|y ys IH]; intros x t [Hx _] Hxs; rewrite Hx; [done|].
    simpl. f_equal. apply (IH y []); [by apply Forall_inv in Hxs|by apply Forall_inv_tail in Hxs]. }
  intros x Hx. apply (H xs x []); [by apply Forall_inv in Hx|by apply Forall_inv_tail in Hx].
Qed.

Lemma join_no_lf x xs : Forall item_text (x :: xs) -> lf_char ∉ join (x :: xs) [semicolon].
Proof.
  intros H. rewrite join_cons, elem_of_app. intros [Hx|Hx].
  - by apply Forall_inv in H as [_ ?].
  - apply Forall_inv_tail in H. induction H as [|y ys [_ Hy] _ IH]; [by apply not_elem_of_nil in Hx|].
    simpl in Hx. rewrite elem_of_cons, elem_of_app in Hx. destruct Hx as [Hx|[Hx|Hx]]; [done|done|auto].
Qed.

(** ** Numbers *)

Lemma digit_not_special c : is_digit c = true -> special c = false.
Proof.
  intros H. unfold special.
  rewrite !bool_decide_false; [done|intros ->; vm_compute in H; discriminate..].
Qed.

(** Digits, after a minus sign when negative. *)
Lemma vtos_cases n : exists s, digits s /\ s <> [] /\ digits_value s = Z.abs n
  /\ vtos n = if n <? 0 then "-"%char :: s else s.
Proof.
  destruct (Z.ltb_spec n 0) as [Hn|Hn].
  - destruct (vtos_nonneg (- n) ltac:(lia)) as [(Hd & Hne & _) Hv].
    exists (vtos (- n)). split; [done|]. split; [done|]. split; [lia|].
    replace n with (- (- n)) at 1 by lia. by rewrite vtos_neg by lia.
  - destruct (vtos_nonneg n Hn) as [(Hd & Hne & _) Hv]. exists (vtos n). repeat split; [done..|lia].
Qed.

Lemma vtos_plain n : Forall (fun c => special c = false) (vtos n).
Proof.
  destruct (vtos_cases n) as (s & Hd & _ & _ & ->).
  assert (Forall (fun c => special c = false) s)
    by (eapply Forall_impl; [|exact Hd]; apply digit_not_special).
  case_match; by repeat constructor.
Qed.

Lemma scan_digits_all s acc count : digits s ->
  scan_digits s acc count
  = (foldl (fun acc c => acc * 10 + (char_to_int c - 48)) acc s, count + zlen s, []).
Proof.
  intros H. revert acc count.
  induction H as [|c s Hc _ IH]; intros acc count; [unfold zlen; simpl; f_equal; f_equal; lia|].
  simpl. rewrite Hc, IH, zlen_cons. f_equal. f_equal. lia.
Qed.

Lemma c_str_no_nul s : zero ∉ s -> c_str s = s.
Proof.
  induction s as [|c s IH]; [done|]. intros [Hc Hs]%not_elem_of_cons. simpl.
  rewrite decide_False by done. by rewrite IH.
Qed.

Lemma stox_vtos min_ max_ n : min_ <= n <= max_ -> stox min_ max_ (vtos n) = Parsed n.
Proof.
  intros Hn. destruct (vtos_cases n) as (s & Hd & Hne & Hv & E).
  assert (Hnul : zero ∉ vtos n).
  { rewrite E. pose proof (digits_no_nul s Hd). case_match; [|done]. by apply not_elem_of_cons. }
  unfold stox. rewrite (c_str_no_nul _ Hnul), E.
  assert (Hs : scan_sign (drop_while is_space (if n <? 0 then "-"%char :: s else s)) = (n <? 0, s)).
  { destruct (n <? 0); [done|]. destruct s as [|c s]; [done|].
    apply Forall_inv in Hd. pose proof Hd as Hr%is_digit_range. simpl. unfold is_space.
    rewrite (proj2 (Z.eqb_neq _ _)), (proj2 (Z.leb_gt (char_to_int c) 13)), andb_false_r by lia.
    simpl. unfold is_sign. by rewrite !bool_decide_false by (intros ->; vm_compute in Hd; discriminate). }
  rewrite Hs, (scan_digits_all s 0 0 Hd).
  assert (Hl : 0 < zlen s) by (destruct s; [done|]; rewrite zlen_cons; pose proof (zlen_nonneg s); lia).
  change (foldl _ 0 s) with (digits_value s). rewrite (proj2 (Z.eqb_neq _ _)) by lia. rewrite Hv.
  destruct (Z.ltb_spec n 0); rewrite !(proj2 (Z.leb_le _ _)) by lia; simpl; f_equal; lia.
Qed.

Lemma Forall_ztake {A} (P : A -> Prop) n l : Forall P l -> Forall P (ztake n l).
Proof. intros H. unfold ztake. case_test; [done|by apply Forall_take]. Qed.

Lemma Forall_zdrop {A} (P : A -> Prop) n l : Forall P l -> Forall P (zdrop n l).
Proof. intros H. unfold zdrop. case_test; [done|by apply Forall_drop]. Qed.

Lemma fmt_fixed_plain N x : Forall (fun c => special c = false) (fmt_fixed N x).
Proof.
  unfold fmt_fixed, pad_left. destruct x as [s|s| |s m e].
  - rewrite !Forall_app. split; [by destruct s; repeat constructor|]. split; [by repeat constructor|].
    case_match; [|done]. apply Forall_app. split; [by repeat constructor|by apply Forall_replicate].
  - apply Forall_app. split; [by destruct s; repeat constructor|by repeat constructor].
  - by repeat constructor.
  - assert (H : Forall (fun c => special c = false)
        (replicate (Z.to_nat (N + 1 - zlen (vtos (round_half_even (Z.pos m * 10 ^ N) e)))) "0"%char
         ++ vtos (round_half_even (Z.pos m * 10 ^ N) e)))
      by (apply Forall_app; split; [by apply Forall_replicate|apply vtos_plain]).
    rewrite !Forall_app. split; [by destruct s; repeat constructor|].
    split; [by apply Forall_ztake|]. case_match; [|done].
    apply Forall_app. split; [by repeat constructor|by apply Forall_zdrop].
Qed.

Lemma points_plain x : Forall (fun c => special c = false) (serializePoints x).
Proof. unfold serializePoints. destruct x; [apply Forall_ztake, fmt_fixed_plain..|done|apply Forall_ztake, fmt_fixed_plain]. Qed.

(** ** Points *)

(** The double that is read for [x] printed with three decimals: its nearest
    thousandth, rounded again. *)
Definition three_decimals (x : double) : double :=
  match x with
  | S754_finite s m e => decimal s (round_half_even (Z.pos m * 10 ^ 3) e) (-3)
  | _ => x
  end.

(** The decimal that [%.03lf] prints, for [q] thousandths. *)
Definition thousandths (neg : bool) (q : Z) : written :=
  let digits := pad_left 4 (vtos q) in
  Written neg (ztake (zlen digits - 3) digits) (zdrop (zlen digits - 3) digits).

Lemma pad_digits n q : 0 <= q -> digits (pad_left n (vtos q)) /\ digits_value (pad_left n (vtos q)) = q
  /\ zlen (pad_left n (vtos q)) = Z.max n (zlen (vtos q)).
Proof.
  intros Hq. destruct (vtos_nonneg q Hq) as [(Hd & _) Hv]. unfold pad_left.
  split; [apply Forall_app; split; [by apply Forall_replicate|done]|].
  split; [by rewrite digits_value_zeroes|]. rewrite zlen_app, zlen_replicate. lia.
Qed.

Lemma thousandths_spec neg q : 0 <= q -> well_written (thousandths neg q)
  /\ double_of (thousandths neg q) = decimal neg q (-3)
  /\ text_of (thousandths neg q)
     = (if neg then $"-" else []) ++ w_int (thousandths neg q) ++ $"." ++ w_frac (thousandths neg q)
  /\ zlen (w_int (thousandths neg q)) + 3 = Z.max 4 (zlen (vtos q)).
Proof.
  intros Hq. destruct (pad_digits 4 q Hq) as (Hd & Hv & Hl). unfold thousandths.
  set (ds := pad_left 4 (vtos q)) in *. pose proof (zlen_nonneg (vtos q)).
  assert (Hi : zlen (ztake (zlen ds - 3) ds) = zlen ds - 3) by (rewrite zlen_ztake by lia; lia).
  assert (Hs : ztake (zlen ds - 3) ds ++ zdrop (zlen ds - 3) ds = ds) by (apply ztake_zdrop; lia).
  assert (Hf : zlen (zdrop (zlen ds - 3) ds) = 3) by (apply (f_equal zlen) in Hs; rewrite zlen_app in Hs; lia).
  unfold well_written, double_of, text_of, mantissa. cbn [w_neg w_int w_frac]. rewrite Hs, Hf, Hv. split_and!.
  - by apply Forall_ztake.
  - intros E. rewrite E in Hi. unfold zlen in Hi at 1. simpl in Hi. lia.
  - by apply Forall_zdrop.
  - done.
  - by destruct (zdrop (zlen ds - 3) ds).
  - lia.
Qed.

Lemma round_half_even_nonneg m e : 0 <= m -> 0 <= round_half_even m e.
Proof.
  intros Hm. unfold round_half_even. destruct (Z.leb_spec 0 e).
  - apply Z.mul_nonneg_nonneg; [done|]. by apply Z.pow_nonneg.
  - assert (0 <= m / 2 ^ (- e)) by (apply Z.div_pos; [done|]; apply Z.pow_pos_nonneg; lia).
    cbv zeta. repeat case_match; lia.
Qed.

(** What is printed, for zero and for the finite numbers. *)
Lemma fmt_fixed_finite s m e : fmt_fixed 3 (S754_finite s m e)
  = text_of (thousandths s (round_half_even (Z.pos m * 10 ^ 3) e)).
Proof.
  destruct (thousandths_spec s (round_half_even (Z.pos m * 10 ^ 3) e)) as (_ & _ & -> & _);
    [by apply round_half_even_nonneg|done].
Qed.

Lemma fmt_fixed_zero s : fmt_fixed 3 (S754_zero s) = text_of (thousandths s 0).
Proof. by destruct s. Qed.

(** The scanner takes a decimal for what it is. *)
Lemma lower_digits d : digits d -> lowerCase d = d.
Proof.
  induction 1 as [|c d Hc _ IH]; [done|]. unfold lowerCase in *. rewrite fmap_cons, IH. f_equal.
  apply is_digit_range in Hc. destruct (Z.leb_spec 65 (char_to_int c)); [lia|done].
Qed.

Lemma sscanf_lf_written d : well_written d -> w_frac d <> [] -> sscanf_lf (text_of d) = Some (double_of d).
Proof.
  intros Hw Hfrac. pose proof (sscanf_written d Hw) as Hs. destruct Hw as (Hi & Hne & Hf).
  assert (Hsplit : drop_while is_space (text_of d) = text_of d
                   /\ scan_sign (text_of d) = (w_neg d, w_int d ++ point_part (w_frac d))).
  { unfold text_of. destruct (w_neg d); [done|]. destruct (w_int d) as [|c s]; [done|].
    apply Forall_inv in Hi. cbn [app drop_while scan_sign]. rewrite (digit_not_sign c Hi).
    apply is_digit_range in Hi. unfold is_space.
    by rewrite (proj2 (Z.eqb_neq _ _)), (proj2 (Z.leb_gt (char_to_int c) 13)), andb_false_r by lia. }
  destruct Hsplit as [Hspace Hsign]. unfold sscanf_lf. rewrite Hspace, Hsign, Hs. cbv zeta iota beta.
  destruct (w_int d) as [|c s]; [done|]. pose proof (Forall_inv Hi) as Hc. pose proof (Forall_inv_tail Hi) as Htl.
  unfold lowerCase. rewrite fmap_app. fold (lowerCase (c :: s)). rewrite (lower_digits (c :: s) Hi).
  assert (Hchar : forall x, is_digit x = false -> bool_decide (x = c) = false).
  { intros x Hx. apply bool_decide_eq_false. intros ->. congruence. }
  cbn [app]. set (low := s ++ _). replace (is_prefix ($"nan") (c :: low)) with false by (simpl; by rewrite Hchar).
  replace (is_prefix ($"inf") (c :: low)) with false by (simpl; by rewrite Hchar).
  replace (is_prefix ($"0x") (c :: low)) with false; [done|]. subst low.
  change (false = bool_decide ("0"%char = c) && is_prefix ["x"%char] (s ++ lowerCase (point_part (w_frac d)))).
  replace (is_prefix ["x"%char] _) with false; [by rewrite andb_false_r|].
  destruct s as [|c' s]; [by destruct (w_frac d)|]. apply Forall_inv in Htl. cbn [app is_prefix].
  rewrite bool_decide_false; [done|]. by intros <-.
Qed.

Lemma text_no_nul d : well_written d -> zero ∉ text_of d.
Proof.
  intros (Hi & _ & Hf). unfold text_of, point_part. rewrite !elem_of_app.
  pose proof (digits_no_nul _ Hi). pose proof (digits_no_nul _ Hf).
  assert (Hp : zero ∉ match w_frac d with [] => [] | _ => "."%char :: w_frac d end).
  { destruct (w_frac d); [apply not_elem_of_nil|]. by apply not_elem_of_cons. }
  destruct (w_neg d); [|by intros [?%not_elem_of_nil|[?|?]]].
  intros [?|[?|?]]; [|done..]. by apply list_elem_of_singleton in H1.
Qed.

(** ** Points that fit the buffer *)

(** The integral part has at most 57 digits: the text fits the 64 bytes that
    it is printed to. *)
Definition printable (x : double) : Prop :=
  match dtrunc x with Some v => Z.abs v < 10 ^ 57 | None => True end.

Lemma round_half_even_bound m e b : 0 <= m -> 0 <= b ->
  (if 0 <=? e then m * 2 ^ e else m / 2 ^ (- e)) < b -> round_half_even m e <= b.
Proof.
  intros Hm Hb. unfold round_half_even. destruct (0 <=? e); [lia|]. cbv zeta. repeat case_match; lia.
Qed.

Lemma printable_thousandths s m e : printable (S754_finite s m e) ->
  round_half_even (Z.pos m * 10 ^ 3) e <= 10 ^ 60.
Proof.
  unfold printable, dtrunc. intros H. apply round_half_even_bound; [lia|done|].
  assert (H' : (if 0 <=? e then Z.pos m * 2 ^ e else Z.pos m / 2 ^ (- e)) < 10 ^ 57).
  { destruct s; [|lia]. rewrite Z.abs_opp in H. lia. }
  clear H. destruct (Z.leb_spec 0 e).
  - replace (Z.pos m * 10 ^ 3 * 2 ^ e) with (Z.pos m * 2 ^ e * 10 ^ 3) by ring. lia.
  - assert (Hp : 0 < 2 ^ (- e)) by (apply Z.pow_pos_nonneg; lia).
    apply Z.div_lt_upper_bound; [done|].
    assert (Hm : Z.pos m < 2 ^ (- e) * 10 ^ 57).
    { destruct (Z.lt_ge_cases (Z.pos m) (2 ^ (- e) * 10 ^ 57)) as [?|Hge]; [done|].
      apply Z.div_le_lower_bound in Hge; [lia|done]. }
    lia.
Qed.

Lemma thousandths_length s q : 0 <= q <= 10 ^ 60 -> zlen (text_of (thousandths s q)) <= 63.
Proof.
  intros Hq. destruct (thousandths_spec s q) as (_ & _ & -> & Hl); [lia|].
  assert (Hf : zlen (w_frac (thousandths s q)) = 3).
  { unfold thousandths in *. cbn [w_frac w_int] in *. destruct (pad_digits 4 q ltac:(lia)) as (_ & _ & Hp).
    set (ds := pad_left 4 (vtos q)) in *. pose proof (zlen_nonneg (vtos q)).
    pose proof (ztake_zdrop (zlen ds - 3) ds ltac:(lia)) as E. apply (f_equal zlen) in E.
    rewrite zlen_app, zlen_ztake in E by lia. lia. }
  assert (Hv : zlen (vtos q) <= 61).
  { destruct (Z.eq_dec q 0) as [->|]; [vm_compute; discriminate|].
    destruct (vtos_digits q ltac:(lia)) as [Hlo _]. apply Z.nlt_ge. intros Hgt.
    assert (10 ^ 61 <= 10 ^ (zlen (vtos q) - 1)) by (apply Z.pow_le_mono_r; lia). lia. }
  rewrite !zlen_app, Hf. change (zlen ($".")) with 1. destruct s; [change (zlen ($"-")) with 1|change (zlen (A := ascii) []) with 0]; lia.
Qed.

Lemma read_thousandths s q : 0 <= q <= 10 ^ 60 ->
  deserializePoints (ztake 63 (text_of (thousandths s q))) = Parsed (decimal s q (-3)).
Proof.
  intros Hq. rewrite ztake_ge by (by apply thousandths_length).
  destruct (thousandths_spec s q) as (Hw & Hd & Ht & _); [lia|].
  assert (Hf : w_frac (thousandths s q) <> []).
  { intros E. pose proof Hd as Hd'. destruct (pad_digits 4 q ltac:(lia)) as (_ & _ & Hp).
    unfold thousandths in E. cbn [w_frac] in E. apply (f_equal zlen) in E.
    pose proof (ztake_zdrop (zlen (pad_left 4 (vtos q)) - 3) (pad_left 4 (vtos q)) ltac:(pose proof (zlen_nonneg (vtos q)); lia)) as E'.
    apply (f_equal zlen) in E'. rewrite zlen_app, E, zlen_ztake in E' by (pose proof (zlen_nonneg (vtos q)); lia).
    change (zlen (A := ascii) []) with 0 in E'. pose proof (zlen_nonneg (vtos q)). lia. }
  unfold deserializePoints. rewrite bool_decide_false.
  - rewrite c_str_no_nul by (by apply text_no_nul). by rewrite sscanf_lf_written, Hd.
  - rewrite Ht. intros [_ [_ [? _]%app_eq_nil]%app_eq_nil]%app_eq_nil. done.
Qed.

(** Points are read back rounded to their thousandths. *)
Lemma points_roundtrip x : printable x ->
  deserializePoints (serializePoints x) = Parsed (three_decimals x).
Proof.
  intros Hx. destruct x as [s|s| |s m e].
  - unfold serializePoints. rewrite fmt_fixed_zero, read_thousandths by done. by destruct s.
  - by destruct s.
  - done.
  - unfold serializePoints. rewrite fmt_fixed_finite. apply read_thousandths.
    split; [by apply round_half_even_nonneg|by apply (printable_thousandths s)].
Qed.

(** *** Numbers with three decimals *)

Lemma round_half_even_close N e k K : 0 <= K -> 0 <= e + K -> 0 < N -> 0 <= k ->
  4 * Z.abs (N * 2 ^ (e + K) - k * 2 ^ K) < 2 ^ K -> round_half_even N e = k.
Proof.
  intros HK He HN Hk H. unfold round_half_even. destruct (Z.leb_spec 0 e) as [H0|H0].
  - rewrite Z.pow_add_r in H by lia. assert (Hp : 0 < 2 ^ K) by (apply Z.pow_pos_nonneg; lia).
    replace (N * (2 ^ e * 2 ^ K) - k * 2 ^ K) with ((N * 2 ^ e - k) * 2 ^ K) in H by ring.
    rewrite Z.abs_mul, (Z.abs_eq (2 ^ K)) in H by lia. nia.
  - replace (2 ^ K) with (2 ^ (- e) * 2 ^ (e + K)) in H by (rewrite <- Z.pow_add_r by lia; f_equal; lia).
    assert (Hp : 0 < 2 ^ (e + K)) by (apply Z.pow_pos_nonneg; lia).
    set (d := 2 ^ (- e)) in *. assert (Hd : 0 < d) by (apply Z.pow_pos_nonneg; lia).
    replace (N * 2 ^ (e + K) - k * (d * 2 ^ (e + K))) with ((N - k * d) * 2 ^ (e + K)) in H by ring.
    rewrite Z.abs_mul, (Z.abs_eq (2 ^ (e + K))) in H by lia.
    assert (Hc : 4 * Z.abs (N - k * d) < d) by nia. clear H.
    pose proof (Z.div_mod N d ltac:(lia)) as Ed. pose proof (Z.mod_pos_bound N d Hd) as Hr. cbv zeta.
    assert (Hcases : N / d = k /\ N mod d = N - k * d \/ N / d = k - 1 /\ N mod d = N - k * d + d).
    { assert (k - 1 <= N / d <= k) by nia. destruct (Z.eq_dec (N / d) k) as [E|E]; [left|right]; nia. }
    destruct Hcases as [[-> ->]|[-> ->]]; repeat case_test; lia.
Qed.

Lemma decimal_thousandths neg k : 0 < k < 10 ^ 15 -> exists m e,
  decimal neg k (-3) = S754_finite neg m e /\ round_half_even (Z.pos m * 10 ^ 3) e = k.
Proof.
  intros Hk. destruct (vtos_digits k ltac:(lia)) as [Hlo Hhi].
  assert (Hz : 1 <= zlen (vtos k) <= 15).
  { split.
    - apply Z.nlt_ge. intros Hlt. pose proof (zlen_nonneg (vtos k)). replace (zlen (vtos k)) with 0 in Hhi by lia. lia.
    - apply Z.nlt_ge. intros Hgt. assert (10 ^ 15 <= 10 ^ (zlen (vtos k) - 1)) by (apply Z.pow_le_mono_r; lia). lia. }
  unfold decimal. rewrite !(proj2 (Z.leb_gt _ _)), !(proj2 (Z.ltb_ge _ _)) by lia.
  change (Z.to_pos (10 ^ (- (-3)))) with 1000%positive.
  destruct (div_nearest 53 1024 ltac:(lia) ltac:(lia) (Z.to_pos k) 1000) as (x & (Hx & Hu & Hr) & Hdiv).
  { unfold bits. change (Z.log2 1000) with 9. rewrite Z2Pos.id by lia.
    pose proof (Z.log2_lt_pow2 k 50 ltac:(lia)) as [Hl _]. specialize (Hl ltac:(lia)). lia. }
  rewrite Z2Pos.id in Hr by lia. change (- SpecFloat.emin 53 1024) with 1074 in Hr.
  unfold rounded in Hr. rewrite (Z.abs_eq (k * 2 ^ 1074)) in Hr by lia.
  assert (Hmax : Z.max (k * 2 ^ 1074) (2 ^ (53 - 1) * 1000) = k * 2 ^ 1074).
  { apply Z.max_l. assert (2 ^ (53 - 1) * 1000 <= 1 * 2 ^ 1074) by (vm_compute; discriminate). nia. }
  rewrite Hmax in Hr. clear Hmax.
  assert (Hclose : 4 * Z.abs (units 53 1024 x * 1000 - k * 2 ^ 1074) < 2 ^ 1074).
  { assert (Hs : k * 2 ^ 1074 < 10 ^ 15 * 2 ^ 1074) by (apply Z.mul_lt_mono_pos_r; [by apply Z.pow_pos_nonneg|lia]).
    assert (Ht : 4 * (10 ^ 15 * 2 ^ 1074) <= 2 ^ 53 * 2 ^ 1074) by (vm_compute; discriminate).
    revert Hr Hs Ht. generalize (Z.abs (units 53 1024 x * 1000 - k * 2 ^ 1074)) (2 ^ 1074). intros D P. lia. }
  assert (Hpos : 0 < units 53 1024 x).
  { revert Hclose. assert (1 * 2 ^ 1074 <= k * 2 ^ 1074) by (apply Z.mul_le_mono_nonneg_r; [by apply Z.pow_nonneg|lia]).
    revert H. assert (0 < 2 ^ 1074) by (by apply Z.pow_pos_nonneg). revert H. generalize (2 ^ 1074). intros P. lia. }
  destruct x as [| | |[] m e]; try (simpl in Hpos; lia). exists m, e. rewrite Hdiv. split; [by destruct neg|].
  apply regular_finite in Hx as (He & _ & _). change (SpecFloat.emin 53 1024) with (-1074) in He.
  apply (round_half_even_close _ _ k 1074); [lia|lia|lia|lia|].
  simpl units in Hclose. change (SpecFloat.emin 53 1024) with (-1074) in Hclose.
  replace (e - -1074) with (e + 1074) in Hclose by lia.
  replace (Z.pos m * 10 ^ 3 * 2 ^ (e + 1074)) with (Z.pos m * 2 ^ (e + 1074) * 1000) by lia. exact Hclose.
Qed.

Lemma three_decimals_exact neg k : 0 <= k < 10 ^ 15 -> three_decimals (decimal neg k (-3)) = decimal neg k (-3).
Proof.
  intros Hk. destruct (Z.eq_dec k 0) as [->|Hne]; [done|].
  destruct (decimal_thousandths neg k ltac:(lia)) as (m & e & E & Er). rewrite E. simpl three_decimals. 
  unfold three_decimals. by rewrite Er.
Qed.

(** ** A result *)

(** The fields fit their types, and the points their buffer. *)
Record well_typed (tr : TestResult) : Prop := WellTyped {
  wt_index : INT_MIN <= testIndex tr <= INT_MAX;
  wt_time : LLONG_MIN <= timeConsumed tr <= LLONG_MAX;
  wt_memory : LLONG_MIN <= memoryConsumed tr <= LLONG_MAX;
  wt_exit : INT_MIN <= exitCode tr <= INT_MAX;
  wt_points : printable (points tr) }.

(** The result without the carriage returns of its texts, its points rounded to
    thousandths. *)
Definition normalized (tr : TestResult) : TestResult :=
  MkTestResult (testIndex tr) (drop_cr (testset tr)) (drop_cr (group tr)) (verdict tr)
    (three_decimals (points tr)) (timeConsumed tr) (memoryConsumed tr) (drop_cr (input tr)) (drop_cr (output tr))
    (drop_cr (answer tr)) (exitCode tr) (drop_cr (checkerComment tr)).

Lemma result_items_text tr : Forall item_text (result_items tr).
Proof.
  assert (Hv : item_text (serializeVerdict (verdict tr)))
    by (apply plain_item; by destruct (verdict tr); repeat constructor).
  repeat apply Forall_cons_2; auto using escaped_item, plain_item, vtos_plain, points_plain.
Qed.

Lemma verdict_roundtrip v : deserializeTestResultVerdict (serializeVerdict v) = Parsed v.
Proof. by destruct v. Qed.

Lemma result_roundtrip tr : well_typed tr ->
  deserializeTestResult (serializeTestResult tr) = Parsed (normalized tr).
Proof.
  intros []. unfold deserializeTestResult, serializeTestResult.
  unfold result_items at 1. rewrite split_items_join by apply (result_items_text tr).
  unfold stoi, stoll. rewrite !stox_vtos by done. simpl.
  rewrite verdict_roundtrip. simpl. rewrite points_roundtrip by done. simpl.
  by rewrite !unescape_escape.
Qed.

Lemma result_one_line tr : lf_char ∉ serializeTestResult tr /\ serializeTestResult tr <> [].
Proof.
  split; [apply join_no_lf, result_items_text|].
  unfold serializeTestResult, result_items. rewrite join_cons.
  destruct (vtos_cases (testIndex tr)) as (s & _ & Hne & _ & ->). case_match; [done|].
  by destruct s.
Qed.

(** ** A file of results *)

#[local] Arguments serializeTestResult : simpl never.
#[local] Arguments deserializeTestResult : simpl never.

Definition results_file (trs : list TestResult) : bytes :=
  mbind (fun tr => serializeTestResult tr ++ [lf_char]) trs.

Lemma results_file_lines trs :
  split_char (results_file trs) lf_char = (serializeTestResult <$> trs) ++ [[]].
Proof.
  unfold split_char, results_file. induction trs as [|tr trs IH]; [done|].
  rewrite bind_cons, fmap_cons, <- !app_assoc.
  rewrite (split_loop_avoids lf_char (serializeTestResult tr)) by apply (result_one_line tr).
  cbn [split_loop app]. rewrite bool_decide_true by done. by rewrite IH.
Qed.

Lemma file_roundtrip trs : Forall well_typed trs ->
  deserialize_lines (split_char (results_file trs) lf_char) = Parsed (normalized <$> trs).
Proof.
  rewrite results_file_lines. induction 1 as [|tr trs Ht _ IH]; [done|].
  rewrite !fmap_cons. cbn [deserialize_lines app].
  rewrite bool_decide_false by apply (result_one_line tr). rewrite result_roundtrip by done.
  cbn [pbind]. by rewrite IH.
Qed.

(** C35: a serialized result is one line that is not empty, and reading a file
    of serialized results gives the results back in order, without the carriage
    returns of their texts and with their points rounded to thousandths: for
    all points that fit the buffer they are printed to, infinities and NaN
    among them.  Points that are the double of a number with at most three
    decimals, below [10 ^ 12], come back as they were. *)
Theorem test_results_roundtrip (files : gmap bytes bytes) (fileName : bytes) (trs : list TestResult) :
  (Forall well_typed trs ->
   Forall (fun tr => lf_char ∉ serializeTestResult tr /\ serializeTestResult tr <> []) trs
   /\ readTestResults (<[c_str fileName := results_file trs]> files) fileName
      = Parsed (normalized <$> trs))
  /\ forall tr neg k, 0 <= k < 10 ^ 15 -> points tr = decimal neg k (-3) -> points (normalized tr) = points tr.
Proof.
  split.
  - intros H. split; [apply Forall_forall; intros; apply result_one_line|].
    unfold readTestResults. rewrite lookup_insert_eq. by apply file_roundtrip.
  - intros tr neg k Hk E. simpl. rewrite E. by apply three_decimals_exact.
Qed.

Definition sample_result : TestResult :=
  MkTestResult 3 ($"tests") [] WRONG_ANSWER (decimal false 125 (-1)) 15 1048576 ($"1 2")
    ($"a;b\" ++ [lf_char; cr_char]) ($"3") (-1) ($"wrong answer; expected 3").

Lemma test_results_roundtrip_witness :
  readTestResults (<[ $"results" := results_file [sample_result; sample_result] ]> ∅) ($"results")
  = Parsed [normalized sample_result; normalized sample_result]
  /\ points (normalized sample_result) = points sample_result.
Proof.
  destruct (test_results_roundtrip ∅ ($"results") [sample_result; sample_result]) as [H1 H2]. split.
  - apply H1. repeat constructor; vm_compute; try discriminate; reflexivity.
  - apply (H2 sample_result false 12500); vm_compute; repeat split; discriminate || reflexivity.
Defined.

(** ** The scorer's process *)

(** C36: no scorer ever prints a score.  [registerScorer] does not set
    [TestlibFinalizeGuard::registered], so the finalize guard, destroyed
    first, fails with exit code 3 and closes [inf]; the scorer guard then
    reads through the closed stream, which is undefined. *)
Theorem scorer_never_scores (scorer : list TestResult -> double) e :
  exit_code (run_program registerScorer e) = Some FAIL_EXIT_CODE
  /\ run_scorer registerScorer scorer e = HStuck.
Proof. destruct e as [f cw cc si [|]]; by vm_compute. Qed.

(** Were it registered, the scorer would run on the results it reads. *)
Example registered_scorer :
  match scorer_guard (fun trs => match trs with [tr] => points tr | _ => dzero end)
          (match registerScorer (initial_world (MkEnv ∅ (fun _ => true) (fun _ => true)
                                                 (results_file [sample_result]) false)) with
           | MRet _ w => w
           | MHalt _ => initial_world (MkEnv ∅ (fun _ => true) (fun _ => true) [] false)
           end) with
  | MRet _ w => w_stdout w
  | MHalt _ => []
  end = $"12.500" ++ newline.
Proof. vm_compute. reflexivity. Qed.
