(* ===== verification/BoundsSpec.v ===== *)
(** * Bounded reading in a checker

    [readInt(minv, maxv)] on the output or the answer of a running checker:
    the next token is returned as an integer, or the process ends with the
    code of a wrong format or of a violated range.  [bounded_main] is a
    checker in the documented style whose verdicts rest on it.

    And a checker that scores with [quitp(n)] for an integer [n]: the
    comparisons of [__testlib_preparePoints] on the [double] of an [int] are
    those of the integers, so the score is accepted exactly between 0 and a
    million. *)

From Stdlib Require Import SpecFloat.
From S2P Require Import Prelude Text Doubles Readers ReaderRep Validator Streams World Pattern Reading Numbers Register Checkers FloatSpec StreamSpec QuitSpec ProcessSpec RegisterSpec TokenSpec NumbersSpec CheckersSpec.

(** A token that [readInt] takes. *)
Definition int_token (x : bytes) : option Z :=
  match parse_int64 x with
  | Some v => if (v <? INT_MIN) || (INT_MAX <? v) then None else Some v
  | None => None
  end.

(** The spelling of such a token is the only one of its value. *)
Lemma int_token_spec x v : int_token x = Some v <-> x = vtos v /\ INT_MIN <= v <= INT_MAX.
Proof.
  unfold int_token. split.
  - destruct (parse_int64 x) as [u|] eqn:Ep; [|done]. apply parse_int64_spec in Ep as [-> _].
    destruct (_ || _) eqn:Eo; [done|]. intros [= ->].
    apply orb_false_elim in Eo as [?%Z.ltb_ge ?%Z.ltb_ge]. split; [done|lia].
  - intros [-> Hv]. rewrite (proj2 (parse_int64_spec (vtos v) v)).
    + by rewrite (proj2 (orb_false_iff _ _)) by (split; apply Z.ltb_ge; lia).
    + split; [done|]. unfold is_int64, INT_MIN, INT_MAX, LLONG_MIN, LLONG_MAX in *. lia.
Qed.

(** The integer in front of the tokens left. *)
Definition first_int (l : list bytes) : option Z :=
  match l with x :: _ => int_token x | [] => None end.

(** The process ends with code [c]. *)
Definition halts {A} (r : mres A) (c : Z) : Prop :=
  exists h, r = MHalt h /\ exit_code (finish h) = Some c.

Lemma halts_bind {A B} (m : M A) (k : A -> M B) w c : halts (m w) c -> halts (bind m k w) c.
Proof. intros (h & E & Hh). exists h. unfold bind. by rewrite E. Qed.

Section Bounded.
Context (this : StreamId) (Hthis : this <> INF).

Lemma tok_readInt T w : at_tokens T w ->
  match first_int (T this) with
  | Some v => exists w', readInt this w = MRet v w' /\ at_tokens (with_tokens this (tail (T this)) T) w'
  | None => halts (readInt this w) (format_code this)
  end.
Proof.
  intros H. pose proof (tok_expect_more this ($"int32") T w Hthis H) as Hm.
  unfold readInt, readInteger. destruct (T this) as [|x xs] eqn:E.
  - rewrite bool_decide_true in Hm by done. by apply halts_bind.
  - rewrite bool_decide_false in Hm by done. destruct Hm as (w1 & E1 & H1).
    rewrite (bind_ret _ _ _ _ _ E1).
    destruct (tok_readWord this Hthis _ _ _ _ H1 E) as (w2 & E2 & H2).
    rewrite (bind_ret _ _ _ _ _ E2). unfold stringToLongLong, refuse_nul, first_int, int_token.
    destruct (parse_int64 x) as [v|] eqn:Ep.
    + rewrite bool_decide_false by by eapply parse_int64_no_nul.
      unfold when, bind, ret. destruct (_ || _); [|by exists w2].
      eexists. split; [reflexivity|by eapply quit_format].
    + case_bool_decide; (eexists; split; [reflexivity|by eapply quit_format]).
Qed.

(** What a bounded read gives. *)
Lemma tok_readInt_range minv maxv name T w : at_tokens T w ->
  match first_int (T this) with
  | Some v =>
      if (v <? minv) || (maxv <? v)
      then halts (readInt_range this minv maxv name w) (quit_code (mode_of this) _wa false)
      else exists w', readInt_range this minv maxv name w = MRet v w'
                      /\ at_tokens (with_tokens this (tail (T this)) T) w'
  | None => halts (readInt_range this minv maxv name w) (format_code this)
  end.
Proof.
  intros H. pose proof (tok_readInt T w H) as Hr. unfold readInt_range, read_bounded.
  destruct (first_int (T this)) as [v|]; [|by apply halts_bind].
  destruct Hr as (w1 & E1 & H1). rewrite (bind_ret _ _ _ _ _ E1). unfold check_range, note_bounds.
  destruct ((v <? minv) || (maxv <? v)).
  - eexists. split; [reflexivity|].
    match goal with |- exit_code (finish (quit _ _ ?msg _)) = _ =>
      pose proof (ends_quit this _wa msg _ w1 ret H1 Hthis) as Hq end.
    unfold ends, bind, noreturn in Hq. rewrite Hq. by destruct this.
  - exists w1. unfold bind, stream, gets, when, ret. destruct H1 as (t & Ht & Hh).
    rewrite (run_lax _ Hthis _ _ Ht). split; [done|]. by exists t.
Qed.
End Bounded.

(** ** A checker with a bounded answer *)

Definition bounded_main (lo hi : Z) (argv0 : option bytes) (args : list bytes) : M unit :=
  do* setName ($"compare one bounded integer") [] in
  do* registerTestlibCmd argv0 args in
  let* j := readInt ANS in
  let* p := readInt_range OUF lo hi ($"p") in
  if negb (j =? p)
  then die _wa ($"expected %d, found %d") [FInt j; FInt p]
  else die _ok ($"answer is %d") [FInt j].

(** The exit code from the two files' tokens. *)
Definition bounded_code (lo hi : Z) (A O : list bytes) : Z :=
  match first_int A, first_int O with
  | None, _ => FAIL_EXIT_CODE
  | Some _, None => PE_EXIT_CODE
  | Some j, Some p =>
      if bool_decide (lo <= p <= hi /\ p = j)
      then if bool_decide (tail O = []) then OK_EXIT_CODE else PE_EXIT_CODE
      else WA_EXIT_CODE
  end.

Lemma ends_halts {A} (m : M A) (k : A -> M unit) w c : halts (m w) c -> ends (bind m k) w c.
Proof. intros (h & E & Hh). by eapply ends_halt. Qed.

(** C19: a checker that reads its answer bounded: for any two files the exit
    code says whether the answer file starts with an integer (else the checker
    fails), the output starts with a canonical 32-bit integer (else a
    presentation error), that integer is within the bounds and equal to the
    answer's (else a wrong answer), and nothing follows it in the output. *)
Theorem bounded_read_checked lo hi e prog i o a to ta : checker_run e i o a to ta ->
  exit_code (run_program (bounded_main lo hi (Some prog) [i; o; a]) e)
  = Some (bounded_code lo hi (tokens ta) (tokens (strip_bom to))).
Proof.
  intros Hrun. apply (checker_start _ _ _ _ _ _ _ _ _ _ _ Hrun). intros w Hw.
  pose proof (start_tokens _ _ _ _ _ _ _ Hrun Hw) as H. unfold bounded_code.
  pose proof (tok_readInt ANS ltac:(done) _ _ H) as Ha. simpl in Ha.
  destruct (first_int (tokens ta)) as [j|]; [|by apply ends_halts].
  destruct Ha as (w1 & E1 & H1). eapply ends_bind; [done|].
  pose proof (tok_readInt_range OUF ltac:(done) lo hi ($"p") _ _ H1) as Ho.
  change (with_tokens ANS _ _ OUF) with (tokens (strip_bom to)) in Ho.
  destruct (first_int (tokens (strip_bom to))) as [p|]; [|by apply ends_halts].
  destruct ((p <? lo) || (hi <? p)) eqn:Er.
  { rewrite bool_decide_false; [by apply ends_halts|]. intros [Hp _].
    apply orb_true_iff in Er as [?%Z.ltb_lt|?%Z.ltb_lt]; lia. }
  apply orb_false_elim in Er as [?%Z.ltb_ge ?%Z.ltb_ge].
  destruct Ho as (w2 & E2 & Hw2). eapply ends_bind; [done|]. destruct (Z.eqb_spec j p) as [->|Hne]; simpl negb.
  - rewrite bool_decide_true by (split; [lia|done]).
    eapply ends_code; [exact (ends_die_last _ok _ _ _ _ Hw2)|]. rewrite with_tokens_same.
    change (with_tokens ANS _ _ OUF) with (tokens (strip_bom to)). by destruct (bool_decide _).
  - rewrite bool_decide_false by (intros [_ ?]; congruence). exact (ends_die_last _wa _ _ _ _ Hw2).
Qed.

Lemma bounded_read_checked_witness :
  sample_code (bounded_main 1 100) ($"42 ") ($"42") = Some 0
  /\ sample_code (bounded_main 1 100) ($"101") ($"42") = Some 1
  /\ sample_code (bounded_main 1 100) ($"042") ($"42") = Some 2.
Proof.
  split_and!.
  - by_sample (bounded_read_checked 1 100) ($"42 ") ($"42").
  - by_sample (bounded_read_checked 1 100) ($"101") ($"42").
  - by_sample (bounded_read_checked 1 100) ($"042") ($"42").
Defined.

(** ** Comparing the double of an [int] *)

Lemma compare_finite s m1 e1 m2 e2 :
  SFcompare (S754_finite s m1 e1) (S754_finite s m2 e2)
  = Some (let c := match Z.compare e1 e2 with Eq => Z.pos m1 ?= Z.pos m2 | c => c end in
          if s then CompOpp c else c).
Proof. destruct s; simpl; by destruct (e1 ?= e2). Qed.

(** A nonzero [int] is a normal [double] with a small exponent. *)
Lemma int_double n : n <> 0 -> INT_MIN <= n <= INT_MAX ->
  exists m, double_of_Z n = S754_finite (n <? 0) m (bits (Z.abs n) - 53)
    /\ Z.pos m = Z.abs n * 2 ^ (53 - bits (Z.abs n)) /\ 1 <= bits (Z.abs n) <= 32.
Proof.
  unfold INT_MIN, INT_MAX. intros Hn Hr.
  assert (Hb : bits (Z.abs n) <= 32) by (apply bits_le; lia).
  pose proof (bits_pos (Z.abs n) ltac:(lia)) as Hp.
  exists (Z.to_pos (Z.abs n * 2 ^ (53 - bits (Z.abs n)))). split.
  - unfold double_of_Z. pose proof (of_Z_cases 53 1024 ltac:(lia) ltac:(lia) ltac:(lia) n) as E.
    unfold of_Z in E. rewrite E by lia. rewrite (proj2 (Z.eqb_neq n 0)) by done. done.
  - split; [|lia]. apply Z2Pos.id. apply Z.mul_pos_pos; [lia|]. apply Z.pow_pos_nonneg; lia.
Qed.

Lemma finite_not_nan s m e : __testlib_isNaN (S754_finite s m e) = false.
Proof.
  unfold __testlib_isNaN, __testlib_prelimIsNaN. simpl nan_bits. rewrite !orb_false_r.
  assert (deq (S754_finite s m e) (S754_finite s m e) = true) as ->; [|done].
  unfold deq, SFeqb. rewrite compare_finite, !Z.compare_refl. by destruct s.
Qed.

Lemma small_not_infinite s m e : e < 944 -> __testlib_isInfinite (S754_finite s m e) = false.
Proof.
  intros He. unfold __testlib_isInfinite, dlt, SFltb.
  assert (E 300 = S754_finite false 6724873095247260 944) as -> by (vm_compute; reflexivity).
  unfold dopp. cbn [SFopp negb]. destruct s.
  - rewrite compare_finite. destruct (Z.compare_spec e 944); done || lia.
  - rewrite compare_finite. destruct (Z.compare_spec 944 e); done || lia.
Qed.

(** The upper limit, as the comparison sees it. *)
Lemma over_limit n m : 0 < n <= INT_MAX -> Z.pos m = n * 2 ^ (53 - bits n) ->
  dlt (dadd (E 6) (E (-8))) (S754_finite false m (bits n - 53)) = (1000000 <? n).
Proof.
  intros Hn Hm.
  assert (dadd (E 6) (E (-8)) = S754_finite false 8589934592000086 (-33)) as -> by (vm_compute; reflexivity).
  unfold dlt, SFltb. rewrite compare_finite. cbv zeta iota.
  pose proof (Z.log2_spec n ltac:(lia)) as [Hlo Hhi]. unfold bits in *. pose proof (Z.log2_nonneg n).
  destruct (Z.compare_spec (-33) (Z.log2 n + 1 - 53)) as [E|E|E].
  - assert (Z.log2 n = 19) as El by lia. rewrite El in *.
    change (2 ^ (53 - (19 + 1))) with 8589934592 in Hm.
    destruct (Z.compare_spec 8589934592000086 (Z.pos m)), (Z.ltb_spec 1000000 n); done || lia.
  - assert (2 ^ 20 <= 2 ^ Z.log2 n) by (apply Z.pow_le_mono_r; lia).
    change (2 ^ 20) with 1048576 in *. destruct (Z.ltb_spec 1000000 n); done || lia.
  - assert (2 ^ Z.succ (Z.log2 n) <= 2 ^ 19) by (apply Z.pow_le_mono_r; lia).
    change (2 ^ 19) with 524288 in *. destruct (Z.ltb_spec 1000000 n); done || lia.
Qed.

(** [__testlib_preparePoints] on an [int]. *)
Lemma prepare_int n w : INT_MIN <= n <= INT_MAX ->
  if bool_decide (0 <= n <= 1000000)
  then exists p, __testlib_preparePoints (double_of_Z n) w = MRet p w
  else exists msg, __testlib_preparePoints (double_of_Z n) w = MHalt (quit OUF _fail msg w).
Proof.
  intros Hn. destruct (Z.eq_dec n 0) as [->|Hne].
  { eexists. vm_compute. reflexivity. }
  destruct (int_double n Hne Hn) as (m & E & Hm & Hb). unfold __testlib_preparePoints.
  rewrite E, finite_not_nan, small_not_infinite by lia.
  assert (decimal true 1 (-8) = S754_finite true 6044629098073146 (-79)) as -> by (vm_compute; reflexivity).
  destruct (Z.ltb_spec n 0) as [Hneg|Hpos].
  - assert (dlt (S754_finite true m (bits (Z.abs n) - 53)) (S754_finite true 6044629098073146 (-79)) = true)
      as ->.
    { unfold dlt, SFltb. rewrite compare_finite.
      destruct (Z.compare_spec (bits (Z.abs n) - 53) (-79)); done || lia. }
    rewrite bool_decide_false by lia. eexists. reflexivity.
  - cbn [dlt SFltb SFcompare]. change (dle (S754_finite false m _) (S754_zero false)) with false. cbv iota zeta.
    rewrite Z.abs_eq in * by lia. rewrite (over_limit n) by (done || lia).
    destruct (Z.ltb_spec 1000000 n).
    + rewrite bool_decide_false by lia. eexists. reflexivity.
    + rewrite bool_decide_true by lia. eexists. reflexivity.
Qed.

(** A checker that scores [n] points exits with the code of points
    exactly when [n] is between zero and a million and nothing but blanks is
    left of the output; a score out of these bounds is the checker's failure
    and extra output a presentation error. *)
Theorem points_in_range n msg w l k : calm w -> stream_has (l, k) _output (ouf w) ->
  (k < max_pushback)%nat -> INT_MIN <= n <= INT_MAX ->
  ends (quitp_int n msg) w
    (if bool_decide (0 <= n <= 1000000)
     then if bool_decide (skip_blanks l = []) then POINTS_EXIT_CODE else PE_EXIT_CODE
     else FAIL_EXIT_CODE).
Proof.
  intros Hc Ho Hk Hn. pose proof (prepare_int n w Hn) as Hp. unfold quitp_int.
  pose proof (sh_mode _ _ _ Ho) as Hm. destruct (bool_decide (0 <= n <= 1000000)).
  - destruct Hp as (p & E). eapply ends_bind; [done|]. eapply ends_bind; [done|]. unfold ends.
    unfold quit_points, noreturn, gquit. rewrite (quit_code_correct OUF _ _ _ l k); [|by destruct Hc|done..].
    simpl get_stream. rewrite Hm. by destruct (bool_decide (skip_blanks l = [])).
  - destruct Hp as (m & E). eapply ends_halt; [done|].
    rewrite (quit_code_correct OUF _ _ _ l k) by done. simpl get_stream. by rewrite Hm.
Qed.

Lemma points_in_range_witness :
  ends (quitp_int 42 ($"fine")) quit_sample PE_EXIT_CODE
  /\ ends (quitp_int 1000001 ($"fine")) quit_sample FAIL_EXIT_CODE.
Proof.
  assert (calm quit_sample) by (constructor; reflexivity || (vm_compute; discriminate)).
  assert (stream_has ($" x", 2%nat) _output (ouf quit_sample)).
  { constructor; try reflexivity. eexists. split; [reflexivity|].
    refine (rep_weaken _ _ 8 2 _ _); [exact (buffered_make (MkFILE ($" x") false false) ($"out") eq_refl)|lia]. }
  assert (2 < max_pushback)%nat by (unfold max_pushback; lia).
  split; [apply (points_in_range 42 ($"fine") quit_sample ($" x") 2)
         |apply (points_in_range 1000001 ($"fine") quit_sample ($" x") 2)];
    done || (unfold INT_MIN, INT_MAX; lia).
Defined.
