(* ===== verification/LinesSpec.v ===== *)
(** * The verdicts of the line checkers

    [fcmp], [lcmp] and the default checker read lines.  [at_texts X w]: the
    answer and output streams of the running checker [w] still hold the bytes
    [X ANS] and [X OUF]. *)

From S2P Require Import Prelude Text Doubles Readers ReaderRep Validator Streams World Pattern Reading Numbers Register Checkers StreamSpec QuitSpec ProcessSpec RegisterSpec TokenSpec.

(** ** The view *)

Definition remaining : Type := StreamId -> bytes.

Definition at_texts (X : remaining) (w : World) : Prop := running (fun i => (X i, O)) w.

Definition with_text (this : StreamId) (l : bytes) (X : remaining) : remaining :=
  fun i => if bool_decide (i = this) then l else X i.

Definition text_pair (a o : bytes) : remaining := fun i => match i with ANS => a | _ => o end.

Lemma at_texts_ext X X' w : at_texts X w -> (forall i, i <> INF -> X i = X' i) -> at_texts X' w.
Proof. intros H E. eapply running_ext; [done|]. intros i Hi. simpl. by rewrite E. Qed.

Lemma with_text_same this l X : with_text this l X this = l.
Proof. unfold with_text. by rewrite bool_decide_true. Qed.

Lemma with_text_other i this l X : i <> this -> with_text this l X i = X i.
Proof. intros ?. unfold with_text. by rewrite bool_decide_false. Qed.

Lemma with_text_id this X i : with_text this (X this) X i = X i.
Proof. unfold with_text. by case_bool_decide; subst. Qed.

Lemma with_text_twice this l l' X i :
  with_text this l (with_text this l' X) i = with_text this l X i.
Proof. unfold with_text. by case_bool_decide. Qed.

Lemma start_texts a o w : running (both a o) w -> at_texts (text_pair a o) w.
Proof.
  intros [Hc H]. split; [done|]. intros i Hi. eapply has_weaken; [|apply Nat.le_0_l].
  specialize (H i Hi). by destruct i.
Qed.

Lemma at_texts_upd this l X w : running (upd this (l, O) (fun i => (X i, O))) w ->
  at_texts (with_text this l X) w.
Proof.
  intros H. eapply running_ext; [done|]. intros i _. unfold upd, with_text. by case_bool_decide.
Qed.

(** A verdict ends the process. *)
Lemma text_die {A} result format args X w (k : A -> M unit) : at_texts X w ->
  ends (bind (die result format args) k) w
       (quit_code _output result (negb (bool_decide (tokens (X OUF) = [])))).
Proof.
  intros H. unfold ends, bind, die, noreturn, quitf, gquit.
  apply (run_quit OUF _ _ _ _ H); [done|simpl; unfold max_pushback; lia].
Qed.

Lemma text_die_last result format args X w : at_texts X w ->
  ends (die result format args) w (quit_code _output result (negb (bool_decide (tokens (X OUF) = [])))).
Proof.
  intros H. eapply (ends_ext _ (bind (die result format args) ret)); [done|]. by apply text_die.
Qed.

Section LineReaders.
Context (this : StreamId) (Hthis : this <> INF).

Lemma text_eof X w : at_texts X w ->
  exists w', on_stream this eof w = MRet (bool_decide (X this = [])) w' /\ at_texts X w'.
Proof.
  intros H. destruct (run_eof this Hthis _ _ _ _ H eq_refl) as (w' & E & H').
  exists w'. split; [done|]. eapply at_texts_ext; [by apply at_texts_upd|].
  intros i _. apply with_text_id.
Qed.

Lemma text_readString X w : at_texts X w ->
  exists w', readString this w = MRet (fst (read_line (X this))) w' /\
             at_texts (with_text this (snd (read_line (X this))) X) w'.
Proof.
  intros H. destruct (run_readString this Hthis _ _ _ H eq_refl) as (w' & E & H').
  exists w'. split; [done|]. by apply at_texts_upd.
Qed.

Lemma text_fuel X w (k : nat -> M unit) c : at_texts X w ->
  (forall fuel, (length (X this) < fuel)%nat -> ends (k fuel) w c) ->
  ends (bind (fuel_of this) k) w c.
Proof.
  intros H Hk. unfold fuel_of. eapply ends_bind; [done|]. apply Hk.
  pose proof (run_fuel this Hthis _ _ _ _ H eq_refl). lia.
Qed.

(** [if (line.empty() && in.eof())]. *)
Lemma text_last X w (x : bytes) : at_texts X w ->
  exists w', (if bool_decide (x = []) then on_stream this eof else ret false) w
             = MRet (bool_decide (x = []) && bool_decide (X this = [])) w' /\ at_texts X w'.
Proof.
  intros H. case_bool_decide; [|by exists w].
  destruct (text_eof _ _ H) as (w' & E & H'). by exists w'.
Qed.
End LineReaders.

(** ** [fcmp] and [lcmp] *)

(** The exit code after the lines [ls] of the answer against the text [o]. *)
Fixpoint lines_code (same : bytes -> bytes -> bool) (ls : list bytes) (o : bytes) : Z :=
  match ls with
  | [] => if bool_decide (tokens o = []) then OK_EXIT_CODE else PE_EXIT_CODE
  | j :: ls =>
      let '(p, o') := read_line o in
      if same j p then lines_code same ls o' else WA_EXIT_CODE
  end.

Lemma lines_loop_ends same kept (k : Z * bytes -> M unit) fuel X w n s :
  at_texts X w -> (length (X ANS) < fuel)%nat ->
  (forall X' w' r, at_texts X' w' -> ends (k r) w' (lines_code same [] (X' OUF))) ->
  ends (bind (lines_loop same kept fuel n s) k) w (lines_code same (text_lines (X ANS)) (X OUF)).
Proof.
  revert X w n s. induction fuel as [|fuel IH]; intros X w n s H Hf Hk; [lia|].
  cbn [lines_loop]. apply ends_assoc. rewrite text_lines_unfold.
  destruct (text_eof ANS ltac:(done) _ _ H) as (w1 & E1 & H1). eapply ends_bind; [done|].
  destruct (decide (X ANS = [])) as [Hl|Hl].
  { rewrite !(bool_decide_true (X ANS = [])) by done. eapply ends_bind; [done|]. exact (Hk X w1 _ H1). }
  rewrite !(bool_decide_false (X ANS = [])) by done.
  pose proof (read_line_length _ Hl) as Hlen. cbv iota. apply ends_assoc.
  destruct (text_readString ANS ltac:(done) _ _ H1) as (w2 & E2 & H2). eapply ends_bind; [done|].
  destruct (read_line (X ANS)) as [x r]. simpl fst in *. simpl snd in *. apply ends_assoc.
  destruct (text_last ANS ltac:(done) _ _ x H2) as (w3 & E3 & H3). eapply ends_bind; [done|].
  rewrite with_text_same. destruct (bool_decide (x = []) && bool_decide (r = [])).
  { eapply ends_bind; [done|]. rewrite <- (with_text_other OUF ANS r X) by done. exact (Hk _ w3 _ H3). }
  cbn [lines_code]. apply ends_assoc.
  destruct (text_readString OUF ltac:(done) _ _ H3) as (w4 & E4 & H4). eapply ends_bind; [done|].
  rewrite (with_text_other OUF) in H4 by done.
  rewrite (with_text_other OUF) by done.
  destruct (read_line (X OUF)) as [p o'] eqn:Eo. simpl fst in *. simpl snd in *. cbv zeta.
  destruct (same x p); simpl negb; cbv iota.
  - set (X' := with_text OUF o' _) in H4. 
    change r with (X' ANS). replace o' with (X' OUF) by done.
    apply IH; [done| |done]. change (X' ANS) with r. lia.
  - exact (text_die _wa _ _ _ _ _ H4).
Qed.

Lemma lines_main_correct same kept name e prog i o a to ta : checker_run e i o a to ta ->
  exit_code (run_program (lines_main same kept name (Some prog) [i; o; a]) e)
  = Some (lines_code same (text_lines ta) (strip_bom to)).
Proof.
  intros Hrun. apply (checker_start _ _ _ _ _ _ _ _ _ _ _ Hrun). intros w Hw.
  pose proof (start_texts _ _ _ Hw) as H.
  apply (text_fuel ANS ltac:(done) _ _ _ _ H). intros fuel Hf.
  apply (lines_loop_ends _ _ _ fuel (text_pair ta (strip_bom to))); [done..|].
  clear. intros X w [n s] H. simpl.
  case_match; (eapply ends_code; [exact (text_die_last _ok _ _ _ _ H)|]);
    by destruct (bool_decide (tokens (X OUF) = [])).
Qed.

(** C16: the exit codes of [fcmp] and [lcmp] for any two files: the answer's
    lines one by one against the lines read from the output, which is padded
    with empty lines at its end; what is left of the output must be blank. *)
Theorem line_checkers_correct e prog i o a to ta : checker_run e i o a to ta ->
  exit_code (run_program (Fcmp.main (Some prog) [i; o; a]) e)
    = Some (lines_code (fun j p => bool_decide (j = p)) (text_lines ta) (strip_bom to)) /\
  exit_code (run_program (Lcmp.main (Some prog) [i; o; a]) e)
    = Some (lines_code Lcmp.compareWords (text_lines ta) (strip_bom to)).
Proof. intros Hrun. split; by apply lines_main_correct. Qed.

(** ** The default checker *)

Fixpoint norm_from (first : bool) (ls : list bytes) : list bytes :=
  match ls with
  | [] => []
  | x :: ls => Default.normalizeLine x first :: norm_from false ls
  end.

(** The list without the longest run of [p]s at its end. *)
Fixpoint rtrim {A} (p : A -> bool) (l : list A) : list A :=
  match l with
  | [] => []
  | x :: l => match rtrim p l with [] => if p x then [] else [x] | t => x :: t end
  end.

Lemma rtrim_snoc {A} (p : A -> bool) l x :
  rtrim p (l ++ [x]) = if p x then rtrim p l else l ++ [x].
Proof.
  induction l as [|y l IH]; simpl; [done|]. rewrite IH. destruct (p x); [done|]. by destruct l.
Qed.

(** Space, tab, carriage return, form feed and vertical tab. *)
Definition line_blank (c : ascii) : bool := bool_decide (c ∈ int_to_char <$> [32; 9; 13; 12; 11]).

(** The lines of a text for the NOIP rules: no byte order mark in front of
    the first, no white space at the end of a line, no empty lines at the end
    of the text. *)
Definition norm_lines (l : bytes) : list bytes :=
  rtrim (fun x => bool_decide (x = []))
    (rtrim line_blank <$> match text_lines l with [] => [] | x :: ls => strip_bom x :: ls end).

Lemma trailing_blank c : Default.trailing c = line_blank c.
Proof. by destruct c as [[] [] [] [] [] [] [] []]. Qed.

Lemma pop_while_rtrim l : reverse (Default.pop_while (reverse l)) = rtrim line_blank l.
Proof.
  induction l as [|c l IH] using rev_ind; [done|].
  rewrite rtrim_snoc, reverse_snoc. cbn [Default.pop_while]. rewrite trailing_blank.
  destruct (line_blank c); [done|]. by rewrite reverse_cons, reverse_involutive.
Qed.

Lemma drop_empty_rtrim (ls : list bytes) :
  reverse (Default.drop_empty (reverse ls)) = rtrim (fun x => bool_decide (x = [])) ls.
Proof.
  induction ls as [|x ls IH] using rev_ind; [done|].
  rewrite rtrim_snoc, reverse_snoc. destruct x as [|c x]; cbn [Default.drop_empty]; [done|].
  by rewrite reverse_cons, reverse_involutive.
Qed.

Lemma hasUtf8Bom_prefix x : Default.hasUtf8Bom x = is_prefix utf8Bom x.
Proof.
  assert (E : forall c, (ascii_code c =? 239) = bool_decide (int_to_char 239 = c)
                 /\ (ascii_code c =? 187) = bool_decide (int_to_char 187 = c)
                 /\ (ascii_code c =? 191) = bool_decide (int_to_char 191 = c))
    by (by intros [[] [] [] [] [] [] [] []]).
  destruct x as [|a x]; [done|].
  destruct x as [|b x]; [simpl; by rewrite andb_false_r|].
  destruct x as [|c x]; [simpl; by rewrite !andb_false_r|].
  simpl. rewrite (proj1 (E a)), (proj1 (proj2 (E b))), (proj2 (proj2 (E c))), andb_true_r.
  by rewrite andb_assoc.
Qed.

Lemma norm_lines_code l : reverse (Default.drop_empty (reverse (norm_from true (text_lines l)))) = norm_lines l.
Proof.
  rewrite drop_empty_rtrim. unfold norm_lines. f_equal.
  assert (Hn : forall first x, Default.normalizeLine x first
            = rtrim line_blank (if first then strip_bom x else x)).
  { intros first x. unfold Default.normalizeLine, strip_bom. cbv zeta. rewrite pop_while_rtrim, hasUtf8Bom_prefix.
    destruct first; [|done]. destruct (is_prefix utf8Bom x); [|done]. simpl. by rewrite zdrop_drop. }
  assert (Ht : forall ls, norm_from false ls = rtrim line_blank <$> ls).
  { induction ls as [|x ls IH]; simpl; [done|]. by rewrite Hn, IH. }
  destruct (text_lines l) as [|x ls]; [done|]. simpl. by rewrite Hn, Ht.
Qed.

Lemma read_loop_spec this fuel X w lines : this <> INF -> at_texts X w -> (length (X this) < fuel)%nat ->
  exists w', Default.read_loop fuel this lines w
    = MRet (lines ++ norm_from (bool_decide (lines = [])) (text_lines (X this))) w' /\
    at_texts (with_text this [] X) w'.
Proof.
  intros Hthis. revert X w lines. induction fuel as [|fuel IH]; intros X w lines H Hf; [lia|].
  cbn [Default.read_loop]. rewrite text_lines_unfold.
  destruct (text_eof this Hthis _ _ H) as (w1 & E1 & H1). rewrite (bind_ret _ _ _ _ _ E1).
  destruct (decide (X this = [])) as [Hl|Hl].
  { rewrite !(bool_decide_true (X this = [])) by done. exists w1. rewrite app_nil_r. split; [done|]. eapply at_texts_ext; [done|]. intros i _.
    rewrite <- Hl. by rewrite with_text_id. }
  rewrite !(bool_decide_false (X this = [])) by done.
  pose proof (read_line_length _ Hl) as Hlen. unfold readLine.
  destruct (text_readString this Hthis _ _ H1) as (w2 & E2 & H2). rewrite (bind_ret _ _ _ _ _ E2).
  destruct (read_line (X this)) as [x r]. simpl fst in *. simpl snd in *.
  destruct (text_last this Hthis _ _ x H2) as (w3 & E3 & H3). rewrite (bind_ret _ _ _ _ _ E3).
  rewrite with_text_same. destruct (bool_decide (x = []) && bool_decide (r = [])) eqn:El; cbv iota.
  { apply andb_prop in El as [_ ->%bool_decide_eq_true]. exists w3. by rewrite app_nil_r. }
  destruct (IH _ w3 (lines ++ [Default.normalizeLine x (bool_decide (lines = []))]) H3)
    as (w4 & E4 & H4); [rewrite with_text_same; lia|].
  exists w4. rewrite E4, with_text_same, <- app_assoc.
  rewrite (bool_decide_false (lines ++ [Default.normalizeLine x (bool_decide (lines = []))] = []))
    by (by destruct lines).
  split; [done|]. eapply at_texts_ext; [done|]. intros i _. apply with_text_twice.
Qed.

Lemma readNormalizedLines_spec this X w : this <> INF -> at_texts X w ->
  exists w', Default.readNormalizedLines this w = MRet (norm_lines (X this)) w' /\
    at_texts (with_text this [] X) w'.
Proof.
  intros Hthis H. unfold Default.readNormalizedLines, fuel_of.
  rewrite bind_gets. pose proof (run_fuel this Hthis _ _ _ _ H eq_refl) as Hf.
  destruct (read_loop_spec this (S (stream_fuel (get_stream this w))) _ _ [] Hthis H ltac:(lia))
    as (w' & E & H').
  rewrite (bind_ret _ _ _ _ _ E). exists w'. split; [|done]. by rewrite <- norm_lines_code.
Qed.

Lemma first_difference_none A O n :
  Default.first_difference A O n = None -> zlen A = zlen O -> A = O.
Proof.
  unfold zlen. revert O n. induction A as [|x A IH]; intros [|y O] n; simpl; try lia; [done|].
  case_bool_decide as Hxy; [|done]. intros E1 E2. subst y. f_equal. eapply IH; [done|lia].
Qed.

Lemma first_difference_same A n : Default.first_difference A A n = None.
Proof. revert n. induction A as [|x A IH]; intros n; simpl; [done|]. by rewrite bool_decide_true. Qed.

Lemma default_main_code e prog i o a to ta : checker_run e i o a to ta ->
  exit_code (run_program (Default.main (Some prog) [i; o; a]) e)
  = Some (if bool_decide (norm_lines ta = norm_lines (strip_bom to)) then OK_EXIT_CODE
          else WA_EXIT_CODE).
Proof.
  intros Hrun. apply (checker_start _ _ _ _ _ _ _ _ _ _ _ Hrun). intros w Hw.
  pose proof (start_texts _ _ _ Hw) as H.
  destruct (readNormalizedLines_spec ANS _ _ ltac:(done) H) as (w1 & E1 & H1).
  eapply ends_bind; [done|].
  destruct (readNormalizedLines_spec OUF _ _ ltac:(done) H1) as (w2 & E2 & H2).
  eapply ends_bind; [done|]. rewrite (with_text_other OUF) by done. simpl text_pair.
  set (A := norm_lines ta). set (B := norm_lines (strip_bom to)). cbv zeta.
  destruct (Default.first_difference A B 0) as [[[n x] y]|] eqn:Ed.
  { rewrite bool_decide_false by (intros E; by rewrite E, first_difference_same in Ed).
    exact (text_die_last _wa _ _ _ _ H2). }
  destruct (Z.eqb_spec (zlen A) (zlen B)) as [El|El]; simpl negb; cbv iota.
  - rewrite bool_decide_true by by eapply first_difference_none.
    case_match; exact (text_die_last _ok _ _ _ _ H2).
  - rewrite bool_decide_false by congruence. exact (text_die_last _wa _ _ _ _ H2).
Qed.

(** C7: the default checker accepts an output exactly when its lines are
    those of the answer up to white space at the end of each line, a byte
    order mark in front (two in the output: opening it skips one already) and
    empty lines at the end of the file, and answers "wrong answer" otherwise. *)
Theorem default_correct e prog i o a to ta : checker_run e i o a to ta ->
  exit_code (run_program (Default.main (Some prog) [i; o; a]) e)
  = Some (if bool_decide (norm_lines ta = norm_lines (strip_bom to)) then OK_EXIT_CODE
          else WA_EXIT_CODE).
Proof. apply default_main_code. Qed.

(** ** Concrete runs *)

Lemma line_checkers_correct_witness :
  sample_code Lcmp.main ($"a   b ") ($"a b") = Some 0 /\ sample_code Fcmp.main ($"a ") ($"a") = Some 1.
Proof.
  unfold sample_code. split.
  - rewrite (proj2 (line_checkers_correct _ _ _ _ _ ($"a   b ") ($"a b")
               (sample_run [] ($"a   b ") ($"a b") ltac:(done) ltac:(done) ltac:(done)))).
    vm_compute. reflexivity.
  - rewrite (proj1 (line_checkers_correct _ _ _ _ _ ($"a ") ($"a")
               (sample_run [] ($"a ") ($"a") ltac:(done) ltac:(done) ltac:(done)))).
    vm_compute. reflexivity.
Defined.

Lemma default_correct_witness :
  sample_code Default.main ($"a  " ++ newline ++ newline) ($"a") = Some 0 /\
  (* a lone carriage return at the end of the output is not trailing white space *)
  sample_code Default.main ($"a" ++ [int_to_char 13]) ($"a") = Some 1.
Proof.
  split.
  - by_sample default_correct ($"a  " ++ newline ++ newline) ($"a").
  - by_sample default_correct ($"a" ++ [int_to_char 13]) ($"a").
Defined.
