(* ===== verification/GoText.v ===== *)
(** * What the Go code uses of the standard library's text packages

    UTF-8 decoding ([unicode/utf8]), white space ([strings.TrimSpace]), path
    elements ([io/fs.ValidPath], [path/filepath.Clean] and [IsLocal] on Unix),
    decimal printing, and errors with the [fmt] verbs the code uses.  A Go
    string is a sequence of bytes. *)

From S2P Require Import Prelude Text.

(** ** [unicode/utf8] *)

Definition RuneError : Z := 65533.

Definition in_range (lo hi : Z) (c : ascii) : bool :=
  (lo <=? ascii_code c) && (ascii_code c <=? hi).

Definition cont (c : ascii) : bool := in_range 128 191 c.

(** The range of the second byte, which depends on the first one. *)
Definition second_ok (x : Z) (c : ascii) : bool :=
  if x =? 224 then in_range 160 191 c
  else if x =? 237 then in_range 128 159 c
  else if x =? 240 then in_range 144 191 c
  else if x =? 244 then in_range 128 143 c
  else cont c.

(** [DecodeRuneInString]: the rune and its width; an invalid sequence is
    [RuneError] of width 1. *)
Definition decode_rune (s : bytes) : Z * nat :=
  match s with
  | [] => (RuneError, 0%nat)
  | a :: t =>
      let x := ascii_code a in
      let bits c := ascii_code c - 128 in
      if x <? 128 then (x, 1%nat)
      else if (194 <=? x) && (x <=? 223) then
        match t with
        | b :: _ => if cont b then ((x - 192) * 64 + bits b, 2%nat) else (RuneError, 1%nat)
        | _ => (RuneError, 1%nat)
        end
      else if (224 <=? x) && (x <=? 239) then
        match t with
        | b :: c :: _ =>
            if second_ok x b && cont c
            then ((x - 224) * 4096 + bits b * 64 + bits c, 3%nat) else (RuneError, 1%nat)
        | _ => (RuneError, 1%nat)
        end
      else if (240 <=? x) && (x <=? 244) then
        match t with
        | b :: c :: d :: _ =>
            if second_ok x b && cont c && cont d
            then ((x - 240) * 262144 + bits b * 4096 + bits c * 64 + bits d, 4%nat)
            else (RuneError, 1%nat)
        | _ => (RuneError, 1%nat)
        end
      else (RuneError, 1%nat)
  end.

(** [RuneStart]. *)
Definition rune_start (c : ascii) : bool := negb (cont c).

(** The bytes before the last one that [DecodeLastRuneInString] steps back
    over, at most [n], up to and including the first start byte. *)
Fixpoint back_to_start (n : nat) (rev_s : bytes) : nat :=
  match n, rev_s with
  | S n, c :: rest => if rune_start c then 1%nat else S (back_to_start n rest)
  | _, _ => 0%nat
  end.

(** [DecodeLastRuneInString], on the reversed text. *)
Definition decode_last_rune (rev_s : bytes) : Z * nat :=
  match rev_s with
  | [] => (RuneError, 0%nat)
  | c :: _ =>
      if ascii_code c <? 128 then (ascii_code c, 1%nat)
      else
        let k := back_to_start 4 rev_s in
        let '(r, size) := decode_rune (reverse (take k rev_s)) in
        if decide (size = k) then (r, size) else (RuneError, 1%nat)
  end.

(** The runes of a string, as [for _, r := range s] yields them, with the
    width of each. *)
Fixpoint runes_loop (fuel : nat) (s : bytes) : list (Z * nat) :=
  match fuel, s with
  | _, [] => []
  | O, _ => []
  | S fuel, _ => let '(r, w) := decode_rune s in (r, w) :: runes_loop fuel (drop w s)
  end.

Definition runes (s : bytes) : list (Z * nat) := runes_loop (length s) s.

(** [utf8.ValidString]. *)
Definition valid_utf8 (s : bytes) : bool :=
  forallb (fun '(r, w) => negb ((r =? RuneError) && Nat.eqb w 1)) (runes s).

(** ** [strings] *)

(** [unicode.IsSpace]. *)
Definition is_space_rune (r : Z) : bool :=
  ((9 <=? r) && (r <=? 13)) || (r =? 32) || (r =? 133) || (r =? 160) || (r =? 5760)
  || ((8192 <=? r) && (r <=? 8202)) || (r =? 8232) || (r =? 8233) || (r =? 8239)
  || (r =? 8287) || (r =? 12288).

Fixpoint trim_left (fuel : nat) (s : bytes) : bytes :=
  match fuel, s with
  | _, [] => []
  | O, _ => s
  | S fuel, _ =>
      let '(r, w) := decode_rune s in
      if is_space_rune r then trim_left fuel (drop w s) else s
  end.

Fixpoint trim_right (fuel : nat) (rev_s : bytes) : bytes :=
  match fuel, rev_s with
  | _, [] => []
  | O, _ => rev_s
  | S fuel, _ =>
      let '(r, w) := decode_last_rune rev_s in
      if is_space_rune r then trim_right fuel (drop w rev_s) else rev_s
  end.

Definition TrimSpace (s : bytes) : bytes :=
  let t := trim_left (length s) s in
  reverse (trim_right (length t) (reverse t)).

Definition HasPrefix (s p : bytes) : bool := is_prefix p s.
Definition HasSuffix (s p : bytes) : bool := is_prefix (reverse p) (reverse s).
Definition Contains (s sub : bytes) : bool := bool_decide (is_Some (find_sub sub s)).
Definition ContainsAny (s chars : bytes) : bool :=
  existsb (fun c => bool_decide (c ∈ chars)) s.

Definition CutPrefix (s p : bytes) : option bytes :=
  if HasPrefix s p then Some (drop (length p) s) else None.

(** [strings.Join] is [Text.join]; [cmp.Or] on strings. *)
Fixpoint cmp_or (l : list bytes) : bytes :=
  match l with
  | [] => []
  | s :: l => if bool_decide (s = []) then cmp_or l else s
  end.

(** ** Paths *)

Definition slash : ascii := "/"%char.
Definition elements_of (path : bytes) : list bytes := split_char path slash.

(** [io/fs.ValidPath]. *)
Definition fs_ValidPath (name : bytes) : bool :=
  valid_utf8 name
  && (bool_decide (name = $".")
      || forallb (fun e => negb (bool_decide (e = []) || bool_decide (e = $".")
                                 || bool_decide (e = $".."))) (elements_of name)).

(** One element of [filepath.Clean]: [out] holds the elements kept, the last
    one first. *)
Definition clean_step (rooted : bool) (out : list bytes) (e : bytes) : list bytes :=
  if bool_decide (e = []) || bool_decide (e = $".") then out
  else if bool_decide (e = $"..") then
    match out with
    | last :: rest => if bool_decide (last = $"..") then $".." :: out else rest
    | [] => if rooted then [] else [$".."]
    end
  else e :: out.

Definition filepath_Clean (path : bytes) : bytes :=
  if bool_decide (path = []) then $"."
  else
    let rooted := HasPrefix path [slash] in
    let out := foldl (clean_step rooted) [] (elements_of path) in
    if rooted then slash :: join (reverse out) [slash]
    else if bool_decide (out = []) then $"." else join (reverse out) [slash].

(** [filepath.IsLocal] on Unix. *)
Definition filepath_IsLocal (path : bytes) : bool :=
  if HasPrefix path [slash] || bool_decide (path = []) then false
  else
    let hasDots := existsb (fun e => bool_decide (e = $".") || bool_decide (e = $".."))
                           (elements_of path) in
    let path := if hasDots then filepath_Clean path else path in
    negb (bool_decide (path = $"..") || HasPrefix path ($"../")).

(** ** Errors

    An error is the [fmt.Errorf] (or [errors.New]) call that made it. *)

Definition Itoa (n : Z) : bytes := vtos n.

Inductive GoError :=
  | Errorf (format : bytes) (args : list GoArg)
  | Joined (errs : list GoError)
with GoArg :=
  | ADec (n : Z)
  | AStr (s : bytes)
  | AQuote (s : bytes)
  | AErr (e : GoError).

Definition errors_New (s : bytes) : GoError := Errorf s [].

(** [errors.Join] drops the nil errors and is nil when all are. *)
Definition errors_Join (errs : list (option GoError)) : option GoError :=
  match omap id errs with
  | [] => None
  | es => Some (Joined es)
  end.

(** The tables of package [unicode] beyond ASCII, which are data. *)
Class UnicodeTables := { wide_letter : Z -> bool; wide_digit : Z -> bool; wide_print : Z -> bool }.

Section ErrorText.
Context `{UnicodeTables}.

Definition IsLetter (r : Z) : bool :=
  if r <? 128 then ((65 <=? r) && (r <=? 90)) || ((97 <=? r) && (r <=? 122)) else wide_letter r.
Definition IsDigit (r : Z) : bool :=
  if r <? 128 then (48 <=? r) && (r <=? 57) else wide_digit r.
Definition IsPrint (r : Z) : bool :=
  if r <? 128 then (32 <=? r) && (r <=? 126) else wide_print r.

Definition hex_digit (d : Z) : ascii := int_to_char (if d <? 10 then 48 + d else 87 + d).
Fixpoint hex (width : nat) (x : Z) : bytes :=
  match width with
  | O => []
  | S width => hex width (x / 16) ++ [hex_digit (x mod 16)]
  end.

(** One rune of [strconv.Quote]; [raw] is its bytes. *)
Definition quote_rune (r : Z) (raw : bytes) : bytes :=
  let bs := "\"%char in
  if (r =? RuneError) && Nat.eqb (length raw) 1
  then bs :: "x"%char :: hex 2 (default 0 (ascii_code <$> head raw))
  else if (r =? 34) || (r =? 92) then bs :: raw
  else if IsPrint r then raw
  else if r =? 7 then [bs; "a"%char] else if r =? 8 then [bs; "b"%char]
  else if r =? 12 then [bs; "f"%char] else if r =? 10 then [bs; "n"%char]
  else if r =? 13 then [bs; "r"%char] else if r =? 9 then [bs; "t"%char]
  else if r =? 11 then [bs; "v"%char]
  else if (r <? 32) || (r =? 127) then bs :: "x"%char :: hex 2 r
  else if r <? 65536 then bs :: "u"%char :: hex 4 r
  else bs :: "U"%char :: hex 8 r.

Fixpoint quote_loop (s : bytes) (rs : list (Z * nat)) : bytes :=
  match rs with
  | [] => []
  | (r, w) :: rs => quote_rune r (take w s) ++ quote_loop (drop w s) rs
  end.

Definition Quote (s : bytes) : bytes := "034"%char :: quote_loop s (runes s) ++ ["034"%char].

(** [Sprintf]: every verb of the format is replaced by the next text. *)
Fixpoint fill (format : bytes) (texts : list bytes) : bytes :=
  match format with
  | [] => []
  | c :: rest =>
      match decide (c = "%"%char), rest, texts with
      | left _, _ :: rest, t :: texts => t ++ fill rest texts
      | _, _, _ => c :: fill rest texts
      end
  end.

(** [err.Error()]. *)
Fixpoint error_text (e : GoError) : bytes :=
  match e with
  | Errorf format args => fill format (map arg_text args)
  | Joined errs => join (map error_text errs) [int_to_char 10]
  end
with arg_text (a : GoArg) : bytes :=
  match a with
  | ADec n => Itoa n
  | AStr s => s
  | AQuote s => Quote s
  | AErr e => error_text e
  end.
End ErrorText.

(** Tables that know no letter, digit or printable rune beyond ASCII. *)
Definition ascii_tables : UnicodeTables :=
  {| wide_letter _ := false; wide_digit _ := false; wide_print _ := false |}.

Example error_ex :
  @error_text ascii_tables (Errorf ($"testcases[%d]: %w")
    [ADec 3; AErr (Errorf ($"inputFile %q is bad") [AQuote ($"a\b" ++ [int_to_char 10])])])
  = $"testcases[3]: inputFile " ++ "034"%char :: $"a\\b\n" ++ "034"%char :: $" is bad".
Proof. reflexivity. Qed.

Example trim_nbsp : TrimSpace (int_to_char 194 :: int_to_char 160 :: $" a b" ++ [int_to_char 10])
                    = $"a b".
Proof. reflexivity. Qed.
Example clean_ex : filepath_Clean ($"a/./b//../../../c/") = $"../c".
Proof. reflexivity. Qed.
Example local_ex : filepath_IsLocal ($"../c") = false /\ filepath_IsLocal ($"a/../b.cpp") = true.
Proof. split; reflexivity. Qed.
Example valid_ex : fs_ValidPath ($"a/../b") = false /\ fs_ValidPath ($"a/b.txt") = true
                   /\ fs_ValidPath [int_to_char 255] = false.
Proof. repeat split; reflexivity. Qed.
