(* ===== verification/GoTextSpec.v ===== *)
(** * Lemmas on the Go text functions

    Trimming never empties a text with a visible ASCII character; the paths
    that [Clean] and [IsLocal] let through stay below the root. *)

From S2P Require Import Prelude Text TextSpec GoText.

(** ** Trimming *)

Definition visible (c : ascii) : Prop :=
  ascii_code c < 128 /\ is_space_rune (ascii_code c) = false.

Lemma decode_visible c s : visible c -> decode_rune (c :: s) = (ascii_code c, 1%nat).
Proof. intros [H _]. unfold decode_rune. by rewrite (proj2 (Z.ltb_lt _ _)). Qed.

Lemma back_to_start_le n r : (back_to_start n r <= length r)%nat.
Proof.
  revert r. induction n as [|n IH]; intros [|c r]; simpl; try lia.
  destruct (rune_start c); [lia|]. specialize (IH r). lia.
Qed.

(** A space decoded at the end of a text does not swallow a visible
    character before it. *)
Lemma last_rune_width x r c : visible c ->
  is_space_rune (decode_last_rune ((x :: r) ++ [c])).1 = true ->
  ((decode_last_rune ((x :: r) ++ [c])).2 <= length (x :: r))%nat.
Proof.
  intros Hc. unfold decode_last_rune. simpl app. cbv iota beta.
  destruct (ascii_code x <? 128); [simpl; lia|].
  set (k := back_to_start 4 _).
  assert (Hk : (k <= S (S (length r)))%nat).
  { subst k. etransitivity; [apply back_to_start_le|]. simpl. rewrite length_app. simpl. lia. }
  destruct (decode_rune _) as [ru size] eqn:D. destruct (decide (size = k)) as [->|]; [|done].
  intros _. simpl. destruct (decide (k = S (S (length r)))) as [E|]; [|lia]. exfalso.
  rewrite take_ge in D by (simpl; rewrite length_app; simpl; lia).
  change (x :: r ++ [c]) with ((x :: r) ++ [c]) in D. rewrite reverse_app in D.
  change (decode_rune (c :: reverse (x :: r)) = (ru, k)) in D.
  rewrite decode_visible in D by done. injection D as _ D. lia.
Qed.

Lemma trim_right_visible fuel r c : visible c -> trim_right fuel (r ++ [c]) <> [].
Proof.
  intros Hc. revert r. induction fuel as [|fuel IH]; intros r.
  - destruct r; done.
  - destruct r as [|x r].
    + simpl. destruct Hc as [H1 H2]. rewrite (proj2 (Z.ltb_lt _ _)) by done. by rewrite H2.
    + pose proof (last_rune_width x r c Hc) as W. cbn [trim_right].
      change (trim_right (S fuel) ((x :: r) ++ [c])) with
        (let '(ru, w) := decode_last_rune ((x :: r) ++ [c]) in
         if is_space_rune ru then trim_right fuel (drop w ((x :: r) ++ [c])) else (x :: r) ++ [c]).
      destruct (decode_last_rune _) as [ru w]. simpl in W.
      destruct (is_space_rune ru); [|done].
      rewrite drop_app_le by (apply W; done). apply IH.
Qed.

Lemma TrimSpace_visible c s : visible c -> TrimSpace (c :: s) <> [].
Proof.
  intros Hc. unfold TrimSpace.
  assert (trim_left (length (c :: s)) (c :: s) = c :: s) as ->.
  { change (trim_left (S (length s)) (c :: s) = c :: s). cbn [trim_left].
    rewrite decode_visible by done. by rewrite (proj2 Hc). }
  intros E. apply (f_equal reverse) in E. rewrite reverse_involutive in E.
  rewrite reverse_cons in E. by apply trim_right_visible in E.
Qed.

(** ** Paths *)

(** Joining elements without a slash and splitting at the slashes are
    inverse, except for no element at all. *)
Definition plain (e : bytes) : Prop := slash ∉ e.

Lemma elements_plain path : Forall plain (elements_of path).
Proof. apply (split_loop_item slash), not_elem_of_nil. Qed.

Lemma elements_join e es : Forall plain (e :: es) -> elements_of (join (e :: es) [slash]) = e :: es.
Proof. by apply split_join. Qed.

(** ** Clean paths *)

(** An element that names an entry of its directory. *)
Definition entry_name (e : bytes) : Prop :=
  plain e /\ e <> [] /\ e <> $"." /\ e <> $"..".

(** The elements of a cleaned relative path: some [..]s, then names. *)
Definition cleaned (es : list bytes) : Prop :=
  exists k names, es = replicate k ($"..") ++ names /\ Forall entry_name names.

Lemma plain_dotdot : plain ($"..").
Proof. by intros [? | [? | ?%not_elem_of_nil]%elem_of_cons]%elem_of_cons. Qed.

Lemma cleaned_plain es : cleaned es -> Forall plain es.
Proof.
  intros (k & names & -> & H). apply Forall_app. split.
  - apply Forall_replicate, plain_dotdot.
  - by eapply Forall_impl; [|exact H]; intros e [? _].
Qed.

Lemma clean_step_cleaned out e :
  plain e -> cleaned (reverse out) -> cleaned (reverse (clean_step false out e)).
Proof.
  intros He (k & names & E & Hn). unfold clean_step.
  destruct (bool_decide (e = []) || bool_decide (e = $".")) eqn:Edot; [by exists k, names|].
  apply orb_false_iff in Edot as [?%bool_decide_eq_false ?%bool_decide_eq_false].
  case_bool_decide as Edd.
  - destruct out as [|last rest].
    + exists 1%nat, []. split; [done | constructor].
    + rewrite reverse_cons in E. case_bool_decide as El.
      * destruct names as [|n names _] using rev_ind.
        -- exists (S k), []. rewrite !reverse_cons, E, !app_nil_r. split; [|constructor].
           change (S k) with (1 + k)%nat. rewrite Nat.add_comm, replicate_add. done.
        -- exfalso. rewrite app_assoc in E. apply app_inj_tail in E as [_ ->].
           apply Forall_app in Hn as [_ Hn]. apply Forall_inv in Hn. destruct Hn as (_ & _ & _ & ?).
           done.
      * destruct names as [|n names _] using rev_ind.
        -- exfalso. rewrite app_nil_r in E. destruct k as [|k].
           { by apply app_eq_nil in E as [_ ?]. }
           replace (S k) with (k + 1)%nat in E by lia. rewrite replicate_add in E.
           apply app_inj_tail in E as [_ ?]. done.
        -- rewrite app_assoc in E. apply app_inj_tail in E as [-> _].
           exists k, names. split; [done|]. by apply Forall_app in Hn as [? _].
  - exists k, (names ++ [e]). rewrite reverse_cons, E, app_assoc. split; [done|].
    apply Forall_app. split; [done|]. constructor; [|constructor]. by repeat split.
Qed.

Lemma clean_elements path :
  cleaned (reverse (foldl (clean_step false) [] (elements_of path))).
Proof.
  pose proof (elements_plain path) as H. generalize (elements_of path) as es, H. clear H path.
  assert (L : forall es out, Forall plain es -> cleaned (reverse out) ->
    cleaned (reverse (foldl (clean_step false) out es))).
  { induction es as [|e es IH]; intros out Hes Hc; [done|]. simpl. apply IH.
    - by apply Forall_inv_tail in Hes.
    - apply clean_step_cleaned; [by apply Forall_inv in Hes | done]. }
  intros es Hes. apply L; [done|]. exists 0%nat, []. split; [done | constructor].
Qed.

(** Cleaning a cleaned list changes nothing. *)
Lemma clean_again es : cleaned es -> foldl (clean_step false) [] es = reverse es.
Proof.
  intros (k & names & -> & Hn). rewrite foldl_app.
  assert (D : foldl (clean_step false) [] (replicate k ($"..")) = replicate k ($"..")).
  { assert (L : forall j, foldl (clean_step false) (replicate j ($"..")) (replicate k ($".."))
                          = replicate (k + j) ($"..")).
    { induction k as [|k IH]; intros j; [done|]. simpl replicate. simpl foldl.
      replace (clean_step false (replicate j ($"..")) ($"..")) with (replicate (S j) ($".."))
        by (destruct j; reflexivity).
      by rewrite IH, Nat.add_succ_r. }
    specialize (L 0%nat). by rewrite Nat.add_0_r in L. }
  rewrite D, reverse_app, reverse_replicate. generalize (replicate k ($"..")) as out.
  clear D k. induction names as [|n names IH]; intros out; [done|]. simpl.
  destruct (Forall_inv Hn) as (_ & H1 & H2 & H3). rewrite IH by by apply Forall_inv_tail in Hn.
  unfold clean_step. rewrite !bool_decide_false by done. simpl.
  by rewrite reverse_cons, <- app_assoc.
Qed.

Lemma prefix_slash_join es : Forall plain es -> head es <> Some [] ->
  HasPrefix (join es [slash]) [slash] = false.
Proof.
  destruct es as [|[|c e] es]; [done | done |]. intros He _.
  apply Forall_inv in He as [Hc _]%not_elem_of_cons. rewrite join_cons. unfold HasPrefix. simpl.
  by rewrite bool_decide_false.
Qed.

Lemma join_not_nil e es : e <> [] -> join (e :: es) [slash] <> [].
Proof. intros He. rewrite join_cons. by intros [? _]%app_eq_nil. Qed.

Lemma cleaned_head es : cleaned es -> head es <> Some [].
Proof.
  intros ([|k] & names & -> & Hn); [|done]. destruct names as [|n names]; [done|].
  simpl. destruct (Forall_inv Hn) as (_ & ? & _). congruence.
Qed.

(** [Clean] leaves a clean path alone. *)
Lemma Clean_cleaned es : es <> [] -> cleaned es ->
  filepath_Clean (join es [slash]) = join es [slash].
Proof.
  intros Hne C. pose proof (cleaned_head _ C) as Hh. pose proof (cleaned_plain _ C) as P.
  destruct es as [|e es]; [done|].
  assert (He : e <> []) by (simpl in Hh; congruence).
  unfold filepath_Clean. rewrite (bool_decide_false _ (join_not_nil e es He)).
  rewrite prefix_slash_join by done. rewrite elements_join by done. rewrite clean_again by done.
  rewrite reverse_involutive. rewrite bool_decide_false; [done|].
  rewrite reverse_cons. by destruct (reverse es).
Qed.

(** A path that [Clean] returns and [IsLocal] accepts: names below the root,
    or the root itself. *)
Lemma local_clean path : filepath_IsLocal (filepath_Clean path) = true ->
  filepath_Clean path = $"."
  \/ exists es, es <> [] /\ Forall entry_name es /\ filepath_Clean path = join es [slash]
               /\ elements_of (filepath_Clean path) = es.
Proof.
  unfold filepath_Clean at 1 2 3 4. case_bool_decide as Ep; [by left|].
  destruct (HasPrefix path [slash]) eqn:R.
  { unfold filepath_IsLocal, HasPrefix. simpl. done. }
  pose proof (clean_elements path) as C. set (out := foldl _ [] (elements_of path)) in *.
  case_bool_decide as Eo; [by left|]. intros L. right. exists (reverse out).
  assert (Hne : reverse out <> []) by (intros E; apply (f_equal reverse) in E;
    rewrite reverse_involutive in E; done).
  pose proof (cleaned_plain _ C) as P. destruct (reverse out) as [|e es] eqn:E; [done|].
  pose proof (elements_join e es P) as EJ.
  destruct C as (k & names & Ek & Hn). destruct k as [|k]; simpl in Ek.
  { split; [done|]. rewrite Ek in *. by repeat split. }
  exfalso. injection Ek as -> ->. unfold filepath_IsLocal in L.
  rewrite prefix_slash_join in L by done.
  assert (Hd : $".." <> []) by discriminate.
  rewrite (bool_decide_false _ (join_not_nil _ (replicate k ($"..") ++ names) Hd)) in L. cbv zeta in L.
  rewrite Clean_cleaned in L by (done || by exists (S k), names).
  assert (H : forall (b : bool) (x : bytes), (if b then x else x) = x) by by intros [].
  simpl orb in L. cbv iota in L. rewrite H, join_cons in L.
  destruct (replicate k ($"..") ++ names); done.
Qed.
