(* ===== verification/Model.v ===== *)
(** * Domain types of the judge ([src/internal/model/types.go])

    Requests, verdicts, statuses and results.  A [uint32] field is a [Z] whose
    range [request_in_range] states, since decoding JSON into the struct
    enforces it. *)

From S2P Require Import Prelude.

Inductive Language :=
  | LanguageUnknown | LanguageC | LanguageCPP | LanguageJava | LanguagePython
  | LanguageOther (name : bytes).

#[export] Instance Language_eq_dec : EqDecision Language.
Proof. solve_decision. Defined.

Inductive Verdict :=
  | VerdictOK | VerdictTLE | VerdictMLE | VerdictOLE | VerdictRE | VerdictWA | VerdictUKE
  | VerdictCheckerExecutionError.

#[export] Instance Verdict_eq_dec : EqDecision Verdict.
Proof. solve_decision. Defined.

Record JudgeTestCase := MkTestCase {
  InputText : bytes;
  ExpectedOutput : bytes;
  InputFile : bytes;
  ExpectedOutputFile : bytes }.

Record JudgeRequest := MkJudgeRequest {
  SourceCode : bytes;
  Checker : bytes;
  CheckerSourceCode : bytes;
  ReqLanguage : Language;
  TimeLimit : Z;
  MemoryLimit : Z;
  TestCases : list JudgeTestCase }.

Definition is_uint32 (x : Z) : Prop := 0 <= x < 2 ^ 32.

Definition request_in_range (r : JudgeRequest) : Prop :=
  is_uint32 (TimeLimit r) /\ is_uint32 (MemoryLimit r).

Record CompileResult := MkCompileResult { Succeeded : bool; Log : bytes }.

Record JudgeCaseResult := MkCaseResult {
  CaseVerdict : Verdict;
  CaseStdout : bytes;
  TimeUsed : Z;
  MemoryUsed : Z;
  CaseExitCode : Z;
  CaseExtraInfo : bytes }.

Inductive JudgeStatus :=
  | JudgeStatusOK | JudgeStatusCompileError | JudgeStatusSystemError
  | JudgeStatusCheckerCompileError | JudgeStatusCheckerExecutionError.

#[export] Instance JudgeStatus_eq_dec : EqDecision JudgeStatus.
Proof. solve_decision. Defined.

Record JudgeResult := MkJudgeResult {
  Status : JudgeStatus;
  Compile : CompileResult;
  CheckerCompile : option CompileResult;
  Cases : list JudgeCaseResult }.
