(* ===== verification/OutputLimiter.v ===== *)
(** * The shared output budget ([src/internal/sandbox/output_limiter.go])

    Two [limitedWriter]s, for standard output and standard error, draw bytes
    from one [outputLimiter].  [Write] and the operations on the limiter are
    functions on a shared store of one limiter and the writers; since a
    [Write] takes its writer's mutex and calls [reserve], which takes the
    limiter's, two [Write]s on different writers interleave between their
    atomic parts.  [step] is that interleaving, for any number of goroutines;
    [Write] run alone is its sequential composition. *)

From S2P Require Import Prelude.

(** ** The limiter *)

(** [ch_closed] is the state of the channel [signal] closes once. *)
Record outputLimiter := MkLimiter { ch_closed : bool; limit : Z; used : Z }.

Definition newOutputLimiter (maxBytes : Z) : outputLimiter := MkLimiter false maxBytes 0.

Definition signal (l : outputLimiter) : outputLimiter := MkLimiter true (limit l) (used l).

Definition reserve (requested : Z) (l : outputLimiter) : Z * outputLimiter :=
  let remaining := limit l - used l in
  if remaining <=? 0 then (0, l)
  else
    let granted := Z.min requested remaining in
    (granted, MkLimiter (ch_closed l) (limit l) (used l + granted)).

(** ** Writers *)

(** What a goroutine inside [Write] holds: nothing yet reserved, or the
    number of bytes [reserve] allowed. *)
Inductive phase := Reserving | Buffering (allowed : Z).

(** [locked] is the [Write] that holds the writer's mutex. *)
Record limitedWriter := MkWriter {
  buf : bytes;
  overflowed : bool;
  locked : option (bytes * phase) }.

Definition newLimitedWriter : limitedWriter := MkWriter [] false None.

(** After the reservation: append the allowed prefix and note an overflow. *)
Definition settle (p : bytes) (allowed : Z) (w : limitedWriter) (l : outputLimiter)
  : limitedWriter * outputLimiter :=
  let b := if 0 <? allowed then buf w ++ ztake allowed p else buf w in
  if allowed <? zlen p then (MkWriter b true None, signal l)
  else (MkWriter b (overflowed w) None, l).

(** [Write] without interference; it always reports [len(p)] written. *)
Definition Write (p : bytes) (w : limitedWriter) (l : outputLimiter)
  : Z * limitedWriter * outputLimiter :=
  if overflowed w then (zlen p, w, l)
  else
    let '(allowed, l) := reserve (zlen p) l in
    let '(w, l) := settle p allowed w l in
    (zlen p, w, l).

(** ** Interleavings *)

Inductive fd := Stdout | Stderr.

#[export] Instance fd_eq_dec : EqDecision fd.
Proof. solve_decision. Defined.

(** [written f] is ghost state: what the finished [Write]s on [f] were given,
    in the order in which they held the mutex. *)
Record outputs := MkOutputs {
  limiter : outputLimiter;
  writer : fd -> limitedWriter;
  written : fd -> bytes }.

Definition update {A} (f : fd) (x : A) (g : fd -> A) (f' : fd) : A :=
  if decide (f' = f) then x else g f'.

Definition new_outputs (maxBytes : Z) : outputs :=
  MkOutputs (newOutputLimiter maxBytes) (fun _ => newLimitedWriter) (fun _ => []).

(** The atomic parts of [Write] on [f]. *)
Inductive step : outputs -> outputs -> Prop :=
  | step_lock f p o :
      locked (writer o f) = None -> overflowed (writer o f) = false ->
      step o (MkOutputs (limiter o)
                (update f (MkWriter (buf (writer o f)) false (Some (p, Reserving))) (writer o))
                (written o))
  | step_skip f p o :
      locked (writer o f) = None -> overflowed (writer o f) = true ->
      step o (MkOutputs (limiter o) (writer o) (update f (written o f ++ p) (written o)))
  | step_reserve f p o :
      locked (writer o f) = Some (p, Reserving) ->
      step o (MkOutputs (reserve (zlen p) (limiter o)).2
                (update f (MkWriter (buf (writer o f)) (overflowed (writer o f))
                             (Some (p, Buffering (reserve (zlen p) (limiter o)).1))) (writer o))
                (written o))
  | step_settle f p allowed o :
      locked (writer o f) = Some (p, Buffering allowed) ->
      step o (MkOutputs (settle p allowed (writer o f) (limiter o)).2
                (update f (settle p allowed (writer o f) (limiter o)).1 (writer o))
                (update f (written o f ++ p) (written o))).

Definition steps : outputs -> outputs -> Prop := rtc step.
