(* ===== verification/OutputSpec.v ===== *)
(** * Correctness of the shared output budget

    Invariants of [OutputLimiter.step] by induction over the interleaving of
    any number of concurrent [Write]s. *)

From S2P Require Import Prelude OutputLimiter.

(** Bytes reserved by a [Write] that has not yet stored them. *)
Definition in_flight (w : limitedWriter) : Z :=
  match locked w with Some (_, Buffering allowed) => allowed | _ => 0 end.

Definition over_fds (g : fd -> Z) : Z := g Stdout + g Stderr.

Record outputs_inv (n : Z) (o : outputs) : Prop := OutputsInv {
  inv_limit : limit (limiter o) = n;
  inv_bound : used (limiter o) <= n;
  inv_used : used (limiter o)
             = over_fds (fun f => zlen (buf (writer o f)) + in_flight (writer o f));
  inv_exact f : overflowed (writer o f) = false -> buf (writer o f) = written o f;
  inv_cut f : overflowed (writer o f) = true ->
    locked (writer o f) = None /\ used (limiter o) = n
    /\ exists rest, rest <> [] /\ written o f = buf (writer o f) ++ rest;
  inv_phase f p a : locked (writer o f) = Some (p, Buffering a) ->
    0 <= a <= zlen p /\ (a < zlen p -> used (limiter o) = n);
  inv_signal : ch_closed (limiter o)
               = overflowed (writer o Stdout) || overflowed (writer o Stderr) }.

Lemma update_same {A} f (x : A) g : update f x g f = x.
Proof. unfold update. by rewrite decide_True. Qed.

Lemma update_other {A} f f' (x : A) g : f' <> f -> update f x g f' = g f'.
Proof. intros. unfold update. by rewrite decide_False. Qed.

(** A sum over the two descriptors in which one term changes. *)
Lemma over_fds_update (h : limitedWriter -> Z) f w g :
  over_fds (fun f' => h (update f w g f')) = over_fds (fun f' => h (g f')) - h (g f) + h w.
Proof. unfold over_fds, update. destruct f; repeat case_decide; try done; lia. Qed.

Lemma reserve_spec n r l : limit l = n -> used l <= n -> 0 <= r ->
  let '(a, l') := reserve r l in
  limit l' = n /\ ch_closed l' = ch_closed l /\ used l' = used l + a /\ used l' <= n
  /\ 0 <= a <= r /\ (a < r -> used l' = n).
Proof.
  intros Hl Hu Hr. unfold reserve. case_test; simpl; rewrite ?Hl in *; repeat split; lia.
Qed.

Lemma inv_new n : 0 <= n -> outputs_inv n (new_outputs n).
Proof. intros. split; simpl; try done. Qed.

(** Case analysis on whether a descriptor is the one that changed. *)
Ltac by_fd f f' :=
  destruct (decide (f' = f)) as [-> | ?];
  [rewrite ?update_same in * | rewrite ?update_other in * by done]; simpl in *.

Lemma signal_update f b o w :
  overflowed w = b ->
  overflowed (update f w (writer o) Stdout) || overflowed (update f w (writer o) Stderr)
  = match f with
    | Stdout => b || overflowed (writer o Stderr)
    | Stderr => overflowed (writer o Stdout) || b
    end.
Proof. intros <-. unfold update. destruct f; repeat case_decide; done. Qed.

Lemma ztake_split {A} (a : Z) (p : list A) : 0 <= a < zlen p ->
  exists rest, rest <> [] /\ p = ztake a p ++ rest.
Proof.
  intros. exists (zdrop a p). rewrite ztake_zdrop by lia. split; [|done].
  intros E. apply (f_equal zlen) in E. rewrite zdrop_drop in E by lia.
  unfold zlen in *. rewrite length_drop in E. simpl in E. lia.
Qed.

Lemma stored_length (a : Z) (b p : bytes) : 0 <= a <= zlen p ->
  zlen (if 0 <? a then b ++ ztake a p else b) = zlen b + a.
Proof.
  intros. case_test; rewrite ?zlen_app, ?zlen_ztake by lia; lia.
Qed.

Lemma stored_whole (b p : bytes) : (if 0 <? zlen p then b ++ ztake (zlen p) p else b) = b ++ p.
Proof.
  pose proof (zlen_nonneg p). case_test; [by rewrite ztake_ge by lia|].
  destruct p; [by rewrite app_nil_r|]. rewrite zlen_cons in *. pose proof (zlen_nonneg p). lia.
Qed.

Lemma inv_lock n o f p : outputs_inv n o ->
  locked (writer o f) = None -> overflowed (writer o f) = false ->
  outputs_inv n (MkOutputs (limiter o)
    (update f (MkWriter (buf (writer o f)) false (Some (p, Reserving))) (writer o)) (written o)).
Proof.
  intros [H1 H2 H3 H4 H5 H6 H7] Hk Ho. split; simpl; try done.
  - rewrite (over_fds_update (fun w => zlen (buf w) + in_flight w)). unfold in_flight at 2 3.
    rewrite Hk. simpl. lia.
  - intros f'. by_fd f f'; [|auto]. intros _. by apply H4.
  - intros f'. by_fd f f'; [done | auto].
  - intros f' q a. by_fd f f'; [done | eauto].
  - rewrite (signal_update f false) by done. rewrite H7. by destruct f; rewrite Ho.
Qed.

Lemma inv_skip n o f p : outputs_inv n o ->
  locked (writer o f) = None -> overflowed (writer o f) = true ->
  outputs_inv n (MkOutputs (limiter o) (writer o) (update f (written o f ++ p) (written o))).
Proof.
  intros [H1 H2 H3 H4 H5 H6 H7] Hk Ho. split; simpl; try done.
  - intros f'. by_fd f f'; [congruence | auto].
  - intros f'. by_fd f f'; [|auto]. intros H.
    destruct (H5 _ H) as (? & ? & rest & Hne & ->). repeat split; try done.
    exists (rest ++ p). split; [|by rewrite app_assoc].
    intros [? ?]%app_eq_nil. done.
Qed.

Lemma inv_reserve n o f p : outputs_inv n o ->
  locked (writer o f) = Some (p, Reserving) ->
  outputs_inv n (MkOutputs (reserve (zlen p) (limiter o)).2
    (update f (MkWriter (buf (writer o f)) (overflowed (writer o f))
                 (Some (p, Buffering (reserve (zlen p) (limiter o)).1))) (writer o)) (written o)).
Proof.
  intros [H1 H2 H3 H4 H5 H6 H7] Hk.
  pose proof (reserve_spec n (zlen p) (limiter o) H1 H2 (zlen_nonneg p)) as R.
  destruct (reserve (zlen p) (limiter o)) as [a l']. simpl.
  destruct R as (R1 & R2 & R3 & R4 & R5 & R6). split; simpl; try done.
  - rewrite (over_fds_update (fun w => zlen (buf w) + in_flight w)). unfold in_flight at 2 3.
    rewrite Hk. simpl. lia.
  - intros f'. by_fd f f'; auto.
  - intros f'. by_fd f f'; intros H; destruct (H5 _ H) as (E & ? & ?); [congruence|].
    repeat split; auto. lia.
  - intros f' q b. by_fd f f'; [intros [= <- <-]; auto|].
    intros H. destruct (H6 _ _ _ H) as [? Hb]. split; [done|]. intros Hlt. specialize (Hb Hlt). lia.
  - rewrite (signal_update f (overflowed (writer o f))) by done.
    rewrite R2, H7. by destruct f.
Qed.

Lemma inv_settle n o f p a : outputs_inv n o ->
  locked (writer o f) = Some (p, Buffering a) ->
  outputs_inv n (MkOutputs (settle p a (writer o f) (limiter o)).2
    (update f (settle p a (writer o f) (limiter o)).1 (writer o))
    (update f (written o f ++ p) (written o))).
Proof.
  intros [H1 H2 H3 H4 H5 H6 H7] Hk. destruct (H6 _ _ _ Hk) as [Ha Hfull].
  assert (Ho : overflowed (writer o f) = false).
  { destruct (overflowed (writer o f)) eqn:E; [|done]. destruct (H5 _ E). congruence. }
  pose proof (stored_length a (buf (writer o f)) p Ha) as HL. specialize (H4 _ Ho) as Hb.
  assert (E1 : used (settle p a (writer o f) (limiter o)).2 = used (limiter o)
          /\ limit (settle p a (writer o f) (limiter o)).2 = n
          /\ zlen (buf (settle p a (writer o f) (limiter o)).1) = zlen (buf (writer o f)) + a
          /\ locked (settle p a (writer o f) (limiter o)).1 = None
          /\ overflowed (settle p a (writer o f) (limiter o)).1 = (a <? zlen p)
          /\ ch_closed (settle p a (writer o f) (limiter o)).2
             = ch_closed (limiter o) || (a <? zlen p)).
  { unfold settle. case_test; cbn [fst snd used limit ch_closed buf locked overflowed signal];
      rewrite ?Ho, ?orb_true_r, ?orb_false_r; repeat split; assumption || reflexivity. }
  destruct E1 as (E1 & E2 & E3 & E4 & E5 & E6). split; simpl; try done; [by rewrite E1 | ..].
  - rewrite (over_fds_update (fun w => zlen (buf w) + in_flight w)). unfold in_flight at 2 3.
    rewrite Hk, E4, E3, E1. lia.
  - intros f'. by_fd f f'; [|auto]. rewrite E5. intros Hlt%Z.ltb_ge. unfold settle.
    rewrite (proj2 (Z.ltb_ge _ _)) by lia. simpl. replace a with (zlen p) by lia.
    by rewrite stored_whole, Hb.
  - intros f'. by_fd f f'; intros H; [|destruct (H5 _ H) as (? & ? & ?); by rewrite E1].
    rewrite E5 in H. apply Z.ltb_lt in H. repeat split; [done | by rewrite E1; auto |].
    destruct (ztake_split a p ltac:(lia)) as (rest & Hne & Hp). exists rest. split; [done|].
    unfold settle. rewrite (proj2 (Z.ltb_lt _ _)) by lia. simpl. rewrite Hp at 1. rewrite <- Hb.
    case_test; [by rewrite app_assoc|]. replace a with 0 by lia.
    rewrite ztake_take by lia. done.
  - intros f' q b. by_fd f f'; [congruence|]. rewrite E1. eauto.
  - rewrite (signal_update f _ _ _ E5), E6, H7. destruct f; rewrite Ho, ?orb_false_r; [apply orb_comm | done].
Qed.

Lemma outputs_step_inv n o o' : outputs_inv n o -> step o o' -> outputs_inv n o'.
Proof.
  intros Hi Hs. destruct Hs;
    eauto using inv_lock, inv_skip, inv_reserve, inv_settle.
Qed.

Lemma steps_inv n o : 0 <= n -> steps (new_outputs n) o -> outputs_inv n o.
Proof.
  intros Hn Hs. pose proof (inv_new n Hn) as Hi.
  induction Hs; eauto using outputs_step_inv.
Qed.

(** No [Write] is in progress. *)
Definition quiescent (o : outputs) : Prop := forall f, locked (writer o f) = None.

Section Budget.
Context (n : Z) (o : outputs) (Hi : outputs_inv n o).

Definition kept : Z := over_fds (fun f => zlen (buf (writer o f))).
Definition total : Z := over_fds (fun f => zlen (written o f)).
Definition some_overflow : Prop := exists f, overflowed (writer o f) = true.

Lemma in_flight_nonneg f : 0 <= in_flight (writer o f).
Proof.
  unfold in_flight. destruct (locked (writer o f)) as [[p [|a]]|] eqn:E; try lia.
  destruct (inv_phase _ _ Hi _ _ _ E). lia.
Qed.

Lemma kept_bound : kept <= n.
Proof.
  pose proof (inv_bound _ _ Hi). pose proof (inv_used _ _ Hi) as Hu.
  pose proof (in_flight_nonneg Stdout). pose proof (in_flight_nonneg Stderr).
  unfold kept, over_fds in *. lia.
Qed.

Lemma buf_prefix f : buf (writer o f) `prefix_of` written o f.
Proof.
  destruct (overflowed (writer o f)) eqn:E; [|by rewrite (inv_exact _ _ Hi _ E)].
  destruct (inv_cut _ _ Hi _ E) as (_ & _ & rest & _ & ->). by apply prefix_app_r.
Qed.

Lemma buf_shorter f :
  zlen (buf (writer o f)) <= zlen (written o f)
  /\ (overflowed (writer o f) = true -> zlen (buf (writer o f)) < zlen (written o f)).
Proof.
  destruct (overflowed (writer o f)) eqn:E; [|by rewrite (inv_exact _ _ Hi _ E)].
  destruct (inv_cut _ _ Hi _ E) as (_ & _ & rest & Hne & ->). rewrite zlen_app.
  destruct rest; [done|]. rewrite zlen_cons. pose proof (zlen_nonneg rest). lia.
Qed.

Lemma signal_overflow : ch_closed (limiter o) = true <-> some_overflow.
Proof.
  rewrite (inv_signal _ _ Hi), orb_true_iff. unfold some_overflow.
  split; [intros [?|?]; eauto | intros [[] ?]; auto].
Qed.

Lemma overflow_full : quiescent o -> some_overflow -> kept = n.
Proof.
  intros Hq [f Hf]. destruct (inv_cut _ _ Hi _ Hf) as (_ & E & _).
  pose proof (inv_used _ _ Hi) as Hu. unfold kept, over_fds, in_flight in *.
  rewrite (Hq Stdout), (Hq Stderr) in Hu. lia.
Qed.

Lemma overflow_iff : quiescent o -> some_overflow <-> n < total.
Proof.
  intros Hq. pose proof kept_bound as Hb. unfold total, kept, over_fds in *.
  destruct (buf_shorter Stdout) as [? S1], (buf_shorter Stderr) as [? S2]. split.
  - intros Hx. pose proof (overflow_full Hq Hx) as Hk. unfold kept, over_fds in Hk.
    destruct Hx as [[] Hf]; [specialize (S1 Hf) | specialize (S2 Hf)]; lia.
  - intros Hlt. unfold some_overflow. destruct (overflowed (writer o Stdout)) eqn:E1; [eauto|].
    destruct (overflowed (writer o Stderr)) eqn:E2; [eauto|].
    rewrite <- (inv_exact _ _ Hi _ E1), <- (inv_exact _ _ Hi _ E2) in Hlt. lia.
Qed.
End Budget.

(** C24: for every interleaving of [Write]s on standard output and standard
    error with a budget of [n] bytes: the buffers never hold more than [n]
    bytes together; each is a prefix of what was written to it, all of it
    unless that writer overflowed; the overflow channel is closed exactly when
    a writer overflowed; and once no [Write] is in progress, a writer has
    overflowed exactly when more than [n] bytes were written, in which case
    exactly [n] of them are kept. *)
Theorem output_budget (n : Z) (o : outputs) :
  0 <= n -> steps (new_outputs n) o ->
  kept o <= n
  /\ (forall f, buf (writer o f) `prefix_of` written o f)
  /\ (forall f, overflowed (writer o f) = false -> buf (writer o f) = written o f)
  /\ (ch_closed (limiter o) = true <-> some_overflow o)
  /\ (quiescent o -> (some_overflow o <-> n < total o) /\ (some_overflow o -> kept o = n)).
Proof.
  intros Hn Hs. pose proof (steps_inv n o Hn Hs) as Hi.
  split; [by apply kept_bound|]. split; [by eapply buf_prefix|].
  split; [by apply (inv_exact _ _ Hi)|]. split; [by eapply signal_overflow|].
  intros Hq. split; [by apply overflow_iff | by apply overflow_full].
Qed.

(** [Write] is the composition of its atomic parts. *)
Lemma write_steps f p o :
  locked (writer o f) = None ->
  let '(_, w, l) := Write p (writer o f) (limiter o) in
  exists o', steps o o' /\ limiter o' = l /\ writer o' f = w
             /\ written o' f = written o f ++ p.
Proof.
  intros Hk. unfold Write. destruct (overflowed (writer o f)) eqn:Ho.
  - eexists; split; [apply rtc_once; by apply (step_skip f p)|]. simpl. by rewrite update_same.
  - pose proof (step_lock f p o Hk Ho) as S1.
    set (o1 := MkOutputs _ _ _) in S1.
    assert (W1 : writer o1 f = MkWriter (buf (writer o f)) false (Some (p, Reserving)))
      by apply update_same.
    assert (K1 : locked (writer o1 f) = Some (p, Reserving)) by by rewrite W1.
    pose proof (step_reserve f p o1 K1) as S2. set (o2 := MkOutputs _ _ _) in S2.
    destruct (reserve (zlen p) (limiter o)) as [a l] eqn:R.
    assert (W2 : writer o2 f = MkWriter (buf (writer o f)) false (Some (p, Buffering a))).
    { unfold o2. cbn [writer]. rewrite update_same, W1. simpl. by rewrite R. }
    assert (L2 : limiter o2 = l) by (unfold o2; simpl; by rewrite R).
    assert (K2 : locked (writer o2 f) = Some (p, Buffering a)) by by rewrite W2.
    pose proof (step_settle f p a o2 K2) as S3. set (o3 := MkOutputs _ _ _) in S3.
    assert (E : settle p a (writer o2 f) (limiter o2) = settle p a (writer o f) l).
    { rewrite W2, L2. unfold settle. simpl. by rewrite Ho. }
    destruct (settle p a (writer o f) l) as [w l'].
    exists o3. split; [eapply rtc_l, rtc_l, rtc_l, rtc_refl; eassumption|].
    unfold o3. cbn [limiter writer written]. by rewrite E, !update_same.
Qed.

(** [Write("abcd")] on standard output with a budget of three bytes. *)
Lemma output_budget_witness :
  exists o, steps (new_outputs 3) o /\ quiescent o
    /\ buf (writer o Stdout) = $"abc" /\ overflowed (writer o Stdout) = true
    /\ kept o = 3.
Proof.
  assert (S : exists o, steps (new_outputs 3) o /\ quiescent o
    /\ buf (writer o Stdout) = $"abc" /\ overflowed (writer o Stdout) = true).
  { eexists. split.
    - eapply rtc_l; [apply (step_lock Stdout ($"abcd")); reflexivity|].
      eapply rtc_l; [apply (step_reserve Stdout ($"abcd")); reflexivity|].
      eapply rtc_l; [apply (step_settle Stdout ($"abcd") 3); reflexivity|]. apply rtc_refl.
    - split; [by intros [] | split; reflexivity]. }
  destruct S as (o & S & Q & B & O). exists o. repeat split; try assumption.
  destruct (output_budget 3 o ltac:(lia) S) as (_ & _ & _ & _ & E).
  apply (E Q). by exists Stdout.
Defined.
