(* ===== verification/Sandbox.v ===== *)
(** * Watching one sandboxed task ([src/internal/sandbox])

    [metrics.go], [verdict.go], [sandbox.go] and the part of [containerd.go]
    that watches a task: the select loop over exit, CPU ticks, output limit,
    wall deadline and cancellation, stopping the task, draining its output, and
    the classification of the outcome.

    containerd is not under [src/]: what it answers to one execution is the
    record [TaskScript], over which every statement quantifies.  The ready
    channels of the select loop come as a list, in the order in which [select]
    picks them. *)

From S2P Require Import Prelude Text GoText OutputLimiter.

Definition bytesPerMiB : Z := 1024 * 1024.
Definition nanosPerMs : Z := 1000000.

(** ** [sandbox.go] *)

Record ResourceLimits := MkLimits {
  CPUTimeMs : Z; WallTimeMs : Z; LimitMemoryMB : Z; OutputBytes : Z }.

Definition memoryBytes (memoryMB : Z) : Z := swrap 64 (memoryMB * bytesPerMiB).

(** The deadline of the wall timer, a [time.Duration] in nanoseconds. *)
Definition wallDeadline (limits : ResourceLimits) : Z :=
  swrap 64 (WallTimeMs limits * nanosPerMs).

Inductive Verdict := VerdictUnknown | VerdictOK | VerdictTLE | VerdictMLE | VerdictOLE | VerdictRE.

#[export] Instance Verdict_eq_dec : EqDecision Verdict.
Proof. solve_decision. Defined.

Record ExecuteResult := MkExecuteResult {
  ExitCode : Z;
  ResStdout : bytes;
  ResStderr : bytes;
  ResCPUTimeMs : Z;
  ResMemoryMB : Z;
  ResVerdict : Verdict;
  ExtraInfo : bytes }.

(** ** [metrics.go] *)

Record cgroupMetrics := MkMetrics {
  cpuNanos : Z; peakMemBytes : Z; oomDetected : bool; oomKillDetected : bool }.

Definition no_metrics : cgroupMetrics := MkMetrics 0 0 false false.

Definition cpuMillis (m : cgroupMetrics) : Z := cpuNanos m / nanosPerMs.
Definition peakMemMB (m : cgroupMetrics) : Z := peakMemBytes m / bytesPerMiB.

(** The cgroup v2 statistics, all unsigned 64-bit; the three sections are
    pointers. *)
Record v2Metrics := MkV2 {
  CPU_UsageUsec : option Z;
  Memory_MaxUsage_Usage : option (Z * Z);
  MemoryEvents_Oom_OomKill : option (Z * Z) }.

(** What [task.Metrics] answers: an error, a response without data, or data
    that unmarshals or does not. *)
Inductive metrics_answer :=
  | MetricsError (err : GoError)
  | MetricsEmpty
  | MetricsData (data : GoError + v2Metrics).

Definition parseCgroupMetrics (data : GoError + v2Metrics) : GoError + cgroupMetrics :=
  match data with
  | inl err => inl (Errorf ($"unmarshal cgroup v2 metrics: %w") [AErr err])
  | inr v2 =>
      let cpu := match CPU_UsageUsec v2 with Some usec => uwrap 64 (usec * 1000) | None => 0 end in
      let mem := match Memory_MaxUsage_Usage v2 with Some (a, b) => Z.max a b | None => 0 end in
      let '(oom, kill) := match MemoryEvents_Oom_OomKill v2 with
                          | Some (o, k) => (0 <? o, 0 <? k) | None => (false, false) end in
      inr (MkMetrics cpu mem oom kill)
  end.

Definition collectMetrics (a : metrics_answer) : GoError + cgroupMetrics :=
  match a with
  | MetricsError err => inl (Errorf ($"read task metrics: %w") [AErr err])
  | MetricsEmpty => inl (errors_New ($"read task metrics: response contains no data"))
  | MetricsData data => parseCgroupMetrics data
  end.

(** ** [containerd.go]: waiting *)

(** The zero value, of a task that was not stopped, is [notStopped]. *)
Inductive stopReason := notStopped | stopCPUTime | stopWallTime | stopOutputLimit.

#[export] Instance stopReason_eq_dec : EqDecision stopReason.
Proof. solve_decision. Defined.

Definition stopReason_String (r : stopReason) : bytes :=
  match r with
  | stopCPUTime => $"CPU time limit exceeded"
  | stopWallTime => $"wall time limit exceeded"
  | stopOutputLimit => $"output limit exceeded"
  | notStopped => $"unknown"
  end.

(** What the exit channel delivers: [None] when it is closed; a status whose
    [Result] is an exit code ([uint32]) or an error. *)
Definition exit_status : Type := option (GoError + Z).

(** A ready case of the select statement; a tick comes with what the metrics
    read it triggers answers. *)
Inductive select_case :=
  | OnExit (status : exit_status)
  | OnTick (metrics : metrics_answer)
  | OnOutputLimit
  | OnWallDeadline
  | OnDone (err : GoError).

Inductive executionEvent :=
  | Exited (status : GoError + Z)
  | Stopped (reason : stopReason) (metrics : cgroupMetrics)
  | Failed (err : GoError).

(** [None] while no case has ended the loop. *)
Fixpoint waitForExecutionEvent (cpuTimeLimitMs : Z) (cases : list select_case)
  : option executionEvent :=
  match cases with
  | [] => None
  | OnExit None :: _ =>
      Some (Failed (errors_New ($"wait for task exit: exit channel closed without status")))
  | OnExit (Some status) :: _ => Some (Exited status)
  | OnTick a :: cases =>
      match collectMetrics a with
      | inl err => Some (Failed (Errorf ($"monitor CPU time: %w") [AErr err]))
      | inr metrics =>
          if cpuTimeLimitMs <=? cpuMillis metrics then Some (Stopped stopCPUTime metrics)
          else waitForExecutionEvent cpuTimeLimitMs cases
      end
  | OnOutputLimit :: _ => Some (Stopped stopOutputLimit no_metrics)
  | OnWallDeadline :: _ => Some (Stopped stopWallTime no_metrics)
  | OnDone err :: _ => Some (Failed (Errorf ($"execution canceled: %w") [AErr err]))
  end.

(** An operation of containerd: done, not found, or failed. *)
Inductive op_result := OpDone | OpNotFound (err : GoError) | OpError (err : GoError).

(** The select of [stopTask]: the exit channel or its own deadline. *)
Inductive after_kill := KilledExit (status : exit_status) | KillTimeout (err : GoError).

Definition stopTask (kill : op_result) (after : after_kill) : option GoError :=
  match kill with
  | OpError err => Some (Errorf ($"kill task: %w") [AErr err])
  | _ =>
      match after with
      | KilledExit None =>
          Some (errors_New ($"wait for task exit after kill: exit channel closed without status"))
      | KilledExit (Some (inl err)) | KillTimeout err =>
          Some (Errorf ($"wait for task exit after kill: %w") [AErr err])
      | KilledExit (Some (inr _)) => None
      end
  end.

Record executionOutcome := MkOutcome { exitCode : Z; reason : stopReason; metrics : cgroupMetrics }.

(** Everything containerd and the clock answer while one task is watched. *)
Record TaskScript := MkScript {
  start_task : option GoError;
  close_stdin : op_result;
  select_cases : list select_case;
  metrics_at_end : metrics_answer;
  kill_task : op_result;
  exit_after_kill : after_kill;
  drain_error : option GoError }.

Definition collect_cgroup (a : metrics_answer) : GoError + cgroupMetrics :=
  match collectMetrics a with
  | inl err => inl (Errorf ($"collect cgroup metrics: %w") [AErr err])
  | inr m => inr m
  end.

Definition waitForTask (s : TaskScript) (limits : ResourceLimits)
  : option (GoError + executionOutcome) :=
  match waitForExecutionEvent (CPUTimeMs limits) (select_cases s) with
  | None => None
  | Some (Exited (inl err)) => Some (inl (Errorf ($"read task exit result: %w") [AErr err]))
  | Some (Exited (inr code)) =>
      Some (match collect_cgroup (metrics_at_end s) with
            | inl err => inl err
            | inr m => inr (MkOutcome code notStopped m)
            end)
  | Some (Failed err) =>
      Some (match errors_Join [Some err; stopTask (kill_task s) (exit_after_kill s)] with
            | Some err => inl err
            | None => inr (MkOutcome 0 notStopped no_metrics)
            end)
  | Some (Stopped reason m) =>
      let '(event_err, m) :=
        if decide (reason = stopCPUTime) then (None, m)
        else match collect_cgroup (metrics_at_end s) with
             | inl err => (Some err, no_metrics)
             | inr m => (None, m)
             end in
      Some (match errors_Join [event_err; stopTask (kill_task s) (exit_after_kill s)] with
            | Some err => inl err
            | None => inr (MkOutcome 0 reason m)
            end)
  end.

Definition waitForOutput (s : TaskScript) : option GoError :=
  match drain_error s with
  | None => None
  | Some err => Some (Errorf ($"collect task output: %w") [AErr err])
  end.

(** ** [verdict.go] *)

Record executionOutput := MkOutput { stdout : bytes; stderr : bytes; output_overflowed : bool }.

Definition output_of (o : outputs) : executionOutput :=
  MkOutput (buf (writer o Stdout)) (buf (writer o Stderr))
           (overflowed (writer o Stdout) || overflowed (writer o Stderr)).

Definition buildVerdict (outcome : executionOutcome) (output : executionOutput)
    (limits : ResourceLimits) : ExecuteResult :=
  let cpuMs := cpuMillis (metrics outcome) in
  let peakMemMB := peakMemMB (metrics outcome) in
  let res := MkExecuteResult (exitCode outcome) (stdout output) (stderr output) cpuMs peakMemMB in
  if bool_decide (reason outcome = stopOutputLimit)
     || bool_decide (reason outcome = notStopped) && output_overflowed output
  then res VerdictOLE
         ($"output limit exceeded (" ++ Itoa (OutputBytes limits) ++ $" bytes max)")
  else if bool_decide (reason outcome = stopCPUTime) || bool_decide (reason outcome = stopWallTime)
  then res VerdictTLE
         (stopReason_String (reason outcome) ++ $" (cpu " ++ Itoa cpuMs ++ $"ms, cpu limit "
          ++ Itoa (CPUTimeMs limits) ++ $"ms, wall limit " ++ Itoa (WallTimeMs limits) ++ $"ms)")
  else if oomKillDetected (metrics outcome)
          || negb (exitCode outcome =? 0) && oomDetected (metrics outcome)
  then res VerdictMLE
         ($"memory limit exceeded (peak " ++ Itoa peakMemMB ++ $"MB, limit "
          ++ Itoa (LimitMemoryMB limits) ++ $"MB)")
  else if CPUTimeMs limits <=? cpuMs
  then res VerdictTLE
         ($"CPU time exceeded: " ++ Itoa cpuMs ++ $"ms >= " ++ Itoa (CPUTimeMs limits) ++ $"ms")
  else if exitCode outcome =? 0 then res VerdictOK []
  else res VerdictRE (stderr output).

(** [outputs] is the state of the two writers when the copiers are joined. *)
Definition watchExecution (s : TaskScript) (o : outputs) (limits : ResourceLimits)
  : option (GoError + ExecuteResult) :=
  match start_task s with
  | Some err => Some (inl (Errorf ($"start task: %w") [AErr err]))
  | None =>
      match waitForTask s limits with
      | None => None
      | Some (inl err) => Some (inl err)
      | Some (inr outcome) =>
          Some (match waitForOutput s with
                | Some err => inl err
                | None => inr (buildVerdict outcome (output_of o) limits)
                end)
      end
  end.
