(* ===== verification/SandboxSpec.v ===== *)
(** * What a sandbox verdict says about the execution

    The select loop ends at the first decisive case; each verdict of
    [watchExecution] is then justified by what the task, the clock and the
    output writers did. *)

From S2P Require Import Prelude GoText OutputLimiter OutputSpec Sandbox.

(** ** The select loop *)

(** The event a case ends the loop with; [None] for a tick below the limit. *)
Definition decisive (limit : Z) (c : select_case) : option executionEvent :=
  waitForExecutionEvent limit [c].

Lemma wait_cons limit c cases :
  waitForExecutionEvent limit (c :: cases)
  = match decisive limit c with
    | Some ev => Some ev
    | None => waitForExecutionEvent limit cases
    end.
Proof. unfold decisive. destruct c as [[]|a| | |]; simpl; try done. by repeat case_match. Qed.

(** The loop returns the event of its first decisive case. *)
Lemma wait_first limit cases ev :
  waitForExecutionEvent limit cases = Some ev <->
  exists before c after, cases = before ++ c :: after
    /\ Forall (fun c => decisive limit c = None) before /\ decisive limit c = Some ev.
Proof.
  induction cases as [|c cases IH].
  - split; [done|]. intros ([|??] & ? & ? & ? & _); done.
  - rewrite wait_cons. destruct (decisive limit c) as [ev'|] eqn:E.
    + split; [intros [= ->]; by exists [], c, cases|].
      intros ([|b before] & c' & after & [= -> ->] & F & H); [congruence|].
      apply Forall_inv in F. congruence.
    + rewrite IH. split.
      * intros (before & c' & after & -> & F & H). exists (c :: before), c', after.
        repeat split; [|done]. by constructor.
      * intros ([|b before] & c' & after & [= -> ->] & F & H); [congruence|].
        apply Forall_inv_tail in F. by exists before, c', after.
Qed.

Lemma decisive_exited limit c status :
  decisive limit c = Some (Exited status) -> c = OnExit (Some status).
Proof. unfold decisive. destruct c as [[]|a| | |]; simpl; try congruence. by repeat case_match. Qed.

Lemma decisive_stopped limit c r m :
  decisive limit c = Some (Stopped r m) ->
  match r with
  | notStopped => False
  | stopCPUTime => exists a, c = OnTick a /\ collectMetrics a = inr m /\ limit <= cpuMillis m
  | stopWallTime => c = OnWallDeadline
  | stopOutputLimit => c = OnOutputLimit
  end.
Proof.
  unfold decisive. destruct c as [[]|a| | |]; simpl; try congruence.
  - destruct (collectMetrics a) eqn:E; [congruence|]. case_test; [|congruence].
    intros [= <- <-]. eauto.
  - by intros [= <- <-].
  - by intros [= <- <-].
Qed.

Lemma errors_Join_None a b : errors_Join [a; b] = None <-> a = None /\ b = None.
Proof. destruct a, b; unfold errors_Join; simpl; split; (intros []; done) || done. Qed.

(** ** Outcomes *)

(** Why a task ended with [outcome]. *)
Definition justified (s : TaskScript) (limit : Z) (outcome : executionOutcome) : Prop :=
  match reason outcome with
  | notStopped =>
      OnExit (Some (inr (exitCode outcome))) ∈ select_cases s
      /\ collectMetrics (metrics_at_end s) = inr (metrics outcome)
  | stopCPUTime => exitCode outcome = 0 /\ limit <= cpuMillis (metrics outcome)
  | stopWallTime => exitCode outcome = 0 /\ OnWallDeadline ∈ select_cases s
  | stopOutputLimit => exitCode outcome = 0 /\ OnOutputLimit ∈ select_cases s
  end.

Lemma collect_cgroup_inr a m : collect_cgroup a = inr m <-> collectMetrics a = inr m.
Proof. unfold collect_cgroup. destruct (collectMetrics a); split; congruence. Qed.

Lemma waitForTask_justified s limits outcome :
  waitForTask s limits = Some (inr outcome) -> justified s (CPUTimeMs limits) outcome.
Proof.
  unfold waitForTask. destruct (waitForExecutionEvent _ _) as [ev|] eqn:E; [|done].
  apply wait_first in E as (before & c & after & Hc & _ & Hd).
  assert (Hin : c ∈ select_cases s) by (rewrite Hc; set_solver).
  destruct ev as [[err|code]|r m|err]; try done.
  - destruct (collect_cgroup _) as [err|m] eqn:Em; [done|]. intros [= <-].
    apply decisive_exited in Hd as ->. apply collect_cgroup_inr in Em. by split.
  - apply decisive_stopped in Hd. destruct (decide (r = stopCPUTime)) as [->|Hr].
    + destruct Hd as (a & -> & _ & Hle). destruct (errors_Join _); [done|]. intros [= <-].
      by split.
    + destruct (collect_cgroup _) as [err|m']; [done|].
      destruct (errors_Join _); [done|]. intros [= <-].
      destruct r; try done; subst c; by split.
Qed.

(** What the execution must have done for each verdict. *)
Definition verdict_means (s : TaskScript) (o : outputs) (limits : ResourceLimits)
    (r : ExecuteResult) : Prop :=
  let exited := OnExit (Some (inr (ExitCode r))) ∈ select_cases s in
  let complete := ResStdout r = written o Stdout /\ ResStderr r = written o Stderr
                  /\ zlen (ResStdout r) + zlen (ResStderr r) <= OutputBytes limits in
  let final m := collectMetrics (metrics_at_end s) = inr m /\ ResCPUTimeMs r = cpuMillis m
                 /\ ResMemoryMB r = peakMemMB m in
  match ResVerdict r with
  | VerdictUnknown => False
  | VerdictOK =>
      exited /\ ExitCode r = 0 /\ complete /\ ResCPUTimeMs r < CPUTimeMs limits
      /\ exists m, final m /\ oomKillDetected m = false
  | VerdictRE =>
      exited /\ ExitCode r <> 0 /\ complete /\ ResCPUTimeMs r < CPUTimeMs limits
      /\ (exists m, final m /\ oomKillDetected m = false /\ oomDetected m = false)
      /\ ExtraInfo r = ResStderr r
  | VerdictMLE =>
      exited /\ complete
      /\ exists m, final m /\ (oomKillDetected m = true \/ ExitCode r <> 0 /\ oomDetected m = true)
  | VerdictTLE =>
      CPUTimeMs limits <= ResCPUTimeMs r \/ ExitCode r = 0 /\ OnWallDeadline ∈ select_cases s
  | VerdictOLE =>
      OutputBytes limits < zlen (written o Stdout) + zlen (written o Stderr)
      \/ ExitCode r = 0 /\ OnOutputLimit ∈ select_cases s
  end.

Lemma output_complete n o : 0 <= n -> steps (new_outputs n) o -> quiescent o ->
  if output_overflowed (output_of o)
  then n < zlen (written o Stdout) + zlen (written o Stderr)
  else stdout (output_of o) = written o Stdout /\ stderr (output_of o) = written o Stderr
       /\ zlen (stdout (output_of o)) + zlen (stderr (output_of o)) <= n.
Proof.
  intros Hn Hs Hq. pose proof (steps_inv n o Hn Hs) as I. simpl.
  destruct (overflowed (writer o Stdout) || overflowed (writer o Stderr)) eqn:E.
  - apply (overflow_iff n o I Hq). apply orb_true_iff in E as [?|?]; unfold some_overflow; eauto.
  - apply orb_false_iff in E as [E1 E2].
    split; [by apply (inv_exact _ _ I)|]. split; [by apply (inv_exact _ _ I)|].
    apply (kept_bound n o I).
Qed.

Lemma buildVerdict_means s o limits outcome :
  0 <= OutputBytes limits -> steps (new_outputs (OutputBytes limits)) o -> quiescent o ->
  justified s (CPUTimeMs limits) outcome ->
  verdict_means s o limits (buildVerdict outcome (output_of o) limits).
Proof.
  intros Hn Hs Hq J. pose proof (output_complete _ _ Hn Hs Hq) as C. revert J C.
  generalize (output_of o) as out; intros out.
  unfold justified, buildVerdict, verdict_means.
  destruct (reason outcome) eqn:R; intros J C; decide_tests; simpl.
  - destruct J as [Jx Jm].
    destruct (output_overflowed out) eqn:O; simpl; [by left|].
    destruct (oomKillDetected (metrics outcome)) eqn:K; simpl; [by eauto 10|].
    destruct (Z.eqb_spec (exitCode outcome) 0) as [E0|E0]; simpl.
    + destruct (Z.leb_spec (CPUTimeMs limits) (cpuMillis (metrics outcome))); simpl; [by left|].
      repeat split; try done; try apply C. by exists (metrics outcome).
    + destruct (oomDetected (metrics outcome)) eqn:D; simpl; [by eauto 12|].
      destruct (Z.leb_spec (CPUTimeMs limits) (cpuMillis (metrics outcome))); simpl; [by left|].
      repeat split; try done; try apply C. by exists (metrics outcome).
  - left. apply J.
  - right. exact J.
  - right. exact J.
Qed.

Lemma watchExecution_means s o limits r :
  0 <= OutputBytes limits -> steps (new_outputs (OutputBytes limits)) o -> quiescent o ->
  watchExecution s o limits = Some (inr r) -> verdict_means s o limits r.
Proof.
  intros Hn Hs Hq. unfold watchExecution.
  destruct (start_task s); [done|].
  destruct (waitForTask s limits) as [[err|outcome]|] eqn:W; [done | | done].
  destruct (waitForOutput s); [done|]. intros [= <-].
  apply buildVerdict_means; [done.. |]. by apply waitForTask_justified.
Qed.

(** What a verdict comes with. *)
Lemma watched_diagnostic s o limits r : watchExecution s o limits = Some (inr r) ->
  match ResVerdict r with
  | VerdictUnknown => False
  | VerdictOK => ExitCode r = 0
  | VerdictRE => True
  | _ => ExtraInfo r <> []
  end.
Proof.
  unfold watchExecution. destruct (start_task s); [done|].
  destruct (waitForTask s limits) as [[|outcome]|]; [done| |done].
  destruct (waitForOutput s); [done|]. intros [= <-]. unfold buildVerdict.
  repeat match goal with |- context [if ?b then _ else _] => destruct b eqn:?; simpl; try done end.
  - destruct (reason outcome); done.
  - by apply Z.eqb_eq.
Qed.

(** C23: when the sandbox returns a verdict, the execution justifies it, for
    every behaviour of containerd, every order in which the channels become
    ready and every interleaving of the output copiers.  [OK]: the task exited
    by itself with code 0 below the CPU limit, was not killed for memory, and
    its output is complete and within the budget; [RuntimeError]: the same with
    another code; [MLE]: it exited and the cgroup reported the memory event;
    [TLE]: the CPU time measured reached the limit or the wall timer fired;
    [OLE]: more than the budget was written or the overflow was signalled. *)
Theorem watchExecution_sound (s : TaskScript) (o : outputs) (limits : ResourceLimits)
    (r : ExecuteResult) :
  0 <= OutputBytes limits -> steps (new_outputs (OutputBytes limits)) o -> quiescent o ->
  watchExecution s o limits = Some (inr r) ->
  verdict_means s o limits r.
Proof. apply watchExecution_means. Qed.

(** A task that ticks once below the limit and exits with code 0. *)
Definition sample_metrics (usec : Z) : metrics_answer :=
  MetricsData (inr (MkV2 (Some usec) (Some (3145728, 2097152)) (Some (0, 0)))).

Definition sample_script : TaskScript :=
  MkScript None OpDone [OnTick (sample_metrics 5000); OnExit (Some (inr 0)); OnWallDeadline]
           (sample_metrics 7000) OpDone (KilledExit None) None.

Lemma watchExecution_sound_witness :
  watchExecution sample_script (new_outputs 16) (MkLimits 1000 3000 64 16)
    = Some (inr (MkExecuteResult 0 [] [] 7 3 VerdictOK []))
  /\ verdict_means sample_script (new_outputs 16) (MkLimits 1000 3000 64 16)
       (MkExecuteResult 0 [] [] 7 3 VerdictOK []).
Proof.
  split; [reflexivity|]. apply watchExecution_sound;
    [discriminate | apply rtc_refl | by intros f | reflexivity].
Defined.
