(* ===== verification/Brackets.v ===== *)
(** * Deferred calls

    Go functions that take a resource, defer giving it back and go on leave a
    trace of what they took, did and gave back.  [with_resource] is that
    pattern; [bracketed] says that a trace gives back everything it took,
    innermost first. *)

From S2P Require Import Prelude GoText.

Section Brackets.
Context {R C : Type}.

(** [Note] is a call the trace also records. *)
Inductive action := Take (r : R) | Give (r : R) | Note (c : C).

Inductive bracketed : list action -> Prop :=
  | bracketed_nil : bracketed []
  | bracketed_note c trace : bracketed trace -> bracketed (Note c :: trace)
  | bracketed_wrap r trace : bracketed trace -> bracketed (Take r :: trace ++ [Give r]).

(** The resources a trace takes, outermost first, and the calls it records. *)
Definition taken (trace : list action) : list R :=
  omap (fun a => match a with Take r => Some r | _ => None end) trace.
Definition noted (trace : list action) : list C :=
  omap (fun a => match a with Note c => Some c | _ => None end) trace.

Lemma taken_wrap r trace : taken (Take r :: trace ++ [Give r]) = r :: taken trace.
Proof. unfold taken. simpl. by rewrite omap_app, app_nil_r. Qed.

Lemma noted_wrap r trace : noted (Take r :: trace ++ [Give r]) = noted trace.
Proof. unfold noted. simpl. by rewrite omap_app, app_nil_r. Qed.

(** [x, err := take(); if err != nil { return }; defer give(x)] around
    [body]; [None] when the body does not return. *)
Definition with_resource {A} (r : R) (err : option GoError)
    (body : option ((GoError + A) * list action)) : option ((GoError + A) * list action) :=
  match err with
  | Some e => Some (inl e, [])
  | None => match body with
            | None => None
            | Some (res, trace) => Some (res, Take r :: trace ++ [Give r])
            end
  end.

(** Either the resource was not available, or the body ran between taking it
    and giving it back. *)
Lemma with_resource_ran {A} r err (body : option ((GoError + A) * list action)) res trace :
  with_resource r err body = Some (res, trace) ->
  (trace = [] /\ exists e, err = Some e /\ res = inl e)
  \/ exists inner, body = Some (res, inner) /\ taken trace = r :: taken inner
                  /\ noted trace = noted inner /\ (bracketed inner -> bracketed trace).
Proof.
  unfold with_resource. destruct err as [e|]; [intros [= <- <-]; eauto|].
  destruct body as [[res' inner]|]; [|done]. intros [= <- <-]. right. exists inner.
  split; [done|]. split; [apply taken_wrap|]. split; [apply noted_wrap | apply bracketed_wrap].
Qed.
End Brackets.

Arguments action : clear implicits.
#[export] Hint Constructors bracketed : judge.
