(* ===== verification/Container.v ===== *)
(** * Running one command in a container ([src/internal/sandbox])

    [cpu_pool.go], [spec.go] and [Execute] of [containerd.go].  The pool of
    CPUs is a buffered channel shared by all executions; [pool_step] is what
    any number of concurrent executions do to it.  [executeInContainer] returns
    the trace of the resources it takes and gives back, its deferred calls
    included. *)

From S2P Require Import Prelude Text GoText OutputLimiter Sandbox Brackets.

(** ** [cpu_pool.go] *)

(** A channel of capacity [cap] that buffers [ids]. *)
Record cpuPool := MkPool { cap : Z; ids : list Z }.

Definition newCPUPoolFromIDs (cpus : list Z) : GoError + cpuPool :=
  if zlen cpus =? 0 then inl (errors_New ($"cpu affinity contains no available CPUs"))
  else inr (MkPool (zlen cpus) cpus).

(** [unix.CPUSet] is its [Count] and its [IsSet]; the loop runs until [count]
    members are found. *)
Fixpoint affinity_loop (fuel count : nat) (isSet : Z -> bool) (cpuID : Z) (cpus : list Z)
  : option (list Z) :=
  if Nat.ltb (length cpus) count then
    match fuel with
    | O => None
    | S fuel => affinity_loop fuel count isSet (cpuID + 1)
                  (if isSet cpuID then cpus ++ [cpuID] else cpus)
    end
  else Some cpus.

Definition cpuIDsFromAffinity (fuel count : nat) (isSet : Z -> bool) : option (list Z) :=
  affinity_loop fuel count isSet 0 [].

(** The receive of [acquire]; [None] while the channel is empty. *)
Definition receive (p : cpuPool) : option (Z * cpuPool) :=
  match ids p with
  | [] => None
  | cpuID :: rest => Some (cpuID, MkPool (cap p) rest)
  end.

(** The send of [release]; [None] while the buffer is full. *)
Definition release (cpuID : Z) (p : cpuPool) : option cpuPool :=
  if zlen (ids p) <? cap p then Some (MkPool (cap p) (ids p ++ [cpuID])) else None.

(** The pool and the CPUs that executions hold, by execution. *)
Record pool_state := MkPoolState { pool : cpuPool; held : gmap nat Z }.

Inductive pool_step : pool_state -> pool_state -> Prop :=
  | pool_acquire g cpuID p st :
      held st !! g = None -> receive (pool st) = Some (cpuID, p) ->
      pool_step st (MkPoolState p (<[g := cpuID]> (held st)))
  | pool_release g cpuID p st :
      held st !! g = Some cpuID -> release cpuID (pool st) = Some p ->
      pool_step st (MkPoolState p (delete g (held st))).

(** ** [spec.go] *)

Record Mount := MkMount { HostPath : bytes; ContainerPath : bytes; ReadOnly : bool }.

Record ExecuteRequest := MkExecuteRequest {
  ImageRef : bytes;
  Command : list bytes;
  MountDir : option Mount;
  Stdin : bytes;
  Limits : ResourceLimits;
  EnableSeccomp : bool }.

Definition pidsLimit : Z := 128.

Record specMount := MkSpecMount {
  Destination : bytes; MountType : bytes; Source : bytes; MountOptions : list bytes }.

Inductive SpecOpt :=
  | WithImageConfig
  | WithProcessArgs (args : list bytes)
  | WithMounts (m : list specMount)
  | WithProcessCwd (path : bytes)
  | WithMemoryLimit (bytes : Z)
  | WithMemorySwap (bytes : Z)
  | WithRootFSReadonly
  | WithCPUs (cpus : bytes)
  | WithCapabilities (caps : list bytes)
  | WithNoNewPrivileges
  | WithPidsLimit (n : Z)
  | WithSeccompErrno (syscalls : list bytes).

Definition mountSpecOpts (mount : option Mount) : list SpecOpt :=
  match mount with
  | None => []
  | Some m =>
      [ WithMounts [MkSpecMount (ContainerPath m) ($"bind") (HostPath m)
                      ($"rbind" :: if ReadOnly m then [$"ro"] else [])];
        WithProcessCwd (ContainerPath m) ]
  end.

Definition blockedSyscalls : list bytes :=
  [ $"socket"; $"bind"; $"listen"; $"connect"; $"accept"; $"accept4"; $"sendto"; $"recvfrom";
    $"sendmsg"; $"recvmsg"; $"fork"; $"vfork"; $"ptrace"; $"mount"; $"umount2"; $"reboot" ].

Definition sandboxSecurityOpts (enableSeccomp : bool) (cpuID : Z) : list SpecOpt :=
  [ WithRootFSReadonly;
    WithMounts [MkSpecMount ($"/tmp") ($"tmpfs") ($"tmpfs") [$"nosuid"; $"nodev"]];
    WithCPUs (Itoa cpuID);
    WithCapabilities [];
    WithNoNewPrivileges;
    WithPidsLimit pidsLimit ]
  ++ (if enableSeccomp then [WithSeccompErrno blockedSyscalls] else []).

Definition sandboxSpecOpts (req : ExecuteRequest) (cpuID : Z) : list SpecOpt :=
  let memoryLimitBytes := memoryBytes (LimitMemoryMB (Limits req)) in
  mountSpecOpts (MountDir req)
  ++ [WithMemoryLimit (uwrap 64 memoryLimitBytes); WithMemorySwap memoryLimitBytes]
  ++ sandboxSecurityOpts (EnableSeccomp req) cpuID.

(** ** [Execute] *)

(** [client.GetImage]: the image, not found, or another error. *)
Inductive image_answer := ImageFound | ImageMissing | ImageError (err : GoError).

(** What containerd answers to one [Execute], and the state of the output
    writers when it is read.  What it answers to the deferred deletions is only
    logged. *)
Record ContainerScript := MkContainerScript {
  connect : option GoError;
  get_image : image_answer;
  pull_image : option GoError;
  cpu_or_done : GoError + Z;
  new_container : option GoError;
  new_task : option GoError;
  setup_wait : option GoError;
  task_script : TaskScript;
  task_outputs : outputs }.

(** The resources of the host. *)
Inductive resource := Client | CPU (id : Z) | Container (opts : list SpecOpt) | Task | Waiter.

(** A step that returns to its caller: its result and its trace; [None] when
    it does not return. *)
Abbreviation ran A := (option ((GoError + A) * list (action resource Empty_set))).

(** [fmt.Errorf(format, err)] of the error, if there is one. *)
Definition wrap (format : bytes) (err : option GoError) : option GoError :=
  (fun e => Errorf format [AErr e]) <$> err.

Definition ensureImage (s : ContainerScript) (imageRef : bytes) : option GoError :=
  match get_image s with
  | ImageFound => None
  | ImageError err => Some (Errorf ($"get image %q: %w") [AQuote imageRef; AErr err])
  | ImageMissing =>
      (fun err => Errorf ($"pull image %q: %w") [AQuote imageRef; AErr err]) <$> pull_image s
  end.

Definition containerOpts (req : ExecuteRequest) (cpuID : Z) : list SpecOpt :=
  [WithImageConfig; WithProcessArgs (Command req)] ++ sandboxSpecOpts req cpuID.

(** [task.Wait] and [watchExecution]. *)
Definition watched (s : ContainerScript) (req : ExecuteRequest) : ran ExecuteResult :=
  match wrap ($"setup wait: %w") (setup_wait s) with
  | Some err => Some (inl err, [])
  | None =>
      match watchExecution (task_script s) (task_outputs s) (Limits req) with
      | None => None
      | Some res => Some (res, [])
      end
  end.

Definition executeInContainer (s : ContainerScript) (req : ExecuteRequest) : ran ExecuteResult :=
  match cpu_or_done s with
  | inl err => Some (inl (Errorf ($"acquire CPU: %w") [AErr err]), [])
  | inr cpuID =>
      with_resource (CPU cpuID) None
        (with_resource (Container (containerOpts req cpuID))
           (wrap ($"create container: %w") (new_container s))
           (with_resource Task (wrap ($"create task: %w") (new_task s))
              (with_resource Waiter None (watched s req))))
  end.

Definition Execute (s : ContainerScript) (req : ExecuteRequest) : ran ExecuteResult :=
  with_resource Client (wrap ($"connect to containerd: %w") (connect s))
    (match ensureImage s (ImageRef req) with
     | Some err => Some (inl (Errorf ($"ensure image %q: %w") [AQuote (ImageRef req); AErr err]), [])
     | None => executeInContainer s req
     end).
