(* ===== verification/ContainerSpec.v ===== *)
(** * The CPU pool and the resources of an execution

    No CPU is lent twice and no release blocks; every resource that [Execute]
    takes is given back, in the reverse order, on every path. *)

From S2P Require Import Prelude GoText OutputLimiter OutputSpec Sandbox SandboxSpec Brackets Container.

(** ** The affinity mask *)

Definition members (isSet : Z -> bool) (lo : Z) (n : nat) : list Z :=
  filter (fun i => isSet i = true) (seqZ lo (Z.of_nat n)).

Lemma members_cons isSet lo n :
  members isSet lo (S n)
  = (if isSet lo then [lo] else []) ++ members isSet (lo + 1) n.
Proof.
  unfold members. rewrite seqZ_cons by lia. simpl.
  replace (Z.pred (Z.of_nat (S n))) with (Z.of_nat n) by lia. rewrite <- Z.add_1_r.
  rewrite filter_cons. by destruct (isSet lo).
Qed.

Lemma affinity_loop_members isSet fuel : forall lo acc n,
  (n <= fuel)%nat ->
  affinity_loop fuel (length acc + length (members isSet lo n)) isSet lo acc
  = Some (acc ++ members isSet lo n).
Proof.
  induction fuel as [|fuel IH]; intros lo acc n Hn.
  - replace n with 0%nat by lia. simpl. rewrite Nat.add_0_r, Nat.ltb_irrefl, app_nil_r. done.
  - simpl. destruct (members isSet lo n) as [|c rest] eqn:E.
    + simpl. by rewrite Nat.add_0_r, Nat.ltb_irrefl, app_nil_r.
    + rewrite (proj2 (Nat.ltb_lt _ _)) by (simpl; lia).
      destruct n as [|n]; [done|]. rewrite members_cons in E. rewrite <- E.
      destruct (isSet lo).
      * specialize (IH (lo + 1) (acc ++ [lo]) n ltac:(lia)).
        rewrite <- app_assoc, length_app in IH. simpl in IH |- *.
        by replace (length acc + S (length (members isSet (lo + 1) n)))%nat
          with (length acc + 1 + length (members isSet (lo + 1) n))%nat by lia.
      * apply IH. lia.
Qed.

(** When [Count] is the number of CPUs set below [n], the loop ends and
    returns those CPUs in order. *)
Lemma cpuIDs_members isSet n :
  cpuIDsFromAffinity n (length (members isSet 0 n)) isSet = Some (members isSet 0 n).
Proof. apply (affinity_loop_members isSet n 0 [] n). lia. Qed.

Lemma members_NoDup isSet lo n : NoDup (members isSet lo n).
Proof. apply list.NoDup_filter, NoDup_seqZ. Qed.

(** ** The pool *)

Definition held_ids (st : pool_state) : list Z := (map_to_list (held st)).*2.

Record pool_inv (cpus : list Z) (st : pool_state) : Prop := PoolInv {
  pool_cap : cap (pool st) = zlen cpus;
  pool_perm : ids (pool st) ++ held_ids st ≡ₚ cpus }.

Lemma held_insert st g c p : held st !! g = None ->
  held_ids (MkPoolState p (<[g := c]> (held st))) ≡ₚ c :: held_ids st.
Proof. intros H. unfold held_ids. simpl. by rewrite map_to_list_insert. Qed.

Lemma held_delete st g c : held st !! g = Some c ->
  held_ids st ≡ₚ c :: held_ids (MkPoolState (pool st) (delete g (held st))).
Proof. intros H. unfold held_ids. simpl. by rewrite <- (map_to_list_delete _ _ _ H). Qed.

Lemma pool_step_inv cpus st st' : pool_inv cpus st -> pool_step st st' -> pool_inv cpus st'.
Proof.
  intros [Hc Hp] Hs. destruct Hs as [g c p st Hg Hr | g c p st Hg Hr].
  - unfold receive in Hr. destruct (ids (pool st)) as [|c' rest] eqn:E; [done|].
    injection Hr as <- <-. split; [done|]. rewrite held_insert by done. simpl in *.
    rewrite <- Hp. by rewrite <- Permutation_middle.
  - unfold release in Hr. destruct (zlen (ids (pool st)) <? cap (pool st)) eqn:E; [|done].
    injection Hr as <-. split; [done|]. rewrite <- Hp. simpl.
    rewrite (held_delete st g c Hg). by rewrite <- app_assoc.
Qed.

Lemma pool_reachable cpus p st : newCPUPoolFromIDs cpus = inr p ->
  rtc pool_step (MkPoolState p ∅) st -> pool_inv cpus st.
Proof.
  unfold newCPUPoolFromIDs. case_test; [done|]. intros [= <-] Hs.
  assert (I : pool_inv cpus (MkPoolState (MkPool (zlen cpus) cpus) ∅)).
  { split; [done|]. unfold held_ids. simpl. by rewrite map_to_list_empty, app_nil_r. }
  induction Hs; eauto using pool_step_inv.
Qed.

Lemma held_lookup st g c : held st !! g = Some c -> c ∈ held_ids st.
Proof.
  intros H. unfold held_ids. apply list_elem_of_fmap. exists (g, c). split; [done|].
  by apply elem_of_map_to_list.
Qed.

Lemma held_distinct st g1 g2 c : NoDup (held_ids st) ->
  held st !! g1 = Some c -> held st !! g2 = Some c -> g1 = g2.
Proof.
  intros N H1 H2. destruct (decide (g1 = g2)) as [|Hne]; [done|]. exfalso.
  rewrite (held_delete st g1 c H1) in N. apply list.NoDup_cons in N as [N _]. apply N.
  apply (held_lookup _ g2). simpl. by rewrite lookup_delete_ne.
Qed.

(** C25: for every interleaving of acquisitions and releases by any number of
    executions, the CPUs in the pool and those lent are together the CPUs of
    the affinity mask, each once: no CPU is lent to two executions, a lent CPU
    is not in the pool, an execution that holds a CPU can release it without
    blocking, and a receive blocks only while all CPUs are lent. *)
Theorem cpu_pool_exclusive (isSet : Z -> bool) (n : nat) (cpus : list Z) (p : cpuPool)
    (st : pool_state) :
  cpuIDsFromAffinity n (length (members isSet 0 n)) isSet = Some cpus ->
  newCPUPoolFromIDs cpus = inr p -> rtc pool_step (MkPoolState p ∅) st ->
  ids (pool st) ++ held_ids st ≡ₚ cpus
  /\ (forall c, (c ∈ cpus) <-> (0 <= c < Z.of_nat n) /\ isSet c = true)
  /\ (forall g1 g2 c, held st !! g1 = Some c -> held st !! g2 = Some c -> g1 = g2)
  /\ (forall g c, held st !! g = Some c ->
        (c ∉ ids (pool st)) /\ exists p', release c (pool st) = Some p')
  /\ (receive (pool st) = None -> held_ids st ≡ₚ cpus).
Proof.
  intros Ha Hn Hs. rewrite cpuIDs_members in Ha. injection Ha as <-.
  destruct (pool_reachable _ p st Hn Hs) as [Hc Hp].
  pose proof (members_NoDup isSet 0 n) as N. rewrite <- Hp in N.
  apply list.NoDup_app in N as (N1 & N2 & N3).
  split; [done|]. split; [|split; [|split]].
  - intros c. unfold members. rewrite list_elem_of_filter, elem_of_seqZ. split; intros [? ?]; split;
      done || lia.
  - intros g1 g2 c. by apply held_distinct.
  - intros g c Hg. pose proof (held_lookup _ _ _ Hg) as Hin. split; [by intros ?; apply (N2 c)|].
    unfold release. apply Permutation_length in Hp. rewrite length_app in Hp.
    assert (length (held_ids st) <> 0%nat) by (destruct (held_ids st); [by apply not_elem_of_nil in Hin | done]).
    rewrite (proj2 (Z.ltb_lt _ _)) by (unfold zlen in *; lia). eauto.
  - unfold receive. destruct (ids (pool st)); [|done]. intros _. done.
Qed.

Lemma cpu_pool_exclusive_witness :
  let isSet i := (i =? 1) || (i =? 3) in
  let st := MkPoolState (MkPool 2 [3]) (<[7%nat := 1]> ∅) in
  cpuIDsFromAffinity 4 2 isSet = Some [1; 3]
  /\ rtc pool_step (MkPoolState (MkPool 2 [1; 3]) ∅) st
  /\ exists p', release 1 (pool st) = Some p'.
Proof.
  intros isSet st.
  assert (S : rtc pool_step (MkPoolState (MkPool 2 [1; 3]) ∅) st).
  { apply rtc_once, pool_acquire; reflexivity. }
  split; [reflexivity|]. split; [exact S|].
  destruct (cpu_pool_exclusive isSet 4 [1; 3] (MkPool 2 [1; 3]) st eq_refl eq_refl S)
    as (_ & _ & _ & R & _).
  apply (R 7%nat 1). reflexivity.
Defined.

(** ** Traces *)

Lemma watched_ran s req res trace :
  watched s req = Some (res, trace) ->
  trace = [] /\ forall r, res = inr r ->
    watchExecution (task_script s) (task_outputs s) (Limits req) = Some (inr r).
Proof.
  unfold watched. destruct (wrap _ _); [by intros [= <- <-]|].
  destruct (watchExecution _ _ _) as [w|]; [|done]. intros [= <- <-]. split; [done|]. by intros r ->.
Qed.

(** What a trace of [executeInContainer] takes: a prefix of the four resources
    below, all of them when it succeeds. *)
Definition resources_of (req : ExecuteRequest) (cpu : Z) : list resource :=
  [CPU cpu; Container (containerOpts req cpu); Task; Waiter].

Lemma executeInContainer_ran s req res trace :
  executeInContainer s req = Some (res, trace) ->
  bracketed trace
  /\ (exists cpu, taken trace `prefix_of` resources_of req cpu)
  /\ (forall r, res = inr r ->
        watchExecution (task_script s) (task_outputs s) (Limits req) = Some (inr r)
        /\ exists cpu, taken trace = resources_of req cpu).
Proof.
  assert (B : bracketed (@nil (action resource Empty_set))) by constructor.
  unfold executeInContainer. destruct (cpu_or_done s) as [err|cpu].
  { intros [= <- <-]. repeat split; try done. exists 0. apply prefix_nil. }
  intros [[-> (e & _ & ->)] | (t1 & [[-> (e & _ & ->)] | (t2 & [[-> (e & _ & ->)] | (t3 & [[-> (e & _ & ->)] |
    (t4 & [-> Hw]%watched_ran & T4 & _ & B4)]%with_resource_ran & T3 & _ & B3)]%with_resource_ran
    & T2 & _ & B2)]%with_resource_ran & T1 & _ & B1)]%with_resource_ran.
  all: split; [by auto|]; rewrite ?T1, ?T2, ?T3, ?T4; split;
    [exists cpu; by eexists | try done].
  intros r Hr. split; [by apply Hw | by exists cpu].
Qed.

(** A result is the one that was watched. *)
Lemma Execute_ran s req res trace : Execute s req = Some (res, trace) ->
  bracketed trace
  /\ (exists cpu, taken trace `prefix_of` Client :: resources_of req cpu)
  /\ (forall r, res = inr r ->
        watchExecution (task_script s) (task_outputs s) (Limits req) = Some (inr r)
        /\ exists cpu, taken trace = Client :: resources_of req cpu).
Proof.
  unfold Execute. intros [[-> (e & _ & ->)] | (inner & H & T & _ & B)]%with_resource_ran.
  { split; [constructor|]. split; [exists 0; apply prefix_nil | done]. }
  rewrite T. destruct (ensureImage s (ImageRef req)) as [err|].
  { injection H as <- <-. split; [apply B; constructor|].
    split; [exists 0; by eexists | done]. }
  destruct (executeInContainer_ran s req res inner H) as (Hb & (cpu & Hp) & Hr).
  split; [by apply B|]. split; [exists cpu; by apply prefix_cons|].
  intros r E. destruct (Hr r E) as (? & c & ->). eauto.
Qed.

Lemma Execute_watched s req r trace : Execute s req = Some (inr r, trace) ->
  watchExecution (task_script s) (task_outputs s) (Limits req) = Some (inr r).
Proof. intros E. by apply Execute_ran in E as (_ & _ & Hr); apply Hr. Qed.

(** C29: [Execute], whatever containerd answers and wherever it fails, gives
    back everything it took, innermost first: the client, the CPU, the
    container, the task and the waiter.  A container is only created with the
    options of [sandboxSpecOpts] pinned to the CPU it holds, and a result is
    the one [watchExecution] computed inside all five brackets. *)
Theorem execute_releases (s : ContainerScript) (req : ExecuteRequest)
    (res : GoError + ExecuteResult) (trace : list (action resource Empty_set)) :
  Execute s req = Some (res, trace) ->
  bracketed trace
  /\ (exists cpu, taken trace `prefix_of` Client :: resources_of req cpu)
  /\ (forall r, res = inr r ->
        watchExecution (task_script s) (task_outputs s) (Limits req) = Some (inr r)
        /\ exists cpu, taken trace = Client :: resources_of req cpu).
Proof. apply Execute_ran. Qed.

Definition sample_request : ExecuteRequest :=
  MkExecuteRequest ($"debian") [$"./program"] (Some (MkMount ($"/tmp/w") ($"/sandbox") true)) []
    (MkLimits 1000 3000 64 16) true.

Definition sample_container (wait : option GoError) : ContainerScript :=
  MkContainerScript None ImageMissing None (inr 3) None None wait sample_script (new_outputs 16).

Lemma execute_releases_witness :
  exists trace, Execute (sample_container (Some (errors_New ($"gone")))) sample_request
    = Some (inl (Errorf ($"setup wait: %w") [AErr (errors_New ($"gone"))]), trace)
  /\ bracketed trace /\ taken trace = Client :: resources_of sample_request 3.
Proof.
  eexists. split; [reflexivity|].
  split; [eapply (execute_releases (sample_container (Some (errors_New ($"gone")))) sample_request);
          reflexivity | reflexivity].
Defined.
