(* ===== verification/Execution.v ===== *)
(** * Compiling and running in workspaces ([src/internal/execution])

    [execution.go] and [workspace.go].  A workspace is the contents of a
    temporary directory; the directory, the semaphore and the sandbox belong to
    the host, whose answers to one [execute] are the record [HostScript].  The
    trace records the slot and the workspace that are taken and given back, and
    the request submitted to the sandbox with the directory it sees. *)

From S2P Require Import Prelude Text GoText Model OutputLimiter Sandbox Brackets Container.

(** ** Data *)

Record Artifact := MkArtifact { ArtName : bytes; ArtData : bytes; ArtMode : Z }.
Record File := MkFile { FileName : bytes; Content : bytes; FileMode : Z }.

Record CompileRequest := MkCompileRequest {
  CFiles : list File; CImageRef : bytes; CCommand : list bytes; ArtifactName : bytes;
  CLimits : ResourceLimits }.

Record CompileOutput := MkCompileOutput { CLog : bytes; CArtifact : option Artifact }.

Record RunRequest := MkRunRequest {
  RArtifact : Artifact; RFiles : list File; RImageRef : bytes; RCommand : list bytes;
  RStdin : bytes; RLimits : ResourceLimits }.

Record RunResult := MkRunResult {
  RVerdict : Model.Verdict;
  RExitCode : Z;
  RStdout : bytes;
  RStderr : bytes;
  RCPUTimeMs : Z;
  RMemoryMB : Z;
  RExtraInfo : bytes }.

Definition WallTimeMultiplier : Z := 3.
Definition DefaultRunOutputLimitBytes : Z := 16 * 1024 * 1024.
Definition DefaultCompileOutputLimitBytes : Z := 1 * 1024 * 1024.
Definition maxCompileArtifactBytes : Z := 64 * 1024 * 1024.

(** The interface the services use; [S] is whatever the implementation and
    the host remember between calls. *)
Class Executor (S : Type) := {
  Compile : CompileRequest -> S -> (GoError + CompileOutput) * S;
  Run : RunRequest -> S -> (GoError + RunResult) * S }.

Record task := MkTask {
  t_files : list File;
  t_imageRef : bytes;
  t_command : list bytes;
  t_mountPath : bytes;
  t_readOnlyMount : bool;
  t_stdin : bytes;
  t_limits : ResourceLimits;
  t_enableSeccomp : bool;
  t_artifactName : bytes }.

Record taskResult := MkTaskResult { run_result : RunResult; compile : CompileOutput }.

(** ** [workspace.go] *)

(** An entry of the directory; [e_mode] is its [os.FileMode]. *)
Record entry := MkEntry { e_data : bytes; e_mode : Z; e_regular : bool }.
Abbreviation dir := (gmap bytes entry).

(** The answers of the host to one [execute]; [stat] also fails on a name
    that does not exist. *)
Record HostScript := MkHost {
  acquire_slot : option GoError;
  make_dir : option GoError;
  open_root : option GoError;
  remove_dir : option GoError;
  dir_name : bytes;
  write_error : bytes -> option GoError;
  run_sandbox : ExecuteRequest -> dir -> (GoError + ExecuteResult) * dir;
  stat_fails : bytes -> bool;
  stat_error : bytes -> GoError;
  read_error : bytes -> option GoError;
  clean_up : option GoError;
  umask : Z }.

Definition newWorkspace (h : HostScript) : option GoError :=
  match make_dir h with
  | Some err => Some (Errorf ($"create workspace: %w") [AErr err])
  | None =>
      match open_root h with
      | Some err =>
          (fun e => Errorf ($"open workspace root: %w") [AErr e])
            <$> errors_Join [Some err; remove_dir h]
      | None => None
      end
  end.

(** [os.Root.WriteFile]: a new file gets the mode under the umask, a file that
    exists keeps its own. *)
Definition write_entry (h : HostScript) (name data : bytes) (mode : Z) (d : dir) : dir :=
  <[name := MkEntry data (match d !! name with
                          | Some e => e_mode e
                          | None => Z.ldiff mode (umask h)
                          end) true]> d.

Fixpoint writeFiles (h : HostScript) (files : list File) (d : dir) : GoError + dir :=
  match files with
  | [] => inr d
  | f :: files =>
      let fileMode := if FileMode f =? 0 then 420 else FileMode f in
      match write_error h (FileName f) with
      | Some err => inl (Errorf ($"write file %q: %w") [AQuote (FileName f); AErr err])
      | None => writeFiles h files (write_entry h (FileName f) (Content f) fileMode d)
      end
  end.

Definition cleanup (h : HostScript) : option GoError := wrap ($"cleanup workspace: %w") (clean_up h).

(** ** [execution.go] *)

(** [FileMode.Perm]. *)
Definition Perm (mode : Z) : Z := Z.land mode 511.

Definition sandboxVerdictToModel (v : Sandbox.Verdict) : Model.Verdict :=
  match v with
  | Sandbox.VerdictOK => Model.VerdictOK
  | Sandbox.VerdictTLE => Model.VerdictTLE
  | Sandbox.VerdictMLE => Model.VerdictMLE
  | Sandbox.VerdictOLE => Model.VerdictOLE
  | Sandbox.VerdictRE => Model.VerdictRE
  | Sandbox.VerdictUnknown => Model.VerdictUKE
  end.

Definition sandboxResultToRunResult (r : ExecuteResult) : RunResult :=
  MkRunResult (sandboxVerdictToModel (ResVerdict r)) (ExitCode r) (ResStdout r) (ResStderr r)
              (ResCPUTimeMs r) (ResMemoryMB r) (ExtraInfo r).

(** What an [execute] takes, and what it submits to the sandbox. *)
Inductive host_resource := Slot | Workspace.
Definition submission : Type := ExecuteRequest * dir.
Abbreviation host_trace := (list (action host_resource submission)).

Section Text.
Context `{UnicodeTables}.

Definition collectArtifact (h : HostScript) (d : dir) (name : bytes) : GoError + CompileOutput :=
  match (if stat_fails h name then None else d !! name) with
  | None =>
      inl (Errorf ($"stat artifact %q: %w")
             [AQuote name; AErr (Errorf ($"stat file %q: %w") [AQuote name; AErr (stat_error h name)])])
  | Some e =>
      if negb (e_regular e) then
        inr (MkCompileOutput ($"compiled artifact " ++ Quote name ++ $" is not a regular file") None)
      else if maxCompileArtifactBytes <? zlen (e_data e) then
        inr (MkCompileOutput
               ($"compiled artifact " ++ Quote name ++ $" exceeds size limit ("
                ++ Itoa (zlen (e_data e)) ++ $" bytes > " ++ Itoa maxCompileArtifactBytes
                ++ $" bytes)") None)
      else
        match read_error h name with
        | Some err =>
            inl (Errorf ($"read artifact %q: %w")
                   [AQuote name; AErr (Errorf ($"read file %q: %w") [AQuote name; AErr err])])
        | None => inr (MkCompileOutput [] (Some (MkArtifact name (e_data e) (Perm (e_mode e)))))
        end
  end.

(** ** [execute] *)

Definition sandbox_request (h : HostScript) (t : task) : ExecuteRequest :=
  MkExecuteRequest (t_imageRef t) (t_command t)
    (Some (MkMount (dir_name h) (t_mountPath t) (t_readOnlyMount t))) (t_stdin t) (t_limits t)
    (t_enableSeccomp t).

(** What happens once the files are written. *)
Definition run_task (h : HostScript) (t : task) (d : dir) : GoError + taskResult :=
  match run_sandbox h (sandbox_request h t) d with
  | (inl err, _) => inl (Errorf ($"sandbox execute: %w") [AErr err])
  | (inr sandboxResult, d) =>
      if decide (ResVerdict sandboxResult = VerdictUnknown)
      then inl (errors_New ($"sandbox execute returned unknown verdict"))
      else
        let result := sandboxResultToRunResult sandboxResult in
        if bool_decide (t_artifactName t = []) || negb (RExitCode result =? 0)
           || negb (bool_decide (RVerdict result = Model.VerdictOK))
        then inr (MkTaskResult result (MkCompileOutput [] None))
        else match collectArtifact h d (t_artifactName t) with
             | inl err => inl err
             | inr compile => inr (MkTaskResult result compile)
             end
  end.

(** The deferred [err = errors.Join(err, ws.cleanup())]. *)
Definition join_cleanup {A} (h : HostScript) (res : GoError + A) : GoError + A :=
  match res with
  | inl err => match errors_Join [Some err; cleanup h] with Some e => inl e | None => inl err end
  | inr a => match errors_Join [None; cleanup h] with Some e => inl e | None => inr a end
  end.

Definition execute (h : HostScript) (t : task) : (GoError + taskResult) * host_trace :=
  match acquire_slot h with
  | Some err => (inl err, [])
  | None =>
      let '(res, trace) :=
        match newWorkspace h with
        | Some err => (inl (Errorf ($"create workspace: %w") [AErr err]), [])
        | None =>
            let '(res, trace) :=
              match writeFiles h (t_files t) ∅ with
              | inl err => (inl (Errorf ($"write execution files: %w") [AErr err]), [])
              | inr d => (run_task h t d, [Note (sandbox_request h t, d)])
              end in
            (join_cleanup h res, Take Workspace :: trace ++ [Give Workspace])
        end in
      (res, Take Slot :: trace ++ [Give Slot])
  end.

(** ** [Compile] and [Run] *)

Definition compile_task (req : CompileRequest) : task :=
  MkTask (CFiles req) (CImageRef req) (CCommand req) ($"/work") false [] (CLimits req) false
         (ArtifactName req).

Definition run_task_of (req : RunRequest) : task :=
  let a := RArtifact req in
  MkTask (MkFile (ArtName a) (ArtData a) (ArtMode a) :: RFiles req) (RImageRef req) (RCommand req)
         ($"/sandbox") true (RStdin req) (RLimits req) true [].

Definition compile_log (result : RunResult) (collected : CompileOutput) : bytes :=
  let diagnostics := filter (fun m => m <> [])
                       [RStdout result; RStderr result; CLog collected] in
  let diagnostics :=
    if bool_decide (RVerdict result ∈ [Model.VerdictTLE; Model.VerdictMLE; Model.VerdictOLE])
    then diagnostics ++ [RExtraInfo result] else diagnostics in
  let log := join diagnostics [int_to_char 10] in
  if bool_decide (RVerdict result = Model.VerdictRE) && bool_decide (TrimSpace log = [])
  then $"compiler exited with code " ++ Itoa (RExitCode result) else log.

Definition executor_Compile (h : HostScript) (req : CompileRequest)
  : (GoError + CompileOutput) * host_trace :=
  match execute h (compile_task req) with
  | (inl err, trace) => (inl err, trace)
  | (inr r, trace) =>
      (inr (MkCompileOutput (compile_log (run_result r) (compile r)) (CArtifact (compile r))), trace)
  end.

Definition executor_Run (h : HostScript) (req : RunRequest)
  : (GoError + RunResult) * host_trace :=
  match execute h (run_task_of req) with
  | (inl err, trace) => (inl err, trace)
  | (inr r, trace) => (inr (run_result r), trace)
  end.

Definition NewExecutor (maxConcurrent : Z) : GoError + Z :=
  if maxConcurrent <=? 0
  then inl (Errorf ($"max concurrent executions must be positive, got %d") [ADec maxConcurrent])
  else inr maxConcurrent.

(** The executor as an implementation of its interface: the host answers the
    calls one after the other, and the traces accumulate. *)
Record executor := MkExecutor { host : nat -> HostScript; calls : nat; log : list host_trace }.

#[export] Instance executor_Executor : Executor executor := {|
  Compile req e :=
    let '(res, trace) := executor_Compile (host e (calls e)) req in
    (res, MkExecutor (host e) (S (calls e)) (log e ++ [trace]));
  Run req e :=
    let '(res, trace) := executor_Run (host e (calls e)) req in
    (res, MkExecutor (host e) (S (calls e)) (log e ++ [trace])) |}.
End Text.
