(* ===== verification/ExecutionSpec.v ===== *)
(** * Isolation of runs and collection of artifacts

    What [Run] and [Compile] promise whatever the host answers: the slot and
    the workspace are given back, user programs only run behind a read-only
    mount with every restriction of the sandbox on, and an artifact is exactly
    the file that a successful compilation left. *)

From S2P Require Import Prelude Text GoText GoTextSpec Model Sandbox SandboxSpec Brackets Container ContainerSpec Execution.

(** ** What the services rely on *)

Definition sandbox_verdicts : list Model.Verdict :=
  [Model.VerdictOK; Model.VerdictTLE; Model.VerdictMLE; Model.VerdictOLE; Model.VerdictRE].

(** The promises of an [Executor] to the services above it. *)
Class ExecutorLaws (S : Type) `{Executor S} : Prop := {
  run_verdict req s r s' : Execution.Run req s = (inr r, s') -> RVerdict r ∈ sandbox_verdicts;
  compile_name req s out s' a : Execution.Compile req s = (inr out, s') ->
    CArtifact out = Some a -> ArtName a = ArtifactName req }.

Section Spec.
Context `{UnicodeTables}.

(** ** Traces *)

Lemma join_cleanup_inr {A} h (res : GoError + A) a : join_cleanup h res = inr a -> res = inr a.
Proof.
  unfold join_cleanup. destruct res; destruct (errors_Join _); congruence.
Qed.

Lemma join_cleanup_inl {A} h err : exists err', @join_cleanup A h (inl err) = inl err'.
Proof. unfold join_cleanup. destruct (errors_Join _); eauto. Qed.

Lemma execute_trace h t res trace : execute h t = (res, trace) ->
  bracketed trace
  /\ ((noted trace = [] /\ exists err, res = inl err)
      \/ exists d, writeFiles h (t_files t) ∅ = inr d
           /\ noted trace = [(sandbox_request h t, d)]
           /\ res = join_cleanup h (run_task h t d)).
Proof.
  unfold execute. destruct (acquire_slot h) as [err|].
  { intros [= <- <-]. split; [constructor|]. left. eauto. }
  destruct (newWorkspace h) as [err|].
  { intros [= <- <-]. split; [apply (bracketed_wrap _ []); constructor|]. left. eauto. }
  destruct (writeFiles h (t_files t) ∅) as [err|d].
  - intros [= <- <-]. split;
      [apply (bracketed_wrap _ [Take Workspace; Give Workspace]), (bracketed_wrap _ []); constructor|].
    left. split; [done|]. apply join_cleanup_inl.
  - intros [= <- <-]. split; [|right; by exists d].
    apply (bracketed_wrap _ [Take Workspace; Note _; Give Workspace]), (bracketed_wrap _ [Note _]),
      bracketed_note. constructor.
Qed.

Lemma writeFiles_lookup h files : forall d d' name,
  writeFiles h files d = inr d' ->
  (name ∉ map FileName files -> d' !! name = d !! name)
  /\ (name ∈ map FileName files -> exists f, f ∈ files /\ FileName f = name
      /\ e_data <$> d' !! name = Some (Content f)).
Proof.
  induction files as [|f files IH]; simpl; intros d d' name.
  - intros [= <-]. split; [done|]. intros Hn. by apply not_elem_of_nil in Hn.
  - destruct (write_error h (FileName f)); [done|]. intros W.
    destruct (IH _ _ name W) as [I1 I2]. unfold write_entry in I1. split.
    + intros [Hne Hn]%not_elem_of_cons. rewrite I1 by done. by rewrite lookup_insert_ne.
    + intros Hn. destruct (decide (name ∈ map FileName files)) as [Hin|Hout].
      * destruct (I2 Hin) as (g & ? & ? & ?). exists g. rewrite elem_of_cons. auto.
      * apply elem_of_cons in Hn as [->|Hn]; [|done].
        exists f. rewrite elem_of_cons. split; [by left|]. split; [done|].
        rewrite I1 by done. by rewrite lookup_insert_eq.
Qed.

(** ** Isolation *)

(** Every bind mount of an option is read-only. *)
Definition binds_read_only (o : SpecOpt) : Prop :=
  match o with
  | WithMounts ms => forall m, m ∈ ms -> MountType m = $"bind" -> $"ro" ∈ MountOptions m
  | _ => True
  end.

Definition hardened (opts : list SpecOpt) (memory : Z) : Prop :=
  [WithRootFSReadonly; WithCapabilities []; WithNoNewPrivileges; WithPidsLimit 128;
   WithSeccompErrno blockedSyscalls; WithMemoryLimit (uwrap 64 memory); WithMemorySwap memory]
    ⊆ opts
  /\ Forall binds_read_only opts.

(** The only directory of the host that an option mounts is [dir]. *)
Definition binds_only (dir : bytes) (o : SpecOpt) : Prop :=
  match o with
  | WithMounts ms => forall m, m ∈ ms -> MountType m = $"bind" -> Source m = dir
  | _ => True
  end.

(** What holds of every container, also of a compiler's. *)
Definition confined (opts : list SpecOpt) (memory : Z) (dir : bytes) : Prop :=
  [WithRootFSReadonly; WithCapabilities []; WithNoNewPrivileges; WithPidsLimit 128;
   WithMemoryLimit (uwrap 64 memory); WithMemorySwap memory] ⊆ opts
  /\ Forall (binds_only dir) opts.

Lemma containerOpts_confined image command m stdin limits seccomp cpu :
  confined (containerOpts (MkExecuteRequest image command (Some m) stdin limits seccomp) cpu)
           (memoryBytes (LimitMemoryMB limits)) (HostPath m).
Proof.
  split.
  - intros o Ho. unfold containerOpts, sandboxSpecOpts, sandboxSecurityOpts. simpl.
    repeat (apply elem_of_cons in Ho as [-> | Ho]; [set_solver|]). by apply not_elem_of_nil in Ho.
  - unfold containerOpts, sandboxSpecOpts, sandboxSecurityOpts. simpl.
    repeat constructor; try (intros x [->|Hx%not_elem_of_nil]%elem_of_cons; done).
    destruct seccomp; repeat constructor.
Qed.

Lemma containerOpts_hardened image command host path stdin limits cpu :
  hardened (containerOpts (MkExecuteRequest image command (Some (MkMount host path true)) stdin
                             limits true) cpu)
           (memoryBytes (LimitMemoryMB limits)).
Proof.
  split.
  - intros o Ho. unfold containerOpts, sandboxSpecOpts, sandboxSecurityOpts. simpl.
    repeat (apply elem_of_cons in Ho as [-> | Ho]; [set_solver|]). by apply not_elem_of_nil in Ho.
  - unfold containerOpts, sandboxSpecOpts, sandboxSecurityOpts. simpl.
    repeat constructor; intros m Hm; apply elem_of_cons in Hm as [-> | Hm];
      try (by apply not_elem_of_nil in Hm); simpl; [set_solver | done].
Qed.

(** [Run] gives its slot and its workspace back on every path, and
    submits at most one request to the sandbox: the request's command, input
    and limits, over a read-only mount of a directory that holds the artifact
    and the files and nothing else, in a container whose root is read-only,
    without capabilities, new privileges, swap or the blocked system calls.  A
    result is the sandbox's, with one of its five verdicts. *)
Theorem run_isolated (h : HostScript) (req : RunRequest) (res : GoError + RunResult)
    (trace : host_trace) :
  executor_Run h req = (res, trace) ->
  bracketed trace
  /\ ((noted trace = [] /\ exists err, res = inl err)
      \/ exists sub d, noted trace = [(sub, d)]
         /\ Command sub = RCommand req /\ Stdin sub = RStdin req /\ Limits sub = RLimits req
         /\ (forall cpu, hardened (containerOpts sub cpu)
                                  (memoryBytes (LimitMemoryMB (RLimits req))))
         /\ (forall name e, d !! name = Some e ->
              name = ArtName (RArtifact req) \/ name ∈ map FileName (RFiles req))
         /\ (ArtName (RArtifact req) ∉ map FileName (RFiles req) ->
              e_data <$> d !! ArtName (RArtifact req) = Some (ArtData (RArtifact req)))
         /\ (forall r, res = inr r -> exists sr, (run_sandbox h sub d).1 = inr sr
              /\ r = sandboxResultToRunResult sr
              /\ RVerdict r ∈ sandbox_verdicts)).
Proof.
  unfold executor_Run. destruct (execute h (run_task_of req)) as [eres tr] eqn:E.
  intros Hr. assert (Ht : tr = trace) by (destruct eres; congruence). subst tr.
  apply execute_trace in E as (B & E). split; [done|].
  destruct E as [(Hn & err & ->) | (d & Hw & Hn & Hx)]; [left; injection Hr as <-; eauto|].
  right. exists (sandbox_request h (run_task_of req)), d. split; [done|].
  split; [done|]. split; [done|]. split; [done|].
  split; [intros cpu; apply containerOpts_hardened|].
  split; [|split].
  - intros name e He. destruct (writeFiles_lookup _ _ _ _ name Hw) as [I _]. simpl in I.
    destruct (decide (name ∈ ArtName (RArtifact req) :: map FileName (RFiles req))) as [Hin|Hout].
    + by apply elem_of_cons in Hin.
    + rewrite I in He by done. by rewrite lookup_empty in He.
  - intros Hout. destruct (writeFiles_lookup _ _ _ _ (ArtName (RArtifact req)) Hw) as [_ I].
    destruct I as (f & Hf & Hname & Hd); [by left|]. rewrite Hd. simpl in Hf.
    apply elem_of_cons in Hf as [-> | Hf]; [done|]. exfalso. apply Hout. rewrite <- Hname.
    apply list_elem_of_In, in_map. by apply list_elem_of_In.
  - intros r ->. destruct eres as [err|tr]; [done|]. injection Hr as <-.
    symmetry in Hx. apply join_cleanup_inr in Hx. unfold run_task in Hx.
    destruct (run_sandbox h _ d) as [[err|sr] d'] eqn:Es; [done|]. exists sr.
    destruct (decide _) as [|Hv]; [done|]. simpl in Hx. injection Hx as <-. simpl.
    split; [done|]. split; [done|]. destruct (ResVerdict sr); try done; set_solver.
Qed.
(** ** Artifacts *)

(** [collectArtifact] accepts exactly the regular files of at most 64 MiB. *)
Lemma collectArtifact_inr h d name out : collectArtifact h d name = inr out ->
  exists e, d !! name = Some e
    /\ (forall a, CArtifact out = Some a <->
          e_regular e = true /\ zlen (e_data e) <= maxCompileArtifactBytes
          /\ a = MkArtifact name (e_data e) (Perm (e_mode e)))
    /\ (CArtifact out = None -> CLog out <> []).
Proof.
  unfold collectArtifact. destruct (stat_fails h name); [done|].
  destruct (d !! name) as [e|]; [|done]. intros Ho. exists e. split; [done|].
  destruct (e_regular e); simpl in Ho; [|injection Ho as <-; split; [|done]; intros a; split; [done | by intros (? & _)]].
  destruct (Z.ltb_spec maxCompileArtifactBytes (zlen (e_data e)));
    [injection Ho as <-; split; [|done]; intros a; split; [done | intros (_ & ? & _); lia]|].
  destruct (read_error h name); [done|]. injection Ho as <-. split; [|done].
  intros a. simpl. split; [by intros [= <-] | by intros (_ & _ & ->)].
Qed.

Lemma compile_log_RE r c : RVerdict r = Model.VerdictRE -> TrimSpace (compile_log r c) <> [].
Proof.
  intros E. unfold compile_log. rewrite E, (bool_decide_true (Model.VerdictRE = _)) by done.
  destruct (bool_decide _) eqn:B; simpl andb; cbv iota.
  - apply (TrimSpace_visible "c"). split; reflexivity.
  - by apply bool_decide_eq_false in B.
Qed.

Lemma compile_log_collected r c : RVerdict r = Model.VerdictOK -> CLog c <> [] ->
  compile_log r c <> [].
Proof.
  intros E Hc. unfold compile_log. rewrite E.
  rewrite (bool_decide_false (Model.VerdictOK = _)) by done.
  rewrite (bool_decide_false (Model.VerdictOK ∈ _)) by set_solver. simpl andb. cbv iota.
  rewrite !filter_cons, filter_nil.
  repeat (destruct (decide _)); try done; unfold join; simpl; destruct (CLog c); try done;
    intros [? ?]%app_eq_nil; try done.
Qed.

(** A message on a line of its own. *)
Definition line_of (m : bytes) : bytes := if bool_decide (m = []) then [] else m ++ [int_to_char 10].

Lemma compile_log_limit r : RVerdict r ∈ [Model.VerdictTLE; Model.VerdictMLE; Model.VerdictOLE] ->
  compile_log r (MkCompileOutput [] None) = line_of (RStdout r) ++ line_of (RStderr r) ++ RExtraInfo r.
Proof.
  intros V. unfold compile_log, line_of.
  rewrite (bool_decide_true (RVerdict r ∈ _)) by done.
  rewrite (bool_decide_false (RVerdict r = Model.VerdictRE)) by (intros E; rewrite E in V; set_solver).
  simpl andb. cbv iota. simpl CLog. rewrite !filter_cons, filter_nil.
  destruct (decide (RStdout r <> [])) as [E1|E1], (decide (RStderr r <> [])) as [E2|E2];
    rewrite ?(bool_decide_false _ E1), ?(bool_decide_false _ E2), ?(bool_decide_true (RStdout r = [])),
      ?(bool_decide_true (RStderr r = [])) by (by apply dec_stable);
    rewrite decide_False by (by intros []); unfold join; simpl; by rewrite <- ?app_assoc.
Qed.

Lemma limit_verdict sr : ResVerdict sr ∈ [Sandbox.VerdictTLE; Sandbox.VerdictMLE; Sandbox.VerdictOLE] ->
  RVerdict (sandboxResultToRunResult sr) ∈ [Model.VerdictTLE; Model.VerdictMLE; Model.VerdictOLE].
Proof. simpl. destruct (ResVerdict sr); set_solver. Qed.

(** What [Compile] returns, by the answer of the sandbox. *)
Lemma compile_result h req out trace : ArtifactName req <> [] ->
  executor_Compile h req = (inr out, trace) ->
  exists sub d sr d', noted trace = [(sub, d)] /\ bracketed trace
    /\ writeFiles h (CFiles req) ∅ = inr d /\ run_sandbox h sub d = (inr sr, d')
    /\ (exists m, MountDir sub = Some m /\ ReadOnly m = false)
    /\ Command sub = CCommand req /\ Limits sub = CLimits req
    /\ (forall a, CArtifact out = Some a <->
          ResVerdict sr = Sandbox.VerdictOK /\ ExitCode sr = 0
          /\ exists e, d' !! ArtifactName req = Some e /\ e_regular e = true
              /\ zlen (e_data e) <= maxCompileArtifactBytes
              /\ a = MkArtifact (ArtifactName req) (e_data e) (Perm (e_mode e)))
    /\ (ResVerdict sr ∈ [Sandbox.VerdictTLE; Sandbox.VerdictMLE; Sandbox.VerdictOLE] ->
        CLog out = line_of (ResStdout sr) ++ line_of (ResStderr sr) ++ ExtraInfo sr)
    /\ (ResVerdict sr = Sandbox.VerdictRE -> TrimSpace (CLog out) <> [])
    /\ (ResVerdict sr = Sandbox.VerdictOK -> ExitCode sr = 0 -> CArtifact out = None ->
        CLog out <> []).
Proof.
  intros Hname. unfold executor_Compile.
  destruct (execute h (compile_task req)) as [[err|tr] t] eqn:E; [done|]. intros [= <- ->].
  apply execute_trace in E as (B & [(_ & err & ?) | (d & Hw & Hn & Hx)]); [done|].
  symmetry in Hx. apply join_cleanup_inr in Hx. unfold run_task in Hx.
  destruct (run_sandbox h _ d) as [[err|sr] d'] eqn:Es; [done|].
  destruct (decide (ResVerdict sr = VerdictUnknown)) as [|Hv]; [done|].
  exists (sandbox_request h (compile_task req)), d, sr, d'.
  do 4 (split; [done|]). split; [by eexists|]. do 2 (split; [done|]).
  simpl t_artifactName in Hx. rewrite bool_decide_false in Hx by done. simpl in Hx.
  destruct (Z.eqb_spec (ExitCode sr) 0) as [E0|E0]; simpl in Hx; cycle 1.
  { injection Hx as <-. simpl. split; [naive_solver|].
    split; [intros W; by apply compile_log_limit, limit_verdict|]. split; [|done].
    intros V. apply compile_log_RE. simpl. by rewrite V. }
  destruct (bool_decide (sandboxVerdictToModel _ = _)) eqn:V; simpl in Hx; cycle 1.
  { apply bool_decide_eq_false in V. injection Hx as <-. simpl.
    assert (ResVerdict sr <> VerdictOK) by (intros W; by rewrite W in V).
    split; [naive_solver|]. split; [intros W; by apply compile_log_limit, limit_verdict|]. split; [|done].
    intros W. apply compile_log_RE. simpl. by rewrite W. }
  apply bool_decide_eq_true in V.
  assert (V' : ResVerdict sr = VerdictOK) by (by destruct (ResVerdict sr)).
  destruct (collectArtifact h d' (ArtifactName req)) as [err|c] eqn:C; [done|].
  injection Hx as <-. simpl. destruct (collectArtifact_inr _ _ _ _ C) as (e & He & Ha & Hl).
  split; [intros a; rewrite Ha; naive_solver|]. split; [rewrite V'; set_solver|]. split; [by rewrite V'|].
  intros _ _ Hnone. apply compile_log_collected; [done | by apply Hl].
Qed.

(** C30: when [Compile] returns, the sandbox saw one request, over a writable
    mount of exactly the request's files; the artifact is present exactly when
    the compiler finished normally with code 0 and left a regular file of at
    most 64 MiB under the artifact's name, and it is that file, byte for byte,
    with its permissions.  When a limit stopped the compiler, the log is what
    it wrote and then what the sandbox says of the limit; when it failed, or
    left no usable file, the log is not empty; and so there is a diagnostic for
    every missing artifact when the sandbox is [Container.Execute]. *)
Theorem compile_artifact (h : HostScript) (req : CompileRequest) (out : CompileOutput)
    (trace : host_trace) :
  ArtifactName req <> [] ->
  executor_Compile h req = (inr out, trace) ->
  exists sub d sr d', noted trace = [(sub, d)] /\ bracketed trace
    /\ writeFiles h (CFiles req) ∅ = inr d /\ run_sandbox h sub d = (inr sr, d')
    /\ (exists m, MountDir sub = Some m /\ ReadOnly m = false)
    /\ Command sub = CCommand req /\ Limits sub = CLimits req
    /\ (forall a, CArtifact out = Some a <->
          ResVerdict sr = Sandbox.VerdictOK /\ ExitCode sr = 0
          /\ exists e, d' !! ArtifactName req = Some e /\ e_regular e = true
              /\ zlen (e_data e) <= maxCompileArtifactBytes
              /\ a = MkArtifact (ArtifactName req) (e_data e) (Perm (e_mode e)))
    /\ (ResVerdict sr ∈ [Sandbox.VerdictTLE; Sandbox.VerdictMLE; Sandbox.VerdictOLE] ->
        CLog out = line_of (ResStdout sr) ++ line_of (ResStderr sr) ++ ExtraInfo sr)
    /\ (ResVerdict sr = Sandbox.VerdictRE -> TrimSpace (CLog out) <> [])
    /\ (ResVerdict sr = Sandbox.VerdictOK -> ExitCode sr = 0 -> CArtifact out = None ->
        CLog out <> [])
    /\ ((exists s t, Execute s sub = Some (inr sr, t)) -> CArtifact out = None -> CLog out <> []).
Proof.
  intros Hname E. destruct (compile_result _ _ _ _ Hname E) as (sub & d & sr & d' & H1 & H2 & H3 & H4 & H5 & H6 & H7
    & HA & HL & HR & HO). exists sub, d, sr, d'. split_and!; try done.
  intros (s & t & He) Hn. apply Execute_watched, watched_diagnostic in He.
  destruct (ResVerdict sr) eqn:V; [done| | | | |].
  - by apply HO.
  - rewrite HL by set_solver. by intros [_ [_ ?]%app_eq_nil]%app_eq_nil.
  - rewrite HL by set_solver. by intros [_ [_ ?]%app_eq_nil]%app_eq_nil.
  - rewrite HL by set_solver. by intros [_ [_ ?]%app_eq_nil]%app_eq_nil.
  - intros Hl. apply HR; [done|]. by rewrite Hl.
Qed.

(** The request that a compilation submits to the sandbox, if it does. *)
Lemma compile_submission h req res trace : executor_Compile h req = (res, trace) ->
  bracketed trace
  /\ (noted trace = [] \/ exists d, writeFiles h (CFiles req) ∅ = inr d
        /\ noted trace = [(sandbox_request h (compile_task req), d)]).
Proof.
  unfold executor_Compile. destruct (execute h (compile_task req)) as [eres tr] eqn:E. intros Hr.
  assert (tr = trace) as -> by (destruct eres; congruence).
  apply execute_trace in E as (B & [[Hn _]|(d & Hw & Hn & _)]); (split; [done|]); [by left|]. right. by exists d.
Qed.

Lemma written_files h files d name e : writeFiles h files ∅ = inr d -> d !! name = Some e -> name ∈ map FileName files.
Proof.
  intros Hw He. destruct (writeFiles_lookup _ _ _ _ name Hw) as [I _].
  destruct (decide (name ∈ map FileName files)) as [|Hn]; [done|]. by rewrite (I Hn), lookup_empty in He.
Qed.

(** ** The interface *)

Lemma executor_Run_verdict h req r trace : executor_Run h req = (inr r, trace) ->
  RVerdict r ∈ sandbox_verdicts.
Proof.
  unfold executor_Run. destruct (execute h (run_task_of req)) as [[err|tr] t] eqn:E; [done|].
  intros [= <- ->]. apply execute_trace in E as (_ & [(_ & err & ?) | (d & _ & _ & Hx)]); [done|].
  symmetry in Hx. apply join_cleanup_inr in Hx. unfold run_task in Hx.
  destruct (run_sandbox h _ d) as [[err|sr] d']; [done|].
  destruct (decide _) as [|Hv]; [done|]. simpl in Hx. injection Hx as <-. simpl.
  unfold sandbox_verdicts. destruct (ResVerdict sr); try done; set_solver.
Qed.

Lemma collectArtifact_name h d name out a : collectArtifact h d name = inr out ->
  CArtifact out = Some a -> ArtName a = name.
Proof.
  intros Ho Ha. destruct (collectArtifact_inr h d name out Ho) as (e & He & Hc & Hl).
  apply Hc in Ha. destruct Ha as (? & ? & Ha). by rewrite Ha.
Qed.

Lemma executor_Compile_name h req out trace a : executor_Compile h req = (inr out, trace) ->
  CArtifact out = Some a -> ArtName a = ArtifactName req.
Proof.
  unfold executor_Compile. destruct (execute h (compile_task req)) as [[err|tr] t] eqn:E; [done|].
  intros [= <- ->] Ha. apply execute_trace in E as (_ & [(_ & err & ?) | (d & _ & _ & Hx)]); [done|].
  symmetry in Hx. apply join_cleanup_inr in Hx. unfold run_task in Hx.
  destruct (run_sandbox h _ d) as [[err|sr] d']; [done|].
  destruct (decide _) as [|Hv]; [done|].
  destruct (bool_decide _ || _ || _); [by injection Hx as <-|].
  destruct (collectArtifact _ _ _) eqn:C; [done|]. injection Hx as <-.
  by apply (collectArtifact_name _ _ _ _ a) in C.
Qed.

#[export] Instance executor_laws : ExecutorLaws executor.
Proof.
  split.
  - intros req e r e'. simpl. destruct (executor_Run _ req) as [res trace] eqn:E.
    intros [= -> <-]. by eapply executor_Run_verdict.
  - intros req e out e' a. simpl. destruct (executor_Compile _ req) as [res trace] eqn:E.
    intros [= -> <-]. by eapply executor_Compile_name.
Qed.
End Spec.

(** A host whose sandbox compiles (when the mount is writable) and runs. *)
Definition sample_result (out : bytes) : ExecuteResult :=
  MkExecuteResult 0 out [] 7 3 Sandbox.VerdictOK [].

Definition sample_host : HostScript :=
  MkHost None None None None ($"/tmp/w") (fun _ => None)
    (fun req d => (inr (sample_result ($"42")),
                   match MountDir req with
                   | Some m => if ReadOnly m then d
                               else <[$"program" := MkEntry ($"ELF") 493 true]> d
                   | None => d
                   end))
    (fun _ => false) (fun _ => errors_New ($"no such file")) (fun _ => None) None 18.

Definition sample_run : RunRequest :=
  MkRunRequest (MkArtifact ($"program") ($"ELF") 493) [] ($"debian") [$"./program"] ($"1 2")
    (MkLimits 1000 3000 64 16).

Lemma run_isolated_witness :
  exists trace d, @executor_Run ascii_tables sample_host sample_run
    = (inr (MkRunResult Model.VerdictOK 0 ($"42") [] 7 3 []), trace)
  /\ noted trace = [(sandbox_request sample_host (run_task_of sample_run), d)]
  /\ forall cpu, hardened (containerOpts (sandbox_request sample_host (run_task_of sample_run)) cpu)
                          (memoryBytes 64).
Proof.
  eexists _, _. split; [reflexivity|]. split; [reflexivity|].
  destruct (@run_isolated ascii_tables sample_host sample_run _ _ eq_refl)
    as (_ & [(_ & err & ?) | (sub & d & Hn & _ & _ & _ & Hh & _)]); [discriminate|].
  injection Hn as <- _. exact Hh.
Defined.

Definition sample_compile : CompileRequest :=
  MkCompileRequest [MkFile ($"main.c") ($"int main;") 420] ($"gcc") [$"gcc"; $"main.c"]
    ($"program") (MkLimits 1000 3000 64 16).

Lemma compile_artifact_witness :
  exists out trace, @executor_Compile ascii_tables sample_host sample_compile = (inr out, trace)
  /\ CArtifact out = Some (MkArtifact ($"program") ($"ELF") 493)
  /\ exists sub d, noted trace = [(sub, d)].
Proof.
  eexists _, _. split; [reflexivity|]. split; [reflexivity|].
  destruct (@compile_artifact ascii_tables sample_host sample_compile _ _ ltac:(discriminate) eq_refl)
    as (sub & d & _ & _ & Hn & _).
  exists sub, d. exact Hn.
Defined.
