(* ===== verification/Language.v ===== *)
(** * Language profiles ([src/internal/service/language.go])

    How each language is compiled and run on top of an [Executor].  Go [int]
    arithmetic is 64-bit. *)

From S2P Require Import Prelude Text GoText Model Sandbox Execution.

Definition javaNativeReserveMB : Z := 64.

Definition imageGCC12 : bytes := $"docker.io/library/gcc:12-bookworm".
Definition imageDebian12 : bytes := $"docker.io/library/debian:12-slim".
Definition imageJDK21 : bytes := $"docker.io/library/eclipse-temurin:21-jdk-jammy".
Definition imageJRE21 : bytes := $"docker.io/library/eclipse-temurin:21-jre-jammy".
Definition imagePy311 : bytes := $"docker.io/library/python:3.11-slim-bookworm".

Record compileConfig := MkCompileConfig {
  cfg_ImageRef : bytes; cfg_SourceFile : bytes; cfg_ArtifactName : bytes;
  cfg_BuildCommand : list bytes; cfg_TimeoutMs : Z; cfg_MemoryMB : Z }.

Record runConfig := MkRunConfig {
  run_ImageRef : bytes; RuntimeCommand : bytes -> Z -> list bytes }.

Record languageProfile := MkProfile { prof_Compile : compileConfig; prof_Run : runConfig }.

Definition cProfile : languageProfile :=
  MkProfile
    (MkCompileConfig imageGCC12 ($"main.c") ($"program")
       [$"gcc"; $"-O2"; $"-pipe"; $"-static"; $"-s"; $"-o"; $"program"; $"main.c"; $"-lm"]
       30000 512)
    (MkRunConfig imageDebian12 (fun p _ => [p])).

Definition cppProfile : languageProfile :=
  MkProfile
    (MkCompileConfig imageGCC12 ($"main.cpp") ($"program")
       [$"g++"; $"-std=c++20"; $"-O2"; $"-pipe"; $"-static"; $"-s"; $"-o"; $"program"; $"main.cpp"; $"-lm"]
       30000 512)
    (MkRunConfig imageDebian12 (fun p _ => [p])).

Definition javaProfile : languageProfile :=
  MkProfile
    (MkCompileConfig imageJDK21 ($"Main.java") ($"solution.jar")
       [$"sh"; $"-c";
        $"mkdir -p classes && "
        ++ $"javac -encoding UTF-8 -d classes Main.java && "
        ++ $"jar --create --file solution.jar --main-class Main -C classes ."]
       30000 512)
    (MkRunConfig imageJRE21 (fun p memoryMB =>
       let initialHeapMB := Z.min memoryMB 64 in
       [$"java"; $"-Xmx" ++ Itoa memoryMB ++ $"m"; $"-Xms" ++ Itoa initialHeapMB ++ $"m";
        $"-jar"; p])).

Definition dquote : bytes := ["034"%char].

Definition pythonProfile : languageProfile :=
  MkProfile
    (MkCompileConfig imagePy311 ($"solution.py") ($"solution.pyc")
       [$"sh"; $"-c";
        $"python3 -c 'import py_compile; py_compile.compile("
        ++ dquote ++ $"solution.py" ++ dquote ++ $", cfile=" ++ dquote ++ $"solution.pyc" ++ dquote
        ++ $", doraise=True)' || exit 1"]
       10000 256)
    (MkRunConfig imagePy311 (fun p _ => [$"python3"; p])).

Definition Language_String (l : Language) : bytes :=
  match l with
  | LanguageUnknown => []
  | LanguageC => $"C"
  | LanguageCPP => $"C++"
  | LanguageJava => $"Java"
  | LanguagePython => $"Python"
  | LanguageOther name => name
  end.

Definition profileForLanguage (lang : Language) : GoError + languageProfile :=
  match lang with
  | LanguageC => inr cProfile
  | LanguageCPP => inr cppProfile
  | LanguageJava => inr javaProfile
  | LanguagePython => inr pythonProfile
  | _ => inl (Errorf ($"unsupported language: %v") [AStr (Language_String lang)])
  end.

Definition sandboxMemoryLimitMB (lang : Language) (memoryLimitMB : Z) : Z :=
  if negb (bool_decide (lang = LanguageJava)) then memoryLimitMB
  else swrap 64 (memoryLimitMB + Z.max javaNativeReserveMB (Z.quot memoryLimitMB 4)).

Definition set_verdict (v : Model.Verdict) (r : RunResult) : RunResult :=
  MkRunResult v (RExitCode r) (RStdout r) (RStderr r) (RCPUTimeMs r) (RMemoryMB r) (RExtraInfo r).

Definition normalizeLanguageRunResult (lang : Language) (runOut : RunResult) : RunResult :=
  if bool_decide (lang = LanguageJava) && bool_decide (RVerdict runOut = Model.VerdictRE)
     && Contains (RStderr runOut) ($"java.lang.OutOfMemoryError")
  then set_verdict Model.VerdictMLE runOut else runOut.

(** Limits of a compilation with this profile. *)
Definition compile_limits (config : compileConfig) : ResourceLimits :=
  MkLimits (cfg_TimeoutMs config) (swrap 64 (cfg_TimeoutMs config * WallTimeMultiplier))
           (cfg_MemoryMB config) DefaultCompileOutputLimitBytes.

Definition language_limits (lang : Language) (timeLimit memoryLimit : Z) : ResourceLimits :=
  MkLimits timeLimit (swrap 64 (timeLimit * WallTimeMultiplier))
           (sandboxMemoryLimitMB lang memoryLimit) DefaultRunOutputLimitBytes.

Record resolvedLanguage := MkResolved { res_language : Language; res_profile : languageProfile }.

Definition language_Resolve (lang : Language) : GoError + resolvedLanguage :=
  match profileForLanguage lang with
  | inl err => inl err
  | inr p => inr (MkResolved lang p)
  end.

Record compiledProgram := MkProgram {
  prog_language : Language; prog_profile : runConfig; prog_artifact : Artifact }.

Section Services.
Context {S : Type} `{Executor S}.

Definition language_Compile (l : resolvedLanguage) (sourceCode : bytes) (s : S)
  : (GoError + (option compiledProgram * CompileResult)) * S :=
  let config := prof_Compile (res_profile l) in
  let '(out, s) := Execution.Compile
    (MkCompileRequest [MkFile (cfg_SourceFile config) sourceCode 420] (cfg_ImageRef config)
       (cfg_BuildCommand config) (cfg_ArtifactName config) (compile_limits config)) s in
  (match out with
   | inl err => inl err
   | inr out =>
       inr (match CArtifact out with
            | None => (None, MkCompileResult false (CLog out))
            | Some a => (Some (MkProgram (res_language l) (prof_Run (res_profile l)) a),
                         MkCompileResult true (CLog out))
            end)
   end, s).

Definition program_request (p : compiledProgram) (input : bytes) (timeLimit memoryLimit : Z)
  : RunRequest :=
  MkRunRequest (prog_artifact p) [] (run_ImageRef (prog_profile p))
    (RuntimeCommand (prog_profile p) ($"./" ++ ArtName (prog_artifact p)) memoryLimit)
    input (language_limits (prog_language p) timeLimit memoryLimit).

Definition program_Run (p : compiledProgram) (input : bytes) (timeLimit memoryLimit : Z) (s : S)
  : (GoError + RunResult) * S :=
  let '(out, s) := Execution.Run (program_request p input timeLimit memoryLimit) s in
  (match out with
   | inl err => inl err
   | inr out => inr (normalizeLanguageRunResult (prog_language p) out)
   end, s).
End Services.
