(* ===== verification/LanguageSpec.v ===== *)
(** * The limits of a run, without overflow

    The limits a request may ask for are 32-bit, and every quantity computed
    from them fits the 64-bit type it is stored in. *)

From S2P Require Import Prelude Text GoText Model Sandbox Execution Language.

Lemma memoryBytes_exact m : 0 <= m < 2 ^ 40 -> memoryBytes m = m * 2 ^ 20.
Proof.
  intros H. unfold memoryBytes. change bytesPerMiB with (2 ^ 20).
  apply swrap_small; [lia|]. change (2 ^ (64 - 1)) with (2 ^ 43 * 2 ^ 20). lia.
Qed.

Lemma wallDeadline_exact l : 0 <= WallTimeMs l < 2 ^ 40 ->
  wallDeadline l = WallTimeMs l * 1000000.
Proof.
  intros H. unfold wallDeadline. change nanosPerMs with 1000000. apply swrap_small; [lia|].
  change (2 ^ (64 - 1)) with 9223372036854775808. change (2 ^ 40) with 1099511627776 in H. lia.
Qed.

Lemma sandboxMemoryLimit_spec lang m : is_uint32 m ->
  let limit := sandboxMemoryLimitMB lang m in
  m <= limit < 2 ^ 34 /\ (lang = LanguageJava -> m + 64 <= limit /\ 5 * m - 4 < 4 * limit).
Proof.
  unfold is_uint32. intros Hm. unfold sandboxMemoryLimitMB, javaNativeReserveMB.
  change (2 ^ 32) with 4294967296 in Hm. change (2 ^ 34) with 17179869184.
  destruct (decide (lang = LanguageJava)) as [->|Hn].
  - rewrite bool_decide_true by done. simpl negb. cbv iota zeta.
    assert (Hq : 0 <= Z.quot m 4 <= m /\ m - 4 < 4 * Z.quot m 4).
    { rewrite Z.quot_div_nonneg by lia. pose proof (Z.div_mod m 4 ltac:(lia)).
      pose proof (Z.mod_pos_bound m 4 ltac:(lia)). lia. }
    rewrite swrap_small; [| lia | change (2 ^ (64 - 1)) with 9223372036854775808; lia]. lia.
  - rewrite bool_decide_false by done. simpl. split; [lia | done].
Qed.

(** C31: for every language and every time and memory limit that a request can
    carry, none of the 64-bit computations overflows: the wall deadline is
    exactly three times the CPU limit, in milliseconds and in the nanoseconds
    of the timer; the memory limit in bytes is exact, as signed and as
    unsigned, and at least what was asked for; and a Java program gets room for
    the virtual machine beyond its heap, at least 64 MB and a quarter of it. *)
Theorem limits_exact (lang : Language) (timeLimit memoryLimit : Z) :
  is_uint32 timeLimit -> is_uint32 memoryLimit ->
  let l := language_limits lang timeLimit memoryLimit in
  CPUTimeMs l = timeLimit /\ WallTimeMs l = 3 * timeLimit
  /\ wallDeadline l = 3 * timeLimit * 1000000
  /\ memoryBytes (LimitMemoryMB l) = LimitMemoryMB l * 2 ^ 20
  /\ uwrap 64 (memoryBytes (LimitMemoryMB l)) = memoryBytes (LimitMemoryMB l)
  /\ memoryLimit <= LimitMemoryMB l
  /\ (lang = LanguageJava ->
        memoryLimit + 64 <= LimitMemoryMB l /\ 5 * memoryLimit - 4 < 4 * LimitMemoryMB l)
  /\ OutputBytes l = 16 * 2 ^ 20.
Proof.
  intros Ht Hm l. destruct (sandboxMemoryLimit_spec lang memoryLimit Hm) as [Hmem Hjava].
  unfold is_uint32 in Ht. change (2 ^ 32) with 4294967296 in Ht.
  assert (HW : WallTimeMs l = 3 * timeLimit).
  { simpl. rewrite swrap_small; change WallTimeMultiplier with 3;
      [lia | lia | change (2 ^ (64 - 1)) with 9223372036854775808; lia]. }
  assert (HM : memoryBytes (LimitMemoryMB l) = LimitMemoryMB l * 2 ^ 20).
  { apply memoryBytes_exact. simpl. unfold is_uint32 in Hm.
    change (2 ^ 34) with 17179869184 in Hmem. change (2 ^ 40) with 1099511627776. lia. }
  split; [done|]. split; [done|].
  split; [rewrite wallDeadline_exact; rewrite HW; [lia | change (2 ^ 40) with 1099511627776; lia]|].
  split; [done|].
  split; [rewrite HM; apply uwrap_small; simpl in *; unfold is_uint32 in Hm;
          change (2 ^ 34) with 17179869184 in Hmem; change (2 ^ 64) with 18446744073709551616;
          change (2 ^ 20) with 1048576; lia|].
  split; [apply Hmem|]. split; [apply Hjava | done].
Qed.

Lemma limits_exact_witness :
  let l := language_limits LanguageJava 4294967295 4294967295 in
  WallTimeMs l = 12884901885 /\ LimitMemoryMB l = 5368709118
  /\ memoryBytes (LimitMemoryMB l) = 5629499532115968.
Proof.
  intros l. destruct (limits_exact LanguageJava 4294967295 4294967295) as (_ & H & _ & M & _);
    [by split | by split |]. split; [exact H|]. split; [reflexivity|]. etransitivity; [exact M | reflexivity].
Defined.
