(* ===== verification/Checker.v ===== *)
(** * Checkers of the service ([src/internal/service/checker.go])

    Choosing a checker for a request, reading its source, and running a
    compiled checker on one case.  A file system ([io/fs.FS]) is a function
    from a path to its contents or an error. *)

From S2P Require Import Prelude Text GoText Model Sandbox Execution Language.

Definition defaultCheckerName : bytes := $"default".
Definition externalPrefix : bytes := $"external:".
Definition testlibHeaderKey : bytes := $"testlib.h".
Definition checkerInputFileName : bytes := $"input.txt".
Definition checkerOutputFileName : bytes := $"output.txt".
Definition checkerAnswerFileName : bytes := $"answer.txt".
Definition checkerArtifactName : bytes := $"checker".
Definition checkerRunImageRef : bytes := imageDebian12.
Definition checkerCPUTimeLimitMs : Z := 3000.
Definition checkerMemoryLimitMB : Z := 256.

Inductive checkerOutcome := checkerFailed | checkerAccepted | checkerRejected.
Record checkerResult := MkCheckerResult { Outcome : checkerOutcome; Message : bytes }.

Inductive checkerKind := checkerBuiltin | checkerExternal | checkerInline.

#[export] Instance checkerKind_eq_dec : EqDecision checkerKind.
Proof. solve_decision. Defined.

Record checkerChoice := MkChoice { kind : checkerKind; choice_value : bytes }.

Definition providedByRequest (c : checkerChoice) : bool := bool_decide (kind c = checkerInline).

(** [io/fs.ReadFile]. *)
Abbreviation FS := (bytes -> GoError + bytes).

Definition builtinCheckerPath (shortName : bytes) : bytes :=
  $"checkers/" ++ shortName ++ $".cpp".

(** ** Choosing *)

Definition bs : ascii := ascii_of_nat 92.

Definition validateExternalCheckerPath (checkerPath : bytes) : GoError + bytes :=
  if bool_decide (TrimSpace checkerPath = [])
  then inl (errors_New ($"external checker path is required"))
  else
    let normalizedPath := filepath_Clean checkerPath in
    if bool_decide (normalizedPath = $".")
    then inl (errors_New ($"external checker path is required"))
    else if negb (filepath_IsLocal normalizedPath)
    then inl (Errorf ($"external checker path escapes resource root: %q") [AQuote checkerPath])
    else if negb (HasSuffix normalizedPath ($".cpp"))
    then inl (Errorf ($"external checker must be a .cpp file: %q") [AQuote checkerPath])
    else inr normalizedPath.

Section Choosing.
Context `{UnicodeTables}.

Definition short_name_rune (r : Z) : bool :=
  IsLetter r || IsDigit r || (r =? 95) || (r =? 45).

Definition validateCheckerShortName (name : bytes) : option GoError :=
  if ContainsAny name [slash; bs; "."%char]
  then Some (Errorf ($"checker %q contains invalid path characters (/, " ++ [bs] ++ $", .)")
               [AQuote name])
  else if negb (forallb (fun '(r, _) => short_name_rune r) (runes name))
  then Some (Errorf ($"checker %q contains invalid characters (only letters, digits, _, - allowed)")
               [AQuote name])
  else None.

Definition resolveChecker (raw inlineSource : bytes) : GoError + checkerChoice :=
  let name := TrimSpace raw in
  if negb (bool_decide (inlineSource = [])) then
    if bool_decide (TrimSpace inlineSource = [])
    then inl (errors_New ($"checkerSourceCode must not be blank"))
    else if negb (bool_decide (name = []))
    then inl (errors_New ($"checker and checkerSourceCode cannot be provided together"))
    else inr (MkChoice checkerInline inlineSource)
  else if bool_decide (name = []) then inr (MkChoice checkerBuiltin defaultCheckerName)
  else
    match CutPrefix name externalPrefix with
    | Some checkerPath =>
        match validateExternalCheckerPath checkerPath with
        | inl err => inl err
        | inr normalizedPath => inr (MkChoice checkerExternal normalizedPath)
        end
    | None =>
        match validateCheckerShortName name with
        | Some err => inl err
        | None => inr (MkChoice checkerBuiltin name)
        end
    end.
End Choosing.

(** ** Sources *)

Definition readSource (bundledFS : FS) (externalFS : option FS) (choice : checkerChoice)
  : GoError + bytes :=
  match kind choice with
  | checkerInline => inr (choice_value choice)
  | checkerExternal =>
      match externalFS with
      | None => inl (Errorf ($"external checker %q requires external resources")
                       [AQuote (choice_value choice)])
      | Some fs =>
          match fs (choice_value choice) with
          | inl err => inl (Errorf ($"external checker %q is not available: %w")
                              [AQuote (choice_value choice); AErr err])
          | inr source => inr source
          end
      end
  | checkerBuiltin =>
      match bundledFS (builtinCheckerPath (choice_value choice)) with
      | inl err => inl (Errorf ($"builtin checker %q is not available: %w")
                          [AQuote (choice_value choice); AErr err])
      | inr source => inr source
      end
  end.

(** ** Compiling and running *)

Definition checkerCompileProfile : compileConfig :=
  MkCompileConfig imageGCC12 ($"checker.cpp") checkerArtifactName
    [$"g++"; $"-std=c++20"; $"-O2"; $"-pipe"; $"-static"; $"-s"; $"-o"; checkerArtifactName;
     $"checker.cpp"; $"-lm"]
    30000 512.

Definition checkerRunLimits : ResourceLimits :=
  MkLimits checkerCPUTimeLimitMs (checkerCPUTimeLimitMs * WallTimeMultiplier) checkerMemoryLimitMB
           DefaultRunOutputLimitBytes.

Definition checker_request (artifact : Artifact) (input actualOutput expectedOutput : bytes)
  : RunRequest :=
  MkRunRequest artifact
    [MkFile checkerInputFileName input 420; MkFile checkerOutputFileName actualOutput 420;
     MkFile checkerAnswerFileName expectedOutput 420]
    checkerRunImageRef
    [$"./" ++ ArtName artifact; checkerInputFileName; checkerOutputFileName; checkerAnswerFileName]
    [] checkerRunLimits.

Definition checker_result (runOut : RunResult) : checkerResult :=
  let message := cmp_or [TrimSpace (RStderr runOut); TrimSpace (RStdout runOut);
                         TrimSpace (RExtraInfo runOut)] in
  MkCheckerResult
    (if bool_decide (RVerdict runOut = Model.VerdictOK) && (RExitCode runOut =? 0)
     then checkerAccepted
     else if bool_decide (RVerdict runOut = Model.VerdictRE)
             && ((RExitCode runOut =? 1) || (RExitCode runOut =? 2))
     then checkerRejected
     else checkerFailed)
    message.

(** A [preparedChecker] is the artifact of its compilation. *)
Definition Check {S : Type} `{Executor S} (artifact : Artifact)
    (input actualOutput expectedOutput : bytes) (s : S) : (GoError + checkerResult) * S :=
  let '(out, s) := Execution.Run (checker_request artifact input actualOutput expectedOutput) s in
  (match out with
   | inl err => inl err
   | inr runOut => inr (checker_result runOut)
   end, s).
