(* ===== verification/CheckerSpec.v ===== *)
(** * The checker a request can choose

    Whatever the request says, the path that is opened for its checker names an
    entry below the resource root. *)

From S2P Require Import Prelude Text TextSpec GoText GoTextSpec Model Sandbox Execution Language Checker.

Section Spec.
Context `{UnicodeTables}.

Lemma ContainsAny_false name chars c : ContainsAny name chars = false -> c ∈ chars -> c ∉ name.
Proof.
  intros E Hc Hn. apply not_true_iff_false in E. apply E. apply existsb_exists. exists c.
  split; [by apply list_elem_of_In|]. by apply bool_decide_eq_true.
Qed.

Lemma short_name_plain name : validateCheckerShortName name = None ->
  plain name /\ "."%char ∉ name.
Proof.
  unfold validateCheckerShortName. destruct (ContainsAny _ _) eqn:E; [done|].
  intros _. split; eapply ContainsAny_false; eauto; set_solver.
Qed.

Lemma builtin_path_elements name : plain name ->
  elements_of (builtinCheckerPath name) = [$"checkers"; name ++ $".cpp"]
  /\ Forall entry_name [$"checkers"; name ++ $".cpp"].
Proof.
  intros Hp.
  assert (P : plain (name ++ $".cpp")).
  { unfold plain. rewrite elem_of_app. intros [?|H2]; [done|]. vm_compute in H2. set_solver. }
  assert (Q : plain ($"checkers")) by (unfold plain; intros H2; vm_compute in H2; set_solver).
  split.
  - replace (builtinCheckerPath name) with (join [$"checkers"; name ++ $".cpp"] [slash]).
    + apply elements_join. by repeat constructor.
    + rewrite join_cons. simpl. by rewrite app_nil_r.
  - repeat constructor; try done.
    + by destruct name.
    + destruct name as [|c [|d n]]; done.
    + destruct name as [|c [|d [|e n]]]; done.
Qed.

Lemma external_path p v : validateExternalCheckerPath p = inr v ->
  filepath_Clean p <> $"." /\ filepath_IsLocal (filepath_Clean p) = true
  /\ HasSuffix v ($".cpp") = true /\ v = filepath_Clean p.
Proof.
  unfold validateExternalCheckerPath. destruct (bool_decide (TrimSpace p = [])); [done|]. cbv zeta.
  destruct (bool_decide (filepath_Clean p = $".")) eqn:D; [done|].
  apply bool_decide_eq_false in D. destruct (filepath_IsLocal _); [|done].
  destruct (HasSuffix _ _) eqn:X; [|done]. intros [= <-]. by rewrite X.
Qed.

(** What a choice that is accepted looks like. *)
Lemma resolveChecker_choice (raw inlineSource : bytes) (c : checkerChoice) :
  resolveChecker raw inlineSource = inr c ->
  match kind c with
  | checkerInline =>
      choice_value c = inlineSource /\ TrimSpace inlineSource <> [] /\ TrimSpace raw = []
  | checkerBuiltin =>
      inlineSource = []
      /\ choice_value c = (if bool_decide (TrimSpace raw = []) then $"default" else TrimSpace raw)
      /\ elements_of (builtinCheckerPath (choice_value c))
         = [$"checkers"; choice_value c ++ $".cpp"]
      /\ Forall entry_name [$"checkers"; choice_value c ++ $".cpp"]
  | checkerExternal =>
      inlineSource = [] /\ HasPrefix (TrimSpace raw) ($"external:") = true
      /\ HasSuffix (choice_value c) ($".cpp") = true
      /\ exists es, es <> [] /\ Forall entry_name es /\ elements_of (choice_value c) = es
                   /\ choice_value c = join es [slash]
  end.
Proof.
  unfold resolveChecker. destruct (bool_decide (inlineSource = [])) eqn:S; simpl negb; cbv iota.
  2: { repeat case_bool_decide; try done. simpl. by intros [= <-]. }
  apply bool_decide_eq_true in S. destruct (bool_decide (TrimSpace raw = [])) eqn:N.
  { intros [= <-]. simpl. split; [done|]. split; [done|]. apply builtin_path_elements.
    unfold plain. intros H2. vm_compute in H2. set_solver. }
  unfold CutPrefix. destruct (HasPrefix (TrimSpace raw) externalPrefix) eqn:P.
  - destruct (validateExternalCheckerPath _) as [err|v] eqn:V; [done|]. intros [= <-]. simpl.
    apply external_path in V as (Hdot & L & X & ->).
    apply local_clean in L as [?|(es & ? & ? & ? & ?)]; [done|].
    repeat split; try done. by exists es.
  - destruct (validateCheckerShortName _) eqn:V; [done|]. intros [= <-]. simpl.
    apply short_name_plain in V as [? _]. split; [done|]. split; [done|].
    by apply builtin_path_elements.
Qed.

(** A checker choice that [resolveChecker] accepts is one of three: the
    request's own source, not blank and without a checker name; a bundled
    checker, whose path is [checkers/<name>.cpp] with a name that is a single
    path element; or an external one, whose path is one or more entry names
    below the resource root, never absolute and never through [..], ending in
    [.cpp]. *)
Theorem resolveChecker_safe (raw inlineSource : bytes) (c : checkerChoice) :
  resolveChecker raw inlineSource = inr c ->
  match kind c with
  | checkerInline =>
      choice_value c = inlineSource /\ TrimSpace inlineSource <> [] /\ TrimSpace raw = []
  | checkerBuiltin =>
      inlineSource = []
      /\ choice_value c = (if bool_decide (TrimSpace raw = []) then $"default" else TrimSpace raw)
      /\ elements_of (builtinCheckerPath (choice_value c))
         = [$"checkers"; choice_value c ++ $".cpp"]
      /\ Forall entry_name [$"checkers"; choice_value c ++ $".cpp"]
  | checkerExternal =>
      inlineSource = [] /\ HasPrefix (TrimSpace raw) ($"external:") = true
      /\ HasSuffix (choice_value c) ($".cpp") = true
      /\ exists es, es <> [] /\ Forall entry_name es /\ elements_of (choice_value c) = es
                   /\ choice_value c = join es [slash]
  end.
Proof. apply resolveChecker_choice. Qed.
End Spec.

Lemma resolveChecker_safe_witness :
  @resolveChecker ascii_tables ($" external:a/../b//c.cpp ") [] = inr (MkChoice checkerExternal ($"b/c.cpp"))
  /\ exists es, es <> [] /\ Forall entry_name es /\ elements_of ($"b/c.cpp") = es
               /\ $"b/c.cpp" = join es [slash].
Proof.
  split; [reflexivity|].
  apply (@resolveChecker_safe ascii_tables ($" external:a/../b//c.cpp ") []
           (MkChoice checkerExternal ($"b/c.cpp")) eq_refl).
Defined.
