(* ===== verification/CheckerCache.v ===== *)
(** * The checker compile cache ([src/internal/service/checker_compiler.go])

    [compile] consults an LRU cache keyed by the SHA-256 of the source, and
    compiles at most once at a time per key through a single-flight group.  The
    LRU cache and the single-flight group are libraries: the cache is the
    interface [LRU] with the laws [LRULaws]; the group's documented behaviour
    is the step relation [cache_step], which also interleaves any number of
    concurrent callers.  [compile] is what one caller alone does. *)

From S2P Require Import Prelude Text GoText Model Sandbox Execution Language Checker.

Definition checkerCacheEntries : Z := 64.

(** ** The LRU cache *)

(** [get] refreshes the entry it finds; [add] may evict another entry. *)
Class LRU (K V C : Type) := {
  lru_new : Z -> C;
  lru_get : K -> C -> option V * C;
  lru_add : K -> V -> C -> C }.

Class LRULaws (K V C : Type) {EqK : EqDecision K} {L : LRU K V C} : Prop := {
  get_new k n : fst (lru_get k (lru_new n)) = None;
  get_refresh k k' c : fst (lru_get k (snd (lru_get k' c))) = fst (lru_get k c);
  get_added k v c : fst (lru_get k (lru_add k v c)) = Some v;
  get_kept k k' v v' c : k <> k' ->
    fst (lru_get k' (lru_add k v c)) = Some v' -> fst (lru_get k' c) = Some v' }.

(** ** One caller *)

Section Compiler.
(** [crypto/sha256.Sum256], of which only its being a function matters. *)
Context (Sum256 : bytes -> bytes).
Context {C : Type} {L : LRU bytes CompileOutput C}.
Context {S : Type} `{Executor S}.
Context (testlibHeader : bytes).

Definition checker_compile_request (source : bytes) : CompileRequest :=
  let profile := checkerCompileProfile in
  MkCompileRequest
    [MkFile (cfg_SourceFile profile) source 420; MkFile testlibHeaderKey testlibHeader 420]
    (cfg_ImageRef profile) (cfg_BuildCommand profile) (cfg_ArtifactName profile)
    (compile_limits profile).

Definition compileUncached (source : bytes) (s : S) : (GoError + CompileOutput) * S :=
  let '(out, s) := Execution.Compile (checker_compile_request source) s in
  (match out with
   | inl err => inl (Errorf ($"checker setup failed: %w") [AErr err])
   | inr out => inr out
   end, s).

(** The function that [group.Do] runs. *)
Definition do_compile (source : bytes) (cache : C) (s : S)
  : (GoError + CompileOutput) * C * S :=
  let key := Sum256 source in
  let '(found, cache) := lru_get key cache in
  match found with
  | Some compilation => (inr compilation, cache, s)
  | None =>
      let '(out, s) := compileUncached source s in
      match out with
      | inl err => (inl err, cache, s)
      | inr compilation =>
          (inr compilation,
           match CArtifact compilation with
           | Some _ => lru_add key compilation cache
           | None => cache
           end, s)
      end
  end.

Definition compile (source : bytes) (cache : C) (s : S) : (GoError + CompileOutput) * C * S :=
  let key := Sum256 source in
  let '(found, cache) := lru_get key cache in
  match found with
  | Some compilation => (inr compilation, cache, s)
  | None => do_compile source cache s
  end.

Definition prepare (source : bytes) (cache : C) (s : S)
  : (GoError + (option Artifact * CompileResult)) * C * S :=
  let '(out, cache, s) := compile source cache s in
  (match out with
   | inl err => inl err
   | inr compilation =>
       inr (CArtifact compilation,
            MkCompileResult (bool_decide (is_Some (CArtifact compilation))) (CLog compilation))
   end, cache, s).
End Compiler.

(** ** Concurrent callers *)

(** A caller: after its call, after a miss, waiting for the flight of its key,
    or returned. *)
Inductive caller :=
  | Called (source : bytes)
  | Missed (source : bytes)
  | Waiting (source : bytes)
  | Returned (source : bytes) (res : GoError + CompileOutput).

(** A flight: before its own look at the cache, compiling, or with its
    result. *)
Inductive flight :=
  | Started (source : bytes)
  | Compiling (source : bytes)
  | Landed (source : bytes) (res : GoError + CompileOutput).

Section Group.
Context (Sum256 : bytes -> bytes).
Context {C : Type} {L : LRU bytes CompileOutput C}.

(** [compiled] is ghost state: the finished compilations, in order. *)
Record group_state := MkGroup {
  cache : C;
  callers : gmap nat caller;
  flights : gmap bytes flight;
  compiled : list (bytes * (GoError + CompileOutput)) }.

Definition new_group : group_state := MkGroup (lru_new checkerCacheEntries) ∅ ∅ [].

(** Delivery of a flight's result to the callers that wait for its key. *)
Definition deliver (key : bytes) (res : GoError + CompileOutput) (c : caller) : caller :=
  match c with
  | Waiting s => if decide (Sum256 s = key) then Returned s res else c
  | _ => c
  end.

(** What a compilation that ended with [res] does to the cache. *)
Definition store (key : bytes) (res : GoError + CompileOutput) (c : C) : C :=
  match res with
  | inr out => match CArtifact out with Some _ => lru_add key out c | None => c end
  | inl _ => c
  end.

Inductive cache_step : group_state -> group_state -> Prop :=
  | step_call g s st : callers st !! g = None ->
      cache_step st (MkGroup (cache st) (<[g := Called s]> (callers st)) (flights st) (compiled st))
  | step_hit g s out c st : callers st !! g = Some (Called s) ->
      lru_get (Sum256 s) (cache st) = (Some out, c) ->
      cache_step st (MkGroup c (<[g := Returned s (inr out)]> (callers st)) (flights st)
                       (compiled st))
  | step_miss g s c st : callers st !! g = Some (Called s) ->
      lru_get (Sum256 s) (cache st) = (None, c) ->
      cache_step st (MkGroup c (<[g := Missed s]> (callers st)) (flights st) (compiled st))
  | step_join g s st : callers st !! g = Some (Missed s) ->
      is_Some (flights st !! Sum256 s) ->
      cache_step st (MkGroup (cache st) (<[g := Waiting s]> (callers st)) (flights st)
                       (compiled st))
  | step_lead g s st : callers st !! g = Some (Missed s) ->
      flights st !! Sum256 s = None ->
      cache_step st (MkGroup (cache st) (<[g := Waiting s]> (callers st))
                       (<[Sum256 s := Started s]> (flights st)) (compiled st))
  | step_late_hit s out c st : flights st !! Sum256 s = Some (Started s) ->
      lru_get (Sum256 s) (cache st) = (Some out, c) ->
      cache_step st (MkGroup c (callers st) (<[Sum256 s := Landed s (inr out)]> (flights st))
                       (compiled st))
  | step_compile s c st : flights st !! Sum256 s = Some (Started s) ->
      lru_get (Sum256 s) (cache st) = (None, c) ->
      cache_step st (MkGroup c (callers st) (<[Sum256 s := Compiling s]> (flights st))
                       (compiled st))
  | step_compiled s res st : flights st !! Sum256 s = Some (Compiling s) ->
      cache_step st (MkGroup (store (Sum256 s) res (cache st)) (callers st)
                       (<[Sum256 s := Landed s res]> (flights st))
                       (compiled st ++ [(s, res)]))
  | step_land s res st : flights st !! Sum256 s = Some (Landed s res) ->
      cache_step st (MkGroup (cache st) (deliver (Sum256 s) res <$> callers st)
                       (delete (Sum256 s) (flights st)) (compiled st)).
End Group.

(** ** An LRU cache *)

(** The most recent entry first; the concrete cache of the examples. *)
Record assoc_lru := MkLru { capacity : Z; entries : list (bytes * CompileOutput) }.

Fixpoint assoc (k : bytes) (l : list (bytes * CompileOutput)) : option CompileOutput :=
  match l with
  | [] => None
  | (k', v) :: l => if decide (k = k') then Some v else assoc k l
  end.

Definition without (k : bytes) (l : list (bytes * CompileOutput)) : list (bytes * CompileOutput) :=
  filter (fun e => e.1 <> k) l.

#[export] Instance assoc_LRU : LRU bytes CompileOutput assoc_lru := {|
  lru_new n := MkLru n [];
  lru_get k c :=
    match assoc k (entries c) with
    | Some v => (Some v, MkLru (capacity c) ((k, v) :: without k (entries c)))
    | None => (None, c)
    end;
  lru_add k v c := MkLru (capacity c) ((k, v) :: ztake (capacity c - 1) (without k (entries c))) |}.
