(* ===== verification/CacheSpec.v ===== *)
(** * Correctness of the checker compile cache

    For every interleaving of concurrent callers, whatever the compilations
    return and whatever the cache evicts. *)

From S2P Require Import Prelude Text GoText Model Execution Language Checker CheckerCache.

Section Spec.
Context (Sum256 : bytes -> bytes).
Context {C : Type} `{LRULaws bytes CompileOutput C}.

Abbreviation state := (@group_state C).
Abbreviation step := (@cache_step Sum256 C L).
Abbreviation cached k c := (fst (@lru_get bytes CompileOutput C L k c)).

(** [res] is the result of a finished compilation of a source with this key. *)
Definition explained (st : state) (key : bytes) (res : GoError + CompileOutput) : Prop :=
  exists s, Sum256 s = key /\ (s, res) ∈ compiled st.

Definition flight_ok (st : state) (key : bytes) (f : flight) : Prop :=
  match f with
  | Started s => Sum256 s = key
  | Compiling s => Sum256 s = key /\ cached key (cache st) = None
  | Landed s res => Sum256 s = key /\ explained st key res
  end.

Definition caller_ok (st : state) (c : caller) : Prop :=
  match c with
  | Waiting s => is_Some (flights st !! Sum256 s)
  | Returned s res => explained st (Sum256 s) res
  | _ => True
  end.

Record group_inv (st : state) : Prop := GroupInv {
  inv_cached key out : cached key (cache st) = Some out ->
    is_Some (CArtifact out) /\ explained st key (inr out);
  inv_flights key f : flights st !! key = Some f -> flight_ok st key f;
  inv_callers g c : callers st !! g = Some c -> caller_ok st c }.

Lemma new_group_inv : group_inv new_group.
Proof.
  split; simpl.
  - intros key out. by rewrite get_new.
  - intros key f. by rewrite lookup_empty.
  - intros g c. by rewrite lookup_empty.
Qed.

Lemma refreshed k s c c' r : lru_get s c = (r, c') -> cached k c' = cached k c.
Proof. intros E. rewrite <- (get_refresh k s c). by rewrite E. Qed.

(** Storing a result only adds its own key, and only with an artifact. *)
Lemma store_cached key res k out c :
  cached k (store key res c) = Some out ->
  (k = key /\ res = inr out /\ is_Some (CArtifact out)) \/ cached k c = Some out.
Proof.
  unfold store. destruct res as [err|o]; [by right|].
  destruct (CArtifact o) eqn:A; [|by right]. intros G.
  destruct (decide (key = k)) as [->|Hne]; [|right; by eapply get_kept].
  rewrite get_added in G. injection G as ->. left. eauto.
Qed.

(** Steps that only move a caller, or refresh the cache. *)
Lemma inv_caller st c g x : group_inv st ->
  (forall k, cached k c = cached k (cache st)) -> caller_ok st x ->
  group_inv (MkGroup c (<[g := x]> (callers st)) (flights st) (compiled st)).
Proof.
  intros [I1 I2 I3] Hc Hx. split; simpl.
  - intros k out. rewrite Hc. apply I1.
  - intros k f Hf. specialize (I2 _ _ Hf). destruct f; simpl in *; rewrite ?Hc; auto.
  - intros g' y. rewrite lookup_insert_Some. intros [[_ <-]|[_ Hy]]; [done|]. by apply (I3 g').
Qed.

Lemma inv_flight st c key f more : group_inv st ->
  (forall k out, cached k c = Some out -> cached k (cache st) = Some out
     \/ k = key /\ is_Some (CArtifact out)
        /\ exists s, Sum256 s = key /\ (s, inr out) ∈ compiled st ++ more) ->
  flight_ok (MkGroup c (callers st) (flights st) (compiled st ++ more)) key f ->
  group_inv (MkGroup c (callers st) (<[key := f]> (flights st)) (compiled st ++ more)).
Proof.
  intros [I1 I2 I3] Hc Hf.
  assert (Hmore : forall k res, explained st k res ->
    explained (MkGroup c (callers st) (<[key := f]> (flights st)) (compiled st ++ more)) k res).
  { intros k res (s & ? & ?). exists s. split; [done|]. simpl. rewrite elem_of_app. auto. }
  split; simpl.
  - intros k out [Ho|(-> & Ha & s & ? & ?)]%Hc; [|split; [done|]; by exists s].
    destruct (I1 _ _ Ho) as [? ?]. split; [done|]. by apply Hmore.
  - intros k f'. rewrite lookup_insert_Some. intros [[<- <-]|[Hne Hf']]; [by destruct f|].
    specialize (I2 _ _ Hf'). destruct f' as [s|s|s res]; simpl in *; [done | |].
    + destruct I2 as [? Hn]. split; [done|]. destruct (cached k c) eqn:E; [|done].
      destruct (Hc _ _ E) as [?|(-> & _)]; [congruence | done].
    + destruct I2 as [? ?]. split; [done|]. by apply Hmore.
  - intros g x Hx. specialize (I3 _ _ Hx). destruct x; simpl in *; try done; [|by apply Hmore].
    rewrite lookup_insert_is_Some'. auto.
Qed.

Lemma inv_land st s res : group_inv st -> flights st !! Sum256 s = Some (Landed s res) ->
  group_inv (MkGroup (cache st) (deliver Sum256 (Sum256 s) res <$> callers st)
               (delete (Sum256 s) (flights st)) (compiled st)).
Proof.
  intros [I1 I2 I3] Hf. split; simpl; [done | |].
  - intros k f. rewrite lookup_delete_Some. intros [_ H']. by apply I2.
  - intros g x. rewrite lookup_fmap, fmap_Some. intros (c & Hc & ->). specialize (I3 _ _ Hc).
    destruct c as [| |s'|]; simpl in *; try done. case_decide as E; simpl.
    + rewrite E. by apply (I2 _ _ Hf).
    + by rewrite lookup_delete_ne by congruence.
Qed.

Lemma cache_step_inv st st' : group_inv st -> step st st' -> group_inv st'.
Proof.
  intros I Hs. destruct Hs as [g s st Hg | g s out c st Hg Hl | g s c st Hg Hl | g s st Hg Hf
    | g s st Hg Hf | s out c st Hf Hl | s c st Hf Hl | s res st Hf | s res st Hf].
  - by apply inv_caller.
  - apply inv_caller; [done | intros k; by eapply refreshed |].
    apply (inv_cached _ I). by rewrite Hl.
  - apply inv_caller; [done | intros k; by eapply refreshed | done].
  - by apply inv_caller.
  - assert (J : group_inv (MkGroup (cache st) (callers st) (<[Sum256 s := Started s]> (flights st))
                             (compiled st))).
    { rewrite <- (app_nil_r (compiled st)). apply inv_flight; [done | by left | done]. }
    apply (inv_caller _ (cache st) g (Waiting s) J); [done|]. simpl. by rewrite lookup_insert_eq.
  - rewrite <- (app_nil_r (compiled st)). apply inv_flight; [done | |].
    + intros k o. rewrite (refreshed k _ _ _ _ Hl). auto.
    + split; [done|]. simpl. unfold explained. simpl. rewrite app_nil_r.
      apply (inv_cached _ I). by rewrite Hl.
  - rewrite <- (app_nil_r (compiled st)). apply inv_flight; [done | |].
    + intros k o. rewrite (refreshed k _ _ _ _ Hl). auto.
    + split; [done|]. simpl. rewrite (refreshed _ _ _ _ _ Hl). by rewrite Hl.
  - apply inv_flight; [done | |].
    + intros k o [(-> & -> & ?)|?]%store_cached; [|by left]. right. split; [done|]. split; [done|].
      exists s. rewrite elem_of_app, list_elem_of_singleton. auto.
    + split; [done|]. exists s. simpl. rewrite elem_of_app, list_elem_of_singleton. auto.
  - by apply inv_land.
Qed.

Lemma reachable_inv st : rtc step new_group st -> group_inv st.
Proof. intros Hs. pose proof new_group_inv as I. induction Hs; eauto using cache_step_inv. Qed.

(** C26: whatever the interleaving of concurrent callers: what a caller gets
    is the result of a finished compilation of a source with the same SHA-256,
    and so are the cached entries, which all have an artifact; a caller that
    waits always waits for a flight that is under way; a compilation finishes
    only for a key that is not cached, so a source is compiled again only
    after a failure or an eviction; and a success is cached at once, while a
    failure leaves the cache as it was. *)
Theorem cache_correct (st : state) :
  rtc step new_group st ->
  (forall g s res, callers st !! g = Some (Returned s res) -> explained st (Sum256 s) res)
  /\ (forall key out, cached key (cache st) = Some out ->
        is_Some (CArtifact out) /\ explained st key (inr out))
  /\ (forall g s, callers st !! g = Some (Waiting s) -> is_Some (flights st !! Sum256 s))
  /\ (forall st' s res, step st st' -> compiled st' = compiled st ++ [(s, res)] ->
        cached (Sum256 s) (cache st) = None
        /\ match res with
           | inr out => is_Some (CArtifact out) -> cached (Sum256 s) (cache st') = Some out
           | inl _ => cache st' = cache st
           end).
Proof.
  intros Hs. pose proof (reachable_inv st Hs) as I.
  split; [intros g s res Hg; apply (inv_callers _ I _ _ Hg)|].
  split; [apply (inv_cached _ I)|].
  split; [intros g s Hg; apply (inv_callers _ I _ _ Hg)|].
  intros st' s res Hstep Hc.
  assert (Hno : compiled st <> compiled st ++ [(s, res)]).
  { intros E. apply (f_equal length) in E. rewrite length_app in E. simpl in E. lia. }
  destruct Hstep as [| | | | | | | s' res' st Hf | ]; try (simpl in Hc; by destruct (Hno Hc)).
  simpl in Hc. apply app_inj_tail in Hc as [_ [= -> ->]].
  split; [apply (inv_flights _ I _ _ Hf)|]. simpl. destruct res as [|out]; [done|].
  intros [a Ha]. unfold store. rewrite Ha. apply get_added.
Qed.
End Spec.

(** ** The concrete cache *)

Lemma assoc_without k k' l : k' <> k -> assoc k' (without k l) = assoc k' l.
Proof.
  intros Hne. induction l as [|[k'' v] l IH]; [done|]. unfold without. rewrite filter_cons. simpl.
  destruct (decide (k'' <> k)) as [|E]; simpl; [by rewrite <- IH|].
  rewrite decide_False; [apply IH|]. intros ->. by apply E.
Qed.

Lemma assoc_take k n l v : assoc k (take n l) = Some v -> assoc k l = Some v.
Proof.
  revert n. induction l as [|[k' v'] l IH]; intros [|n]; simpl; try done.
  destruct (decide (k = k')); [done | apply IH].
Qed.

#[export] Instance assoc_LRULaws : LRULaws bytes CompileOutput assoc_lru.
Proof.
  split.
  - done.
  - intros k k' c. simpl. destruct (assoc k' (entries c)) as [v|] eqn:E; simpl; [|done].
    destruct (decide (k = k')) as [->|]; [by rewrite E|]. rewrite assoc_without by done.
    by destruct (assoc k (entries c)).
  - intros k v c. simpl. by rewrite decide_True.
  - intros k k' v v' c Hne. simpl. rewrite decide_False by done.
    destruct (assoc k' (ztake _ _)) as [w|] eqn:E; simpl; [|done]. intros [= ->].
    unfold ztake in E. destruct (zlen _ <=? _); [|apply assoc_take in E];
      rewrite assoc_without in E by done; by rewrite E.
Qed.

(** Two callers of one source share a compilation; the hash is constant. *)
Definition sample_out : CompileOutput := MkCompileOutput [] (Some (MkArtifact ($"checker") ($"ELF") 493)).

(** Keeps the states of an execution small. *)
Ltac project := cbn [cache callers flights compiled].

Lemma cache_correct_witness :
  exists st : @group_state assoc_lru,
    rtc (cache_step (fun _ => [])) new_group st
    /\ callers st !! 1%nat = Some (Returned ($"src") (inr sample_out))
    /\ callers st !! 2%nat = Some (Returned ($"src") (inr sample_out))
    /\ compiled st = [($"src", inr sample_out)]
    /\ is_Some (CArtifact sample_out) /\ explained (fun _ => []) st [] (inr sample_out).
Proof.
  assert (R : exists st : @group_state assoc_lru, rtc (cache_step (fun _ => [])) new_group st
    /\ callers st !! 1%nat = Some (Returned ($"src") (inr sample_out))
    /\ callers st !! 2%nat = Some (Returned ($"src") (inr sample_out))
    /\ compiled st = [($"src", inr sample_out)]
    /\ fst (lru_get [] (cache st)) = Some sample_out).
  { eexists. split.
    - eapply rtc_l; [apply (step_call _ 1%nat ($"src")); vm_compute; reflexivity | project].
      eapply rtc_l; [apply (step_call _ 2%nat ($"src")); vm_compute; reflexivity | project].
      eapply rtc_l; [apply (step_miss _ 1%nat ($"src")); vm_compute; reflexivity | project].
      eapply rtc_l; [apply (step_miss _ 2%nat ($"src")); vm_compute; reflexivity | project].
      eapply rtc_l; [apply (step_lead _ 1%nat ($"src")); vm_compute; reflexivity | project].
      eapply rtc_l; [apply (step_compile _ ($"src")); vm_compute; reflexivity | project].
      eapply rtc_l; [apply (step_join _ 2%nat ($"src")); vm_compute; [reflexivity | by eexists] | project].
      eapply rtc_l; [apply (step_compiled _ ($"src") (inr sample_out)); vm_compute; reflexivity | project].
      eapply rtc_l; [apply (step_land _ ($"src") (inr sample_out)); vm_compute; reflexivity | project]. apply rtc_refl.
    - repeat split; vm_compute; reflexivity. }
  destruct R as (st & S & R1 & R2 & R3 & R4). exists st. repeat (split; [assumption|]).
  exact (proj1 (proj2 (cache_correct (fun _ => []) st S)) [] sample_out R4).
Defined.
