(* ===== verification/Judge.v ===== *)
(** * The judge ([src/internal/service/judge_service.go])

    Validation of a request, materialisation of its resources, compilation of
    the program and of the checker, the test cases and the overall status.
    [runAllCases] starts one goroutine per case; [case_step] interleaves them
    in every order, and [runAllCases] below is the order of the list. *)

From S2P Require Import Prelude Text GoText Model Sandbox Execution Language Checker CheckerCache.

Definition maxTestCases : Z := 64.

(** ** Validation *)

Definition validateJudgeTestCase (index : Z) (tc : JudgeTestCase) : option GoError :=
  let hasInputFile := negb (bool_decide (InputFile tc = [])) in
  let hasExpectedOutputFile := negb (bool_decide (ExpectedOutputFile tc = [])) in
  let hasText := negb (bool_decide (InputText tc = [])) || negb (bool_decide (ExpectedOutput tc = [])) in
  if hasText && (hasInputFile || hasExpectedOutputFile)
  then Some (Errorf ($"testcases[%d]: cannot mix text and file data") [ADec index])
  else if negb (Bool.eqb hasInputFile hasExpectedOutputFile)
  then Some (Errorf ($"testcases[%d]: inputFile and expectedOutputFile must be provided together")
               [ADec index])
  else if hasInputFile && negb (fs_ValidPath (InputFile tc))
  then Some (Errorf ($"testcases[%d]: inputFile must be a valid relative path") [ADec index])
  else if hasExpectedOutputFile && negb (fs_ValidPath (ExpectedOutputFile tc))
  then Some (Errorf ($"testcases[%d]: expectedOutputFile must be a valid relative path") [ADec index])
  else None.

Fixpoint validate_cases (index : Z) (cases : list JudgeTestCase) : option GoError :=
  match cases with
  | [] => None
  | tc :: cases =>
      match validateJudgeTestCase index tc with
      | Some err => Some err
      | None => validate_cases (index + 1) cases
      end
  end.

Definition validateJudgeRequest (req : JudgeRequest) : option GoError :=
  if bool_decide (TrimSpace (SourceCode req) = []) then Some (errors_New ($"sourceCode is required"))
  else if bool_decide (ReqLanguage req = LanguageUnknown) then Some (errors_New ($"language is required"))
  else if TimeLimit req =? 0 then Some (errors_New ($"timeLimit must be positive"))
  else if MemoryLimit req =? 0 then Some (errors_New ($"memoryLimit must be positive"))
  else if zlen (TestCases req) =? 0 then Some (errors_New ($"testcases must not be empty"))
  else if maxTestCases <? zlen (TestCases req)
  then Some (Errorf ($"testcases must contain at most %d cases") [ADec maxTestCases])
  else validate_cases 0 (TestCases req).

(** ** Materialisation *)

Record caseData := MkCase { c_input : bytes; c_expectedOutput : bytes }.

Record judgePlan := MkPlan {
  p_sourceCode : bytes;
  p_timeLimit : Z;
  p_memoryLimit : Z;
  p_cases : list caseData;
  p_compiler : resolvedLanguage;
  p_checker : bytes;
  p_checkerProvidedByRequest : bool }.

Definition materializeCase (externalFS : option FS) (tc : JudgeTestCase) : GoError + caseData :=
  if bool_decide (InputFile tc = []) then inr (MkCase (InputText tc) (ExpectedOutput tc))
  else
    match externalFS with
    | None => inl (Errorf ($"inputFile %q requires external resources") [AQuote (InputFile tc)])
    | Some fs =>
        match fs (InputFile tc) with
        | inl err => inl (Errorf ($"inputFile %q is not available: %w")
                            [AQuote (InputFile tc); AErr err])
        | inr input =>
            match fs (ExpectedOutputFile tc) with
            | inl err => inl (Errorf ($"expectedOutputFile %q is not available: %w")
                                [AQuote (ExpectedOutputFile tc); AErr err])
            | inr expectedOutput => inr (MkCase input expectedOutput)
            end
        end
    end.

Fixpoint materialize_cases (externalFS : option FS) (index : Z) (cases : list JudgeTestCase)
  : GoError + list caseData :=
  match cases with
  | [] => inr []
  | tc :: cases =>
      match materializeCase externalFS tc with
      | inl err => inl (Errorf ($"testcases[%d]: %w") [ADec index; AErr err])
      | inr data =>
          match materialize_cases externalFS (index + 1) cases with
          | inl err => inl err
          | inr rest => inr (data :: rest)
          end
      end
  end.

Definition materialize (bundledFS : FS) (externalFS : option FS) (req : JudgeRequest)
    (compiler : resolvedLanguage) (choice : checkerChoice) : GoError + judgePlan :=
  match readSource bundledFS externalFS choice with
  | inl err => inl err
  | inr src =>
      match materialize_cases externalFS 0 (TestCases req) with
      | inl err => inl err
      | inr cases =>
          inr (MkPlan (SourceCode req) (TimeLimit req) (MemoryLimit req) cases compiler src
                      (providedByRequest choice))
      end
  end.

(** ** Results *)

Definition failedBeforeRun (log : bytes) : JudgeResult :=
  MkJudgeResult JudgeStatusSystemError (MkCompileResult false log) None [].

Definition judgeCaseResultFromExecution (r : RunResult) (v : Model.Verdict) (extraInfo : bytes)
  : JudgeCaseResult :=
  MkCaseResult v (RStdout r) (RCPUTimeMs r) (RMemoryMB r) (RExitCode r) extraInfo.

Fixpoint aggregate_loop (status : JudgeStatus) (cases : list JudgeCaseResult) : JudgeStatus :=
  match cases with
  | [] => status
  | c :: cases =>
      if bool_decide (CaseVerdict c = Model.VerdictUKE) then JudgeStatusSystemError
      else aggregate_loop
             (if bool_decide (CaseVerdict c = VerdictCheckerExecutionError)
              then JudgeStatusCheckerExecutionError else status) cases
  end.

Definition aggregateStatus (cases : list JudgeCaseResult) : JudgeStatus :=
  aggregate_loop JudgeStatusOK cases.

(** ** One case *)

Record caseRunner := MkRunner {
  r_program : compiledProgram; r_checker : Artifact; r_userChecker : bool;
  r_timeLimit : Z; r_memLimit : Z }.

Section Cases.
Context `{UnicodeTables}.
Context {S : Type} `{Executor S}.

(** After the program ran: a final result, or the output to check. *)
Definition after_run (out : GoError + RunResult) : JudgeCaseResult + RunResult :=
  match out with
  | inl err =>
      inl (MkCaseResult Model.VerdictUKE [] 0 0 0 ($"infrastructure error: " ++ error_text err))
  | inr runResult =>
      if negb (bool_decide (RVerdict runResult = Model.VerdictOK))
      then inl (judgeCaseResultFromExecution runResult (RVerdict runResult) (RExtraInfo runResult))
      else inr runResult
  end.

Definition checker_message (c : checkerResult) : bytes :=
  if bool_decide (Message c = []) then
    match Outcome c with
    | checkerRejected => $"checker reported wrong answer"
    | checkerFailed => $"checker execution failed"
    | checkerAccepted => []
    end
  else Message c.

Definition checker_verdict (userChecker : bool) (o : checkerOutcome) : Model.Verdict :=
  match o with
  | checkerAccepted => Model.VerdictOK
  | checkerRejected => VerdictWA
  | checkerFailed => if userChecker then VerdictCheckerExecutionError else Model.VerdictUKE
  end.

Definition after_check (userChecker : bool) (runResult : RunResult) (out : GoError + checkerResult)
  : JudgeCaseResult :=
  match out with
  | inl err =>
      judgeCaseResultFromExecution runResult Model.VerdictUKE
        ($"checker infrastructure error: " ++ error_text err)
  | inr c =>
      judgeCaseResultFromExecution runResult (checker_verdict userChecker (Outcome c))
        (checker_message c)
  end.

Definition runCase (r : caseRunner) (tc : caseData) (s : S) : JudgeCaseResult * S :=
  let '(out, s) := program_Run (r_program r) (c_input tc) (r_timeLimit r) (r_memLimit r) s in
  match after_run out with
  | inl res => (res, s)
  | inr runResult =>
      let '(out, s) := Check (r_checker r) (c_input tc) (RStdout runResult) (c_expectedOutput tc) s in
      (after_check (r_userChecker r) runResult out, s)
  end.

Fixpoint runAllCases (r : caseRunner) (cases : list caseData) (s : S)
  : list JudgeCaseResult * S :=
  match cases with
  | [] => ([], s)
  | tc :: cases =>
      let '(res, s) := runCase r tc s in
      let '(results, s) := runAllCases r cases s in (res :: results, s)
  end.

(** ** All cases, concurrently *)

(** A goroutine: before its program ran, before its output is checked, or
    done. *)
Inductive case_thread := Pending | Unchecked (runResult : RunResult) | Finished.

Definition zeroResult : JudgeCaseResult := MkCaseResult Model.VerdictUKE [] 0 0 0 [].

(** [results] is the shared slice that the goroutines write, each at its own
    index; its initial elements do not matter. *)
Record cases_state := MkCases { cs_exec : S; cs_threads : list case_thread;
                                cs_results : list JudgeCaseResult }.

Definition initial_cases (cases : list caseData) (s : S) : cases_state :=
  MkCases s (replicate (length cases) Pending) (replicate (length cases) zeroResult).

(** The two calls of goroutine [i], each one step of the executor. *)
Inductive case_step (r : caseRunner) (cases : list caseData) : cases_state -> cases_state -> Prop :=
  | case_run_step i tc out s st :
      cs_threads st !! i = Some Pending -> cases !! i = Some tc ->
      program_Run (r_program r) (c_input tc) (r_timeLimit r) (r_memLimit r) (cs_exec st) = (out, s) ->
      case_step r cases st
        match after_run out with
        | inl res => MkCases s (<[i := Finished]> (cs_threads st)) (<[i := res]> (cs_results st))
        | inr runResult => MkCases s (<[i := Unchecked runResult]> (cs_threads st)) (cs_results st)
        end
  | case_check_step i tc runResult out s st :
      cs_threads st !! i = Some (Unchecked runResult) -> cases !! i = Some tc ->
      Check (r_checker r) (c_input tc) (RStdout runResult) (c_expectedOutput tc) (cs_exec st)
        = (out, s) ->
      case_step r cases st
        (MkCases s (<[i := Finished]> (cs_threads st))
           (<[i := after_check (r_userChecker r) runResult out]> (cs_results st))).

(** [wg.Wait()] returns. *)
Definition all_finished (st : cases_state) : Prop :=
  Forall (fun t => t = Finished) (cs_threads st).

(** ** The whole request *)

Context (Sum256 : bytes -> bytes).
Context {C : Type} {L : LRU bytes CompileOutput C}.
Context (testlibHeader : bytes) (bundledFS : FS) (externalFS : option FS).

Definition executeJudgePlan (plan : judgePlan) (cache : C) (s : S) : JudgeResult * C * S :=
  let '(compiled, s) := language_Compile (p_compiler plan) (p_sourceCode plan) s in
  match compiled with
  | inl err => (failedBeforeRun ($"compile infrastructure error: " ++ error_text err), cache, s)
  | inr (None, compileResult) =>
      (MkJudgeResult JudgeStatusCompileError compileResult None [], cache, s)
  | inr (Some program, compileResult) =>
      let '(compilation, cache, s) := prepare Sum256 testlibHeader (p_checker plan) cache s in
      match compilation with
      | inl _ => (MkJudgeResult JudgeStatusSystemError compileResult None [], cache, s)
      | inr (None, checkerCompile) =>
          (MkJudgeResult (if p_checkerProvidedByRequest plan then JudgeStatusCheckerCompileError
                          else JudgeStatusSystemError)
             compileResult (Some checkerCompile) [], cache, s)
      | inr (Some checker, checkerCompile) =>
          let runner := MkRunner program checker (p_checkerProvidedByRequest plan)
                          (p_timeLimit plan) (p_memoryLimit plan) in
          let '(caseResults, s) := runAllCases runner (p_cases plan) s in
          (MkJudgeResult (aggregateStatus caseResults) compileResult (Some checkerCompile)
             caseResults, cache, s)
      end
  end.

(** [acquire] is the error of [concurrencySem.Acquire], if any. *)
Definition Judge (acquire : option GoError) (req : JudgeRequest) (cache : C) (s : S)
  : (GoError + JudgeResult) * C * S :=
  match validateJudgeRequest req with
  | Some err => (inl err, cache, s)
  | None =>
      match language_Resolve (ReqLanguage req) with
      | inl err => (inl err, cache, s)
      | inr compiler =>
          match resolveChecker (Checker req) (CheckerSourceCode req) with
          | inl err => (inl err, cache, s)
          | inr choice =>
              match acquire with
              | Some _ =>
                  (inr (failedBeforeRun
                          ($"judge request cancelled or timed out while waiting for capacity")),
                   cache, s)
              | None =>
                  match materialize bundledFS externalFS req compiler choice with
                  | inl err => (inl err, cache, s)
                  | inr plan =>
                      let '(res, cache, s) := executeJudgePlan plan cache s in (inr res, cache, s)
                  end
              end
          end
      end
  end.
End Cases.
