(* ===== verification/JudgeSpec.v ===== *)
(** * Correctness of the judge

    Which requests are accepted, what each overall status means, and that the
    concurrent test cases give the results of their own cases in the order of
    the request. *)

From S2P Require Import Prelude Text GoText Model Sandbox Execution ExecutionSpec Language.
From S2P Require Import Checker CheckerCache Judge.

(** ** Validation *)

Definition valid_case (tc : JudgeTestCase) : Prop :=
  (InputFile tc = [] /\ ExpectedOutputFile tc = [])
  \/ (InputText tc = [] /\ ExpectedOutput tc = []
      /\ InputFile tc <> [] /\ fs_ValidPath (InputFile tc) = true
      /\ ExpectedOutputFile tc <> [] /\ fs_ValidPath (ExpectedOutputFile tc) = true).

Definition valid_request (r : JudgeRequest) : Prop :=
  TrimSpace (SourceCode r) <> [] /\ ReqLanguage r <> LanguageUnknown /\ TimeLimit r <> 0
  /\ MemoryLimit r <> 0 /\ (1 <= zlen (TestCases r) <= 64) /\ Forall valid_case (TestCases r).

Lemma validateJudgeTestCase_valid i tc : validateJudgeTestCase i tc = None <-> valid_case tc.
Proof.
  unfold validateJudgeTestCase, valid_case.
  destruct (decide (InputText tc = [])), (decide (ExpectedOutput tc = [])),
    (decide (InputFile tc = [])), (decide (ExpectedOutputFile tc = []));
    repeat match goal with
    | E : _ = [] |- context [bool_decide (?x = [])] => rewrite (bool_decide_true (x = [])) by done
    | E : _ <> [] |- context [bool_decide (?x = [])] => rewrite (bool_decide_false (x = [])) by done
    end; simpl; try (split; [done | tauto]); try (split; [tauto | done]).
  destruct (fs_ValidPath (InputFile tc)), (fs_ValidPath (ExpectedOutputFile tc)); simpl;
    (split; [try done; tauto | try done; intros [[? ?]|(? & ? & ? & ? & ? & ?)]; done]).
Qed.

Lemma validate_cases_valid cases i : validate_cases i cases = None <-> Forall valid_case cases.
Proof.
  revert i. induction cases as [|tc cases IH]; intros i; simpl; [by split|].
  rewrite Forall_cons_iff, <- (validateJudgeTestCase_valid i), <- (IH (i + 1)).
  destruct (validateJudgeTestCase i tc); split; [done | by intros [? _] | done | by intros [_ ?]].
Qed.

Lemma validateJudgeRequest_valid r : validateJudgeRequest r = None <-> valid_request r.
Proof.
  unfold validateJudgeRequest, valid_request, maxTestCases.
  rewrite <- (validate_cases_valid _ 0). pose proof (zlen_nonneg (TestCases r)).
  repeat match goal with
  | |- context [bool_decide ?P] => destruct (bool_decide_reflect P); [split; [done | tauto]|]
  | |- context [?a =? ?b] => destruct (Z.eqb_spec a b); [split; [done | intros ?; lia || tauto]|]
  | |- context [?a <? ?b] => destruct (Z.ltb_spec a b); [split; [done | intros ?; lia]|]
  end.
  split; [intros ?|intros ?; tauto]. repeat split; try done; lia.
Qed.

(** ** Overall status *)

Definition user_failure (c : JudgeCaseResult) : Prop :=
  CaseVerdict c = VerdictCheckerExecutionError.
Definition system_failure (c : JudgeCaseResult) : Prop := CaseVerdict c = Model.VerdictUKE.

(** Once set, the checker status only changes to a system error. *)
Lemma aggregate_loop_spec st cases :
  (st = JudgeStatusOK \/ st = JudgeStatusCheckerExecutionError) ->
  match aggregate_loop st cases with
  | JudgeStatusSystemError => Exists system_failure cases
  | JudgeStatusCheckerExecutionError =>
      Forall (fun c => ~ system_failure c) cases
      /\ (st = JudgeStatusCheckerExecutionError \/ Exists user_failure cases)
  | JudgeStatusOK =>
      st = JudgeStatusOK /\ Forall (fun c => ~ system_failure c /\ ~ user_failure c) cases
  | _ => False
  end.
Proof.
  revert st. induction cases as [|c cases IH]; intros st Hst; simpl.
  { destruct Hst as [-> | ->]; simpl; auto. }
  case_bool_decide as E1; [by constructor|].
  specialize (IH (if bool_decide (CaseVerdict c = VerdictCheckerExecutionError)
                  then JudgeStatusCheckerExecutionError else st)).
  case_bool_decide as E2.
  - specialize (IH (or_intror eq_refl)). destruct (aggregate_loop _ cases); try done.
    + by destruct IH.
    + by constructor.
    + destruct IH as [IH _]. split; [by constructor|]. right. by constructor.
  - specialize (IH Hst). destruct (aggregate_loop _ cases); try done.
    + destruct IH as [-> IH]. split; [done|]. by constructor.
    + by constructor.
    + destruct IH as [IH [?|?]]; (split; [by constructor|]); [by left | right; by constructor].
Qed.

(** ** The cases, concurrently *)

Section Cases.
Context `{UnicodeTables}.
Context {S : Type} `{Executor S}.
Context (r : caseRunner).
Implicit Types st : @cases_state S.

(** [res] is what [runCase] makes of [tc] when its two executor calls meet
    some states of the executor. *)
Definition case_outcome (tc : caseData) (res : JudgeCaseResult) : Prop :=
  exists s1 out s2,
    program_Run (r_program r) (c_input tc) (r_timeLimit r) (r_memLimit r) s1 = (out, s2)
    /\ match after_run out with
       | inl x => res = x
       | inr runResult => exists s3 out' s4,
           Check (r_checker r) (c_input tc) (RStdout runResult) (c_expectedOutput tc) s3 = (out', s4)
           /\ res = after_check (r_userChecker r) runResult out'
       end.

Definition thread_ok (tc : caseData) (t : case_thread) (res : JudgeCaseResult) : Prop :=
  match t with
  | Pending => True
  | Unchecked runResult => exists s1 out s2,
      program_Run (r_program r) (c_input tc) (r_timeLimit r) (r_memLimit r) s1 = (out, s2)
      /\ after_run out = inr runResult
  | Finished => case_outcome tc res
  end.

Record cases_inv (cases : list caseData) (st : @cases_state S) : Prop := CasesInv {
  inv_threads : length (cs_threads st) = length cases;
  inv_results : length (cs_results st) = length cases;
  inv_thread i tc t res : cases !! i = Some tc -> cs_threads st !! i = Some t ->
    cs_results st !! i = Some res -> thread_ok tc t res }.

(** Goroutine [i] moves on: its thread, and possibly its result. *)
Lemma inv_move cases st i tc t res s : cases_inv cases st -> cases !! i = Some tc ->
  thread_ok tc t res -> forall results,
  results = <[i := res]> (cs_results st) \/ (results = cs_results st /\ forall x, thread_ok tc t x) ->
  cases_inv cases (MkCases s (<[i := t]> (cs_threads st)) results).
Proof.
  intros [I1 I2 I3] Htc Hok results Hr. split; simpl.
  - by rewrite length_insert.
  - destruct Hr as [-> | [-> _]]; [by rewrite length_insert | done].
  - intros j tc' t' res' Hj Ht Hres. destruct (decide (i = j)) as [<-|Hne].
    + rewrite Htc in Hj. injection Hj as <-.
      apply lookup_lt_Some in Htc. rewrite list_lookup_insert_eq in Ht by lia. injection Ht as <-.
      destruct Hr as [-> | [-> Hall]]; [|by apply Hall].
      rewrite list_lookup_insert_eq in Hres by lia. by injection Hres as <-.
    + rewrite list_lookup_insert_ne in Ht by done.
      apply (I3 j); [done | done |].
      destruct Hr as [-> | [-> _]]; [by rewrite list_lookup_insert_ne in Hres | done].
Qed.

Lemma case_step_inv cases st st' : cases_inv cases st -> case_step r cases st st' ->
  cases_inv cases st'.
Proof.
  intros I Hs. destruct Hs as [i tc out s st Ht Hc Hrun | i tc rr out s st Ht Hc Hcheck].
  - destruct (after_run out) as [res|rr] eqn:A.
    + apply (inv_move cases st i tc Finished res); auto. exists (cs_exec st), out, s. by rewrite A.
    + apply (inv_move cases st i tc (Unchecked rr) zeroResult); eauto.
      * exists (cs_exec st), out, s. done.
      * right. split; [done|]. intros x. exists (cs_exec st), out, s. done.
  - eapply (inv_move cases st i tc Finished); [done | done | | by left].
    assert (Hres : exists res, cs_results st !! i = Some res).
    { apply lookup_lt_is_Some. rewrite (inv_results _ _ I). by apply lookup_lt_Some in Hc. }
    destruct Hres as [res Hres].
    destruct (inv_thread _ _ I i tc _ res Hc Ht Hres) as (s1 & o & s2 & Hr & Ha).
    exists s1, o, s2. split; [done|]. rewrite Ha. eauto 6.
Qed.

Lemma initial_cases_inv cases s : cases_inv cases (initial_cases cases s).
Proof.
  split; simpl; [by rewrite length_replicate.. |].
  intros i tc t res _ [-> _]%lookup_replicate_1 _. done.
Qed.

Lemma cases_reachable cases s st : rtc (case_step r cases) (initial_cases cases s) st ->
  cases_inv cases st.
Proof.
  intros Hs. pose proof (initial_cases_inv cases s) as I. induction Hs; eauto using case_step_inv.
Qed.

Lemma finished_results cases st : cases_inv cases st -> all_finished st ->
  Forall2 case_outcome cases (cs_results st).
Proof.
  intros [I1 I2 I3] Hf. apply Forall2_same_length_lookup. split; [by rewrite I2|].
  intros i tc res Hc Hr.
  destruct (lookup_lt_is_Some_2 (cs_threads st) i) as [t Ht];
    [rewrite I1; by apply lookup_lt_Some in Hc|].
  pose proof (I3 i tc t res Hc Ht Hr) as Hok. unfold all_finished in Hf.
  rewrite Forall_lookup in Hf. by rewrite (Hf i t Ht) in Hok.
Qed.

(** Calls still to make. *)
Definition thread_work (t : case_thread) : nat :=
  match t with Pending => 2 | Unchecked _ => 1 | Finished => 0 end.
Definition work (st : @cases_state S) : nat := sum_list_with thread_work (cs_threads st).

Lemma sum_list_with_insert {A} (f : A -> nat) l i x y : l !! i = Some x ->
  (sum_list_with f (<[i := y]> l) + f x = sum_list_with f l + f y)%nat.
Proof.
  revert i. induction l as [|z l IH]; intros [|i]; simpl; [done | done | |].
  - intros [= ->]. lia.
  - intros Hx. specialize (IH i Hx). lia.
Qed.

Lemma case_step_work cases st st' : case_step r cases st st' -> (work st' < work st)%nat.
Proof.
  intros Hs. destruct Hs as [i tc out s st Ht Hc Hrun | i tc rr out s st Ht Hc Hcheck]; unfold work.
  - destruct (after_run out) as [res|rr]; simpl.
    + pose proof (sum_list_with_insert thread_work _ _ _ Finished Ht). simpl in *. lia.
    + pose proof (sum_list_with_insert thread_work _ _ _ (Unchecked rr) Ht). simpl in *. lia.
  - pose proof (sum_list_with_insert thread_work _ _ _ Finished Ht). simpl in *. lia.
Qed.

Lemma work_initial cases s : work (initial_cases cases s) = (2 * length cases)%nat.
Proof. unfold work. simpl. induction cases as [|c cases IH]; simpl; [done | lia]. Qed.

Lemma cases_progress cases st : cases_inv cases st -> ~ all_finished st ->
  exists st', case_step r cases st st'.
Proof.
  intros I Hn. unfold all_finished in Hn. rewrite Forall_lookup in Hn.
  assert (Hx : exists i t, cs_threads st !! i = Some t /\ t <> Finished).
  { clear I. revert Hn. induction (cs_threads st) as [|t l IH]; intros Hn.
    - exfalso. apply Hn. intros i x. by rewrite lookup_nil.
    - assert (D : t = Finished \/ t <> Finished) by (destruct t; [by right | by right | by left]).
      destruct D as [->|Ht]; [|by exists 0%nat, t].
      destruct IH as (i & t & Hi & Ht).
      + intros Hl. apply Hn. intros [|i] x; [by intros [= <-] | apply Hl].
      + by exists (Datatypes.S i), t. }
  destruct Hx as (i & t & Ht & Hne).
  destruct (lookup_lt_is_Some_2 cases i) as [tc Hc];
    [rewrite <- (inv_threads _ _ I); by apply lookup_lt_Some in Ht|].
  destruct t as [|rr|]; [| |done].
  - destruct (program_Run (r_program r) (c_input tc) (r_timeLimit r) (r_memLimit r) (cs_exec st))
      as [out s] eqn:E. eexists. by eapply case_run_step.
  - destruct (Check (r_checker r) (c_input tc) (RStdout rr) (c_expectedOutput tc) (cs_exec st))
      as [out s] eqn:E. eexists. by eapply case_check_step.
Qed.
Lemma nsteps_work cases n st st' : nsteps (case_step r cases) n st st' ->
  (n + work st' <= work st)%nat.
Proof.
  induction 1 as [|n x y z Hxy _ IH]; [lia|]. apply case_step_work in Hxy. lia.
Qed.

(** C15: the test cases as concurrent goroutines, in every interleaving of
    their calls to the executor: the execution ends after at most two calls per
    case; until it ends some goroutine can move; and when it ends, the result
    at each index of the slice is the outcome of the case at that index. *)
Theorem cases_concurrent (cases : list caseData) (s : S) (n : nat) (st : cases_state) :
  nsteps (case_step r cases) n (initial_cases cases s) st ->
  (n <= 2 * length cases)%nat
  /\ (~ all_finished st -> exists st', case_step r cases st st')
  /\ (all_finished st -> Forall2 case_outcome cases (cs_results st)).
Proof.
  intros Hs. pose proof (nsteps_work _ _ _ _ Hs) as Hw. rewrite work_initial in Hw.
  assert (I : cases_inv cases st) by (eapply cases_reachable, rtc_nsteps; eauto).
  split; [lia|]. split; [by apply cases_progress | by apply finished_results].
Qed.

(** ** Independence of the schedule *)

Lemma runCase_outcome tc s : case_outcome tc (runCase r tc s).1.
Proof.
  unfold runCase.
  destruct (program_Run _ _ _ _ s) as [out s1] eqn:E1.
  destruct (after_run out) as [res|rr] eqn:A.
  - exists s, out, s1. by rewrite A.
  - destruct (Check _ _ _ _ s1) as [out' s2] eqn:E2.
    exists s, out, s1. rewrite A. split; [done|]. by exists s1, out', s2.
Qed.

Lemma runAllCases_outcome cases s : Forall2 case_outcome cases (runAllCases r cases s).1.
Proof.
  revert s. induction cases as [|tc cases IH]; intros s; simpl; [constructor|].
  pose proof (runCase_outcome tc s) as Hc. destruct (runCase r tc s) as [res s1].
  pose proof (IH s1) as Hr. destruct (runAllCases r cases s1) as [results s2]. by constructor.
Qed.

(** When the executor's answers depend on its requests alone, a case has one
    outcome. *)
Lemma outcome_unique (answer : RunRequest -> GoError + RunResult) tc x y :
  (forall req s, (Execution.Run req s).1 = answer req) ->
  case_outcome tc x -> case_outcome tc y -> x = y.
Proof.
  intros Ha (s1 & o1 & t1 & R1 & X) (s2 & o2 & t2 & R2 & Y).
  assert (Hrun : forall req s out t, Execution.Run req s = (out, t) -> out = answer req)
    by (intros req s out t E; by rewrite <- (Ha req s), E).
  assert (o1 = o2) as ->.
  { unfold program_Run in R1, R2.
    destruct (Execution.Run _ s1) as [a ?] eqn:E1, (Execution.Run _ s2) as [b ?] eqn:E2.
    apply Hrun in E1, E2. subst a b. congruence. }
  destruct (after_run o2) as [res|rr]; [congruence|].
  destruct X as (s3 & c1 & t3 & C1 & ->), Y as (s4 & c2 & t4 & C2 & ->).
  unfold Check in C1, C2.
  destruct (Execution.Run _ s3) as [a ?] eqn:E1, (Execution.Run _ s4) as [b ?] eqn:E2.
  apply Hrun in E1, E2. subst a b. congruence.
Qed.

Lemma outcomes_unique (answer : RunRequest -> GoError + RunResult) cases xs ys :
  (forall req s, (Execution.Run req s).1 = answer req) ->
  Forall2 case_outcome cases xs -> Forall2 case_outcome cases ys -> xs = ys.
Proof.
  intros Ha. revert xs ys. induction cases as [|tc cases IH]; intros xs ys F1 F2.
  - apply Forall2_nil_inv_l in F1, F2. congruence.
  - apply Forall2_cons_inv_l in F1 as (x & xs' & ? & ? & ->), F2 as (y & ys' & ? & ? & ->).
    f_equal; [by eapply outcome_unique | by apply IH].
Qed.

(** When the executor's answer depends on the request alone, every
    interleaving of the goroutines ends with the results of running the cases
    one after the other. *)
Theorem schedule_independent (answer : RunRequest -> GoError + RunResult)
    (cases : list caseData) (s : S) (st : cases_state) :
  (forall req s, (Execution.Run req s).1 = answer req) ->
  rtc (case_step r cases) (initial_cases cases s) st -> all_finished st ->
  cs_results st = (runAllCases r cases s).1.
Proof.
  intros Ha Hs Hf. apply (outcomes_unique answer cases); [done| |apply runAllCases_outcome].
  apply finished_results; [|done]. by apply (cases_reachable cases s).
Qed.
End Cases.

(** ** The whole request *)

Section Judge.
Context `{UnicodeTables}.
Context {S : Type} `{ExecutorLaws S}.
Context (Sum256 : bytes -> bytes) {C : Type} {L : LRU bytes CompileOutput C}.
Context (testlibHeader : bytes) (bundledFS : FS) (externalFS : option FS).

Lemma normalize_verdict lang out : RVerdict out ∈ sandbox_verdicts ->
  RVerdict (normalizeLanguageRunResult lang out) ∈ sandbox_verdicts.
Proof.
  intros Hv. unfold normalizeLanguageRunResult. destruct (_ && _); [|done].
  unfold sandbox_verdicts. simpl. set_solver.
Qed.

Lemma program_Run_verdict p input t m s out s' : program_Run p input t m s = (inr out, s') ->
  RVerdict out ∈ sandbox_verdicts.
Proof.
  unfold program_Run. destruct (Execution.Run _ s) as [[err|o] s1] eqn:E; [done|].
  intros [= <- <-]. apply normalize_verdict. by eapply run_verdict.
Qed.

(** Only a checker that the request supplied can fail as a checker. *)
Lemma outcome_user r tc res : case_outcome r tc res -> user_failure res ->
  r_userChecker r = true.
Proof.
  unfold user_failure. intros (s1 & out & s2 & Hrun & Hout) Hu.
  destruct (after_run out) as [x|rr] eqn:A.
  - subst x. unfold after_run in A. destruct out as [err|o]; [by injection A as <-|].
    destruct (negb _); [|done]. injection A as <-. simpl in Hu.
    apply program_Run_verdict in Hrun. rewrite Hu in Hrun. unfold sandbox_verdicts in Hrun.
    set_solver.
  - destruct Hout as (s3 & out' & s4 & _ & ->). destruct out' as [err|c]; [done|].
    simpl in Hu. unfold checker_verdict in Hu. destruct (Outcome c), (r_userChecker r); done.
Qed.

Lemma materialize_cases_length fs i cases data : materialize_cases fs i cases = inr data ->
  length data = length cases.
Proof.
  revert i data. induction cases as [|tc cases IH]; simpl; intros i data; [by intros [= <-]|].
  destruct (materializeCase fs tc); [done|].
  destruct (materialize_cases fs (i + 1) cases) eqn:E; [done|]. intros [= <-]. simpl.
  by erewrite IH.
Qed.

(** What a result promises, for a request with [n] cases. *)
Definition result_means (n : nat) (own_checker : bool) (r : JudgeResult) : Prop :=
  let compiled := Succeeded (Model.Compile r) = true in
  let checked b := exists c, CheckerCompile r = Some c /\ Succeeded c = b in
  match Status r with
  | JudgeStatusOK =>
      compiled /\ checked true /\ length (Cases r) = n
      /\ Forall (fun c => ~ system_failure c /\ ~ user_failure c) (Cases r)
  | JudgeStatusCheckerExecutionError =>
      compiled /\ checked true /\ length (Cases r) = n /\ own_checker = true
      /\ Exists user_failure (Cases r) /\ Forall (fun c => ~ system_failure c) (Cases r)
  | JudgeStatusCompileError =>
      Succeeded (Model.Compile r) = false /\ CheckerCompile r = None /\ Cases r = []
  | JudgeStatusCheckerCompileError =>
      compiled /\ checked false /\ own_checker = true /\ Cases r = []
  | JudgeStatusSystemError =>
      Cases r = [] \/ (compiled /\ checked true /\ length (Cases r) = n
                       /\ Exists system_failure (Cases r))
  end.

Lemma language_Compile_succeeded l src s out c s' :
  language_Compile l src s = (inr (out, c), s') -> Succeeded c = bool_decide (is_Some out).
Proof.
  unfold language_Compile. destruct (Execution.Compile _ s) as [[err|o] s1]; [done|].
  destruct (CArtifact o); by intros [= <- <- <-].
Qed.

Lemma prepare_succeeded src cache s out c cache' s' :
  prepare Sum256 testlibHeader src cache s = (inr (out, c), cache', s') ->
  Succeeded c = bool_decide (is_Some out).
Proof.
  unfold prepare. destruct (compile _ _ _ _ _) as [[[err|o] c1] s1]; [done|]. by intros [= <- <- <- <-].
Qed.

Lemma executeJudgePlan_means plan cache s res cache' s' :
  executeJudgePlan Sum256 testlibHeader plan cache s = (res, cache', s') ->
  result_means (length (p_cases plan)) (p_checkerProvidedByRequest plan) res.
Proof.
  unfold executeJudgePlan.
  destruct (language_Compile _ _ s) as [[err|[[program|] compileResult]] s1] eqn:EC.
  { intros [= <- <- <-]. by left. }
  2: { intros [= <- <- <-]. apply language_Compile_succeeded in EC. by repeat split. }
  apply language_Compile_succeeded in EC.
  destruct (prepare _ _ _ cache s1) as [[[err|[[checker|] checkerCompile]] c1] s2] eqn:EP.
  { intros [= <- <- <-]. by left. }
  2: { apply prepare_succeeded in EP. intros [= <- <- <-]. unfold result_means.
       destruct (p_checkerProvidedByRequest plan); simpl; [|by left]. repeat split; try done. eauto. }
  apply prepare_succeeded in EP. set (runner := MkRunner _ _ _ _ _).
  pose proof (runAllCases_outcome runner (p_cases plan) s2) as F.
  destruct (runAllCases runner (p_cases plan) s2) as [results s3]. intros [= <- <- <-]. simpl in F.
  assert (Hlen : length results = length (p_cases plan)) by (symmetry; by eapply Forall2_length).
  assert (Hk : exists c, Some checkerCompile = Some c /\ Succeeded c = true) by eauto.
  pose proof (aggregate_loop_spec JudgeStatusOK results (or_introl eq_refl)) as A.
  unfold result_means, aggregateStatus. simpl.
  destruct (aggregate_loop JudgeStatusOK results); try done.
  - by destruct A as [_ A].
  - by right.
  - destruct A as [A [?|Hu]]; [done|]. do 3 (split; [done|]). split; [|done].
    apply Exists_exists in Hu as (x & Hx & Hu). apply list_elem_of_In, list_elem_of_lookup in Hx as [i Hx].
    destruct (Forall2_lookup_r _ _ _ _ _ F Hx) as (tc & _ & Ho). by apply (outcome_user runner tc x).
Qed.

(** What [Judge] answers. *)
Lemma judge_answers (acquire : option GoError) (req : JudgeRequest) (cache cache' : C) (s s' : S)
    (res : GoError + JudgeResult) :
  Judge Sum256 testlibHeader bundledFS externalFS acquire req cache s = (res, cache', s') ->
  match res with
  | inl _ => cache' = cache /\ s' = s
  | inr jr =>
      valid_request req
      /\ result_means (length (TestCases req)) (negb (bool_decide (CheckerSourceCode req = []))) jr
      /\ (is_Some acquire -> Status jr = JudgeStatusSystemError /\ cache' = cache /\ s' = s)
  end.
Proof.
  unfold Judge. destruct (validateJudgeRequest req) eqn:V; [by intros [= <- <- <-]|].
  apply validateJudgeRequest_valid in V.
  destruct (language_Resolve _) as [err|compiler]; [by intros [= <- <- <-]|].
  destruct (resolveChecker _ _) as [err|choice] eqn:R; [by intros [= <- <- <-]|].
  destruct acquire as [err|].
  { intros [= <- <- <-]. split; [done|]. split; [by left|]. done. }
  destruct (materialize _ _ _ _ _) as [err|plan] eqn:M; [by intros [= <- <- <-]|].
  destruct (executeJudgePlan _ _ _ _ _) as [[jr c1] s1] eqn:E. intros [= <- <- <-].
  apply executeJudgePlan_means in E. split; [done|]. split; [|by intros []].
  unfold materialize in M. destruct (readSource _ _ _); [done|].
  destruct (materialize_cases _ _ _) eqn:MC; [done|]. injection M as <-. simpl in E.
  rewrite (materialize_cases_length _ _ _ _ MC) in E.
  assert (Hp : providedByRequest choice = negb (bool_decide (CheckerSourceCode req = []))).
  { unfold resolveChecker in R. unfold providedByRequest.
    destruct (bool_decide (CheckerSourceCode req = [])); simpl in R.
    - destruct (bool_decide _); [by injection R as <-|].
      destruct (CutPrefix _ _); [destruct (validateExternalCheckerPath _); [done|]
        | destruct (validateCheckerShortName _); [done|]]; by injection R as <-.
    - destruct (bool_decide _); [done|]. destruct (negb _); [done|]. by injection R as <-. }
  by rewrite <- Hp.
Qed.

(** C9: [Judge] answers with an error only for a request or resources it
    rejects before anything is compiled or run, the executor and the checker
    cache being untouched; any other answer is for a valid request, and its
    status means what it says: compilation results, one result per test case in
    order, system failures, and failures of the request's own checker. *)
Theorem judge_outcome (acquire : option GoError) (req : JudgeRequest) (cache cache' : C) (s s' : S)
    (res : GoError + JudgeResult) :
  Judge Sum256 testlibHeader bundledFS externalFS acquire req cache s = (res, cache', s') ->
  match res with
  | inl _ => cache' = cache /\ s' = s
  | inr jr =>
      valid_request req
      /\ result_means (length (TestCases req)) (negb (bool_decide (CheckerSourceCode req = []))) jr
      /\ (is_Some acquire -> Status jr = JudgeStatusSystemError /\ cache' = cache /\ s' = s)
  end.
Proof. by apply judge_answers. Qed.
End Judge.

(** ** A concrete executor *)

(** Every compilation succeeds; a program prints its input, a checker (the
    only runs with files) accepts. *)
Definition yes_run (req : RunRequest) : GoError + RunResult :=
  inr (MkRunResult Model.VerdictOK 0 (RStdin req) [] 7 3 []).

#[export] Instance yes_Executor : Executor unit := {|
  Execution.Compile req s :=
    (inr (MkCompileOutput [] (Some (MkArtifact (ArtifactName req) ($"ELF") 493))), s);
  Execution.Run req s := (yes_run req, s) |}.

#[export] Instance yes_laws : ExecutorLaws unit.
Proof.
  split.
  - intros req s r s' [= <- <-]. simpl. unfold sandbox_verdicts. set_solver.
  - intros req s out s' a [= <- <-]. simpl. by intros [= <-].
Qed.

Definition yes_runner : caseRunner :=
  MkRunner (MkProgram LanguageC (prof_Run cProfile) (MkArtifact ($"program") ($"ELF") 493))
    (MkArtifact ($"checker") ($"ELF") 493) false 1000 64.

Definition one_case : list caseData := [MkCase ($"1") ($"1")].

Definition yes_result : JudgeCaseResult :=
  MkCaseResult Model.VerdictOK ($"1") 7 3 0 [].

Definition one_finished : cases_state := MkCases tt [Finished] [yes_result].

Lemma one_case_steps :
  @case_step ascii_tables unit yes_Executor yes_runner one_case (initial_cases one_case tt)
    (MkCases tt [Unchecked (MkRunResult Model.VerdictOK 0 ($"1") [] 7 3 [])] [zeroResult])
  /\ @case_step ascii_tables unit yes_Executor yes_runner one_case
    (MkCases tt [Unchecked (MkRunResult Model.VerdictOK 0 ($"1") [] 7 3 [])] [zeroResult])
    one_finished.
Proof.
  split.
  - exact (@case_run_step ascii_tables unit yes_Executor yes_runner one_case 0%nat
      (MkCase ($"1") ($"1")) (inr (MkRunResult Model.VerdictOK 0 ($"1") [] 7 3 [])) tt
      (initial_cases one_case tt) eq_refl eq_refl eq_refl).
  - exact (@case_check_step ascii_tables unit yes_Executor yes_runner one_case 0%nat
      (MkCase ($"1") ($"1")) (MkRunResult Model.VerdictOK 0 ($"1") [] 7 3 [])
      (inr (MkCheckerResult checkerAccepted [])) tt
      (MkCases tt [Unchecked (MkRunResult Model.VerdictOK 0 ($"1") [] 7 3 [])] [zeroResult])
      eq_refl eq_refl eq_refl).
Qed.

Lemma cases_concurrent_witness :
  nsteps (@case_step ascii_tables unit yes_Executor yes_runner one_case) 2
    (initial_cases one_case tt) one_finished
  /\ Forall2 (@case_outcome ascii_tables unit yes_Executor yes_runner) one_case [yes_result].
Proof.
  assert (N : nsteps (@case_step ascii_tables unit yes_Executor yes_runner one_case) 2
    (initial_cases one_case tt) one_finished).
  { eapply nsteps_l; [apply one_case_steps|]. eapply nsteps_l; [apply one_case_steps|]. constructor. }
  split; [exact N|].
  apply (@cases_concurrent ascii_tables unit yes_Executor yes_runner one_case tt 2 one_finished N).
  by repeat constructor.
Defined.

Lemma schedule_independent_witness :
  cs_results one_finished = (@runAllCases ascii_tables unit yes_Executor yes_runner one_case tt).1
  /\ cs_results one_finished = [yes_result].
Proof.
  split; [|reflexivity].
  apply (@schedule_independent ascii_tables unit yes_Executor yes_runner yes_run one_case tt);
    [by intros req [] | | by repeat constructor].
  eapply rtc_l; [apply one_case_steps|]. eapply rtc_l; [apply one_case_steps|]. apply rtc_refl.
Defined.

Definition yes_request : JudgeRequest :=
  MkJudgeRequest ($"int main;") [] ($"//") LanguageC 1000 64 [MkTestCase ($"1") ($"1") [] []].

Definition judge_yes (acquire : option GoError) : (GoError + JudgeResult) * assoc_lru * unit :=
  @Judge ascii_tables unit yes_Executor (fun _ => []) assoc_lru _ ($"h") (fun _ => inr [])
    None acquire yes_request (lru_new 64) tt.

Lemma judge_outcome_witness :
  exists jr cache, judge_yes None = (inr jr, cache, tt)
  /\ Status jr = JudgeStatusOK /\ Cases jr = [yes_result] /\ valid_request yes_request.
Proof.
  eexists _, _. split; [reflexivity|]. split; [reflexivity|]. split; [reflexivity|].
  exact (proj1 (@judge_outcome ascii_tables unit yes_Executor yes_laws (fun _ => []) assoc_lru _
    ($"h") (fun _ => inr []) None None yes_request (lru_new 64) _ tt tt (inr _) eq_refl)).
Defined.
