(* ===== verification/Resource.v ===== *)
(** * Bundled and external resources ([src/internal/resource])

    The bundle is a directory of files embedded in the program and never
    changes.  [External] opens files below a directory of the host through
    [os.OpenInRoot], a call of the host that is a parameter: given the root and
    a path it answers with an open file or an error.  [fs.ReadFile] on top of
    it is the file system the judge reads; every call returns the trace of the
    files it opened and closed. *)

From S2P Require Import Prelude Text GoText Brackets.

(** A [*fs.PathError], as its text. *)
Definition PathError (op path text : bytes) : GoError :=
  Errorf ($"%s %s: %s") [AStr op; AStr path; AStr text].

(** ** [bundled.go] *)

(** The embedded files, by their path. *)
Abbreviation embed := (gmap bytes bytes).

Definition is_directory (files : embed) (name : bytes) : bool :=
  bool_decide (name = $".") || existsb (fun '(path, _) => HasPrefix path (name ++ [slash])) (map_to_list files).

(** [embed.FS.ReadFile]. *)
Definition embed_ReadFile (files : embed) (name : bytes) : GoError + bytes :=
  if negb (fs_ValidPath name) then inl (PathError ($"open") name ($"file does not exist"))
  else match files !! name with
       | Some data => inr data
       | None => if is_directory files name then inl (PathError ($"read") name ($"is a directory"))
                 else inl (PathError ($"open") name ($"file does not exist"))
       end.

Definition bundledSupportDirName : bytes := $"support".

(** [fs.Sub(files, dir)] and its [ReadFile]; an error names the path below
    [dir]. *)
Definition sub_ReadFile (files : embed) (dir name : bytes) : GoError + bytes :=
  if negb (fs_ValidPath name) then inl (PathError ($"read") name ($"invalid argument"))
  else match embed_ReadFile files (filepath_Clean (dir ++ slash :: name)) with
       | inr data => inr data
       | inl _ => inl (if is_directory files (filepath_Clean (dir ++ slash :: name))
                       then PathError ($"read") name ($"is a directory")
                       else PathError ($"open") name ($"file does not exist"))
       end.

(** Its [fs.Stat]: whether the path is a regular file. *)
Definition sub_Stat (files : embed) (dir name : bytes) : GoError + bool :=
  if negb (fs_ValidPath name) then inl (PathError ($"open") name ($"invalid argument"))
  else match sub_ReadFile files dir name with
       | inr _ => inr true
       | inl err => if is_directory files (filepath_Clean (dir ++ slash :: name)) then inr false else inl err
       end.

Record bundle := MkBundle { fs_ReadFile : bytes -> GoError + bytes; fs_Stat : bytes -> GoError + bool }.

Definition NewBundled (files : embed) : GoError + bundle :=
  if fs_ValidPath bundledSupportDirName
  then inr (MkBundle (sub_ReadFile files bundledSupportDirName) (sub_Stat files bundledSupportDirName))
  else inl (Errorf ($"open bundled support resources: %w")
              [AErr (PathError ($"sub") bundledSupportDirName ($"invalid argument"))]).

(** ** [external.go] *)

(** An open file: what [Stat] answers (whether it is a regular file), what
    reading it to its end returns, and the error of [Close]. *)
Record file := MkOpenFile { f_stat : GoError + bool; f_read : GoError + bytes; f_close : option GoError }.

(** The host: [os.Stat] of a path (whether it is a directory), and
    [os.OpenInRoot]. *)
Record host_files := MkHostFiles {
  os_Stat : bytes -> GoError + bool;
  OpenInRoot : bytes -> bytes -> GoError + file }.

(** A file that was opened, by its path below the root. *)
Abbreviation file_trace := (list (action bytes Empty_set)).

Section External.
Context (h : host_files).

(** [filepath.IsAbs] on Unix. *)
Definition IsAbs (path : bytes) : bool := HasPrefix path [slash].

Definition NewExternal (mountPoint : bytes) : GoError + bytes :=
  if negb (IsAbs mountPoint)
  then inl (Errorf ($"mount point must be absolute: %q") [AQuote mountPoint])
  else match os_Stat h mountPoint with
       | inl err => inl (Errorf ($"mount point not accessible: %w") [AErr err])
       | inr false => inl (Errorf ($"mount point is not a directory: %q") [AQuote mountPoint])
       | inr true => inr mountPoint
       end.

(** [errors.Join(err, file.Close())]: [err] is not nil. *)
Definition join_close (err : GoError) (f : file) : GoError :=
  default err (errors_Join [Some err; f_close f]).

Definition Open (mountPoint relPath : bytes) : (GoError + file) * file_trace :=
  if negb (fs_ValidPath relPath) then (inl (PathError ($"open") relPath ($"invalid argument")), [])
  else match OpenInRoot h mountPoint relPath with
       | inl err => (inl (Errorf ($"open external resource %q: %w") [AQuote relPath; AErr err]), [])
       | inr f =>
           match f_stat f with
           | inl err =>
               (inl (join_close (Errorf ($"stat external resource %q: %w") [AQuote relPath; AErr err]) f),
                [Take relPath; Give relPath])
           | inr regular =>
               if negb regular
               then (inl (join_close (Errorf ($"external resource must be a regular file: %s") [AStr relPath]) f),
                     [Take relPath; Give relPath])
               else (inr f, [Take relPath])
           end
       end.

(** [fs.ReadFile], which defers the file's [Close]. *)
Definition ReadFile (mountPoint relPath : bytes) : (GoError + bytes) * file_trace :=
  match Open mountPoint relPath with
  | (inl err, trace) => (inl err, trace)
  | (inr f, trace) => (f_read f, trace ++ [Give relPath])
  end.

(** The file system of the judge. *)
Definition external_FS (mountPoint : bytes) : bytes -> GoError + bytes :=
  fun relPath => fst (ReadFile mountPoint relPath).
End External.

Example bundled_ex :
  (fun name => match NewBundled {[ $"support/testlib.h" := $"h" ]} with
               | inr b => fs_ReadFile b name | inl err => inl err end) <$> [$"testlib.h"; $"../x"]
  = [inr ($"h"); inl (PathError ($"read") ($"../x") ($"invalid argument"))].
Proof. reflexivity. Qed.
