(* ===== verification/ResourceSpec.v ===== *)
(** * What a request can read

    Whatever a request asks for, the files the service reads for it are bundled
    files or regular files below the external root, under paths of entry names
    that never leave it; every file that is opened is closed again. *)

From S2P Require Import Prelude Text TextSpec GoText GoTextSpec Model Brackets Sandbox Execution Language Checker CheckerSpec CheckerCache Judge JudgeSpec Resource.

(** A path that names the root, or an entry below it without any [..]. *)
Definition below_root (path : bytes) : Prop := path = $"." \/ Forall entry_name (elements_of path).

Lemma valid_below path : fs_ValidPath path = true -> below_root path.
Proof.
  unfold fs_ValidPath, below_root. intros [_ [H|H]%orb_true_iff]%andb_true_iff; [by apply bool_decide_eq_true in H; left|].
  right. pose proof (elements_plain path) as Hp. rewrite forallb_forall in H. rewrite Forall_forall in Hp |- *.
  intros e He. specialize (H e He). specialize (Hp e He).
  apply negb_true_iff, orb_false_iff in H as [[H1 H2]%orb_false_iff H3].
  apply bool_decide_eq_false in H1, H2, H3. by repeat split.
Qed.

(** A path below the bundle's directory. *)
Lemma bundled_path dir path : entry_name dir -> Forall entry_name (elements_of path) ->
  filepath_Clean (dir ++ slash :: path) = dir ++ slash :: path.
Proof.
  intros Hd Hp. assert (E : dir ++ slash :: path = join (dir :: elements_of path) [slash]).
  { pose proof (join_split_loop slash path []) as J. pose proof (split_loop_length slash path []) as L.
    unfold elements_of, split_char. rewrite <- J at 1. destruct (split_loop _ path []) as [|e es]; [done|].
    by rewrite !join_cons. }
  rewrite E. apply Clean_cleaned; [done|]. exists 0%nat, (dir :: elements_of path). split; [done|by constructor].
Qed.

Section Spec.
Context `{UnicodeTables} (h : host_files) (mount : bytes).

(** The contents of a regular file that the host opens below the root. *)
Definition regular_contents (path data : bytes) : Prop :=
  fs_ValidPath path = true /\
  exists f, OpenInRoot h mount path = inr f /\ f_stat f = inr true /\ f_read f = inr data.

Lemma join_close_error err f : join_close err f = Joined (err :: match f_close f with Some e => [e] | None => [] end).
Proof. unfold join_close, errors_Join. simpl. by destruct (f_close f). Qed.

(** A call opens at most the one file it is asked for, and closes it. *)
Lemma ReadFile_trace path res trace : ReadFile h mount path = (res, trace) ->
  bracketed trace /\ (trace = [] \/ trace = [Take path; Give path] /\ fs_ValidPath path = true).
Proof.
  assert (Hb : bracketed (C := Empty_set) [Take path; Give path]) by (apply (bracketed_wrap path []); constructor).
  unfold ReadFile, Open. destruct (fs_ValidPath path); simpl negb; cbv iota.
  2: { intros [= <- <-]. split; [constructor|by left]. }
  destruct (OpenInRoot h mount path) as [err|f]; [intros [= <- <-]; split; [constructor|by left]|].
  destruct (f_stat f) as [err|[]]; simpl; intros [= <- <-]; (split; [done|by right]).
Qed.

Lemma external_read path data : external_FS h mount path = inr data <-> regular_contents path data.
Proof.
  unfold external_FS, ReadFile, Open, regular_contents. destruct (fs_ValidPath path); simpl negb; cbv iota.
  2: { simpl. split; [done|by intros []]. }
  destruct (OpenInRoot h mount path) as [err|f]; simpl.
  { split; [done|]. by intros (_ & ? & ? & _). }
  destruct (f_stat f) as [err|[]] eqn:Es; simpl.
  - split; [done|]. intros (_ & g & [= <-] & E & _). congruence.
  - split; [intros E; split; [done|]; by exists f|]. by intros (_ & g & [= <-] & _ & E).
  - split; [done|]. intros (_ & g & [= <-] & E & _). congruence.
Qed.

(** Where the data of a case comes from. *)
Definition case_source (tc : JudgeTestCase) (data : caseData) : Prop :=
  (InputFile tc = [] /\ data = MkCase (InputText tc) (ExpectedOutput tc))
  \/ (regular_contents (InputFile tc) (c_input data)
      /\ regular_contents (ExpectedOutputFile tc) (c_expectedOutput data)).

Lemma materializeCase_source tc data : materializeCase (Some (external_FS h mount)) tc = inr data ->
  case_source tc data.
Proof.
  unfold materializeCase, case_source. case_bool_decide as E; [intros [= <-]; by left|].
  destruct (external_FS h mount (InputFile tc)) as [|input] eqn:Ei; [done|].
  destruct (external_FS h mount (ExpectedOutputFile tc)) as [|output] eqn:Eo; [done|].
  intros [= <-]. right. by split; apply external_read.
Qed.

Lemma materialize_cases_sources i cases data :
  materialize_cases (Some (external_FS h mount)) i cases = inr data -> Forall2 case_source cases data.
Proof.
  revert i data. induction cases as [|tc cases IH]; simpl; intros i data; [by intros [= <-]|].
  destruct (materializeCase _ tc) as [|d] eqn:E; [done|].
  destruct (materialize_cases _ (i + 1) cases) as [|rest] eqn:Er; [done|]. intros [= <-].
  constructor; [by apply materializeCase_source|by eapply IH].
Qed.

(** The request's choice of a checker, as far as its source goes. *)
Definition checker_source (files : embed) (choice : checkerChoice) (source : bytes) : Prop :=
  match kind choice with
  | checkerInline => source = choice_value choice
  | checkerBuiltin => files !! ($"support/checkers/" ++ choice_value choice ++ $".cpp") = Some source
  | checkerExternal => regular_contents (choice_value choice) source /\ below_root (choice_value choice)
  end.

Lemma bundled_read files path data : sub_ReadFile files bundledSupportDirName path = inr data ->
  Forall entry_name (elements_of path) -> files !! ($"support/" ++ path) = Some data.
Proof.
  intros E Hp. unfold sub_ReadFile in E. destruct (negb (fs_ValidPath path)); [done|].
  rewrite bundled_path in E; [|by repeat split; [unfold plain; intros Hs; vm_compute in Hs; set_solver|..]|done].
  unfold embed_ReadFile in E. destruct (negb _); [done|].
  change (bundledSupportDirName ++ slash :: path) with ($"support/" ++ path) in E.
  destruct (files !! _); [by injection E as ->|]. by destruct (is_directory _ _).
Qed.

Lemma readSource_source files b raw inline choice source : NewBundled files = inr b ->
  resolveChecker raw inline = inr choice ->
  readSource (fs_ReadFile b) (Some (external_FS h mount)) choice = inr source ->
  checker_source files choice source.
Proof.
  intros [= <-] Hr. apply resolveChecker_choice in Hr. unfold readSource, checker_source.
  destruct (kind choice).
  - simpl fs_ReadFile. destruct (sub_ReadFile _ _ _) eqn:E; [done|]. intros [= <-].
    destruct Hr as (_ & _ & Ee & Hn). apply bundled_read in E; [|by rewrite Ee].
    unfold builtinCheckerPath in E. exact E.
  - destruct (external_FS h mount (choice_value choice)) eqn:E; [done|]. intros [= <-].
    apply external_read in E. split; [done|]. right.
    destruct Hr as (_ & _ & _ & es & _ & Hn & Ee & _). by rewrite Ee.
  - intros [= <-]. done.
Qed.
End Spec.

(** C22: what a request makes the service read: the checker's source is the
    request's own text, a file of the bundle's [checkers] directory, or a
    regular file of the external root; the data of a case is the request's text
    or that of two regular files of the external root.  External files are
    opened by paths that never leave the root, and each call closes the one
    file it opens. *)
Theorem request_reads `{UnicodeTables} (h : host_files) (mount : bytes) (files : embed) (b : bundle)
    (req : JudgeRequest) (compiler : resolvedLanguage) (choice : checkerChoice) (plan : judgePlan) :
  NewBundled files = inr b ->
  resolveChecker (Model.Checker req) (CheckerSourceCode req) = inr choice ->
  materialize (fs_ReadFile b) (Some (external_FS h mount)) req compiler choice = inr plan ->
  checker_source h mount files choice (p_checker plan)
  /\ Forall2 (case_source h mount) (TestCases req) (p_cases plan)
  /\ forall path res trace, ReadFile h mount path = (res, trace) ->
       bracketed trace /\ (trace = [] \/ trace = [Take path; Give path] /\ below_root path).
Proof.
  intros Hb Hr Hm. unfold materialize in Hm.
  destruct (readSource _ _ choice) as [|source] eqn:Es; [done|].
  destruct (materialize_cases _ 0 (TestCases req)) as [|cases] eqn:Ec; [done|]. injection Hm as <-. simpl.
  split; [by eapply readSource_source|]. split; [by eapply materialize_cases_sources|].
  intros path res trace Hf. apply ReadFile_trace in Hf as [Hbr [Ht|[Ht Hv]]]; (split; [done|]); [by left|].
  right. split; [done|]. by apply valid_below.
Qed.

(** ** A concrete root *)

Definition sample_host : host_files := {|
  os_Stat _ := inr true;
  OpenInRoot _ path :=
    if bool_decide (path = $"cases/1.in") then inr (MkOpenFile (inr true) (inr ($"1 2")) None)
    else if bool_decide (path = $"cases/1.out") then inr (MkOpenFile (inr true) (inr ($"3")) None)
    else if bool_decide (path = $"cases") then inr (MkOpenFile (inr false) (inl (errors_New ($"is a directory"))) None)
    else inl (errors_New ($"no such file or directory")) |}.

Definition sample_files : embed := {[ $"support/checkers/default.cpp" := $"int main" ]}.

Definition file_request : JudgeRequest :=
  MkJudgeRequest ($"int main;") [] [] LanguageC 1000 64 [MkTestCase [] [] ($"cases/1.in") ($"cases/1.out")].

Definition file_plan : judgePlan :=
  MkPlan ($"int main;") 1000 64 [MkCase ($"1 2") ($"3")] (MkResolved LanguageC cProfile) ($"int main") false.

Lemma request_reads_witness :
  materialize (sub_ReadFile sample_files ($"support")) (Some (external_FS sample_host ($"/data"))) file_request
    (MkResolved LanguageC cProfile) (MkChoice checkerBuiltin ($"default")) = inr file_plan
  /\ Forall2 (case_source sample_host ($"/data")) (TestCases file_request) [MkCase ($"1 2") ($"3")]
  /\ ReadFile sample_host ($"/data") ($"cases")
     = (inl (Joined [Errorf ($"external resource must be a regular file: %s") [AStr ($"cases")]]),
        [Take ($"cases"); Give ($"cases")]).
Proof.
  assert (E : materialize (sub_ReadFile sample_files ($"support")) (Some (external_FS sample_host ($"/data")))
    file_request (MkResolved LanguageC cProfile) (MkChoice checkerBuiltin ($"default")) = inr file_plan)
    by reflexivity.
  split; [exact E|]. split; [|reflexivity].
  exact (proj1 (proj2 (@request_reads ascii_tables sample_host ($"/data") sample_files
    (MkBundle (sub_ReadFile sample_files ($"support")) (sub_Stat sample_files ($"support"))) file_request
    (MkResolved LanguageC cProfile) (MkChoice checkerBuiltin ($"default")) file_plan eq_refl eq_refl E))).
Defined.
