(* ===== verification/Settings.v ===== *)
(** * Settings of the server ([src/cmd/server/main.go])

    The settings come from environment variables; [strconv.Atoi] and
    [slog.Level.UnmarshalText] of the standard library read the numbers and
    the log level. *)

From S2P Require Import Prelude Text Numbers GoText.

(** ** [strconv.Atoi] *)

Inductive num_error := ErrSyntax | ErrRange.

(** The loop of [ParseUint] in base ten at 64 bits: it stops at the first
    character that is no digit, or where the value overflows. *)
Fixpoint parse_uint (s : bytes) (n : Z) : num_error + Z :=
  match s with
  | [] => inr n
  | c :: s =>
      if negb (is_digit c) then inl ErrSyntax
      else let n := n * 10 + (char_to_int c - 48) in
           if ULLONG_MAX <? n then inl ErrRange else parse_uint s n
  end.

(** [ParseInt] behind its sign. *)
Definition parse_signed (neg : bool) (digits : bytes) : num_error + Z :=
  if bool_decide (digits = []) then inl ErrSyntax
  else match parse_uint digits 0 with
       | inl err => inl err
       | inr un =>
           if negb neg && (LLONG_MAX <? un) then inl ErrRange
           else if neg && (LLONG_MAX + 1 <? un) then inl ErrRange
           else inr (if neg then - un else un)
       end.

Definition parse_int (s : bytes) : num_error + Z :=
  match s with
  | c :: rest => if bool_decide (c = "-"%char) then parse_signed true rest
                 else if bool_decide (c = "+"%char) then parse_signed false rest else parse_signed false s
  | [] => parse_signed false []
  end.

Definition Atoi (s : bytes) : GoError + Z :=
  match parse_int s with
  | inl err =>
      inl (Errorf ($"strconv.Atoi: parsing %q: %s")
             [AQuote s; AStr (match err with ErrSyntax => $"invalid syntax" | ErrRange => $"value out of range" end)])
  | inr n => inr n
  end.

(** ** [slog.Level] *)

(** [unicode.ToUpper], as far as its result is an ASCII letter: of the runes
    beyond ASCII only the dotless i and the long s have such an upper case. *)
Definition upper_rune (r : Z) : Z :=
  if (97 <=? r) && (r <=? 122) then r - 32
  else if r =? 305 then 73
  else if r =? 383 then 83
  else r.

(** [strings.ToUpper(s) == name] for an ASCII name in capitals. *)
Definition upper_is (s name : bytes) : bool :=
  bool_decide ((fun '(r, _) => upper_rune r) <$> runes s = ascii_code <$> name).

Definition LevelDebug : Z := -4.
Definition LevelInfo : Z := 0.
Definition LevelWarn : Z := 4.
Definition LevelError : Z := 8.

(** The text before the first sign, and the rest from it. *)
Fixpoint cut_sign (s : bytes) : bytes * option bytes :=
  match s with
  | [] => ([], None)
  | c :: rest =>
      if bool_decide (c = "+"%char) || bool_decide (c = "-"%char) then ([], Some s)
      else let '(name, sign) := cut_sign rest in (c :: name, sign)
  end.

Definition level_named (name : bytes) : option Z :=
  if upper_is name ($"DEBUG") then Some LevelDebug
  else if upper_is name ($"INFO") then Some LevelInfo
  else if upper_is name ($"WARN") then Some LevelWarn
  else if upper_is name ($"ERROR") then Some LevelError
  else None.

Definition Level_UnmarshalText (s : bytes) : GoError + Z :=
  let fail err := inl (Errorf ($"slog: level string %q: %w") [AQuote s; AErr err]) in
  let '(name, sign) := cut_sign s in
  match (match sign with None => inr 0 | Some text => Atoi text end) with
  | inl err => fail err
  | inr offset =>
      match level_named name with
      | None => fail (errors_New ($"unknown name"))
      | Some level => inr (swrap 64 (level + offset))
      end
  end.

(** ** [loadSettings] *)

Record settings := MkSettings {
  listenAddr : bytes;
  containerdSocket : bytes;
  maxConcurrentContainers : Z;
  maxConcurrentJudges : Z;
  externalDataDir : bytes;
  logLevel : Z }.

Section Environment.
(** [os.LookupEnv]. *)
Context (LookupEnv : bytes -> option bytes).

Definition env (key fallback : bytes) : bytes :=
  match LookupEnv key with
  | None => fallback
  | Some value => TrimSpace value
  end.

Definition envInt (key : bytes) (fallback : Z) : GoError + Z :=
  match LookupEnv key with
  | None => inr fallback
  | Some value =>
      match Atoi (TrimSpace value) with
      | inl _ => inl (Errorf ($"%s must be an integer, got %q") [AStr key; AQuote value])
      | inr n => inr n
      end
  end.

Definition loadSettings : GoError + settings :=
  let listenAddr := env ($"HTTP_LISTEN_ADDR") ($":8080") in
  let containerdSocket := env ($"CONTAINERD_SOCKET") ($"/run/containerd/containerd.sock") in
  let externalDataDir := env ($"EXTERNAL_DATA_DIR") [] in
  if bool_decide (listenAddr = []) then inl (errors_New ($"HTTP_LISTEN_ADDR must not be empty"))
  else
    match envInt ($"MAX_CONCURRENT_CONTAINERS") 8 with
    | inl err => inl err
    | inr maxConcurrentContainers =>
        match envInt ($"MAX_CONCURRENT_JUDGES") 4 with
        | inl err => inl err
        | inr maxConcurrentJudges =>
            let level := env ($"LOG_LEVEL") ($"info") in
            match Level_UnmarshalText level with
            | inl err =>
                inl (Errorf ($"LOG_LEVEL must be a valid slog level, got %q: %w") [AQuote level; AErr err])
            | inr logLevel =>
                inr (MkSettings listenAddr containerdSocket maxConcurrentContainers maxConcurrentJudges
                       externalDataDir logLevel)
            end
        end
    end.
End Environment.

Example atoi_ex : (fun s => match Atoi s with inr n => Some n | inl _ => None end)
    <$> [$"8"; $"+08"; $"-9223372036854775808"; $"9223372036854775808"; []; $"-"; $"1_0"]
  = [Some 8; Some 8; Some (-9223372036854775808); None; None; None; None].
Proof. vm_compute. reflexivity. Qed.
Example level_ex : (fun s => match Level_UnmarshalText s with inr n => Some n | inl _ => None end)
    <$> [$"info"; $"Warn+2"; $"error-9"; []; $"inf"; $"debug+"; int_to_char 196 :: int_to_char 177 :: $"nfo"]
  = [Some 0; Some 6; Some (-1); None; None; None; Some 0].
Proof. vm_compute. reflexivity. Qed.
