(* ===== verification/SettingsSpec.v ===== *)
(** * Which settings are accepted

    A number is accepted in exactly the spellings of a 64-bit integer; the
    settings are those of the environment or the defaults, and a bad value is
    reported under the name of its variable. *)

From S2P Require Import Prelude Text Numbers NumbersSpec GoText Settings.

(** ** Numbers *)

(** An optional sign and digits. *)
Definition signed_digits (s : bytes) (neg : bool) (ds : bytes) : Prop :=
  (s = "-"%char :: ds /\ neg = true \/ (s = ds \/ s = "+"%char :: ds) /\ neg = false)
  /\ digits ds /\ ds <> [].

Lemma parse_uint_value s n v : 0 <= n <= ULLONG_MAX ->
  parse_uint s n = inr v <->
  digits s /\ v = foldl (fun acc c => acc * 10 + (char_to_int c - 48)) n s /\ v <= ULLONG_MAX.
Proof.
  revert n. induction s as [|c s IH]; intros n Hn; cbn [parse_uint foldl].
  { split; [intros [= <-]; repeat split; [constructor|lia]|by intros (_ & -> & _)]. }
  destruct (is_digit c) eqn:Hc; cbn [negb].
  2: { split; [done|]. intros (Hd & _). inversion_clear Hd as [|? ? H' _]. congruence. }
  pose proof Hc as Hr%is_digit_range. destruct (Z.ltb_spec ULLONG_MAX (n * 10 + (char_to_int c - 48))).
  - split; [done|]. intros (Hd & -> & Hv). inversion_clear Hd as [|? ? _ Hd'].
    assert (Hmono : forall l m, digits l -> 0 <= m -> m <= foldl (fun acc c => acc * 10 + (char_to_int c - 48)) m l).
    { induction l as [|x l IHl]; intros m Hl Hm; simpl; [lia|]. inversion_clear Hl as [|? ? Hx Hl'].
      apply is_digit_range in Hx. etransitivity; [|apply IHl; [done|lia]]. lia. }
    specialize (Hmono s (n * 10 + (char_to_int c - 48)) Hd' ltac:(lia)). lia.
  - rewrite IH by lia. split.
    + intros (Hd & Hv & Hle). split; [by constructor|done].
    + intros (Hd & Hv & Hle). by inversion_clear Hd.
Qed.

Lemma parse_uint_digits s v : parse_uint s 0 = inr v <-> digits s /\ v = digits_value s /\ v <= ULLONG_MAX.
Proof. apply parse_uint_value. unfold ULLONG_MAX. lia. Qed.

Definition signed (neg : bool) (v : Z) : Z := if neg then - v else v.

Lemma parse_signed_spec neg ds n : parse_signed neg ds = inr n <->
  digits ds /\ ds <> [] /\ n = signed neg (digits_value ds) /\ is_int64 n.
Proof.
  unfold parse_signed, signed, is_int64, LLONG_MIN, LLONG_MAX. case_bool_decide as Hne; [split; [done|tauto]|].
  destruct (parse_uint ds 0) as [err|un] eqn:Eu.
  - split; [done|]. intros (Hd & _ & -> & Hr). pose proof (digits_value_nonneg ds Hd).
    assert (parse_uint ds 0 = inr (digits_value ds)); [|congruence].
    apply parse_uint_digits. unfold ULLONG_MAX. destruct neg; auto with lia.
  - apply parse_uint_digits in Eu as (Hd & -> & _). pose proof (digits_value_nonneg ds Hd). destruct neg; simpl.
    + destruct (Z.ltb_spec (9223372036854775807 + 1) (digits_value ds)); [split; [done|lia]|].
      split; [intros [= <-]; repeat split; auto; lia|]. by intros (_ & _ & -> & _).
    + destruct (Z.ltb_spec 9223372036854775807 (digits_value ds)); [split; [done|lia]|].
      split; [intros [= <-]; repeat split; auto; lia|]. by intros (_ & _ & -> & _).
Qed.

(** [Atoi] accepts the spellings of the 64-bit integers, a sign in front
    allowed. *)
Lemma Atoi_spec s n : Atoi s = inr n <->
  exists neg ds, signed_digits s neg ds /\ n = signed neg (digits_value ds) /\ is_int64 n.
Proof.
  unfold Atoi. assert (E : parse_int s = inr n <->
    exists neg ds, signed_digits s neg ds /\ n = signed neg (digits_value ds) /\ is_int64 n).
  2: { rewrite <- E. by destruct (parse_int s) as [[]|x]; split; intros [=]; subst. }
  unfold signed_digits, parse_int. destruct s as [|c rest].
  { rewrite parse_signed_spec. split; [tauto|]. intros (neg & ds & ([[? _]|[[E|?] _]] & _ & ?) & _); done. }
  assert (Hplain : is_digit c = true -> c <> "-"%char /\ c <> "+"%char) by (intros Hc; split; by intros ->).
  case_bool_decide as Em; [|case_bool_decide as Ep]; rewrite parse_signed_spec; subst; split.
  - intros (Hd & Hne & -> & Hr). exists true, rest. auto 6.
  - intros (neg & ds & ([[[= ->] ->]|[[E|?] ->]] & Hd & Hne) & -> & Hr); [auto| |done].
    subst ds. inversion_clear Hd as [|? ? Hc _]. by apply Hplain in Hc as [? _].
  - intros (Hd & Hne & -> & Hr). exists false, rest. auto 7.
  - intros (neg & ds & ([[? ->]|[[E|E] ->]] & Hd & Hne) & -> & Hr); [done| |injection E as ->; auto].
    subst ds. inversion_clear Hd as [|? ? Hc _]. by apply Hplain in Hc as [_ ?].
  - intros (Hd & Hne & -> & Hr). exists false, (c :: rest). auto 7.
  - intros (neg & ds & ([[[= ? ?] ->]|[[<-|[= ? ?]] ->]] & Hd & Hne) & -> & Hr); auto; by subst.
Qed.

(** ** The settings *)

Section Spec.
Context `{UnicodeTables} (LookupEnv : bytes -> option bytes).

(** The value of a variable: the default, or the trimmed text. *)
Definition text_setting (key fallback value : bytes) : Prop :=
  match LookupEnv key with None => value = fallback | Some text => value = TrimSpace text end.

Definition int_setting (key : bytes) (fallback n : Z) : Prop :=
  match LookupEnv key with
  | None => n = fallback
  | Some text => exists neg ds, signed_digits (TrimSpace text) neg ds
                   /\ n = signed neg (digits_value ds) /\ is_int64 n
  end.

Definition level_setting (level : Z) : Prop := exists text,
  text_setting ($"LOG_LEVEL") ($"info") text /\ Level_UnmarshalText text = inr level.

Lemma env_setting key fallback v : env LookupEnv key fallback = v <-> text_setting key fallback v.
Proof. unfold env, text_setting. destruct (LookupEnv key); split; congruence. Qed.

Lemma envInt_setting key fallback n : envInt LookupEnv key fallback = inr n <-> int_setting key fallback n.
Proof.
  unfold envInt, int_setting. destruct (LookupEnv key) as [text|]; [|split; congruence].
  rewrite <- Atoi_spec. destruct (Atoi (TrimSpace text)); split; congruence.
Qed.

Lemma envInt_error key fallback err : envInt LookupEnv key fallback = inl err ->
  (forall n, ~ int_setting key fallback n)
  /\ exists rest, error_text err = key ++ $" must be an integer, got " ++ rest.
Proof.
  intros E. split; [intros n Hn%envInt_setting; congruence|].
  unfold envInt in E. destruct (LookupEnv key) as [text|]; [|done].
  destruct (Atoi _); [|done]. injection E as <-. exists (Quote text). cbn [error_text map arg_text].
  generalize (Quote text) as q. intros q. assert (Hf : forall k r, fill ($"%s must be an integer, got %q") [k; r]
    = k ++ ($" must be an integer, got " ++ r ++ [])) by reflexivity.
  by rewrite Hf, app_nil_r.
Qed.

(** The first variable with a bad value. *)
Definition bad_setting (key : bytes) : Prop :=
  (key = $"HTTP_LISTEN_ADDR" /\ text_setting key ($":8080") [])
  \/ (key = $"MAX_CONCURRENT_CONTAINERS" /\ forall n, ~ int_setting key 8 n)
  \/ (key = $"MAX_CONCURRENT_JUDGES" /\ forall n, ~ int_setting key 4 n)
  \/ (key = $"LOG_LEVEL" /\ forall level, ~ level_setting level).

(** C40: the settings are those of the environment, or the defaults: the texts
    trimmed, the numbers in exactly the spellings of 64-bit integers, a level
    that [slog] knows, and an address that is not empty; when there are no such
    settings, the error begins with the name of a variable whose value is
    bad. *)
Theorem loadSettings_correct :
  match loadSettings LookupEnv with
  | inr cfg =>
      listenAddr cfg <> [] /\ text_setting ($"HTTP_LISTEN_ADDR") ($":8080") (listenAddr cfg)
      /\ text_setting ($"CONTAINERD_SOCKET") ($"/run/containerd/containerd.sock") (containerdSocket cfg)
      /\ text_setting ($"EXTERNAL_DATA_DIR") [] (externalDataDir cfg)
      /\ int_setting ($"MAX_CONCURRENT_CONTAINERS") 8 (maxConcurrentContainers cfg)
      /\ int_setting ($"MAX_CONCURRENT_JUDGES") 4 (maxConcurrentJudges cfg)
      /\ level_setting (logLevel cfg)
  | inl err => exists key rest, error_text err = key ++ rest /\ bad_setting key
  end.
Proof.
  unfold loadSettings. cbv zeta. case_bool_decide as Ea.
  { exists ($"HTTP_LISTEN_ADDR"), ($" must not be empty"). split; [done|]. left. split; [done|].
    by apply env_setting. }
  destruct (envInt LookupEnv ($"MAX_CONCURRENT_CONTAINERS") 8) as [err|nc] eqn:Ec.
  { apply envInt_error in Ec as [Hn [rest E]]. exists ($"MAX_CONCURRENT_CONTAINERS"). eexists. split; [exact E|].
    right; left. done. }
  destruct (envInt LookupEnv ($"MAX_CONCURRENT_JUDGES") 4) as [err|nj] eqn:Ej.
  { apply envInt_error in Ej as [Hn [rest E]]. exists ($"MAX_CONCURRENT_JUDGES"). eexists. split; [exact E|].
    right; right; left. done. }
  destruct (Level_UnmarshalText (env LookupEnv ($"LOG_LEVEL") ($"info"))) as [err|level] eqn:El.
  - assert (Hf : forall q t, fill ($"LOG_LEVEL must be a valid slog level, got %q: %w") [q; t]
      = $"LOG_LEVEL" ++ ($" must be a valid slog level, got " ++ q ++ ($": " ++ t ++ []))) by reflexivity.
    exists ($"LOG_LEVEL"). eexists. split.
    + cbn [error_text map arg_text]. apply Hf.
    + do 3 right. split; [done|]. intros level (text & Ht & E). apply env_setting in Ht. congruence.
  - simpl. split; [done|]. repeat split; try by apply env_setting.
    + by apply envInt_setting.
    + by apply envInt_setting.
    + exists (env LookupEnv ($"LOG_LEVEL") ($"info")). split; [by apply env_setting|done].
Qed.
End Spec.
