(* ===== verification/Startup.v ===== *)
(** * Starting the server ([src/cmd/server/main.go])

    [initializeServer] builds the parts of the service one after the other and
    stops at the first that fails: the sandbox with its pool of CPUs
    ([sandbox.New], [newCPUPool]), the resources, the executor, the check of
    the host ([preflight.go]) and the judge ([NewJudgeEngine], [newChecker]).
    What the host answers is the record [host_answers]. *)

From S2P Require Import Prelude Text GoText OutputLimiter Sandbox Brackets Container Model Execution Language Checker CheckerCache Resource Settings.

(** What the host and containerd answer while the server starts. *)
Record host_answers := MkHostAnswers {
  SchedGetaffinity : GoError + (Z -> bool);
  embedded : embed;
  files : host_files;
  cgroups_unified : bool;
  containerd_New : bytes -> option GoError;
  client_Version : bytes -> option GoError }.

Section Startup.
Context (h : host_answers).

(** ** The sandbox *)

(** [unix.CPUSet]: a mask of 1024 bits and the number of those set. *)
Definition CPU_SETSIZE : nat := 1024.
Definition IsSet (mask : Z -> bool) (cpu : Z) : bool := (0 <=? cpu) && (cpu <? 1024) && mask cpu.
Definition Count (mask : Z -> bool) : nat :=
  length (filter (fun i => IsSet mask i = true) (seqZ 0 (Z.of_nat CPU_SETSIZE))).

(** [None] when the loop over the CPUs does not end. *)
Definition newCPUPool : option (GoError + cpuPool) :=
  match SchedGetaffinity h with
  | inl err => Some (inl (Errorf ($"get CPU affinity: %w") [AErr err]))
  | inr mask => newCPUPoolFromIDs <$> cpuIDsFromAffinity CPU_SETSIZE (Count mask) (IsSet mask)
  end.

Record sandbox := MkSandbox { socketPath : bytes; namespace : bytes; cpus : cpuPool }.

Definition sandbox_New (socketPath namespace : bytes) : option (GoError + sandbox) :=
  if bool_decide (TrimSpace socketPath = [])
  then Some (inl (errors_New ($"containerd socket path is required")))
  else if bool_decide (TrimSpace namespace = [])
  then Some (inl (errors_New ($"containerd namespace is required")))
  else
    match newCPUPool with
    | None => None
    | Some (inl err) => Some (inl err)
    | Some (inr cpus) => Some (inr (MkSandbox socketPath namespace cpus))
    end.

(** ** [preflight.go] *)

Definition ensureCgroupV2Enabled : option GoError :=
  if negb (cgroups_unified h) then Some (errors_New ($"cgroup v2 unified mode is required")) else None.

Definition ensureContainerdAvailable (socketPath : bytes) : option GoError :=
  match containerd_New h socketPath with
  | Some err => Some (Errorf ($"connect to containerd socket %q: %w") [AQuote socketPath; AErr err])
  | None =>
      match client_Version h socketPath with
      | Some err => Some (Errorf ($"ping containerd on %q: %w") [AQuote socketPath; AErr err])
      | None => None
      end
  end.

Definition CheckEnvironment (sb : sandbox) : option GoError :=
  match ensureCgroupV2Enabled with
  | Some err => Some err
  | None => ensureContainerdAvailable (socketPath sb)
  end.

(** ** The judge *)

Definition validateResourceFile (b : bundle) (name : bytes) : option GoError :=
  match fs_Stat b name with
  | inl err => Some err
  | inr false => Some (Errorf ($"%q is not a regular file") [AQuote name])
  | inr true => None
  end.

(** [newChecker] returns the header for [newCheckerCompiler]; a cache of
    [checkerCacheEntries] entries is always created. *)
Definition newChecker (b : bundle) : GoError + bytes :=
  match fs_ReadFile b testlibHeaderKey with
  | inl err => inl (Errorf ($"checker dependency %q is not available: %w") [AQuote testlibHeaderKey; AErr err])
  | inr testlibHeader =>
      let defaultCheckerPath := builtinCheckerPath defaultCheckerName in
      match validateResourceFile b defaultCheckerPath with
      | Some err => inl (Errorf ($"checker dependency %q is not available: %w") [AQuote defaultCheckerPath; AErr err])
      | None => inr testlibHeader
      end
  end.

(** The weight of the semaphore, and the header. *)
Record judge_engine := MkEngine { concurrencySem : Z; engineHeader : bytes }.

Definition NewJudgeEngine (b : bundle) (maxConcurrent : Z) : GoError + judge_engine :=
  if maxConcurrent <=? 0
  then inl (Errorf ($"max concurrent judges must be positive, got %d") [ADec maxConcurrent])
  else
    match newChecker b with
    | inl err => inl (Errorf ($"initialize checker: %w") [AErr err])
    | inr testlibHeader => inr (MkEngine maxConcurrent testlibHeader)
    end.

(** ** The server *)

Record service_parts := MkParts {
  s_addr : bytes;
  s_sandbox : sandbox;
  s_bundle : bundle;
  s_external : option bytes;
  s_executor : Z;
  s_engine : judge_engine }.

Definition containerdNamespace : bytes := $"afterglow-sandbox".

Definition open_external (cfg : settings) : GoError + option bytes :=
  if bool_decide (externalDataDir cfg = []) then inr None
  else match NewExternal (files h) (externalDataDir cfg) with
       | inl err =>
           inl (Errorf ($"initialize external resources %q: %w") [AQuote (externalDataDir cfg); AErr err])
       | inr mount => inr (Some mount)
       end.

(** The parts after the sandbox. *)
Definition initialize_parts (cfg : settings) (sb : sandbox) : GoError + service_parts :=
  match NewBundled (embedded h) with
  | inl err => inl (Errorf ($"initialize bundled resources: %w") [AErr err])
  | inr b =>
      match open_external cfg with
      | inl err => inl err
      | inr externalFS =>
          match NewExecutor (maxConcurrentContainers cfg) with
          | inl err => inl (Errorf ($"initialize executor: %w") [AErr err])
          | inr executor =>
              match CheckEnvironment sb with
              | Some err => inl (Errorf ($"sandbox environment check failed: %w") [AErr err])
              | None =>
                  match NewJudgeEngine b (maxConcurrentJudges cfg) with
                  | inl err => inl (Errorf ($"initialize judge engine: %w") [AErr err])
                  | inr judge => inr (MkParts (listenAddr cfg) sb b externalFS executor judge)
                  end
              end
          end
      end
  end.

Definition initializeServer (cfg : settings) : option (GoError + service_parts) :=
  match sandbox_New (containerdSocket cfg) containerdNamespace with
  | None => None
  | Some (inl err) => Some (inl (Errorf ($"initialize sandbox: %w") [AErr err]))
  | Some (inr sb) => Some (initialize_parts cfg sb)
  end.

(** [main]: the exit code, given what [server.Run] returns for the parts;
    [None] when it does not end. *)
Definition server_main (LookupEnv : bytes -> option bytes) (Run : service_parts -> option GoError) : option Z :=
  match loadSettings LookupEnv with
  | inl _ => Some 1
  | inr cfg =>
      match initializeServer cfg with
      | None => None
      | Some (inl _) => Some 1
      | Some (inr parts) => Some (if bool_decide (is_Some (Run parts)) then 1 else 0)
      end
  end.
End Startup.
