(* ===== verification/StartupSpec.v ===== *)
(** * A server that started

    What holds of the parts of the service once [initializeServer] returned
    them: what the other components rely on. *)

From S2P Require Import Prelude Text GoText OutputLimiter Sandbox Brackets Container ContainerSpec Model Execution Language Checker CheckerCache Resource Settings Startup.

Section Spec.
Context (h : host_answers).

(** The CPUs of the mask, in order. *)
Definition mask_cpus (mask : Z -> bool) : list Z := members (IsSet mask) 0 CPU_SETSIZE.

Lemma newCPUPool_spec : newCPUPool h =
  Some (match SchedGetaffinity h with
        | inl err => inl (Errorf ($"get CPU affinity: %w") [AErr err])
        | inr mask => newCPUPoolFromIDs (mask_cpus mask)
        end).
Proof.
  unfold newCPUPool. destruct (SchedGetaffinity h) as [err|mask]; [done|].
  unfold Count. change (filter _ (seqZ 0 (Z.of_nat CPU_SETSIZE))) with (mask_cpus mask).
  unfold mask_cpus. by rewrite cpuIDs_members.
Qed.

Lemma initialize_ends cfg : exists res, initializeServer h cfg = Some res.
Proof.
  unfold initializeServer, sandbox_New. repeat case_bool_decide; [by eexists..|].
  rewrite newCPUPool_spec. destruct (match SchedGetaffinity h with inl _ => _ | inr _ => _ end); by eexists.
Qed.

Lemma stat_read files dir name : sub_Stat files dir name = inr true ->
  exists data, sub_ReadFile files dir name = inr data.
Proof.
  unfold sub_Stat. destruct (negb _); [done|]. destruct (sub_ReadFile files dir name) as [err|data]; [|by exists data].
  by destruct (is_directory _ _).
Qed.

(** What a started server guarantees to the components it is made of. *)
Record ready (cfg : settings) (p : service_parts) : Prop := {
  ready_addr : s_addr p = listenAddr cfg;
  ready_cpus : exists mask, SchedGetaffinity h = inr mask /\ mask_cpus mask <> []
    /\ cpus (s_sandbox p) = MkPool (zlen (mask_cpus mask)) (mask_cpus mask);
  ready_executions : 0 < s_executor p /\ s_executor p = maxConcurrentContainers cfg;
  ready_judges : 0 < concurrencySem (s_engine p) /\ concurrencySem (s_engine p) = maxConcurrentJudges cfg;
  ready_header : fs_ReadFile (s_bundle p) testlibHeaderKey = inr (engineHeader (s_engine p));
  ready_checker : exists source, forall externalFS,
    readSource (fs_ReadFile (s_bundle p)) externalFS (MkChoice checkerBuiltin defaultCheckerName) = inr source;
  ready_external : s_external p = (if bool_decide (externalDataDir cfg = []) then None else Some (externalDataDir cfg));
  ready_root mount : s_external p = Some mount -> IsAbs mount = true /\ os_Stat (files h) mount = inr true;
  ready_host : cgroups_unified h = true /\ containerd_New h (socketPath (s_sandbox p)) = None
    /\ client_Version h (socketPath (s_sandbox p)) = None }.

Lemma sandbox_New_inr socket ns sb : sandbox_New h socket ns = Some (inr sb) ->
  socketPath sb = socket /\ exists mask, SchedGetaffinity h = inr mask /\ mask_cpus mask <> []
    /\ cpus sb = MkPool (zlen (mask_cpus mask)) (mask_cpus mask).
Proof.
  unfold sandbox_New. repeat (case_bool_decide; [done|]). rewrite newCPUPool_spec.
  destruct (SchedGetaffinity h) as [err|mask]; [done|]. unfold newCPUPoolFromIDs.
  destruct (Z.eqb_spec (zlen (mask_cpus mask)) 0) as [|Hne]; [done|]. intros [= <-]. split; [done|].
  exists mask. split; [done|]. split; [|done]. intros E. by rewrite E in Hne.
Qed.

Lemma open_external_inr cfg ext : open_external h cfg = inr ext ->
  ext = (if bool_decide (externalDataDir cfg = []) then None else Some (externalDataDir cfg))
  /\ forall mount, ext = Some mount -> IsAbs mount = true /\ os_Stat (files h) mount = inr true.
Proof.
  unfold open_external. case_bool_decide; [by intros [= <-]|]. unfold NewExternal.
  destruct (IsAbs (externalDataDir cfg)) eqn:Ea; [|done]. simpl.
  destruct (os_Stat (files h) (externalDataDir cfg)) as [err|[]] eqn:Es; try done.
  intros [= <-]. split; [done|]. by intros mount [= <-].
Qed.

Lemma NewJudgeEngine_inr b n e : NewJudgeEngine b n = inr e ->
  (0 < concurrencySem e /\ concurrencySem e = n) /\ fs_ReadFile b testlibHeaderKey = inr (engineHeader e)
  /\ fs_Stat b (builtinCheckerPath defaultCheckerName) = inr true.
Proof.
  unfold NewJudgeEngine, newChecker, validateResourceFile. destruct (Z.leb_spec n 0); [done|].
  destruct (fs_ReadFile b testlibHeaderKey) as [|hd]; [done|].
  destruct (fs_Stat b _) as [|[]]; try done. by intros [= <-].
Qed.

Lemma CheckEnvironment_none sb : CheckEnvironment h sb = None ->
  cgroups_unified h = true /\ containerd_New h (socketPath sb) = None /\ client_Version h (socketPath sb) = None.
Proof.
  unfold CheckEnvironment, ensureCgroupV2Enabled, ensureContainerdAvailable.
  destruct (cgroups_unified h); [|done]. simpl. destruct (containerd_New h _); [done|]. by destruct (client_Version h _).
Qed.

Lemma initialize_ready cfg parts : initializeServer h cfg = Some (inr parts) -> ready cfg parts.
Proof.
  unfold initializeServer. destruct (sandbox_New h _ _) as [[|sb]|] eqn:Esb; [done| |done].
  apply sandbox_New_inr in Esb as [Esock Hcpus]. unfold initialize_parts.
  destruct (NewBundled (embedded h)) as [|b] eqn:Eb; [done|].
  destruct (open_external h cfg) as [|ext] eqn:Ee; [done|]. apply open_external_inr in Ee as [Eext Hext].
  unfold NewExecutor. destruct (Z.leb_spec (maxConcurrentContainers cfg) 0); [done|].
  destruct (CheckEnvironment h sb) eqn:Ec; [done|]. apply CheckEnvironment_none in Ec.
  destruct (NewJudgeEngine b _) as [|engine] eqn:Ej; [done|]. apply NewJudgeEngine_inr in Ej as (Hj & Hh & Hs).
  intros [= <-]. injection Eb as <-. apply stat_read in Hs as [source Hs].
  constructor; simpl; try done.
  exists source. intros externalFS. unfold readSource. cbn [kind choice_value]. by rewrite Hs.
Qed.

Lemma initialize_bundle cfg parts : initializeServer h cfg = Some (inr parts) ->
  NewBundled (embedded h) = inr (s_bundle parts).
Proof.
  unfold initializeServer, initialize_parts. destruct (sandbox_New h _ _) as [[|sb]|]; [done| |done].
  destruct (NewBundled (embedded h)) as [|b]; [done|].
  destruct (open_external h cfg); [done|]. destruct (NewExecutor _); [done|]. destruct (CheckEnvironment h sb); [done|].
  destruct (NewJudgeEngine _ _); [done|]. by intros [= <-].
Qed.

(** C21: starting the server always ends, with an error that makes [main] exit
    with code 1, or with parts that are ready: a pool of exactly the CPUs of
    the affinity mask, positive limits on executions and judges, a header and a
    default checker that can be read, an external root that is an absolute
    directory, and a host that passed its checks; the process then exits with
    1 exactly when [Run] fails. *)
Theorem startup_ready (LookupEnv : bytes -> option bytes) (Run : service_parts -> option GoError) :
  match loadSettings LookupEnv with
  | inl _ => server_main h LookupEnv Run = Some 1
  | inr cfg =>
      (exists err, initializeServer h cfg = Some (inl err) /\ server_main h LookupEnv Run = Some 1)
      \/ (exists parts, initializeServer h cfg = Some (inr parts) /\ ready cfg parts
            /\ server_main h LookupEnv Run = Some (if bool_decide (is_Some (Run parts)) then 1 else 0))
  end.
Proof.
  unfold server_main. destruct (loadSettings LookupEnv) as [err|cfg]; [done|].
  destruct (initialize_ends cfg) as [[err|parts] E]; rewrite E; [left; by exists err|right].
  exists parts. split; [done|]. split; [by apply initialize_ready|done].
Qed.
End Spec.
