(* ===== verification/Transport.v ===== *)
(** * The HTTP handler ([src/internal/transport/httptransport/handler.go])

    [handleExecute] decodes one request, hands it to the judge and writes one
    JSON answer.  The decoder of [encoding/json] is an interface, and so are
    the streams it reads; the body it is given is cut at the limit of
    [http.MaxBytesReader].  The judge runs under a context that is never
    cancelled, so its semaphore is always acquired. *)

From S2P Require Import Prelude Text GoText Model Sandbox Execution Language Checker CheckerCache Judge.

Definition maxRequestBodyBytes : Z := 268435456.

Definition StatusOK : Z := 200.
Definition StatusBadRequest : Z := 400.

Record errorResponse := MkErrorResponse { Error : bytes; Code : bytes; Details : bytes }.

(** What [writeJSON] encodes. *)
Inductive json_data := ResultData (r : JudgeResult) | ErrorData (e : errorResponse).

(** The header is the only one the handler sets. *)
Record response := MkResponse { StatusCode : Z; ContentType : bytes; Data : json_data }.

Definition writeJSON (status : Z) (data : json_data) : response :=
  MkResponse status ($"application/json") data.

Definition writeInvalidRequest (details : bytes) : response :=
  writeJSON StatusBadRequest
    (ErrorData (MkErrorResponse ($"Bad Request") ($"INVALID_REQUEST") details)).

(** A request body behind [http.MaxBytesReader]: the bytes that can be read,
    and whether reading on fails. *)
Record body_reader := MkBody { available : bytes; too_large : bool }.

Definition MaxBytesReader (body : bytes) (n : Z) : body_reader :=
  MkBody (ztake n body) (n <? zlen body).

(** A decoder with [DisallowUnknownFields]: [decode_request] is the first
    [Decode], with what is left to read; [decode_end] tells whether the next
    one returns [io.EOF]. *)
Class JSONDecoder := {
  decode_request : body_reader -> GoError + (JudgeRequest * body_reader);
  decode_end : body_reader -> bool }.

Section Handler.
Context `{UnicodeTables} {S : Type} `{Executor S} `{JSONDecoder}.
Context (Sum256 : bytes -> bytes).
Context {C : Type} {L : LRU bytes CompileOutput C}.
Context (testlibHeader : bytes) (bundledFS : FS) (externalFS : option FS).

Definition handleExecute (maxBodyBytes : Z) (body : bytes) (cache : C) (s : S)
  : response * C * S :=
  match decode_request (MaxBytesReader body maxBodyBytes) with
  | inl err => (writeInvalidRequest (error_text err), cache, s)
  | inr (req, rest) =>
      if negb (decode_end rest)
      then (writeInvalidRequest ($"request body must contain exactly one JSON object"), cache, s)
      else
        let '(result, cache, s) :=
          Judge Sum256 testlibHeader bundledFS externalFS None req cache s in
        match result with
        | inl err => (writeInvalidRequest (error_text err), cache, s)
        | inr res => (writeJSON StatusOK (ResultData res), cache, s)
        end
  end.
End Handler.
