(* ===== verification/TransportSpec.v ===== *)
(** * What a client is answered

    Every body gets one answer; nothing is compiled or run for the requests
    that are refused, and an accepted request is answered with a result that
    means what it says. *)

From S2P Require Import Prelude Text GoText Model Sandbox Execution ExecutionSpec Language Checker CheckerCache Judge JudgeSpec Transport.

Section Transport.
Context `{UnicodeTables} {S : Type} `{ExecutorLaws S} `{JSONDecoder}.
Context (Sum256 : bytes -> bytes).
Context {C : Type} {L : LRU bytes CompileOutput C}.
Context (testlibHeader : bytes) (bundledFS : FS) (externalFS : option FS).

(** The request of a body, if it is one JSON object within the limit. *)
Definition sole_request (maxBodyBytes : Z) (body : bytes) : option JudgeRequest :=
  match decode_request (MaxBytesReader body maxBodyBytes) with
  | inr (req, rest) => if decode_end rest then Some req else None
  | inl _ => None
  end.

(** C10: every body is answered either with 400 and an [INVALID_REQUEST] body,
    nothing having been compiled or run and the cache untouched, or with 200
    and the result of a valid request, which was the only object of the body:
    one result per test case, under a status that means what it says.  A body
    that is not a single request is refused. *)
Theorem http_answer maxBodyBytes body cache s :
  let '(resp, cache', s') :=
    handleExecute Sum256 testlibHeader bundledFS externalFS maxBodyBytes body cache s in
  ContentType resp = $"application/json"
  /\ match Data resp with
     | ErrorData e =>
         StatusCode resp = 400 /\ Code e = $"INVALID_REQUEST" /\ cache' = cache /\ s' = s
     | ResultData jr =>
         StatusCode resp = 200 /\ exists req, sole_request maxBodyBytes body = Some req
           /\ valid_request req
           /\ result_means (length (TestCases req)) (negb (bool_decide (CheckerSourceCode req = []))) jr
     end.
Proof.
  unfold handleExecute, sole_request. destruct (decode_request _) as [err|[req rest]]; [done|].
  destruct (decode_end rest); [|done]. simpl.
  destruct (Judge _ _ _ _ _ req cache s) as [[[err|jr] cache'] s'] eqn:E; simpl;
    apply judge_answers in E.
  - by destruct E as [-> ->].
  - destruct E as (Hv & Hm & _). split; [done|]. split; [done|]. by exists req.
Qed.
End Transport.

(** ** A concrete service *)

(** A decoder that knows one object. *)
#[local] Instance sample_decoder : JSONDecoder := {|
  decode_request b :=
    if is_prefix ($"{}") (available b)
    then inr (yes_request, MkBody (drop 2 (available b)) (too_large b))
    else inl (errors_New ($"invalid character"));
  decode_end b := bool_decide (available b = []) && negb (too_large b) |}.

Definition sample_answer (body : bytes) : response * assoc_lru * unit :=
  @handleExecute ascii_tables unit yes_Executor sample_decoder (fun _ => []) assoc_lru _ ($"h")
    (fun _ => inr []) None maxRequestBodyBytes body (lru_new 64) tt.

Lemma http_answer_witness :
  (exists jr cache', sample_answer ($"{}") = (MkResponse 200 ($"application/json") (ResultData jr), cache', tt)
     /\ Cases jr = [yes_result] /\ result_means 1 true jr)
  /\ StatusCode (sample_answer ($"{}{}")).1.1 = 400.
Proof.
  pose proof (@http_answer ascii_tables unit yes_Executor yes_laws sample_decoder (fun _ => []) assoc_lru _
                ($"h") (fun _ => inr []) None maxRequestBodyBytes) as H. split.
  - specialize (H ($"{}") (lru_new 64) tt). eexists _, _. split; [reflexivity|]. split; [reflexivity|].
    destruct H as (_ & _ & req & [= <-] & _ & Hm). exact Hm.
  - specialize (H ($"{}{}") (lru_new 64) tt). destruct H as (_ & Hs & _). exact Hs.
Defined.
