(* ===== verification/Server.v ===== *)
(** * The HTTP server ([src/internal/transport/httptransport/server.go], [middleware.go])

    [Run] and the goroutine it starts, with the part of [net/http.Server] they
    rely on, as a step relation: [ListenAndServe] binds, accepts and returns,
    [Shutdown] closes the listener and waits for the active requests.  The
    steps are of two kinds: arrivals, which the outside decides (a new request,
    the cancellation of the context), and work, which the process does (a
    handler that returns included). *)

From S2P Require Import Prelude Text GoText Execution Judge Transport.

(** ** [middleware.go] *)

(** The wrapped writer: what was sent on, and the status to log. *)
Record responseWriter := MkWriter { sent : list Z; statusCode : Z }.

Definition WriteHeader (code : Z) (rw : responseWriter) : responseWriter :=
  MkWriter (sent rw ++ [code]) code.

Record log_entry := MkLog { log_method : bytes; log_path : bytes; log_status : Z }.

(** [next] is what the handler does to its writer. *)
Definition loggingMiddleware (next : responseWriter -> responseWriter) (method path : bytes)
  : list Z * log_entry :=
  let wrapped := next (MkWriter [] StatusOK) in
  (sent wrapped, MkLog method path (statusCode wrapped)).

(** What [writeJSON] does for a response. *)
Definition write_response (r : response) : responseWriter -> responseWriter := WriteHeader (StatusCode r).

(** ** [server.go] *)

(** The goroutine: not scheduled yet, past the check for a shutdown, accepting,
    or done with [serveErr]. *)
Inductive serving := Unstarted | Binding | Listening | ServeDone (serveErr : option GoError).

(** [Run]: at its [select], in [Shutdown] before and after the listener is
    closed, at [<-serveDone], or returned. *)
Inductive running :=
  | Selecting
  | Closing
  | Draining (listenerErr : option GoError)
  | Joining (shutdownErr : option GoError)
  | Finished (err : option GoError).

Record server_state := MkServer {
  goroutine : serving; run : running; cancelled : bool; active : nat }.

Definition new_server : server_state := MkServer Unstarted Selecting false 0.

(** [Shutdown] was called; the listener may still be open. *)
Definition shutting_down (r : running) : bool := match r with Selecting => false | _ => true end.
Definition listener_open (r : running) : bool := match r with Selecting | Closing => true | _ => false end.

Inductive server_event := Arrival | Work.

Definition serve_error (err : GoError) : option GoError := Some (Errorf ($"server error: %w") [AErr err]).

Inductive server_step : server_event -> server_state -> server_state -> Prop :=
  | ev_cancel st : cancelled st = false ->
      server_step Arrival st (MkServer (goroutine st) (run st) true (active st))
  | ev_accept st : goroutine st = Listening -> listener_open (run st) = true ->
      server_step Arrival st (MkServer Listening (run st) (cancelled st) (S (active st)))
  | ev_request_done st n : active st = S n ->
      server_step Work st (MkServer (goroutine st) (run st) (cancelled st) n)
  | ev_start st : goroutine st = Unstarted ->
      server_step Work st
        (MkServer (if shutting_down (run st) then ServeDone None else Binding) (run st) (cancelled st) (active st))
  | ev_bind st : goroutine st = Binding ->
      server_step Work st
        (MkServer (if shutting_down (run st) then ServeDone None else Listening) (run st) (cancelled st) (active st))
  | ev_bind_error st err : goroutine st = Binding ->
      server_step Work st (MkServer (ServeDone (serve_error err)) (run st) (cancelled st) (active st))
  | ev_accept_error st err : goroutine st = Listening -> shutting_down (run st) = false ->
      server_step Work st (MkServer (ServeDone (serve_error err)) (run st) (cancelled st) (active st))
  | ev_server_closed st : goroutine st = Listening -> shutting_down (run st) = true ->
      server_step Work st (MkServer (ServeDone None) (run st) (cancelled st) (active st))
  | ev_select_done st serveErr : run st = Selecting -> goroutine st = ServeDone serveErr ->
      server_step Work st (MkServer (goroutine st) Closing (cancelled st) (active st))
  | ev_select_cancelled st : run st = Selecting -> cancelled st = true ->
      server_step Work st (MkServer (goroutine st) Closing (cancelled st) (active st))
  | ev_close st err : run st = Closing ->
      server_step Work st (MkServer (goroutine st) (Draining err) (cancelled st) (active st))
  | ev_drained st err : run st = Draining err -> goroutine st <> Listening -> active st = 0%nat ->
      server_step Work st
        (MkServer (goroutine st)
           (Joining ((fun e => Errorf ($"server shutdown failed: %w") [AErr e]) <$> err))
           (cancelled st) (active st))
  | ev_join st serveErr shutdownErr : run st = Joining shutdownErr -> goroutine st = ServeDone serveErr ->
      server_step Work st
        (MkServer (goroutine st) (Finished (errors_Join [serveErr; shutdownErr])) (cancelled st) (active st)).

(** An execution, with its events in order. *)
Inductive server_runs : list server_event -> server_state -> Prop :=
  | runs_new : server_runs [] new_server
  | runs_step events event st st' : server_runs events st -> server_step event st st' ->
      server_runs (events ++ [event]) st'.
