(* ===== verification/ServerSpec.v ===== *)
(** * The server stops

    Once it is asked to stop, [Run] returns as soon as the requests that are
    being served are answered, and what it returns are the errors of its
    goroutine and of [Shutdown]. *)

From S2P Require Import Prelude Text GoText Execution Judge Transport Server.

(** The status that is logged is the one that was sent. *)
Lemma middleware_status r method path :
  loggingMiddleware (write_response r) method path = ([StatusCode r], MkLog method path (StatusCode r)).
Proof. reflexivity. Qed.

(** ** Work to do *)

Definition serving_work (g : serving) : nat :=
  match g with Unstarted => 3 | Binding => 2 | Listening => 1 | ServeDone _ => 0 end.
Definition running_work (r : running) : nat :=
  match r with Selecting => 4 | Closing => 3 | Draining _ => 2 | Joining _ => 1 | Finished _ => 0 end.
Definition server_work (st : server_state) : nat :=
  (serving_work (goroutine st) + running_work (run st) + active st)%nat.

Definition is_work (e : server_event) : bool := match e with Work => true | Arrival => false end.
Definition works (events : list server_event) : nat := length (List.filter is_work events).
Definition arrivals (events : list server_event) : nat := length (List.filter (fun e => negb (is_work e)) events).

Lemma step_work e st st' : server_step e st st' ->
  (server_work st' + (if is_work e then 1 else 0) <= server_work st + (if is_work e then 0 else 1))%nat.
Proof.
  intros Hs. unfold server_work. destruct Hs; simpl;
    repeat match goal with H : goroutine _ = _ |- _ => rewrite H; clear H | H : run _ = _ |- _ => rewrite H; clear H
      | H : active _ = _ |- _ => rewrite H; clear H end; simpl;
    try destruct (shutting_down _); simpl; lia.
Qed.

Lemma runs_work events st : server_runs events st -> (server_work st + works events <= 7 + arrivals events)%nat.
Proof.
  induction 1 as [|events e st st' _ IH Hs]; [done|]. apply step_work in Hs. unfold works, arrivals in *.
  rewrite !List.filter_app, !length_app. destruct e; simpl in *; lia.
Qed.

(** ** Progress *)

(** The server was asked to stop: the context is cancelled, serving ended, or
    the shutdown has begun. *)
Definition stop_requested (st : server_state) : Prop :=
  cancelled st = true \/ (exists err, goroutine st = ServeDone err) \/ run st <> Selecting.

Definition returned (st : server_state) (err : option GoError) : Prop := run st = Finished err.

Lemma goroutine_moves st : shutting_down (run st) = true -> (exists err, goroutine st = ServeDone err)
  \/ exists st', server_step Work st st'.
Proof.
  intros Hd. destruct (goroutine st) as [| | |err] eqn:Eg; [| | |by left; exists err]; right; eexists.
  - by apply ev_start.
  - by apply ev_bind.
  - by apply ev_server_closed.
Qed.

Lemma stop_progress st : stop_requested st -> (forall err, ~ returned st err) -> exists st', server_step Work st st'.
Proof.
  intros Hstop Hn. unfold returned in Hn. destruct (run st) as [| |lerr|serr|err] eqn:Er.
  - destruct Hstop as [Hc|[[err Hg]|?]]; [| |done]; eexists; [by apply ev_select_cancelled|by eapply ev_select_done].
  - eexists. by apply (ev_close _ None).
  - destruct (goroutine_moves st) as [[err Eg]|?]; [by rewrite Er| |done].
    destruct (active st) as [|n] eqn:Ea; eexists; [|by apply ev_request_done].
    eapply ev_drained; [done| |done]. by rewrite Eg.
  - destruct (goroutine_moves st) as [[err Eg]|?]; [by rewrite Er| |done]. eexists. by eapply ev_join.
  - by destruct (Hn err).
Qed.

(** ** What [Run] returns *)

(** Past the drain no request is active and none is accepted; the goroutine
    is never accepting again. *)
Record server_inv (st : server_state) : Prop := {
  sinv_drained : (running_work (run st) <= 1)%nat -> active st = 0%nat /\ goroutine st <> Listening;
  sinv_finished err : run st = Finished err -> exists serveErr listenerErr,
    goroutine st = ServeDone serveErr
    /\ err = errors_Join [serveErr; (fun e => Errorf ($"server shutdown failed: %w") [AErr e]) <$> listenerErr];
  sinv_joining err : run st = Joining err ->
    exists listenerErr, err = (fun e => Errorf ($"server shutdown failed: %w") [AErr e]) <$> listenerErr }.

Lemma server_step_inv e st st' : server_inv st -> server_step e st st' -> server_inv st'.
Proof.
  intros [I1 I2 I3] Hs. destruct Hs as [st|st Hg Ho|st n Ha|st Hg|st Hg|st err Hg|st err Hg Hd|st Hg Hd
    |st err Hr Hg|st Hr Hc|st err Hr|st err Hr Hg Ha|st e1 e2 Hr Hg]; constructor; simpl; intros.
  all: try (by apply I1). all: try (by eapply I2). all: try (by eapply I3). all: try done. all: try lia.
  all: try (destruct (run st); simpl in *; done || lia).
  all: try (match goal with Hg : goroutine ?st = _, H : run ?st = Finished _ |- _ =>
              destruct (I2 _ H) as (? & ? & ? & ?); congruence end).
  all: try (destruct (I1 ltac:(done)) as [? ?]; congruence).
  - destruct (I1 H) as [? _]. split; [done|]. by destruct (shutting_down _).
  - destruct (I1 H) as [? _]. split; [done|]. by destruct (run st); simpl in *; lia || done.
  - by destruct (I1 H).
  - injection H as <-. by exists err.
  - by destruct (I1 ltac:(rewrite Hr; simpl; lia)).
  - injection H as <-. destruct (I3 _ Hr) as [lerr ->]. by exists e1, lerr.
Qed.

Lemma runs_inv events st : server_runs events st -> server_inv st.
Proof.
  induction 1 as [|events e st st' _ IH Hs]; [|by eapply server_step_inv].
  constructor; simpl; [lia|done|done].
Qed.

(** C20: whatever the order of arrivals and of the steps of [Run] and of its
    goroutine: the work done is bounded by the arrivals, so that it ends once
    no more requests arrive, and none is accepted after the listener is closed;
    from the moment the server is asked to stop some work can always be done
    until [Run] returns; and when it has returned, no request is active and
    nothing but a late cancellation can happen, and its error joins that of
    [ListenAndServe] and that of closing the listener. *)
Theorem server_stops events st : server_runs events st ->
  (works events <= 7 + arrivals events)%nat
  /\ (forall st', server_step Arrival st st' -> listener_open (run st) = false -> active st' = active st)
  /\ (stop_requested st -> (forall err, ~ returned st err) -> exists st', server_step Work st st')
  /\ (forall err, returned st err ->
        active st = 0%nat /\ (forall st', ~ server_step Work st st')
        /\ exists serveErr listenerErr, goroutine st = ServeDone serveErr
             /\ err = errors_Join [serveErr;
                        (fun e => Errorf ($"server shutdown failed: %w") [AErr e]) <$> listenerErr]).
Proof.
  intros Hr. pose proof (runs_work _ _ Hr) as Hw. pose proof (runs_inv _ _ Hr) as I.
  split; [lia|]. split; [|split; [apply stop_progress|]].
  - intros st' Hs Hl. inversion Hs; subst; simpl; congruence.
  - unfold returned. intros err He. destruct (sinv_finished _ I _ He) as (serr & lerr & Hg & E).
    destruct (sinv_drained _ I) as [Ha _]; [rewrite He; simpl; lia|]. split; [done|]. split; [|by exists serr, lerr].
    intros st' Hs. inversion Hs; subst; simpl in *; congruence.
Qed.

(** ** A server that is stopped while it answers a request *)

Definition sample_events : list server_event :=
  [Work; Work; Arrival; Arrival; Work; Work; Work; Work; Work; Work].

Lemma sample_runs : server_runs sample_events (MkServer (ServeDone None) (Finished None) true 0).
Proof.
  change sample_events with ((((((((([] ++ [Work]) ++ [Work]) ++ [Arrival]) ++ [Arrival]) ++ [Work]) ++ [Work])
    ++ [Work]) ++ [Work]) ++ [Work] ++ [Work]). rewrite app_assoc.
  eapply runs_step; [|by eapply (ev_join (MkServer (ServeDone None) (Joining None) true 0) None None)].
  eapply runs_step; [|by eapply (ev_drained (MkServer (ServeDone None) (Draining None) true 0) None)].
  eapply runs_step; [|by eapply (ev_request_done (MkServer (ServeDone None) (Draining None) true 1) 0)].
  eapply runs_step; [|by eapply (ev_server_closed (MkServer Listening (Draining None) true 1))].
  eapply runs_step; [|by eapply (ev_close (MkServer Listening Closing true 1) None)].
  eapply runs_step; [|by eapply (ev_select_cancelled (MkServer Listening Selecting true 1))].
  eapply runs_step; [|by eapply (ev_cancel (MkServer Listening Selecting false 1))].
  eapply runs_step; [|by eapply (ev_accept (MkServer Listening Selecting false 0))].
  eapply runs_step; [|by eapply (ev_bind (MkServer Binding Selecting false 0))].
  eapply runs_step; [apply runs_new|by eapply (ev_start new_server)].
Qed.

Lemma server_stops_witness :
  server_runs sample_events (MkServer (ServeDone None) (Finished None) true 0)
  /\ works sample_events = 8%nat /\ (8 <= 7 + arrivals sample_events)%nat
  /\ forall st', ~ server_step Work (MkServer (ServeDone None) (Finished None) true 0) st'.
Proof.
  pose proof (server_stops sample_events _ sample_runs) as (Hw & _ & _ & Hr).
  split; [exact sample_runs|]. split; [reflexivity|]. split; [exact Hw|].
  exact (proj1 (proj2 (Hr None eq_refl))).
Defined.
