(* ===== verification/Service.v ===== *)
(** * The service under concurrent requests

    [net/http] runs one goroutine per request.  This file interleaves them: the
    handler of each request ([handler.go], [judge_service.go]) as a state
    machine that stops where the code blocks or calls another component, over
    the state they share, which is the executor, the weighted semaphore of the
    judge, and the compile cache with its single-flight group
    (CheckerCache.v).  The step relation is built from the components' own
    steps.  The semaphore admits any of the requests that wait: its order of
    arrival is one of the orders.  [handleExecute] judges under a context that
    is never cancelled, so that [Acquire] blocks and does not fail. *)

From S2P Require Import Prelude Text GoText Model Sandbox Execution Language Checker CheckerCache Judge Transport Server.

Section Service.
Context `{UnicodeTables} {S : Type} `{Executor S} `{JSONDecoder}.
Context (Sum256 : bytes -> bytes).
Context {C : Type} {L : LRU bytes CompileOutput C}.
Context (testlibHeader : bytes) (bundledFS : FS) (externalFS : option FS).
Context (maxBodyBytes : Z).
(** The size of [concurrencySem]. *)
Context (maxConcurrent : Z).

(** ** The handler between its blocking calls *)

(** [handleExecute] and [Judge], up to [concurrencySem.Acquire]. *)
Definition receive (body : bytes) : response + (JudgeRequest * resolvedLanguage * checkerChoice) :=
  match decode_request (MaxBytesReader body maxBodyBytes) with
  | inl err => inl (writeInvalidRequest (error_text err))
  | inr (req, rest) =>
      if negb (decode_end rest)
      then inl (writeInvalidRequest ($"request body must contain exactly one JSON object"))
      else
        match validateJudgeRequest req with
        | Some err => inl (writeInvalidRequest (error_text err))
        | None =>
            match language_Resolve (ReqLanguage req) with
            | inl err => inl (writeInvalidRequest (error_text err))
            | inr compiler =>
                match resolveChecker (Model.Checker req) (CheckerSourceCode req) with
                | inl err => inl (writeInvalidRequest (error_text err))
                | inr choice => inr (req, compiler, choice)
                end
            end
        end
  end.

(** [executeJudgePlan], after the program was compiled. *)
Definition after_compile (compiled : GoError + (option compiledProgram * CompileResult))
  : JudgeResult + (compiledProgram * CompileResult) :=
  match compiled with
  | inl err => inl (failedBeforeRun ($"compile infrastructure error: " ++ error_text err))
  | inr (None, compileResult) => inl (MkJudgeResult JudgeStatusCompileError compileResult None [])
  | inr (Some program, compileResult) => inr (program, compileResult)
  end.

(** [executeJudgePlan], after [prepare] returned. *)
Definition after_prepare (plan : judgePlan) (program : compiledProgram) (compileResult : CompileResult)
    (compilation : GoError + CompileOutput) : JudgeResult + (caseRunner * CompileResult) :=
  match compilation with
  | inl _ => inl (MkJudgeResult JudgeStatusSystemError compileResult None [])
  | inr out =>
      let checkerCompile := MkCompileResult (bool_decide (is_Some (CArtifact out))) (CLog out) in
      match CArtifact out with
      | None =>
          inl (MkJudgeResult (if p_checkerProvidedByRequest plan then JudgeStatusCheckerCompileError
                              else JudgeStatusSystemError)
                 compileResult (Some checkerCompile) [])
      | Some checker =>
          inr (MkRunner program checker (p_checkerProvidedByRequest plan)
                 (p_timeLimit plan) (p_memoryLimit plan), checkerCompile)
      end
  end.

(** [executeJudgePlan], after [runAllCases]. *)
Definition after_cases (compileResult checkerCompile : CompileResult) (results : list JudgeCaseResult)
  : JudgeResult :=
  MkJudgeResult (aggregateStatus results) compileResult (Some checkerCompile) results.

(** ** The shared state *)

(** Where the goroutine of a request is: at its start, blocked in [Acquire],
    with the semaphore and before [materialize], before the compilation of the
    program, before [prepare], inside it, at [wg.Wait()] for its cases, or
    returned. *)
Inductive phase :=
  | Received
  | Queued (req : JudgeRequest) (compiler : resolvedLanguage) (choice : checkerChoice)
  | Acquired (req : JudgeRequest) (compiler : resolvedLanguage) (choice : checkerChoice)
  | Planned (plan : judgePlan)
  | Built (plan : judgePlan) (program : compiledProgram) (compileResult : CompileResult)
  | Preparing (plan : judgePlan) (program : compiledProgram) (compileResult : CompileResult)
  | Judging (plan : judgePlan) (runner : caseRunner) (compileResult checkerCompile : CompileResult)
      (threads : list case_thread) (results : list JudgeCaseResult)
  | Answered (resp : response).

Record handler := MkHandler { h_body : bytes; h_phase : phase }.

(** [sv_acquired] is the weight taken from the semaphore; a handler calls the
    cache under its own number. *)
Record service := MkService {
  sv_exec : S;
  sv_acquired : Z;
  sv_group : @group_state C;
  sv_handlers : gmap nat handler }.

Definition new_service (s : S) : service := MkService s 0 new_group ∅.

(** Handler [g] goes to [p]. *)
Definition go (g : nat) (body : bytes) (p : phase) (st : service) : service :=
  MkService (sv_exec st) (sv_acquired st) (sv_group st) (<[g := MkHandler body p]> (sv_handlers st)).

Definition with_exec (s : S) (st : service) : service :=
  MkService s (sv_acquired st) (sv_group st) (sv_handlers st).

Definition acquire (st : service) : service :=
  MkService (sv_exec st) (sv_acquired st + 1) (sv_group st) (sv_handlers st).

(** The deferred [Release], when [Judge] returns, and the answer. *)
Definition finish (g : nat) (body : bytes) (resp : response) (st : service) : service :=
  go g body (Answered resp) (MkService (sv_exec st) (sv_acquired st - 1) (sv_group st) (sv_handlers st)).

Definition finish_result (g : nat) (body : bytes) (jr : JudgeResult) : service -> service :=
  finish g body (writeJSON StatusOK (ResultData jr)).

Definition with_group (grp : group_state) (st : service) : service :=
  MkService (sv_exec st) (sv_acquired st) grp (sv_handlers st).

Definition at_phase (st : service) (g : nat) (body : bytes) (p : phase) : Prop :=
  sv_handlers st !! g = Some (MkHandler body p).

(** ** Steps *)

(** An arrival is a request that [net/http] hands to its own goroutine; all the
    rest is work. *)
Inductive service_step : server_event -> service -> service -> Prop :=
  | sv_arrive g body st : sv_handlers st !! g = None ->
      service_step Arrival st (go g body Received st)
  | sv_receive g body st : at_phase st g body Received ->
      service_step Work st
        (go g body match receive body with
                   | inl resp => Answered resp
                   | inr (req, compiler, choice) => Queued req compiler choice
                   end st)
  | sv_acquire g body req compiler choice st : at_phase st g body (Queued req compiler choice) ->
      sv_acquired st < maxConcurrent ->
      service_step Work st (go g body (Acquired req compiler choice) (acquire st))
  | sv_materialize g body req compiler choice st : at_phase st g body (Acquired req compiler choice) ->
      service_step Work st
        match materialize bundledFS externalFS req compiler choice with
        | inl err => finish g body (writeInvalidRequest (error_text err)) st
        | inr plan => go g body (Planned plan) st
        end
  | sv_compile g body plan compiled s st : at_phase st g body (Planned plan) ->
      language_Compile (p_compiler plan) (p_sourceCode plan) (sv_exec st) = (compiled, s) ->
      service_step Work st
        match after_compile compiled with
        | inl jr => finish_result g body jr (with_exec s st)
        | inr (program, compileResult) => go g body (Built plan program compileResult) (with_exec s st)
        end
  | sv_prepare g body plan program compileResult st :
      at_phase st g body (Built plan program compileResult) -> callers (sv_group st) !! g = None ->
      let group := sv_group st in
      service_step Work st
        (go g body (Preparing plan program compileResult)
           (with_group (MkGroup (cache group) (<[g := Called (p_checker plan)]> (callers group))
                          (flights group) (compiled group)) st))
  | sv_cache grp st : cache_step Sum256 (sv_group st) grp ->
      compiled grp = compiled (sv_group st) -> dom (callers grp) = dom (callers (sv_group st)) ->
      service_step Work st (with_group grp st)
  | sv_compiled source res s grp st : cache_step Sum256 (sv_group st) grp ->
      compiled grp = compiled (sv_group st) ++ [(source, res)] ->
      compileUncached testlibHeader source (sv_exec st) = (res, s) ->
      service_step Work st (with_exec s (with_group grp st))
  | sv_prepared g body plan program compileResult source compilation st :
      at_phase st g body (Preparing plan program compileResult) ->
      callers (sv_group st) !! g = Some (Returned source compilation) ->
      service_step Work st
        match after_prepare plan program compileResult compilation with
        | inl jr => finish_result g body jr st
        | inr (runner, checkerCompile) =>
            let first := initial_cases (p_cases plan) (sv_exec st) in
            go g body (Judging plan runner compileResult checkerCompile (cs_threads first) (cs_results first)) st
        end
  | sv_case g body plan runner compileResult checkerCompile threads results cs st :
      at_phase st g body (Judging plan runner compileResult checkerCompile threads results) ->
      case_step runner (p_cases plan) (MkCases (sv_exec st) threads results) cs ->
      service_step Work st
        (go g body (Judging plan runner compileResult checkerCompile (cs_threads cs) (cs_results cs))
           (with_exec (cs_exec cs) st))
  | sv_judged g body plan runner compileResult checkerCompile threads results st :
      at_phase st g body (Judging plan runner compileResult checkerCompile threads results) ->
      all_finished (MkCases (sv_exec st) threads results) ->
      service_step Work st (finish_result g body (after_cases compileResult checkerCompile results) st).

(** An execution, with its events in order. *)
Inductive service_runs (s : S) : list server_event -> service -> Prop :=
  | service_new : service_runs s [] (new_service s)
  | service_next events event st st' : service_runs s events st -> service_step event st st' ->
      service_runs s (events ++ [event]) st'.

(** The semaphore is held from [Acquire] until the handler returns. *)
Definition holding (p : phase) : bool :=
  match p with Received | Queued _ _ _ | Answered _ => false | _ => true end.
End Service.
