(* ===== verification/ServiceInv.v ===== *)
(** * What holds of the concurrent service at every moment

    The invariant of [service_step]: the semaphore counts the handlers between
    [Acquire] and their return, the cache and its group are in a state they can
    reach by themselves with compilations that the executor made, and every
    handler is where its request took it. *)

From S2P Require Import Prelude Text GoText Model Sandbox Execution Language Checker CheckerCache CacheSpec Judge JudgeSpec Transport Server Service.

(** ** Callers of the cache *)

Definition caller_source (c : caller) : bytes :=
  match c with Called s | Missed s | CheckerCache.Waiting s | Returned s _ => s end.

(** What a step of the group does to a caller. *)
Definition kept (c c' : option caller) : Prop :=
  match c with
  | None => c' = None
  | Some x => exists x', c' = Some x' /\ caller_source x' = caller_source x
  end.

Lemma kept_refl c : kept c c.
Proof. destruct c as [x|]; [by exists x|done]. Qed.

Section Callers.
Context (Sum256 : bytes -> bytes) {C : Type} {L : LRU bytes CompileOutput C}.
Implicit Types grp : @group_state C.

Lemma deliver_source key res c : caller_source (deliver Sum256 key res c) = caller_source c.
Proof. destruct c; simpl; try done. by case_decide. Qed.

Lemma insert_kept (m : gmap nat caller) g x y : m !! g = Some x -> caller_source y = caller_source x ->
  forall g', kept (m !! g') (<[g := y]> m !! g').
Proof.
  intros Hg Hy g'. destruct (decide (g = g')) as [<-|Hne].
  - rewrite Hg, lookup_insert_eq. by exists y.
  - rewrite lookup_insert_ne by done. apply kept_refl.
Qed.

Lemma cache_step_kept grp grp' : cache_step Sum256 grp grp' -> dom (callers grp') = dom (callers grp) ->
  forall g, kept (callers grp !! g) (callers grp' !! g).
Proof.
  intros Hs Hd. destruct Hs as [g s st Hg | g s out c st Hg Hl | g s c st Hg Hl | g s st Hg Hf
    | g s st Hg Hf | s out c st Hf Hl | s c st Hf Hl | s res st Hf | s res st Hf]; simpl in *;
    try (by apply (insert_kept _ _ _ _ Hg)); try (intros g'; apply kept_refl).
  - exfalso. apply not_elem_of_dom in Hg. apply Hg. rewrite <- Hd. rewrite dom_insert_L. set_solver.
  - intros g. rewrite lookup_fmap. destruct (callers st !! g) as [x|]; [|done].
    eexists. split; [done|]. apply deliver_source.
Qed.

(** The sources that the group has seen. *)
Definition flight_source (f : flight) : bytes :=
  match f with Started s | CheckerCache.Compiling s | Landed s _ => s end.

Record sources_in (A : bytes -> Prop) grp : Prop := {
  src_callers g c : callers grp !! g = Some c -> A (caller_source c);
  src_flights k f : flights grp !! k = Some f -> A (flight_source f);
  src_compiled x res : (x, res) ∈ compiled grp -> A x }.

Lemma sources_mono (A B : bytes -> Prop) grp : (forall x, A x -> B x) -> sources_in A grp -> sources_in B grp.
Proof. intros HAB [I1 I2 I3]. constructor; eauto. Qed.

Lemma insert_source {K} `{Countable K} {X} (A : bytes -> Prop) (f : X -> bytes) (m : gmap K X) k x :
  (forall j y, m !! j = Some y -> A (f y)) -> A (f x) -> forall j y, <[k := x]> m !! j = Some y -> A (f y).
Proof. intros Hm Hx j y. rewrite lookup_insert_Some. intros [[_ <-]|[_ ?]]; [done|by eapply Hm]. Qed.

(** Only a new call brings a new source. *)
Lemma cache_step_sources (A : bytes -> Prop) grp grp' : cache_step Sum256 grp grp' -> sources_in A grp ->
  (forall g c, callers grp !! g = None -> callers grp' !! g = Some c -> A (caller_source c)) -> sources_in A grp'.
Proof.
  intros Hs [I1 I2 I3] Hnew. destruct Hs as [g s st Hg | g s out c st Hg Hl | g s c st Hg Hl | g s st Hg Hf
    | g s st Hg Hf | s out c st Hf Hl | s c st Hf Hl | s res st Hf | s res st Hf]; constructor; simpl in *;
    try done; try (apply (insert_source A caller_source); [done|by apply (I1 _ _ Hg)]);
    try (apply (insert_source A flight_source); [done|]; first [by apply (I1 _ _ Hg)|by apply (I2 _ _ Hf)]).
  - apply (insert_source A caller_source); [done|]. apply (Hnew g); [done|]. by rewrite lookup_insert_eq.
  - intros x r. rewrite elem_of_app, list_elem_of_singleton. intros [Hx|[= -> _]]; [by eapply I3|by apply (I2 _ _ Hf)].
  - intros g c. rewrite lookup_fmap, fmap_Some. intros (c' & Hc & ->). rewrite deliver_source. by apply (I1 g).
  - intros k f. rewrite lookup_delete_Some. intros [_ Hk]. by eapply I2.
Qed.

(** The step that ends a compilation changes no caller. *)
Lemma compiled_step grp grp' source res : cache_step Sum256 grp grp' ->
  compiled grp' = compiled grp ++ [(source, res)] ->
  callers grp' = callers grp /\ flights grp !! Sum256 source = Some (Compiling source).
Proof.
  intros Hs Hc. assert (Hno : compiled grp <> compiled grp ++ [(source, res)]).
  { intros E. apply (f_equal length) in E. rewrite length_app in E. simpl in E. lia. }
  destruct Hs; try (by destruct (Hno Hc)). simpl in Hc. apply app_inj_tail in Hc as [_ [= -> ->]]. by split.
Qed.
End Callers.

Section Inv.
Context `{UnicodeTables} {S : Type} `{Executor S} `{JSONDecoder}.
Context (Sum256 : bytes -> bytes).
Context {C : Type} {L : LRU bytes CompileOutput C} `{!LRULaws bytes CompileOutput C}.
Context (testlibHeader : bytes) (bundledFS : FS) (externalFS : option FS).
Context (maxBodyBytes maxConcurrent : Z).

Abbreviation service := (@service S C).
Abbreviation received := (receive maxBodyBytes).
Abbreviation step := (service_step Sum256 testlibHeader bundledFS externalFS maxBodyBytes maxConcurrent).
Abbreviation runs := (service_runs Sum256 testlibHeader bundledFS externalFS maxBodyBytes maxConcurrent).

(** ** What an answer comes from *)

(** The plan of a body's request. *)
Definition planned (body : bytes) (plan : judgePlan) : Prop := exists req compiler choice,
  received body = inr (req, compiler, choice)
  /\ materialize bundledFS externalFS req compiler choice = inr plan.

(** The executor compiled this program from the plan's source. *)
Definition built (plan : judgePlan) (program : compiledProgram) (compileResult : CompileResult) : Prop :=
  exists s s', language_Compile (p_compiler plan) (p_sourceCode plan) s = (inr (Some program, compileResult), s').

(** The executor compiled a checker whose source has this one's hash, among
    the sources in [A]. *)
Definition checker_compiled (A : bytes -> Prop) (source : bytes) (out : GoError + CompileOutput) : Prop :=
  exists x s s', A x /\ Sum256 x = Sum256 source /\ compileUncached testlibHeader x s = (out, s').

(** What a body can be answered with: the handler, when each of its calls
    meets some state of the executor and of the cache. *)
Inductive answers (A : bytes -> Prop) (body : bytes) : response -> Prop :=
  | ans_refused resp : received body = inl resp -> answers A body resp
  | ans_unavailable req compiler choice err : received body = inr (req, compiler, choice) ->
      materialize bundledFS externalFS req compiler choice = inl err ->
      answers A body (writeInvalidRequest (error_text err))
  | ans_not_compiled plan compiled s s' jr : planned body plan ->
      language_Compile (p_compiler plan) (p_sourceCode plan) s = (compiled, s') ->
      after_compile compiled = inl jr -> answers A body (writeJSON StatusOK (ResultData jr))
  | ans_no_checker plan program compileResult out jr : planned body plan -> built plan program compileResult ->
      checker_compiled A (p_checker plan) out -> after_prepare plan program compileResult out = inl jr ->
      answers A body (writeJSON StatusOK (ResultData jr))
  | ans_judged plan program compileResult out runner checkerCompile results :
      planned body plan -> built plan program compileResult -> checker_compiled A (p_checker plan) out ->
      after_prepare plan program compileResult out = inr (runner, checkerCompile) ->
      Forall2 (case_outcome runner) (p_cases plan) results ->
      answers A body (writeJSON StatusOK (ResultData (after_cases compileResult checkerCompile results))).

(** ** The invariant *)

(** A handler of [body] in phase [p], whose call of the cache is [c]. *)
Definition handler_ok (A : bytes -> Prop) (c : option caller) (body : bytes) (p : phase) : Prop :=
  match p with
  | Received => c = None
  | Queued req compiler choice | Acquired req compiler choice =>
      c = None /\ received body = inr (req, compiler, choice)
  | Planned plan => c = None /\ planned body plan
  | Built plan program compileResult => c = None /\ planned body plan /\ built plan program compileResult
  | Preparing plan program compileResult =>
      planned body plan /\ built plan program compileResult
      /\ exists x, c = Some x /\ caller_source x = p_checker plan
  | Judging plan runner compileResult checkerCompile threads results =>
      planned body plan /\ (exists program out, built plan program compileResult
        /\ checker_compiled A (p_checker plan) out
        /\ after_prepare plan program compileResult out = inr (runner, checkerCompile))
      /\ forall s : S, cases_inv runner (p_cases plan) (MkCases s threads results)
  | Answered resp => answers A body resp
  end.

Definition holder (h : handler) : nat := if holding (h_phase h) then 1 else 0.

(** The checker sources of the requests that arrived. *)
Definition asked (st : service) (x : bytes) : Prop := exists g h plan,
  sv_handlers st !! g = Some h /\ planned (h_body h) plan /\ p_checker plan = x.

(** Every finished compilation is one that the executor made. *)
Definition genuine (grp : @group_state C) : Prop := forall x res, (x, res) ∈ compiled grp ->
  exists s s', compileUncached testlibHeader x s = (res, s').

Record service_inv (st : service) : Prop := {
  si_group : group_inv Sum256 (sv_group st);
  si_genuine : genuine (sv_group st);
  si_acquired : sv_acquired st = Z.of_nat (msum holder (sv_handlers st));
  si_size : sv_acquired st <= maxConcurrent;
  si_sources : sources_in (asked st) (sv_group st);
  si_handler g body p : at_phase st g body p -> handler_ok (asked st) (callers (sv_group st) !! g) body p;
  si_fresh g : sv_handlers st !! g = None -> callers (sv_group st) !! g = None }.

Lemma answers_mono (A B : bytes -> Prop) body resp : (forall x, A x -> B x) ->
  answers A body resp -> answers B body resp.
Proof.
  intros HAB. assert (Hc : forall src out, checker_compiled A src out -> checker_compiled B src out)
    by (intros src out (x & s & s' & ? & ? & ?); exists x, s, s'; auto).
  destruct 1; [by apply ans_refused|by eapply ans_unavailable|by eapply ans_not_compiled
    |by eapply ans_no_checker; eauto|by eapply ans_judged; eauto].
Qed.

Lemma handler_ok_kept (A B : bytes -> Prop) c c' body p : (forall x, A x -> B x) -> kept c c' ->
  handler_ok A c body p -> handler_ok B c' body p.
Proof.
  intros HAB Hk. destruct p; simpl; try (intros ->; exact Hk); try (intros [-> ?]; by split).
  - intros (? & ? & x & -> & Hx). destruct Hk as (x' & -> & Hx'). split; [done|]. split; [done|].
    exists x'. split; [done|congruence].
  - intros (? & (program & out & ? & (x & s & s' & ? & ? & ?) & ?) & ?). split; [done|]. split; [|done].
    exists program, out. split; [done|]. split; [|done]. exists x, s, s'. auto.
  - by apply answers_mono.
Qed.

(** Handlers keep their bodies, so that what was asked stays asked. *)
Lemma asked_go st g body p exec acquired grp x : (forall h, sv_handlers st !! g = Some h -> h_body h = body) ->
  asked st x -> asked (MkService exec acquired grp (<[g := MkHandler body p]> (sv_handlers st))) x.
Proof.
  intros Hb (g' & h & plan & Hg & Hp & Hx). destruct (decide (g = g')) as [<-|Hne].
  - exists g, (MkHandler body p), plan. simpl. rewrite lookup_insert_eq, <- (Hb h Hg). done.
  - exists g', h, plan. simpl. by rewrite lookup_insert_ne.
Qed.

(** One handler moves, and nobody else's call. *)
Lemma inv_go st g h body p exec acquired grp : service_inv st -> sv_handlers st !! g = h ->
  (h = None \/ exists p', h = Some (MkHandler body p')) ->
  group_inv Sum256 grp -> compiled grp = compiled (sv_group st) -> sources_in (asked st) grp ->
  (forall g', g' <> g -> callers grp !! g' = callers (sv_group st) !! g') ->
  acquired + (if h is Some h then Z.of_nat (holder h) else 0)
  = sv_acquired st + Z.of_nat (holder (MkHandler body p)) ->
  acquired <= maxConcurrent -> handler_ok (asked st) (callers grp !! g) body p ->
  service_inv (MkService exec acquired grp (<[g := MkHandler body p]> (sv_handlers st))).
Proof.
  intros [I1 I2 I3 I4 I5 I6 I7] Hh Hbody Hgrp Hc Hsrc Ho Ha Hs Hok.
  assert (Hasked : forall x, asked st x ->
            asked (MkService exec acquired grp (<[g := MkHandler body p]> (sv_handlers st))) x).
  { intros x. apply asked_go. intros h' Hh'. rewrite Hh in Hh'.
    destruct Hbody as [->|[p' ->]]; [done|by injection Hh' as <-]. }
  constructor; simpl; [done| | |done| | |].
  - intros x res. rewrite Hc. apply I2.
  - destruct h as [h|].
    + pose proof (msum_insert holder _ g (MkHandler body p) h Hh). lia.
    + rewrite (msum_insert_new holder _ g _ Hh). lia.
  - by eapply sources_mono.
  - intros g' body' p'. unfold at_phase. simpl. rewrite lookup_insert_Some.
    intros [[<- [= -> ->]]|[Hne Hg']]; (eapply handler_ok_kept; [exact Hasked|apply kept_refl|]); [done|].
    rewrite Ho by done. by apply I6.
  - intros g'. rewrite lookup_insert_None. intros [Hg' Hne]. rewrite Ho by done. by apply I7.
Qed.

(** The group moves. *)
Lemma inv_group st grp exec : service_inv st -> group_inv Sum256 grp -> genuine grp ->
  sources_in (asked st) grp -> (forall g, kept (callers (sv_group st) !! g) (callers grp !! g)) ->
  service_inv (MkService exec (sv_acquired st) grp (sv_handlers st)).
Proof.
  intros [I1 I2 I3 I4 I5 I6 I7] Hgrp Hgen Hsrc Hk. constructor; simpl; try done.
  - intros g body p Hp. eapply handler_ok_kept; [|apply Hk|by apply I6]. done.
  - intros g Hg. specialize (Hk g). by rewrite (I7 g Hg) in Hk.
Qed.

(** A handler moves and leaves the group alone. *)
Lemma inv_phase st g body p p' exec acquired : service_inv st -> at_phase st g body p ->
  acquired + (if holding p then 1 else 0) = sv_acquired st + (if holding p' then 1 else 0) ->
  acquired <= maxConcurrent -> handler_ok (asked st) (callers (sv_group st) !! g) body p' ->
  service_inv (MkService exec acquired (sv_group st) (<[g := MkHandler body p']> (sv_handlers st))).
Proof.
  intros I Hp Ha Hs Hok.
  eapply inv_go; [done|exact Hp|right; by eexists|apply (si_group _ I)|done|apply (si_sources _ I)|done| |done|done].
  unfold holder. simpl. destruct (holding p), (holding p'); lia.
Qed.

(** Judging ends: the semaphore is given back. *)
Lemma inv_finish st g body p exec resp : service_inv st -> at_phase st g body p -> holding p = true ->
  answers (asked st) body resp ->
  service_inv (finish g body resp (with_exec exec st)).
Proof.
  intros I Hp Hh Ha. pose proof (si_size _ I). apply (inv_phase st g body p); [done|done| |simpl; lia|done].
  rewrite Hh. simpl. lia.
Qed.

Lemma new_service_inv s : 0 <= maxConcurrent -> service_inv (new_service s).
Proof.
  intros Hn. constructor; simpl; try done.
  - apply (new_group_inv Sum256).
  - intros x res Hx. by apply not_elem_of_nil in Hx.
  - constructor; simpl; [done|done|]. intros x res Hx. by apply not_elem_of_nil in Hx.
Qed.

(** The steps of a handler that do not end it, one lemma per call. *)
Lemma prepared_inv st g body plan program compileResult source compilation : service_inv st ->
  at_phase st g body (Preparing plan program compileResult) ->
  callers (sv_group st) !! g = Some (Returned source compilation) ->
  planned body plan /\ built plan program compileResult /\ checker_compiled (asked st) (p_checker plan) compilation.
Proof.
  intros I Hp Hc. destruct (si_handler _ I _ _ _ Hp) as (Hpl & Hb & x & Hx & Hs). split; [done|]. split; [done|].
  rewrite Hc in Hx. injection Hx as <-. simpl in Hs. subst source.
  destruct (inv_callers _ _ (si_group _ I) _ _ Hc) as (x & Ex & Hx).
  destruct (si_genuine _ I _ _ Hx) as (s & s' & E). exists x, s, s'. split; [|done].
  by apply (src_compiled _ _ (si_sources _ I) x compilation).
Qed.

(** A handler calls the cache. *)
Lemma call_inv st g body plan program cr : service_inv st -> at_phase st g body (Built plan program cr) ->
  callers (sv_group st) !! g = None ->
  let group := sv_group st in
  service_inv (go g body (Preparing plan program cr)
    (with_group (MkGroup (cache group) (<[g := Called (p_checker plan)]> (callers group))
                   (flights group) (compiled group)) st)).
Proof.
  intros I Hp Hc group. pose proof (si_size _ I). destruct (si_handler _ I _ _ _ Hp) as (_ & Hr & Hb).
  pose proof (step_call Sum256 g (p_checker plan) (sv_group st) Hc) as Hstep.
  apply (inv_go st g (Some (MkHandler body (Built plan program cr))));
    [exact I|exact Hp|right; by eexists|exact (cache_step_inv Sum256 _ _ (si_group _ I) Hstep)|done| |
    |unfold holder; simpl; lia|done|].
  - apply (cache_step_sources Sum256 _ _ _ Hstep (si_sources _ I)). intros g' c Hn Hg'.
    simpl in Hg'. apply lookup_insert_Some in Hg' as [[_ <-]|[_ Hg']]; [|congruence].
    by exists g, (MkHandler body (Built plan program cr)), plan.
  - intros g' Hne. simpl. by rewrite lookup_insert_ne.
  - split; [done|]. split; [done|]. exists (Called (p_checker plan)). simpl. by rewrite lookup_insert_eq.
Qed.

(** The group moves by itself. *)
Lemma group_move_inv st grp : service_inv st -> cache_step Sum256 (sv_group st) grp ->
  compiled grp = compiled (sv_group st) -> dom (callers grp) = dom (callers (sv_group st)) ->
  service_inv (with_group grp st).
Proof.
  intros I Hs Hc Hd.
  apply (inv_group st grp _); [exact I|exact (cache_step_inv Sum256 _ _ (si_group _ I) Hs)| | |].
  - intros x res. rewrite Hc. apply (si_genuine _ I).
  - apply (cache_step_sources Sum256 _ _ _ Hs (si_sources _ I)). intros g c Hn Hg.
    pose proof (cache_step_kept _ _ _ Hs Hd g) as Hk. by rewrite Hn, Hg in Hk.
  - by eapply cache_step_kept.
Qed.

(** A compilation ends. *)
Lemma compiled_inv st source res s grp : service_inv st -> cache_step Sum256 (sv_group st) grp ->
  compiled grp = compiled (sv_group st) ++ [(source, res)] ->
  compileUncached testlibHeader source (sv_exec st) = (res, s) ->
  service_inv (with_exec s (with_group grp st)).
Proof.
  intros I Hs Hc Ec.
  destruct (compiled_step _ _ _ _ _ Hs Hc) as [Hk _].
  apply (inv_group st grp _); [exact I|exact (cache_step_inv Sum256 _ _ (si_group _ I) Hs)| | |].
  - intros x r. rewrite Hc, elem_of_app, list_elem_of_singleton. intros [Hx|[= -> ->]]; [by apply (si_genuine _ I)|].
    by exists (sv_exec st), s.
  - apply (cache_step_sources Sum256 _ _ _ Hs (si_sources _ I)). intros g c Hn Hg. congruence.
  - intros g. rewrite Hk. apply kept_refl.
Qed.

Lemma step_inv event st st' : service_inv st -> step event st st' -> service_inv st'.
Proof.
  intros I Hs. pose proof (si_size _ I) as Hsize. destruct Hs as
    [g body st Hg | g body st Hp | g body req compiler choice st Hp Ha | g body req compiler choice st Hp
    | g body plan compiled s st Hp Ec | g body plan program cr st Hp Hc | grp st Hs Hc Hd
    | source res s grp st Hs Hc Ec | g body plan program cr source out st Hp Hc
    | g body plan runner cr cc threads results cs st Hp Hs | g body plan runner cr cc threads results st Hp Hf].
  - eapply inv_go; [done|exact Hg|by left|apply (si_group _ I)|done|apply (si_sources _ I)|done
      |unfold holder; simpl; lia|done|]. by apply (si_fresh _ I).
  - pose proof (si_handler _ I _ _ _ Hp) as Hok. simpl in Hok.
    apply (inv_phase st g body Received); [done|done| |done|].
    + by destruct (received body) as [|[[]]].
    + destruct (received body) as [resp|[[req compiler] choice]] eqn:E; [by constructor|by split].
  - apply (inv_phase st g body (Queued req compiler choice)); [done|done|simpl; lia|simpl; lia|].
    exact (si_handler _ I _ _ _ Hp).
  - destruct (si_handler _ I _ _ _ Hp) as [Hc Hr].
    destruct (materialize _ _ _ _ _) as [err|plan] eqn:E.
    + apply (inv_finish st g body (Acquired req compiler choice) (sv_exec st)); [done|done|done|].
      by eapply ans_unavailable.
    + apply (inv_phase st g body (Acquired req compiler choice)); [done|done|done|done|].
      split; [done|]. by exists req, compiler, choice.
  - destruct (si_handler _ I _ _ _ Hp) as [Hc Hr].
    destruct (after_compile compiled) as [jr|[program cr]] eqn:E.
    + apply (inv_finish st g body (Planned plan)); [done|done|done|]. by eapply ans_not_compiled.
    + apply (inv_phase st g body (Planned plan)); [done|done|done|done|]. split; [done|]. split; [done|].
      destruct compiled as [|[[p|] c]]; try done. injection E as -> ->. by exists (sv_exec st), s.
  - by apply call_inv.
  - by apply group_move_inv.
  - by eapply compiled_inv.
  - destruct (prepared_inv _ _ _ _ _ _ _ _ I Hp Hc) as (Hr & Hb & Hck).
    destruct (after_prepare plan program cr out) as [jr|[runner cc]] eqn:E.
    + apply (inv_finish st g body (Preparing plan program cr) (sv_exec st)); [done|done|done|]. by eapply ans_no_checker.
    + apply (inv_phase st g body (Preparing plan program cr)); [done|done|done|done|].
      split; [done|]. split; [by exists program, out|]. intros s. apply (initial_cases_inv _ _ s).
  - destruct (si_handler _ I _ _ _ Hp) as (Hr & Hb & Hi).
    apply (inv_phase st g body (Judging plan runner cr cc threads results)); [done|done|done|done|].
    split; [done|]. split; [done|]. intros s.
    destruct (case_step_inv runner _ _ _ (Hi (sv_exec st)) Hs) as [J1 J2 J3]. by constructor.
  - destruct (si_handler _ I _ _ _ Hp) as (Hr & (program & out & Hb & Hck & E) & Hi).
    apply (inv_finish st g body (Judging plan runner cr cc threads results) (sv_exec st)); [done|done|done|].
    eapply ans_judged; [done..|]. by apply (finished_results runner _ _ (Hi (sv_exec st))).
Qed.

Lemma service_runs_inv s events st : 0 <= maxConcurrent -> runs s events st -> service_inv st.
Proof. intros Hn. induction 1 as [|events e st st' _ IH Hs]; [by apply new_service_inv|by eapply step_inv]. Qed.
End Inv.
