(* ===== verification/ServiceExec.v ===== *)
(** * What the concurrent service asks of its executor

    Every call of the executor is one of four: the compilation of a program or
    of a checker, the run of a program on a case, or of a checker on what it
    printed.  With the executor of [Execution], every container is accounted
    for. *)

From S2P Require Import Prelude Text GoText Model Sandbox Brackets Container Execution ExecutionSpec Language Checker CheckerCache CacheSpec Judge JudgeSpec Transport Server Service ServiceInv.

Section Calls.
Context `{UnicodeTables} {S : Type} `{Executor S} `{JSONDecoder}.
Context (Sum256 : bytes -> bytes).
Context {C : Type} {L : LRU bytes CompileOutput C} `{!LRULaws bytes CompileOutput C}.
Context (testlibHeader : bytes) (bundledFS : FS) (externalFS : option FS).
Context (maxBodyBytes maxConcurrent : Z).

Abbreviation service := (@service S C).
Abbreviation step := (service_step Sum256 testlibHeader bundledFS externalFS maxBodyBytes maxConcurrent).
Abbreviation runs := (service_runs Sum256 testlibHeader bundledFS externalFS maxBodyBytes maxConcurrent).
Abbreviation inv := (service_inv Sum256 testlibHeader bundledFS externalFS maxBodyBytes maxConcurrent).
Abbreviation planned := (planned bundledFS externalFS maxBodyBytes).

(** The bodies that were received. *)
Definition arrived (st : service) (body : bytes) : Prop := exists g p, at_phase st g body p.

Definition language_request (l : resolvedLanguage) (sourceCode : bytes) : CompileRequest :=
  let config := prof_Compile (res_profile l) in
  MkCompileRequest [MkFile (cfg_SourceFile config) sourceCode 420] (cfg_ImageRef config)
    (cfg_BuildCommand config) (cfg_ArtifactName config) (compile_limits config).

(** The compilations that the bodies in [B] call for. *)
Inductive calls_compile (B : bytes -> Prop) : CompileRequest -> Prop :=
  | compile_program body plan : B body -> planned body plan ->
      calls_compile B (language_request (p_compiler plan) (p_sourceCode plan))
  | compile_checker body plan : B body -> planned body plan ->
      calls_compile B (checker_compile_request testlibHeader (p_checker plan)).

(** And the runs: of a program that was compiled from the request's source,
    under the limits of the request, and of a checker that was compiled from
    the request's checker or one with its hash. *)
Inductive calls_run (B : bytes -> Prop) : RunRequest -> Prop :=
  | run_program body plan program compileResult tc : B body -> planned body plan ->
      built plan program compileResult -> tc ∈ p_cases plan ->
      calls_run B (program_request program (c_input tc) (p_timeLimit plan) (p_memoryLimit plan))
  | run_checker body plan x s out s' checker output tc : B body -> planned body plan ->
      Sum256 x = Sum256 (p_checker plan) -> compileUncached testlibHeader x s = (inr out, s') ->
      CArtifact out = Some checker -> tc ∈ p_cases plan ->
      calls_run B (checker_request checker (c_input tc) output (c_expectedOutput tc)).

Lemma calls_compile_mono (A B : bytes -> Prop) req : (forall x, A x -> B x) -> calls_compile A req -> calls_compile B req.
Proof. intros HAB []; econstructor; eauto. Qed.

Lemma calls_run_mono (A B : bytes -> Prop) req : (forall x, A x -> B x) -> calls_run A req -> calls_run B req.
Proof. intros HAB []; [eapply run_program|eapply run_checker]; eauto. Qed.

(** What became of the executor. *)
Inductive exec_call (B : bytes -> Prop) : S -> S -> Prop :=
  | exec_none s : exec_call B s s
  | exec_compile req s : calls_compile B req -> exec_call B s (Execution.Compile req s).2
  | exec_run req s : calls_run B req -> exec_call B s (Execution.Run req s).2.

Lemma language_Compile_exec l source s : (language_Compile l source s).2 = (Execution.Compile (language_request l source) s).2.
Proof. unfold language_Compile, language_request. by destruct (Execution.Compile _ s). Qed.

Lemma compileUncached_exec source s :
  (compileUncached testlibHeader source s).2 = (Execution.Compile (checker_compile_request testlibHeader source) s).2.
Proof. unfold compileUncached. by destruct (Execution.Compile _ s). Qed.

(** The step of a case. *)
Lemma case_exec runner cases cs cs' : case_step runner cases cs cs' ->
  exists tc, tc ∈ cases
  /\ (cs_exec cs' = (Execution.Run (program_request (r_program runner) (c_input tc) (r_timeLimit runner) (r_memLimit runner))
                       (cs_exec cs)).2
      \/ exists output, cs_exec cs'
           = (Execution.Run (checker_request (r_checker runner) (c_input tc) output (c_expectedOutput tc)) (cs_exec cs)).2).
Proof.
  intros [i tc out s st Ht Hc E | i tc rr out s st Ht Hc E]; exists tc; (split; [by eapply list_elem_of_lookup_2|]).
  - left. unfold program_Run in E. destruct (Execution.Run _ _) as [o s1]. injection E as _ <-. by destruct (after_run out).
  - right. exists (RStdout rr). unfold Check in E. destruct (Execution.Run _ _) as [o s1]. by injection E as _ <-.
Qed.

Lemma step_exec event st st' : inv st -> step event st st' -> exec_call (arrived st) (sv_exec st) (sv_exec st').
Proof.
  intros I Hs. destruct Hs as
    [g body st Hg | g body st Hp | g body req compiler choice st Hp Ha | g body req compiler choice st Hp
    | g body plan compiled s st Hp Ec | g body plan program cr st Hp Hc | grp st Hs Hc Hd
    | source res s grp st Hs Hc Ec | g body plan program cr source out st Hp Hc
    | g body plan runner cr cc threads results cs st Hp Hs | g body plan runner cr cc threads results st Hp Hf];
    try (apply exec_none).
  - destruct (materialize _ _ _ _ _); apply exec_none.
  - destruct (si_handler _ _ _ _ _ _ _ I _ _ _ Hp) as [_ Hr]. apply (f_equal snd) in Ec. simpl in Ec.
    assert (K : exec_call (arrived st) (sv_exec st) s).
    { rewrite <- Ec, language_Compile_exec. apply exec_compile.
      eapply compile_program; [|exact Hr]. by exists g, (Planned plan). }
    by destruct (after_compile compiled) as [|[]].
  - destruct (compiled_step _ _ _ _ _ Hs Hc) as [_ Hf].
    pose proof (src_flights _ _ (si_sources _ _ _ _ _ _ _ I) _ _ Hf) as (g & [body p] & plan & Hg & Hr & Hx). simpl in Hx, Hr.
    apply (f_equal snd) in Ec. simpl in Ec. simpl. rewrite <- Ec, compileUncached_exec, <- Hx. apply exec_compile.
    eapply compile_checker; [|exact Hr]. by exists g, p.
  - destruct (after_prepare _ _ _ _) as [|[]]; apply exec_none.
  - destruct (si_handler _ _ _ _ _ _ _ I _ _ _ Hp) as (Hr & (program & out & Hb & (x & e1 & e2 & _ & Ex & Hu) & E) & _).
    assert (Hbody : arrived st body) by (eexists g, _; exact Hp). simpl.
    unfold after_prepare in E. destruct out as [err|out]; [done|]. destruct (CArtifact out) as [checker|] eqn:Ea; [|done].
    injection E as <- _. apply case_exec in Hs as (tc & Htc & [->|[output ->]]); apply exec_run; simpl.
    + by eapply run_program.
    + by eapply run_checker.
Qed.

(** What the calls preserve holds of the executor at every moment. *)
Lemma step_arrived event st st' body : step event st st' -> arrived st body -> arrived st' body.
Proof.
  assert (Hgo : forall st g b p p' e a grp, at_phase st g b p -> arrived st body ->
            arrived (MkService e a grp (<[g := MkHandler b p']> (sv_handlers st))) body).
  { intros st0 g b p p' e a grp Hp (g' & q & Hq). destruct (decide (g = g')) as [<-|Hne].
    - unfold at_phase in Hp, Hq. rewrite Hp in Hq. injection Hq as <- _. exists g, p'. unfold at_phase. simpl.
      by rewrite lookup_insert_eq.
    - exists g', q. unfold at_phase. simpl. by rewrite lookup_insert_ne. }
  intros Hs. destruct Hs as
    [g b st Hg | g b st Hp | g b req compiler choice st Hp Ha | g b req compiler choice st Hp
    | g b plan compiled s st Hp Ec | g b plan program cr st Hp Hc | grp st Hs Hc Hd
    | source res s grp st Hs Hc Ec | g b plan program cr source out st Hp Hc
    | g b plan runner cr cc threads results cs st Hp Hs | g b plan runner cr cc threads results st Hp Hf];
    try exact (Hgo st g b _ _ _ _ _ Hp); try done.
  - intros (g' & q & Hq). exists g', q. unfold at_phase. simpl. rewrite lookup_insert_ne; [done|].
    intros ->. unfold at_phase in Hq. congruence.
  - destruct (materialize _ _ _ _ _); exact (Hgo st g b _ _ _ _ _ Hp).
  - destruct (after_compile compiled) as [|[]]; exact (Hgo st g b _ _ _ _ _ Hp).
  - destruct (after_prepare _ _ _ _) as [|[]]; exact (Hgo st g b _ _ _ _ _ Hp).
Qed.

Lemma runs_exec (P : (bytes -> Prop) -> S -> Prop) s0 events st : 0 <= maxConcurrent ->
  (forall (A B : bytes -> Prop) s, (forall x, A x -> B x) -> P A s -> P B s) ->
  (forall B s s', exec_call B s s' -> P B s -> P B s') ->
  P (fun _ => False) s0 -> runs s0 events st -> P (arrived st) (sv_exec st).
Proof.
  intros Hn Hmono Hcall Hnew Hr. induction Hr as [|events event st st' Hr IH Hs].
  - by eapply Hmono; [|exact Hnew].
  - eapply Hmono; [intros x; by eapply step_arrived|]. eapply Hcall; [|exact IH].
    eapply step_exec; [|exact Hs]. by eapply service_runs_inv.
Qed.
End Calls.

(** A refusal says why. *)
Lemma receive_refused `{UnicodeTables} `{JSONDecoder} maxBodyBytes body resp : receive maxBodyBytes body = inl resp ->
  exists details, resp = writeInvalidRequest details.
Proof.
  unfold receive. destruct (decode_request _) as [err|[req rest]]; [intros [= <-]; by eexists|].
  destruct (negb _); [intros [= <-]; by eexists|]. destruct (validateJudgeRequest req); [intros [= <-]; by eexists|].
  destruct (language_Resolve _); [intros [= <-]; by eexists|].
  destruct (resolveChecker _ _); [intros [= <-]; by eexists|done].
Qed.

(** ** Where the results come from

    The cases of an answer are the answers of calls that the service made:
    [V s c] says that [c] is one of the calls made before [s]. *)

Inductive executor_call :=
  | Compiled (req : CompileRequest) (res : GoError + CompileOutput)
  | Ran (req : RunRequest) (res : GoError + RunResult).

(** The outcome of a run in the language of the program. *)
Definition program_out (lang : Language) (out : GoError + RunResult) : GoError + RunResult :=
  match out with inl err => inl err | inr r => inr (normalizeLanguageRunResult lang r) end.

Definition check_out (out : GoError + RunResult) : GoError + checkerResult :=
  match out with inl err => inl err | inr r => inr (checker_result r) end.

Section Seen.
Context `{UnicodeTables} {S : Type} `{Executor S} `{JSONDecoder}.
Context (Sum256 : bytes -> bytes).
Context {C : Type} {L : LRU bytes CompileOutput C} `{!LRULaws bytes CompileOutput C}.
Context (testlibHeader : bytes) (bundledFS : FS) (externalFS : option FS).
Context (maxBodyBytes maxConcurrent : Z).

Abbreviation service := (@service S C).
Abbreviation step := (service_step Sum256 testlibHeader bundledFS externalFS maxBodyBytes maxConcurrent).
Abbreviation runs := (service_runs Sum256 testlibHeader bundledFS externalFS maxBodyBytes maxConcurrent).
Abbreviation inv := (service_inv Sum256 testlibHeader bundledFS externalFS maxBodyBytes maxConcurrent).
Abbreviation planned := (planned bundledFS externalFS maxBodyBytes).

Context (V : S -> executor_call -> Prop).
Context (V_compile : forall req s, V (Execution.Compile req s).2 (Compiled req (Execution.Compile req s).1)).
Context (V_run : forall req s, V (Execution.Run req s).2 (Ran req (Execution.Run req s).1)).
Context (V_after_compile : forall req s c, V s c -> V (Execution.Compile req s).2 c).
Context (V_after_run : forall req s c, V s c -> V (Execution.Run req s).2 c).

Definition later (s s' : S) : Prop := forall c, V s c -> V s' c.

(** The program was compiled from the source of the plan. *)
Definition program_seen (s : S) (plan : judgePlan) (program : compiledProgram) : Prop := exists out,
  V s (Compiled (language_request (p_compiler plan) (p_sourceCode plan)) (inr out))
  /\ CArtifact out = Some (prog_artifact program)
  /\ prog_language program = res_language (p_compiler plan)
  /\ prog_profile program = prof_Run (res_profile (p_compiler plan)).

(** The checker was compiled from the checker of the plan, or from one with its
    hash. *)
Definition checker_seen (s : S) (source : bytes) (checker : Artifact) : Prop := exists x out,
  Sum256 x = Sum256 source /\ V s (Compiled (checker_compile_request testlibHeader x) (inr out))
  /\ CArtifact out = Some checker.

(** What a case reports: the outcome of the run of its program, or that of its
    checker on what the program printed. *)
Definition case_seen (s : S) (runner : caseRunner) (tc : caseData) (res : JudgeCaseResult) : Prop := exists out,
  V s (Ran (program_request (r_program runner) (c_input tc) (r_timeLimit runner) (r_memLimit runner)) out)
  /\ match after_run (program_out (prog_language (r_program runner)) out) with
     | inl r => res = r
     | inr rr => exists c,
         V s (Ran (checker_request (r_checker runner) (c_input tc) (RStdout rr) (c_expectedOutput tc)) c)
         /\ res = after_check (r_userChecker runner) rr (check_out c)
     end.

Definition thread_seen (s : S) (runner : caseRunner) (tc : caseData) (t : case_thread) (res : JudgeCaseResult) : Prop :=
  match t with
  | Pending => True
  | Unchecked rr => exists out,
      V s (Ran (program_request (r_program runner) (c_input tc) (r_timeLimit runner) (r_memLimit runner)) out)
      /\ after_run (program_out (prog_language (r_program runner)) out) = inr rr
  | Judge.Finished => case_seen s runner tc res
  end.

Definition cases_seen (s : S) (runner : caseRunner) (cases : list caseData) (threads : list case_thread)
    (results : list JudgeCaseResult) : Prop :=
  forall i tc t res, cases !! i = Some tc -> threads !! i = Some t -> results !! i = Some res ->
    thread_seen s runner tc t res.

Definition runner_seen (s : S) (plan : judgePlan) (runner : caseRunner) : Prop :=
  program_seen s plan (r_program runner) /\ checker_seen s (p_checker plan) (r_checker runner)
  /\ r_userChecker runner = p_checkerProvidedByRequest plan
  /\ r_timeLimit runner = p_timeLimit plan /\ r_memLimit runner = p_memoryLimit plan.

Definition result_seen (s : S) (body : bytes) (jr : JudgeResult) : Prop := exists plan,
  planned body plan /\ (Cases jr = [] \/ exists runner, runner_seen s plan runner
    /\ Forall2 (case_seen s runner) (p_cases plan) (Cases jr)).

Definition phase_seen (s : S) (body : bytes) (p : phase) : Prop :=
  match p with
  | Built plan program _ | Preparing plan program _ => program_seen s plan program
  | Judging plan runner _ _ threads results =>
      runner_seen s plan runner /\ cases_seen s runner (p_cases plan) threads results
  | Answered resp => forall jr, Data resp = ResultData jr -> result_seen s body jr
  | _ => True
  end.

Record service_seen (st : service) : Prop := {
  seen_phase g body p : at_phase st g body p -> phase_seen (sv_exec st) body p;
  seen_compiled x out : (x, inr out) ∈ compiled (sv_group st) ->
    V (sv_exec st) (Compiled (checker_compile_request testlibHeader x) (inr out)) }.

(** *** Later states *)

Lemma case_seen_later s s' runner tc res : later s s' -> case_seen s runner tc res -> case_seen s' runner tc res.
Proof.
  intros Hl (out & Ho & Hr). exists out. split; [by apply Hl|]. destruct (after_run _); [done|].
  destruct Hr as (c & Hc & ->). exists c. split; [by apply Hl|done].
Qed.

Lemma thread_seen_later s s' runner tc t res : later s s' -> thread_seen s runner tc t res ->
  thread_seen s' runner tc t res.
Proof.
  intros Hl. destruct t; simpl; [done| |by apply case_seen_later].
  intros (out & Ho & Hr). exists out. split; [by apply Hl|done].
Qed.

Lemma program_seen_later s s' plan program : later s s' -> program_seen s plan program -> program_seen s' plan program.
Proof. intros Hl (out & Ho & Hr). exists out. split; [by apply Hl|done]. Qed.

Lemma runner_seen_later s s' plan runner : later s s' -> runner_seen s plan runner -> runner_seen s' plan runner.
Proof.
  intros Hl (Hp & (x & out & Hx & Ho & Ha) & Hr). split; [by eapply program_seen_later|]. split; [|done].
  exists x, out. split; [done|]. split; [by apply Hl|done].
Qed.

Lemma phase_seen_later s s' body p : later s s' -> phase_seen s body p -> phase_seen s' body p.
Proof.
  intros Hl. destruct p; simpl; try done; try (by apply program_seen_later).
  - intros [Hr Hc]. split; [by eapply runner_seen_later|]. intros i tc t res K1 K2 K3.
    eapply thread_seen_later; [done|]. by eapply Hc.
  - intros Hr jr E. destruct (Hr jr E) as (plan & Hp & Hj). exists plan. split; [done|].
    destruct Hj as [?|(runner & Hs & F)]; [by left|]. right. exists runner. split; [by eapply runner_seen_later|].
    eapply Forall2_impl; [|exact F]. intros tc res. by apply case_seen_later.
Qed.

Lemma call_later B s s' : exec_call Sum256 testlibHeader bundledFS externalFS maxBodyBytes B s s' -> later s s'.
Proof. intros [|req ? _|req ? _] c Hc; auto. Qed.

(** *** Steps *)

(** A step of the cases. *)
Lemma case_seen_step runner cases cs cs' : later (cs_exec cs) (cs_exec cs') ->
  length (cs_results cs) = length cases ->
  cases_seen (cs_exec cs) runner cases (cs_threads cs) (cs_results cs) -> case_step runner cases cs cs' ->
  cases_seen (cs_exec cs') runner cases (cs_threads cs') (cs_results cs').
Proof.
  intros Hl Hlen Hc Hs.
  assert (Hmove : forall i tc t threads results, cases !! i = Some tc -> (forall res, results !! i = Some res ->
              thread_seen (cs_exec cs') runner tc t res) ->
            (forall j, j <> i -> results !! j = cs_results cs !! j) -> threads = <[i := t]> (cs_threads cs) ->
            cases_seen (cs_exec cs') runner cases threads results).
  { intros i tc t threads results Htc Ht Ho -> j tc' t' res Hj Hth Hres. destruct (decide (i = j)) as [<-|Hne].
    - rewrite Htc in Hj. injection Hj as <-. apply list_lookup_insert_Some in Hth as [(_ & <- & _)|[? _]]; [|done].
      by apply Ht.
    - rewrite list_lookup_insert_ne in Hth by done. rewrite Ho in Hres by done.
      eapply thread_seen_later; [exact Hl|]. by eapply Hc. }
  destruct Hs as [i tc out s st Ht Htc E | i tc rr out s st Ht Htc E].
  - unfold program_Run in E. pose proof (V_run (program_request (r_program runner) (c_input tc) (r_timeLimit runner)
      (r_memLimit runner)) (cs_exec st)) as Hv.
    destruct (Execution.Run _ _) as [o s1]. injection E as <- ->.
    change (match o with inl err => inl err | inr out => inr (normalizeLanguageRunResult (prog_language (r_program runner)) out) end)
      with (program_out (prog_language (r_program runner)) o) in *.
    destruct (after_run (program_out _ o)) as [r|rr] eqn:Ea; simpl in *.
    + eapply (Hmove i tc Judge.Finished); [done| | |done].
      * intros res. rewrite list_lookup_insert_eq by (rewrite Hlen; by eapply lookup_lt_Some). intros [= <-].
        exists o. split; [exact Hv|]. by rewrite Ea.
      * intros j Hne. by rewrite list_lookup_insert_ne.
    + eapply (Hmove i tc (Unchecked rr)); [done| |done|done]. intros res _. by exists o.
  - unfold Check in E. pose proof (V_run (checker_request (r_checker runner) (c_input tc) (RStdout rr)
      (c_expectedOutput tc)) (cs_exec st)) as Hv.
    assert (Hres : exists res, cs_results st !! i = Some res)
      by (apply lookup_lt_is_Some; rewrite Hlen; by eapply lookup_lt_Some).
    destruct Hres as [res0 Hres]. destruct (Hc i tc _ res0 Htc Ht Hres) as (o & Ho & Ea).
    destruct (Execution.Run _ _) as [c s1]. injection E as <- ->. simpl in *.
    eapply (Hmove i tc Judge.Finished); [done| | |done].
    + intros res. rewrite list_lookup_insert_eq by (rewrite Hlen; by eapply lookup_lt_Some). intros [= <-].
      exists o. split; [by apply Hl|]. rewrite Ea. by exists c.
    + intros j Hne. by rewrite list_lookup_insert_ne.
Qed.

Lemma cases_seen_finished s runner cases threads results : length threads = length cases ->
  length results = length cases -> Forall (fun t => t = Judge.Finished) threads ->
  cases_seen s runner cases threads results -> Forall2 (case_seen s runner) cases results.
Proof.
  intros L1 L2 Hf Hc. apply Forall2_same_length_lookup. split; [done|]. intros i tc res Htc Hres.
  destruct (lookup_lt_is_Some_2 threads i) as [t Ht]; [rewrite L1; by eapply lookup_lt_Some|].
  rewrite Forall_lookup in Hf. rewrite (Hf i t Ht) in Ht. exact (Hc i tc Judge.Finished res Htc Ht Hres).
Qed.

(** The calls of the handlers. *)
Lemma language_Compile_seen plan s program cr s' :
  language_Compile (p_compiler plan) (p_sourceCode plan) s = (inr (Some program, cr), s') ->
  program_seen s' plan program.
Proof.
  unfold language_Compile. pose proof (V_compile (language_request (p_compiler plan) (p_sourceCode plan)) s) as Hv.
  unfold language_request in Hv. destruct (Execution.Compile _ s) as [[err|out] s1]; [done|].
  destruct (CArtifact out) as [a|] eqn:Ea; [|done]. intros [= <- _ <-]. by exists out.
Qed.

Lemma compileUncached_seen x s out s' : compileUncached testlibHeader x s = (inr out, s') ->
  V s' (Compiled (checker_compile_request testlibHeader x) (inr out)).
Proof.
  unfold compileUncached. pose proof (V_compile (checker_compile_request testlibHeader x) s) as Hv.
  destruct (Execution.Compile _ s) as [[err|o] s1]; [done|]. by intros [= <- <-].
Qed.

(** One handler moves. *)
Lemma seen_go st exec acquired grp g body p : service_seen st -> later (sv_exec st) exec ->
  phase_seen exec body p -> compiled grp = compiled (sv_group st) ->
  service_seen (MkService exec acquired grp (<[g := MkHandler body p]> (sv_handlers st))).
Proof.
  intros [I1 I2] Hl Hp Hc. constructor; simpl.
  - intros g' body' p'. unfold at_phase. simpl. rewrite lookup_insert_Some. intros [[_ [= -> ->]]|[_ Hg]]; [done|].
    eapply phase_seen_later; [exact Hl|by eapply I1].
  - intros x out. rewrite Hc. intros Hx. by apply Hl, I2.
Qed.

(** An answer without cases. *)
Lemma nothing_seen s body jr : (exists plan, planned body plan) -> Cases jr = [] ->
  phase_seen s body (Answered (writeJSON StatusOK (ResultData jr))).
Proof. intros [plan Hp] Hc jr' [= <-]. exists plan. split; [done|by left]. Qed.

Lemma refused_seen s body details : phase_seen s body (Answered (writeInvalidRequest details)).
Proof. by intros jr. Qed.

Lemma after_prepare_seen st plan program cr source out : inv st -> service_seen st -> forall g body,
  at_phase st g body (Preparing plan program cr) -> callers (sv_group st) !! g = Some (Returned source out) ->
  match after_prepare plan program cr out with
  | inl jr => Cases jr = []
  | inr (runner, cc) => runner_seen (sv_exec st) plan runner
  end.
Proof.
  intros I J g body Hp Hc. pose proof (seen_phase _ J _ _ _ Hp) as Hs. simpl in Hs.
  unfold after_prepare. destruct out as [err|out]; [done|]. destruct (CArtifact out) as [checker|] eqn:Ea; [|done].
  split; [exact Hs|]. split; [|done].
  destruct (si_handler _ _ _ _ _ _ _ I _ _ _ Hp) as (_ & _ & x & Hx & Ex). rewrite Hc in Hx. injection Hx as <-.
  simpl in Ex. subst source. destruct (inv_callers _ _ (si_group _ _ _ _ _ _ _ I) _ _ Hc) as (x & E & Hx).
  exists x, out. split; [done|]. split; [|done]. by apply (seen_compiled _ J).
Qed.

Lemma step_seen event st st' : inv st -> service_seen st -> step event st st' -> service_seen st'.
Proof.
  intros I J Hs. assert (Hl : later (sv_exec st) (sv_exec st')).
  { eapply call_later, step_exec; [exact I|exact Hs]. }
  destruct Hs as
    [g body st Hg | g body st Hp | g body req compiler choice st Hp Ha | g body req compiler choice st Hp
    | g body plan compiled s st Hp Ec | g body plan program cr st Hp Hc | grp st Hs Hc Hd
    | source res s grp st Hs Hc Ec | g body plan program cr source out st Hp Hc
    | g body plan runner cr cc threads results cs st Hp Hs | g body plan runner cr cc threads results st Hp Hf].
  - by apply (seen_go st).
  - apply (seen_go st); [done|done| |done]. destruct (receive maxBodyBytes body) as [resp|[[req compiler] choice]] eqn:E; [|done].
    apply receive_refused in E as [details ->]. apply refused_seen.
  - by apply (seen_go st).
  - destruct (materialize bundledFS externalFS req compiler choice); (apply (seen_go st); [done|done| |done]); [apply refused_seen|done].
  - destruct (si_handler _ _ _ _ _ _ _ I _ _ _ Hp) as [_ Hr]. destruct compiled as [err|[[program|] cr]]; simpl in *;
      (apply (seen_go st); [done|done| |done]); try (apply nothing_seen; [by exists plan|done]).
    by eapply language_Compile_seen.
  - apply (seen_go st); [done|done| |done]. exact (seen_phase _ J _ _ _ Hp).
  - destruct J as [J1 J2]. constructor; [exact J1|]. simpl. by rewrite Hc.
  - destruct J as [J1 J2]. constructor; simpl.
    + intros g body p Hp. eapply phase_seen_later; [exact Hl|exact (J1 g body p Hp)].
    + intros x out. rewrite Hc, elem_of_app, list_elem_of_singleton. intros [Hx|[= -> <-]]; [by apply Hl, J2|].
      by eapply compileUncached_seen.
  - destruct (si_handler _ _ _ _ _ _ _ I _ _ _ Hp) as (Hr & _).
    pose proof (after_prepare_seen _ _ _ _ _ _ I J _ _ Hp Hc) as K.
    destruct (after_prepare plan program cr out) as [jr|[runner cc]]; (apply (seen_go st); [done|done| |done]).
    + by apply nothing_seen; [exists plan|].
    + split; [exact K|]. intros i tc t res _ [-> _]%lookup_replicate_1 _. done.
  - destruct (seen_phase _ J _ _ _ Hp) as [Hr Hc].
    destruct (si_handler _ _ _ _ _ _ _ I _ _ _ Hp) as (_ & _ & Hi).
    apply (seen_go st); [done|exact Hl| |done]. split; [by eapply runner_seen_later|].
    apply (case_seen_step runner (p_cases plan) (MkCases (sv_exec st) threads results) cs);
      [exact Hl|apply (inv_results _ _ _ (Hi (sv_exec st)))|exact Hc|exact Hs].
  - destruct (seen_phase _ J _ _ _ Hp) as [Hr Hc].
    destruct (si_handler _ _ _ _ _ _ _ I _ _ _ Hp) as (Hpl & _ & Hi).
    apply (seen_go st); [done|exact Hl| |done]. intros jr [= <-]. exists plan. split; [done|]. right. exists runner.
    split; [exact Hr|].
    apply (cases_seen_finished _ _ _ threads); [apply (inv_threads _ _ _ (Hi (sv_exec st)))
      |apply (inv_results _ _ _ (Hi (sv_exec st)))|exact Hf|exact Hc].
Qed.

Lemma runs_seen s0 events st : 0 <= maxConcurrent -> runs s0 events st -> service_seen st.
Proof.
  intros Hn Hr. induction Hr as [|events event st st' Hr IH Hs].
  - constructor; [done|]. intros x out Hx. by apply not_elem_of_nil in Hx.
  - eapply step_seen; [|exact IH|exact Hs]. by eapply service_runs_inv.
Qed.
End Seen.

(** ** The containers *)

Section Containers.
Context `{UnicodeTables}.

(** The container of a compilation: the compiler's command, in a writable
    workspace that holds the sources and is all it has of the host. *)
Definition confined_compile (req : CompileRequest) (sub : ExecuteRequest) (d : dir) : Prop :=
  Command sub = CCommand req /\ Limits sub = CLimits req /\ Stdin sub = []
  /\ (exists host, forall cpu, confined (containerOpts sub cpu) (memoryBytes (LimitMemoryMB (CLimits req))) host)
  /\ (forall name e, d !! name = Some e -> name ∈ map FileName (CFiles req)).

(** The container of a run: a read-only workspace with the artifact and the
    files of the request, and every restriction of the sandbox. *)
Definition isolated_run (req : RunRequest) (sub : ExecuteRequest) (d : dir) : Prop :=
  Command sub = RCommand req /\ Limits sub = RLimits req /\ Stdin sub = RStdin req
  /\ (exists host, forall cpu, confined (containerOpts sub cpu) (memoryBytes (LimitMemoryMB (RLimits req))) host
                              /\ hardened (containerOpts sub cpu) (memoryBytes (LimitMemoryMB (RLimits req))))
  /\ (forall name e, d !! name = Some e -> name = ArtName (RArtifact req) \/ name ∈ map FileName (RFiles req)).

(** A call gave its slot and its workspace back, and started at most one
    container, which is one of the calls that the service makes. *)
Definition accounted (compiles : CompileRequest -> Prop) (run_requests : RunRequest -> Prop) (trace : host_trace) : Prop :=
  bracketed trace
  /\ (noted trace = [] \/ exists sub d, noted trace = [(sub, d)]
       /\ ((exists req, compiles req /\ confined_compile req sub d)
           \/ exists req, run_requests req /\ isolated_run req sub d)).

Lemma accounted_mono (P P' : CompileRequest -> Prop) (Q Q' : RunRequest -> Prop) trace :
  (forall req, P req -> P' req) -> (forall req, Q req -> Q' req) -> accounted P Q trace -> accounted P' Q' trace.
Proof.
  intros HP HQ [B [Hn|(sub & d & Hn & [(req & ? & ?)|(req & ? & ?)])]]; (split; [done|]); [by left|right..];
    exists sub, d; (split; [done|]); [left|right]; exists req; auto.
Qed.

Lemma Compile_accounted h req res trace (P : CompileRequest -> Prop) (Q : RunRequest -> Prop) :
  executor_Compile h req = (res, trace) -> P req -> accounted P Q trace.
Proof.
  intros E HP. apply compile_submission in E as [B [Hn|(d & Hw & Hn)]]; (split; [done|]); [by left|]. right.
  eexists _, d. split; [exact Hn|]. left. exists req. split; [done|]. split_and!; [done..| |].
  - eexists. intros cpu. apply containerOpts_confined.
  - intros name e. by apply (written_files h (CFiles req)).
Qed.

Lemma Run_accounted h req res trace (P : CompileRequest -> Prop) (Q : RunRequest -> Prop) :
  executor_Run h req = (res, trace) -> Q req -> accounted P Q trace.
Proof.
  unfold executor_Run. destruct (execute h (run_task_of req)) as [eres tr] eqn:E. intros Hr HQ.
  assert (tr = trace) as -> by (destruct eres; congruence).
  apply execute_trace in E as (B & [[Hn _]|(d & Hw & Hn & _)]); (split; [done|]); [by left|]. right.
  eexists _, d. split; [exact Hn|]. right. exists req. split; [done|]. split_and!; [done..| |].
  - eexists. intros cpu. split; [apply containerOpts_confined|apply containerOpts_hardened].
  - intros name e He. apply (written_files _ _ _ _ _ Hw) in He. by apply elem_of_cons in He.
Qed.
End Containers.
