(* ===== verification/StackSpec.v ===== *)
(** * The executor on the sandbox of the repository

    In [Execution] a host answers the calls of the executor; here its sandbox is
    [Container.Execute], over one container per call.  This file says what the
    history of an executor, which has one trace per call, tells of the
    containers: which one ran, on which files, and what was measured of it; and
    what a test case reports of them. *)

From S2P Require Import Prelude Text GoText Model OutputLimiter OutputSpec Sandbox SandboxSpec Brackets Container ContainerSpec Execution ExecutionSpec Language Checker CheckerCache Judge JudgeSpec ServiceExec.

(** What the container of a call does, for the request and the workspace that
    it is given. *)
Abbreviation call_container := (ExecuteRequest -> dir -> ContainerScript).

(** The answers of [h]'s sandbox are those of [Execute] in [container]: the
    output writers start with the budget of the request, and are joined when
    they are read. *)
Definition on_sandbox (container : call_container) (h : HostScript) : Prop := forall req d, exists trace,
  Execute (container req d) req = Some ((run_sandbox h req d).1, trace)
  /\ steps (new_outputs (OutputBytes (Limits req))) (task_outputs (container req d))
  /\ quiescent (task_outputs (container req d)).

(** ** What is measured of a container *)

(** The output is what the writers kept of what the task wrote, within the
    budget; the time and the memory are those of its cgroup, when the task had
    ended or at the tick that found it over its CPU limit. *)
Definition measured (c : ContainerScript) (limits : ResourceLimits) (sr : ExecuteResult) : Prop :=
  let o := task_outputs c in
  let s := task_script c in
  ResStdout sr = buf (writer o Stdout) /\ ResStderr sr = buf (writer o Stderr)
  /\ ResStdout sr `prefix_of` written o Stdout /\ ResStderr sr `prefix_of` written o Stderr
  /\ zlen (ResStdout sr) + zlen (ResStderr sr) <= OutputBytes limits
  /\ exists m, ResCPUTimeMs sr = cpuMillis m /\ ResMemoryMB sr = peakMemMB m
     /\ (collectMetrics (metrics_at_end s) = inr m
         \/ exists tick, OnTick tick ∈ select_cases s /\ collectMetrics tick = inr m
            /\ CPUTimeMs limits <= cpuMillis m).

Lemma waitForTask_metrics s limits outcome : waitForTask s limits = Some (inr outcome) ->
  collectMetrics (metrics_at_end s) = inr (metrics outcome)
  \/ exists tick, OnTick tick ∈ select_cases s /\ collectMetrics tick = inr (metrics outcome)
     /\ CPUTimeMs limits <= cpuMillis (metrics outcome).
Proof.
  unfold waitForTask. destruct (waitForExecutionEvent _ _) as [ev|] eqn:E; [|done].
  apply wait_first in E as (before & c & after & Hc & _ & Hd).
  assert (Hin : c ∈ select_cases s) by (rewrite Hc; set_solver).
  destruct ev as [[err|code]|r m|err]; try done.
  - destruct (collect_cgroup _) as [err|m] eqn:Em; [done|]. intros [= <-]. left. by apply collect_cgroup_inr.
  - apply decisive_stopped in Hd. destruct (decide (r = stopCPUTime)) as [->|Hr].
    + destruct Hd as (a & -> & Ha & Hle). destruct (errors_Join _); [done|]. intros [= <-]. right. by exists a.
    + destruct (collect_cgroup _) as [err|m'] eqn:Em; [done|]. destruct (errors_Join _); [done|]. intros [= <-].
      left. by apply collect_cgroup_inr.
Qed.

Lemma buildVerdict_reports outcome out limits : let r := buildVerdict outcome out limits in
  ResStdout r = stdout out /\ ResStderr r = stderr out
  /\ ResCPUTimeMs r = cpuMillis (metrics outcome) /\ ResMemoryMB r = peakMemMB (metrics outcome).
Proof. unfold buildVerdict. by repeat case_match. Qed.

Lemma Execute_measured c req sr trace : 0 <= OutputBytes (Limits req) ->
  steps (new_outputs (OutputBytes (Limits req))) (task_outputs c) ->
  Execute c req = Some (inr sr, trace) -> measured c (Limits req) sr.
Proof.
  intros Hn Hs E. apply Execute_watched in E. revert E. unfold watchExecution.
  destruct (start_task _); [done|]. destruct (waitForTask _ _) as [[err|outcome]|] eqn:W; [done| |done].
  destruct (waitForOutput _); [done|]. intros [= <-]. apply waitForTask_metrics in W.
  pose proof (buildVerdict_reports outcome (output_of (task_outputs c)) (Limits req)) as (E1 & E2 & E3 & E4).
  pose proof (steps_inv _ _ Hn Hs) as I. pose proof (kept_bound _ _ I) as Hk.
  assert (Hp : forall f, buf (writer (task_outputs c) f) `prefix_of` written (task_outputs c) f).
  { intros f. destruct (overflowed (writer (task_outputs c) f)) eqn:Eo.
    - destruct (inv_cut _ _ I f Eo) as (_ & _ & rest & _ & ->). by eexists.
    - by rewrite (inv_exact _ _ I f Eo). }
  unfold measured. rewrite E1, E2, E3, E4. split_and!; [done..|apply Hp|apply Hp|exact Hk|by eexists].
Qed.

Section Stack.
Context `{UnicodeTables}.
Context (containers : nat -> call_container) (hosts : nat -> HostScript).
(** One trace per call of the executor, in their order. *)
Context (history : list host_trace).

(** ** Calls *)

(** The files in the workspace of a run. *)
Definition run_files (req : RunRequest) : list File :=
  MkFile (ArtName (RArtifact req)) (ArtData (RArtifact req)) (ArtMode (RArtifact req)) :: RFiles req.

(** The call number [n] ran [req] in its container, which ended with [sr]. *)
Definition container_ran (n : nat) (req : RunRequest) (sr : ExecuteResult) : Prop :=
  exists trace sub d t, history !! n = Some trace /\ noted trace = [(sub, d)]
  /\ Command sub = RCommand req /\ Stdin sub = RStdin req /\ Limits sub = RLimits req
  /\ (forall f, f ∈ run_files req -> e_data <$> d !! FileName f = Some (Content f))
  /\ Execute (containers n sub d) sub = Some (inr sr, t)
  /\ measured (containers n sub d) (RLimits req) sr
  /\ verdict_means (task_script (containers n sub d)) (task_outputs (containers n sub d)) (RLimits req) sr.

(** The call number [n] of [req] failed with [err]: something that the executor
    asked of the host did, or its container. *)
Definition call_failed (n : nat) (req : RunRequest) (err : GoError) : Prop :=
  exists trace, history !! n = Some trace /\ executor_Run (hosts n) req = (inl err, trace)
  /\ (acquire_slot (hosts n) <> None \/ make_dir (hosts n) <> None \/ open_root (hosts n) <> None
      \/ Exists (fun f => write_error (hosts n) (FileName f) <> None) (run_files req)
      \/ clean_up (hosts n) <> None
      \/ exists sub d e t, noted trace = [(sub, d)] /\ Execute (containers n sub d) sub = Some (inl e, t)).

Definition compiled_in (req : CompileRequest) (a : Artifact) : Prop := exists n trace out,
  history !! n = Some trace /\ executor_Compile (hosts n) req = (inr out, trace) /\ CArtifact out = Some a.

(** A call of the history. *)
Definition logged (c : executor_call) : Prop := exists n trace, history !! n = Some trace
  /\ match c with
     | Compiled req res => executor_Compile (hosts n) req = (res, trace)
     | Ran req res => executor_Run (hosts n) req = (res, trace)
     end.

Lemma writeFiles_fails h files err : forall d, writeFiles h files d = inl err ->
  Exists (fun f => write_error h (FileName f) <> None) files.
Proof.
  induction files as [|f files IH]; intros d; simpl; [done|].
  destruct (write_error h (FileName f)) eqn:E; [intros _; left; by rewrite E|]. intros Hw. right. by eapply IH.
Qed.

(** The exit code that a checker's success comes with. *)
Definition verdict_exit (sr : ExecuteResult) : Prop := ResVerdict sr = Sandbox.VerdictOK -> ExitCode sr = 0.

Lemma watched_known s o limits r : watchExecution s o limits = Some (inr r) -> ResVerdict r <> VerdictUnknown.
Proof. intros E%watched_diagnostic E'. by rewrite E' in E. Qed.

Lemma run_fails n req err trace : on_sandbox (containers n) (hosts n) -> history !! n = Some trace ->
  executor_Run (hosts n) req = (inl err, trace) -> call_failed n req err.
Proof.
  intros Hs Hn E. exists trace. split; [done|]. split; [done|]. revert E. unfold executor_Run, execute.
  destruct (acquire_slot (hosts n)); [by left|]. right. revert E. unfold newWorkspace.
  destruct (make_dir (hosts n)); [by left|]. right. revert E. destruct (open_root (hosts n)); [by left|]. right. revert E.
  change (t_files (run_task_of req)) with (run_files req).
  destruct (writeFiles (hosts n) (run_files req) ∅) as [e|d] eqn:Ew; [left; by eapply writeFiles_fails|]. right. revert E.
  destruct (clean_up (hosts n)) eqn:Ec; [by left|]. right. revert E.
  set (sub := sandbox_request (hosts n) (run_task_of req)). destruct (Hs sub d) as (t & He & _).
  unfold run_task. fold sub. destruct (run_sandbox (hosts n) sub d) as [[e|sr] d'] eqn:Es.
  - intros E. exists sub, d, e, t. split; [|exact He].
    destruct (join_cleanup _ _); injection E as _ <-; done.
  - simpl in He. apply Execute_watched, watched_known in He.
    destruct (decide (ResVerdict sr = VerdictUnknown)); [done|]. simpl t_artifactName.
    rewrite bool_decide_true by done. simpl. unfold cleanup. by rewrite Ec.
Qed.

Lemma run_ran n req r trace : on_sandbox (containers n) (hosts n) -> history !! n = Some trace ->
  0 <= OutputBytes (RLimits req) -> NoDup (map FileName (run_files req)) ->
  executor_Run (hosts n) req = (inr r, trace) ->
  exists sr, container_ran n req sr /\ r = sandboxResultToRunResult sr.
Proof.
  intros Hs Hn Ho Hd. unfold executor_Run. destruct (execute _ _) as [[e|tr] t0] eqn:E; [done|]. intros [= <- ->].
  apply execute_trace in E as (_ & [(_ & e & ?)|(d & Hw & Ht & Hx)]); [done|].
  symmetry in Hx. apply join_cleanup_inr in Hx. unfold run_task in Hx.
  set (sub := sandbox_request (hosts n) (run_task_of req)) in *. destruct (Hs sub d) as (t & He & Hst & Hq).
  destruct (run_sandbox (hosts n) sub d) as [[e|sr] d'] eqn:Es; [done|]. simpl in He.
  destruct (decide (ResVerdict sr = VerdictUnknown)); [done|]. injection Hx as <-.
  exists sr. split; [|done]. exists trace, sub, d, t. do 5 (split; [done|]). split; [|split; [exact He|split]].
  - intros f Hf. destruct (writeFiles_lookup _ _ _ _ (FileName f) Hw) as [_ I].
    destruct I as (f' & Hf' & En & Ed); [by apply list_elem_of_fmap_2|]. rewrite Ed. f_equal.
    change (t_files (run_task_of req)) with (run_files req) in Hf'.
    apply list_elem_of_lookup in Hf as [i Hi], Hf' as [j Hj].
    assert (i = j) as ->; [|by rewrite Hi in Hj; injection Hj as ->].
    eapply (NoDup_lookup (map FileName (run_files req))); [exact Hd| |]; rewrite list_lookup_fmap;
      [by rewrite Hi|by rewrite Hj, <- En].
  - by apply (Execute_measured _ sub _ t).
  - apply watchExecution_means; [exact Ho|exact Hst|exact Hq|].
    exact (Execute_watched _ sub _ _ He).
Qed.

(** ** Cases *)

(** The verdict on a program of [lang] whose container ended with [sr]. *)
Definition program_verdict (lang : Language) (sr : ExecuteResult) : Model.Verdict :=
  match ResVerdict sr with
  | VerdictOK => Model.VerdictOK
  | VerdictTLE => Model.VerdictTLE
  | VerdictMLE => Model.VerdictMLE
  | VerdictOLE => Model.VerdictOLE
  | VerdictRE => if bool_decide (lang = LanguageJava) && Contains (ResStderr sr) ($"java.lang.OutOfMemoryError")
                 then Model.VerdictMLE else Model.VerdictRE
  | VerdictUnknown => Model.VerdictUKE
  end.

(** The verdict of a checker whose container ended with [sr]. *)
Definition checked_verdict (user : bool) (sr : ExecuteResult) : Model.Verdict :=
  match ResVerdict sr with
  | VerdictOK => Model.VerdictOK
  | VerdictRE => if bool_decide (ExitCode sr = 1 \/ ExitCode sr = 2) then VerdictWA
                 else if user then VerdictCheckerExecutionError else Model.VerdictUKE
  | _ => if user then VerdictCheckerExecutionError else Model.VerdictUKE
  end.

(** What the result [res] of the case [tc] reports: that the call that was to
    run its program failed; or the output, the time, the memory and the exit
    code of the container in which the program ran on the input, with the
    verdict on that container or, when the program ended well, the verdict of
    the container in which the checker saw the input, that output and the
    expected one. *)
Definition reported (runner : caseRunner) (tc : caseData) (res : JudgeCaseResult) : Prop :=
  let run := program_request (r_program runner) (c_input tc) (r_timeLimit runner) (r_memLimit runner) in
  let lang := prog_language (r_program runner) in
  (exists n err, call_failed n run err
     /\ res = MkCaseResult Model.VerdictUKE [] 0 0 0 ($"infrastructure error: " ++ error_text err))
  \/ exists n sr, container_ran n run sr
     /\ CaseStdout res = ResStdout sr /\ TimeUsed res = ResCPUTimeMs sr /\ MemoryUsed res = ResMemoryMB sr
     /\ CaseExitCode res = ExitCode sr
     /\ if bool_decide (ResVerdict sr = Sandbox.VerdictOK)
        then let check := checker_request (r_checker runner) (c_input tc) (ResStdout sr) (c_expectedOutput tc) in
             (exists n' err, call_failed n' check err /\ CaseVerdict res = Model.VerdictUKE)
             \/ exists n' sr', container_ran n' check sr'
                /\ CaseVerdict res = checked_verdict (r_userChecker runner) sr'
        else CaseVerdict res = program_verdict lang sr /\ CaseExtraInfo res = ExtraInfo sr.

Lemma normalized lang sr : let rr := normalizeLanguageRunResult lang (sandboxResultToRunResult sr) in
  RStdout rr = ResStdout sr /\ RCPUTimeMs rr = ResCPUTimeMs sr /\ RMemoryMB rr = ResMemoryMB sr
  /\ RExitCode rr = ExitCode sr /\ RVerdict rr = program_verdict lang sr /\ RExtraInfo rr = ExtraInfo sr.
Proof.
  unfold normalizeLanguageRunResult, program_verdict.
  destruct (ResVerdict sr) eqn:V; simpl; rewrite ?V; simpl; rewrite ?andb_false_r; simpl; try (by rewrite V).
  destruct (bool_decide _), (Contains _ _); simpl; by rewrite ?V.
Qed.

Lemma program_verdict_OK lang sr : program_verdict lang sr = Model.VerdictOK <-> ResVerdict sr = Sandbox.VerdictOK.
Proof. unfold program_verdict. destruct (ResVerdict sr); try done. by destruct (_ && _). Qed.

Lemma checker_verdict_checked user sr : verdict_exit sr ->
  checker_verdict user (Outcome (checker_result (sandboxResultToRunResult sr))) = checked_verdict user sr.
Proof.
  unfold verdict_exit, checked_verdict, checker_result. intros Hx. simpl. destruct (ResVerdict sr); simpl; try done.
  - by rewrite Hx.
  - destruct (Z.eqb_spec (ExitCode sr) 1), (Z.eqb_spec (ExitCode sr) 2); simpl;
      rewrite ?bool_decide_true by lia; rewrite ?bool_decide_false by lia; done.
Qed.

Context (Hhosts : forall n, on_sandbox (containers n) (hosts n)).

Lemma run_logged req out : logged (Ran req out) -> 0 <= OutputBytes (RLimits req) ->
  NoDup (map FileName (run_files req)) ->
  match out with
  | inl err => exists n, call_failed n req err
  | inr r => exists n sr, container_ran n req sr /\ r = sandboxResultToRunResult sr
  end.
Proof.
  intros (n & trace & Hn & E) Ho Hd. destruct out as [err|r]; exists n; [by eapply run_fails|by eapply run_ran].
Qed.

Lemma container_exit n req sr : container_ran n req sr -> verdict_exit sr.
Proof.
  intros (trace & sub & d & t & _ & _ & _ & _ & _ & _ & E & _). unfold verdict_exit.
  apply Execute_watched, watched_diagnostic in E. by destruct (ResVerdict sr).
Qed.

(** A case that the service saw, in these terms. *)
Lemma case_reported {S : Type} `{Executor S} (V : S -> executor_call -> Prop) (s : S) runner tc res :
  (forall c, V s c -> logged c) -> ArtName (r_checker runner) = checkerArtifactName ->
  case_seen V s runner tc res -> reported runner tc res.
Proof.
  intros HV Hname (out & Ho & Hr). apply HV, run_logged in Ho; [|vm_compute; discriminate|apply NoDup_singleton].
  destruct out as [err|r]; simpl in Hr; [left; destruct Ho as [n Hf]; by exists n, err|]. right.
  destruct Ho as (n & sr & Hc & ->). exists n, sr. split; [exact Hc|].
  pose proof (normalized (prog_language (r_program runner)) sr) as (E1 & E2 & E3 & E4 & E5 & E6).
  set (rr := normalizeLanguageRunResult _ _) in *. rewrite E5 in Hr.
  destruct (bool_decide_reflect (ResVerdict sr = Sandbox.VerdictOK)) as [Hv|Hv].
  - rewrite bool_decide_true in Hr by (by apply program_verdict_OK). simpl in Hr.
    destruct Hr as (c & Hk & ->). rewrite E1 in Hk.
    apply HV, run_logged in Hk; [|vm_compute; discriminate
      |unfold run_files; cbn [map FileName RArtifact RFiles checker_request]; rewrite Hname; by apply (bool_decide_unpack _)].
    destruct c as [err|k]; simpl; split_and!; try done; [left; destruct Hk as [n' Hf]; by exists n', err|].
    destruct Hk as (n' & sr' & Hc' & ->). right. exists n', sr'. split; [exact Hc'|].
    apply checker_verdict_checked. by eapply container_exit.
  - rewrite bool_decide_false in Hr by (by rewrite program_verdict_OK). simpl in Hr. subst res. simpl. by split_and!.
Qed.
End Stack.

(** ** The history of an executor *)

(** What [Execution]'s executor records of its calls. *)
Definition records `{UnicodeTables} (hosts : nat -> HostScript) (e : executor) (c : executor_call) : Prop :=
  host e = hosts -> calls e = length (log e) -> logged hosts (log e) c.

Section Records.
Context `{UnicodeTables} (hosts : nat -> HostScript).

Lemma logged_more history trace c : logged hosts history c -> logged hosts (history ++ [trace]) c.
Proof. intros (n & tr & Hn & E). exists n, tr. split; [by apply lookup_app_l_Some|done]. Qed.

Lemma logged_last history trace c :
  match c with
  | Compiled req res => executor_Compile (hosts (length history)) req = (res, trace)
  | Ran req res => executor_Run (hosts (length history)) req = (res, trace)
  end -> logged hosts (history ++ [trace]) c.
Proof. intros E. exists (length history), trace. split; [by apply list_lookup_middle|done]. Qed.

Lemma records_compile req e :
  records hosts (Execution.Compile req e).2 (Compiled req (Execution.Compile req e).1).
Proof.
  unfold records. simpl. destruct (executor_Compile _ req) as [res trace] eqn:E. simpl. intros Hh Hc.
  rewrite length_app in Hc. simpl in Hc. apply logged_last. replace (length (log e)) with (calls e) by lia. by subst hosts.
Qed.

Lemma records_run req e : records hosts (Execution.Run req e).2 (Ran req (Execution.Run req e).1).
Proof.
  unfold records. simpl. destruct (executor_Run _ req) as [res trace] eqn:E. simpl. intros Hh Hc.
  rewrite length_app in Hc. simpl in Hc. apply logged_last. replace (length (log e)) with (calls e) by lia. by subst hosts.
Qed.

Lemma records_after_compile req e c : records hosts e c -> records hosts (Execution.Compile req e).2 c.
Proof.
  unfold records. simpl. destruct (executor_Compile _ req) as [res trace]. simpl. intros He Hh Hc.
  rewrite length_app in Hc. simpl in Hc. apply logged_more, He; [done|lia].
Qed.

Lemma records_after_run req e c : records hosts e c -> records hosts (Execution.Run req e).2 c.
Proof.
  unfold records. simpl. destruct (executor_Run _ req) as [res trace]. simpl. intros He Hh Hc.
  rewrite length_app in Hc. simpl in Hc. apply logged_more, He; [done|lia].
Qed.

(** The executor counts its calls. *)
Definition counted (e : executor) : Prop := host e = hosts /\ calls e = length (log e).

Lemma compile_counted req e : counted e -> counted (Execution.Compile req e).2.
Proof.
  intros [Hh Hc]. simpl. destruct (executor_Compile _ req) as [res trace]. split; simpl; [done|].
  rewrite length_app. simpl. lia.
Qed.

Lemma run_counted req e : counted e -> counted (Execution.Run req e).2.
Proof.
  intros [Hh Hc]. simpl. destruct (executor_Run _ req) as [res trace]. split; simpl; [done|].
  rewrite length_app. simpl. lia.
Qed.
End Records.

(** ** A host on the sandbox *)

(** Every task of it takes seven milliseconds and exits with code 0. *)
Definition quick_container (req : ExecuteRequest) : ContainerScript :=
  MkContainerScript None ImageFound None (inr 3) None None None sample_script
    (new_outputs (OutputBytes (Limits req))).

Definition quick_sandbox (req : ExecuteRequest) : GoError + ExecuteResult :=
  match Execute (quick_container req) req with
  | Some (res, _) => res
  | None => inl (errors_New ($"not reached"))
  end.

(** Its compilers leave a program and a checker. *)
Definition quick_host : HostScript :=
  MkHost None None None None ($"/tmp/w") (fun _ => None)
    (fun req d => (quick_sandbox req,
                   match MountDir req with
                   | Some m => if ReadOnly m then d
                               else <[$"program" := MkEntry ($"ELF") 493 true]>
                                      (<[$"checker" := MkEntry ($"ELF") 493 true]> d)
                   | None => d
                   end))
    (fun _ => false) (fun _ => errors_New ($"no such file")) (fun _ => None) None 18.

Lemma quick_watched o limits : exists res, watchExecution sample_script o limits = Some res.
Proof.
  unfold watchExecution, waitForTask, sample_script. cbn [start_task select_cases waitForExecutionEvent].
  change (collectMetrics (sample_metrics 5000)) with (inr (A := GoError) (MkMetrics 5000000 3145728 false false)).
  cbv iota beta. destruct (CPUTimeMs limits <=? _); eexists; reflexivity.
Qed.

Lemma quick_on_sandbox : on_sandbox (fun req _ => quick_container req) quick_host.
Proof.
  intros req d. destruct (quick_watched (new_outputs (OutputBytes (Limits req))) (Limits req)) as [res Hres].
  assert (E : exists r t, Execute (quick_container req) req = Some (r, t)).
  { unfold Execute, executeInContainer, watched, with_resource. simpl. rewrite Hres. by eexists _, _. }
  destruct E as (r & t & E). exists t. simpl. unfold quick_sandbox. rewrite E.
  split; [done|]. split; [apply rtc_refl|by intros f].
Qed.
