(* ===== verification/ServiceWork.v ===== *)
(** * The concurrent service gets its work done

    Every request takes a bounded number of steps, whatever the others do; and
    as long as one is not answered, something can be done: the handlers that
    hold the semaphore always go on, and they give it back. *)

From S2P Require Import Prelude Text GoText Model Sandbox Execution Language Checker CheckerCache CacheSpec Judge JudgeSpec Transport Server ServerSpec Service ServiceInv.

(** ** Work left *)

Definition caller_work (c : caller) : nat :=
  match c with Called _ => 6 | Missed _ => 5 | CheckerCache.Waiting _ => 1 | Returned _ _ => 0 end.
Definition flight_work (f : flight) : nat :=
  match f with Started _ => 3 | CheckerCache.Compiling _ => 2 | Landed _ _ => 1 end.

(** At most 64 cases, with two calls of the executor each. *)
Definition phase_work (p : phase) : nat :=
  match p with
  | Received => 141
  | Queued _ _ _ => 140
  | Acquired _ _ _ => 139
  | Planned _ => 138
  | Built _ _ _ => 137
  | Preparing _ _ _ => 130
  | Judging _ _ _ _ threads _ => S (sum_list_with thread_work threads)
  | Answered _ => 0
  end.
Definition handler_work (h : handler) : nat := phase_work (h_phase h).

Lemma finished_dec threads : Decision (Forall (fun t => t = Judge.Finished) threads).
Proof. apply List.Forall_dec. intros [| |]; [by right|by right|by left]. Defined.

Section Group.
Context (Sum256 : bytes -> bytes) {C : Type} {L : LRU bytes CompileOutput C}.
Implicit Types grp : @group_state C.

Definition group_work grp : nat := (msum caller_work (callers grp) + msum flight_work (flights grp))%nat.

Lemma deliver_work key res c : (caller_work (deliver Sum256 key res c) <= caller_work c)%nat.
Proof. destruct c; simpl; try lia. case_decide; simpl; lia. Qed.

Lemma cache_step_work grp grp' : cache_step Sum256 grp grp' -> dom (callers grp') = dom (callers grp) ->
  (group_work grp' < group_work grp)%nat.
Proof.
  intros Hs Hd. unfold group_work. destruct Hs as [g s st Hg | g s out c st Hg Hl | g s c st Hg Hl | g s st Hg Hf
    | g s st Hg Hf | s out c st Hf Hl | s c st Hf Hl | s res st Hf | s res st Hf]; simpl in *;
    repeat match goal with
    | H : callers ?st !! ?g = Some ?c |- context [msum caller_work (<[?g := ?x]> (callers ?st))] =>
        pose proof (msum_insert caller_work (callers st) g x c H); simpl in *; clear H
    | H : flights ?st !! ?k = Some ?f |- context [msum flight_work (<[?k := ?x]> (flights ?st))] =>
        pose proof (msum_insert flight_work (flights st) k x f H); simpl in *; clear H
    end; try lia.
  - exfalso. apply not_elem_of_dom in Hg. apply Hg. rewrite <- Hd, dom_insert_L. set_solver.
  - rewrite (msum_insert_new flight_work _ _ _ Hf). simpl. lia.
  - pose proof (msum_delete flight_work _ _ _ Hf). simpl in *.
    pose proof (msum_fmap_le caller_work (deliver Sum256 (Sum256 s) res) (callers st) (deliver_work _ _)). lia.
Qed.

(** A caller that has not returned can get on, or the flight it waits for. *)
Lemma group_progress `{!LRULaws bytes CompileOutput C} grp g c : group_inv Sum256 grp -> callers grp !! g = Some c ->
  (exists source res, c = Returned source res)
  \/ (exists grp', cache_step Sum256 grp grp' /\ compiled grp' = compiled grp
        /\ dom (callers grp') = dom (callers grp))
  \/ (exists source, flights grp !! Sum256 source = Some (CheckerCache.Compiling source)).
Proof.
  intros I Hc.
  pose proof (inv_callers _ _ I _ _ Hc) as Hok. assert (Hsame : forall x, dom (<[g := x]> (callers grp)) = dom (callers grp))
    by (intros x; by eapply dom_insert_lookup_L).
  destruct c as [s|s|s|s res]; [right; left|right; left|right|left; by exists s, res].
  - destruct (lru_get (Sum256 s) (cache grp)) as [[out|] c] eqn:E; eexists.
    + split; [by eapply step_hit|]. by split; [|apply Hsame].
    + split; [by eapply step_miss|]. by split; [|apply Hsame].
  - destruct (flights grp !! Sum256 s) as [f|] eqn:E; eexists.
    + split; [by apply step_join|]. by split; [|apply Hsame].
    + split; [by apply step_lead|]. by split; [|apply Hsame].
  - destruct Hok as [f Hf]. pose proof (inv_flights _ _ I _ _ Hf) as Hk.
    destruct f as [x|x|x res]; simpl in Hk; [|destruct Hk as [Hk _]..]; rewrite <- Hk in Hf.
    + left. destruct (lru_get (Sum256 x) (cache grp)) as [[out|] c] eqn:E; eexists.
      * split; [by eapply step_late_hit|done].
      * split; [by eapply step_compile|done].
    + right. by exists x.
    + left. eexists. split; [by eapply step_land|]. split; [done|]. simpl. apply dom_fmap_L.
Qed.
End Group.

Section Work.
Context `{UnicodeTables} {S : Type} `{Executor S} `{JSONDecoder}.
Context (Sum256 : bytes -> bytes).
Context {C : Type} {L : LRU bytes CompileOutput C} `{!LRULaws bytes CompileOutput C}.
Context (testlibHeader : bytes) (bundledFS : FS) (externalFS : option FS).
Context (maxBodyBytes maxConcurrent : Z).

Abbreviation service := (@service S C).
Abbreviation step := (service_step Sum256 testlibHeader bundledFS externalFS maxBodyBytes maxConcurrent).
Abbreviation runs := (service_runs Sum256 testlibHeader bundledFS externalFS maxBodyBytes maxConcurrent).
Abbreviation inv := (service_inv Sum256 testlibHeader bundledFS externalFS maxBodyBytes maxConcurrent).

Definition service_work (st : service) : nat :=
  (msum handler_work (sv_handlers st) + group_work (sv_group st))%nat.

(** An accepted request has at most 64 cases. *)
Lemma planned_cases body plan : planned bundledFS externalFS maxBodyBytes body plan ->
  (length (p_cases plan) <= 64)%nat.
Proof.
  intros (req & compiler & choice & Hr & Hm). unfold receive in Hr.
  destruct (decode_request _) as [|[q rest]]; [done|]. destruct (negb _); [done|].
  destruct (validateJudgeRequest q) eqn:V; [done|].
  destruct (language_Resolve _); [done|]. destruct (resolveChecker _ _); [done|]. injection Hr as -> -> ->.
  apply validateJudgeRequest_valid in V as (_ & _ & _ & _ & [_ Hn] & _).
  unfold materialize in Hm. destruct (readSource _ _ _); [done|].
  destruct (materialize_cases _ _ _) eqn:Em; [done|]. injection Hm as <-. simpl.
  rewrite (materialize_cases_length _ _ _ _ Em). unfold zlen in Hn. lia.
Qed.

Lemma move_work (st : service) g body p p' : at_phase st g body p ->
  (msum handler_work (<[g := MkHandler body p']> (sv_handlers st)) + phase_work p
   = msum handler_work (sv_handlers st) + phase_work p')%nat.
Proof. intros Hp. exact (msum_insert handler_work _ g (MkHandler body p') _ Hp). Qed.

(** A handler goes from [p] to a phase with less left. *)
Lemma go_work (st : service) g body p p' exec acquired grp : at_phase st g body p -> (phase_work p' < phase_work p)%nat ->
  group_work grp = group_work (sv_group st) ->
  (service_work (MkService exec acquired grp (<[g := MkHandler body p']> (sv_handlers st))) < service_work st)%nat.
Proof.
  intros Hp Hw Hg. unfold service_work. simpl. rewrite Hg.
  pose proof (move_work st g body p p' Hp). lia.
Qed.

Lemma service_step_work event st st' : inv st -> step event st st' ->
  match event with
  | Arrival => (service_work st' = service_work st + 141)%nat
  | Work => (service_work st' < service_work st)%nat
  end.
Proof.
  intros I Hs. destruct Hs as
    [g body st Hg | g body st Hp | g body req compiler choice st Hp Ha | g body req compiler choice st Hp
    | g body plan compiled s st Hp Ec | g body plan program cr st Hp Hc | grp st Hs Hc Hd
    | source res s grp st Hs Hc Ec | g body plan program cr source out st Hp Hc
    | g body plan runner cr cc threads results cs st Hp Hs | g body plan runner cr cc threads results st Hp Hf].
  - unfold service_work, go. simpl. rewrite (msum_insert_new _ _ _ _ Hg). unfold handler_work at 1. simpl. lia.
  - apply (go_work st g body Received); [done| |done]. destruct (receive _ body) as [|[[]]]; simpl; lia.
  - apply (go_work st g body (Queued req compiler choice)); [done|simpl; lia|done].
  - destruct (materialize _ _ _ _ _); apply (go_work st g body (Acquired req compiler choice)); simpl; done || lia.
  - destruct (after_compile compiled) as [|[]]; apply (go_work st g body (Planned plan)); simpl; done || lia.
  - unfold service_work, group_work. simpl. rewrite (msum_insert_new caller_work _ _ _ Hc). simpl.
    pose proof (move_work st g body _ (Preparing plan program cr) Hp) as E. simpl in E. subst group. lia.
  - unfold service_work. simpl. pose proof (cache_step_work _ _ _ Hs Hd). lia.
  - unfold service_work. simpl. destruct (compiled_step _ _ _ _ _ Hs Hc) as [Hk _].
    pose proof (cache_step_work _ _ _ Hs ltac:(by rewrite Hk)). lia.
  - pose proof (si_handler _ _ _ _ _ _ _ I _ _ _ Hp) as (Hpl & _). apply planned_cases in Hpl.
    destruct (after_prepare plan program cr out) as [|[runner cc]];
      apply (go_work st g body (Preparing plan program cr)); try done; [simpl; lia|].
    pose proof (work_initial (p_cases plan) (sv_exec st)) as E. unfold work in E. simpl in *. lia.
  - apply (go_work st g body (Judging plan runner cr cc threads results)); [done| |done].
    apply case_step_work in Hs. unfold work in Hs. simpl in *. lia.
  - apply (go_work st g body (Judging plan runner cr cc threads results)); [done|simpl; lia|done].
Qed.

Lemma runs_bounded s events st : 0 <= maxConcurrent -> runs s events st ->
  (works events + service_work st <= 141 * arrivals events)%nat.
Proof.
  intros Hn. induction 1 as [|events event st st' Hr IH Hs]; [done|].
  apply service_step_work in Hs; [|by eapply service_runs_inv]. unfold works, arrivals in *.
  rewrite !List.filter_app, !length_app. destruct event; simpl; lia.
Qed.

(** ** Progress *)

(** The semaphore is held by a handler when it is exhausted. *)
Lemma exhausted_held st : inv st -> 0 < maxConcurrent -> maxConcurrent <= sv_acquired st ->
  exists g body p, at_phase st g body p /\ holding p = true.
Proof.
  intros I Hn Hs. rewrite (si_acquired _ _ _ _ _ _ _ I) in Hs.
  destruct (msum_pos holder (sv_handlers st) ltac:(lia)) as (g & [body p] & Hg & Hh).
  exists g, body, p. split; [done|]. unfold holder in Hh. simpl in Hh. destruct (holding p); [done|lia].
Qed.

(** A handler that holds the semaphore can go on, or waits for the cache, which
    can. *)
Lemma holder_progress st g body p : inv st -> at_phase st g body p -> holding p = true ->
  exists st', step Work st st'.
Proof.
  intros I Hp Hh. pose proof (si_handler _ _ _ _ _ _ _ I _ _ _ Hp) as Hok.
  destruct p as [| |req compiler choice|plan|plan program cr|plan program cr|plan runner cr cc threads results|];
    try done; simpl in Hok.
  - eexists. by eapply sv_materialize.
  - destruct (language_Compile (p_compiler plan) (p_sourceCode plan) (sv_exec st)) as [compiled s] eqn:E.
    eexists. by eapply sv_compile.
  - eexists. eapply sv_prepare; [done|]. by destruct Hok as [Hc _].
  - destruct Hok as (_ & _ & x & Hx & _).
    destruct (group_progress Sum256 _ _ _ (si_group _ _ _ _ _ _ _ I) Hx)
      as [(source & res & ->)|[(grp & Hs & Hc & Hd)|(source & Hf)]].
    + eexists. by eapply sv_prepared.
    + eexists. by eapply sv_cache.
    + destruct (compileUncached testlibHeader source (sv_exec st)) as [res s] eqn:E.
      eexists. eapply sv_compiled; [by eapply (step_compiled Sum256 source res)|done|exact E].
  - destruct Hok as (_ & _ & Hi). specialize (Hi (sv_exec st)).
    destruct (finished_dec threads) as [Hf|Hf].
    + eexists. by eapply sv_judged.
    + destruct (cases_progress runner _ _ Hi Hf) as [cs Hcs]. eexists. by eapply sv_case.
Qed.

Definition unanswered (st : service) : Prop := exists g body p,
  at_phase st g body p /\ forall resp, p <> Answered resp.

Lemma service_progress st : inv st -> 0 < maxConcurrent -> unanswered st -> exists st', step Work st st'.
Proof.
  intros I Hn (g & body & p & Hp & Hu). destruct (holding p) eqn:Eh; [by eapply holder_progress|].
  destruct p as [|req compiler choice| | | | | |resp]; try done; [| |by destruct (Hu resp)].
  - eexists. by eapply sv_receive.
  - destruct (Z.lt_ge_cases (sv_acquired st) maxConcurrent) as [Hlt|Hge]; [eexists; by eapply sv_acquire|].
    destruct (exhausted_held st I Hn Hge) as (g' & body' & p' & Hp' & Hh). by eapply holder_progress.
Qed.
End Work.
