(* ===== verification/ServiceSeq.v ===== *)
(** * The handler by itself

    The phases of [Service] are a cut of the sequential handler
    ([Transport.handleExecute]): put together again they are it, and running
    one request after the other is one of the schedules of the concurrent
    service. *)

From S2P Require Import Prelude Text GoText Model Sandbox Execution Language Checker CheckerCache Judge Transport Server Service.

(** ** The cases one after the other *)

Section Cases.
Context `{UnicodeTables} {S : Type} `{Executor S} (r : caseRunner).
Abbreviation cases_state := (@cases_state S).

Lemma case_alone (cases : list caseData) tc (i : nat) (s s' : S) threads results res :
  cases !! i = Some tc -> threads !! i = Some Pending -> runCase r tc s = (res, s') ->
  rtc (case_step r cases) (MkCases s threads results)
      (MkCases s' (<[i := Judge.Finished]> threads) (<[i := res]> results)).
Proof.
  intros Hc Ht. unfold runCase. destruct (program_Run _ _ _ _ s) as [out s1] eqn:E1.
  pose proof (case_run_step r cases i tc out s1 (MkCases s threads results) Ht Hc E1) as H1.
  cbn [cs_exec cs_threads cs_results] in H1.
  destruct (after_run out) as [x|rr]; [intros [= <- <-]; by apply rtc_once|].
  destruct (Check _ _ _ _ s1) as [out' s2] eqn:E2. intros [= <- <-].
  eapply rtc_l; [exact H1|]. apply rtc_once.
  pose proof (case_check_step r cases i tc rr out' s2 (MkCases s1 (<[i := Unchecked rr]> threads) results)) as H2.
  cbn [cs_exec cs_threads cs_results] in H2. rewrite list_insert_insert_eq in H2. apply H2; [|done..].
  apply list_lookup_insert_eq. by apply lookup_lt_Some in Ht.
Qed.

Lemma cases_chain (more pre : list caseData) (s s' : S) done results : length done = length pre ->
  runAllCases r more s = (results, s') ->
  rtc (case_step r (pre ++ more))
      (MkCases s (replicate (length pre) Judge.Finished ++ replicate (length more) Pending)
                 (done ++ replicate (length more) zeroResult))
      (MkCases s' (replicate (length pre) Judge.Finished ++ replicate (length more) Judge.Finished)
                  (done ++ results)).
Proof.
  revert pre s s' done results. induction more as [|tc more IH]; intros pre s s' done results Hl; simpl.
  - intros [= <- <-]. apply rtc_refl.
  - destruct (runCase r tc s) as [res s1] eqn:E1. destruct (runAllCases r more s1) as [rs s2] eqn:E2.
    intros [= <- <-]. etransitivity.
    + apply (case_alone _ tc (length pre)); [| |exact E1].
      * by rewrite lookup_app_r, Nat.sub_diag by lia.
      * by rewrite lookup_app_r, length_replicate, Nat.sub_diag by (rewrite length_replicate; lia).
    + rewrite !insert_app_r_alt by (rewrite ?length_replicate; lia).
      rewrite length_replicate, Hl, Nat.sub_diag. simpl.
      specialize (IH (pre ++ [tc]) s1 s2 (done ++ [res]) rs). rewrite !length_app in IH. simpl in IH.
      rewrite !replicate_add in IH. simpl in IH. rewrite <- !app_assoc in IH. simpl in IH. by apply IH; [lia|].
Qed.

Lemma cases_alone (cases : list caseData) (s s' : S) results : runAllCases r cases s = (results, s') ->
  exists threads, rtc (case_step r cases) (initial_cases cases s) (MkCases s' threads results)
    /\ all_finished (MkCases s' threads results).
Proof.
  intros E. exists (replicate (length cases) Judge.Finished). split.
  - exact (cases_chain cases [] s s' [] results eq_refl E).
  - apply Forall_replicate. reflexivity.
Qed.
End Cases.

Section Sequential.
Context `{UnicodeTables} {S : Type} `{Executor S} `{JSONDecoder}.
Context (Sum256 : bytes -> bytes).
Context {C : Type} {L : LRU bytes CompileOutput C}.
Context (testlibHeader : bytes) (bundledFS : FS) (externalFS : option FS).
Context (maxBodyBytes maxConcurrent : Z).

Abbreviation service := (@service S C).
Abbreviation step := (service_step Sum256 testlibHeader bundledFS externalFS maxBodyBytes maxConcurrent).
Abbreviation handle := (handleExecute Sum256 testlibHeader bundledFS externalFS maxBodyBytes).
Abbreviation work := (rtc (step Work)).

(** ** The phases put together *)

Lemma executeJudgePlan_phases plan (c : C) (s : S) :
  executeJudgePlan Sum256 testlibHeader plan c s
  = let '(compiled, s) := language_Compile (p_compiler plan) (p_sourceCode plan) s in
    match after_compile compiled with
    | inl jr => (jr, c, s)
    | inr (program, compileResult) =>
        let '(out, c, s) := compile Sum256 testlibHeader (p_checker plan) c s in
        match after_prepare plan program compileResult out with
        | inl jr => (jr, c, s)
        | inr (runner, checkerCompile) =>
            let '(results, s) := runAllCases runner (p_cases plan) s in
            (after_cases compileResult checkerCompile results, c, s)
        end
    end.
Proof.
  unfold executeJudgePlan, prepare. destruct (language_Compile _ _ s) as [[err|[[program|] cr]] s1]; try done.
  simpl. destruct (compile _ _ _ c s1) as [[[err|out] c1] s2]; [done|].
  unfold after_prepare. by destruct (CArtifact out).
Qed.

Lemma handleExecute_phases body (c : C) (s : S) :
  handle body c s
  = match receive maxBodyBytes body with
    | inl resp => (resp, c, s)
    | inr (req, compiler, choice) =>
        match materialize bundledFS externalFS req compiler choice with
        | inl err => (writeInvalidRequest (error_text err), c, s)
        | inr plan =>
            let '(jr, c, s) := executeJudgePlan Sum256 testlibHeader plan c s in
            (writeJSON StatusOK (ResultData jr), c, s)
        end
    end.
Proof.
  unfold handleExecute, receive, Judge. destruct (decode_request _) as [err|[req rest]]; [done|].
  destruct (negb (decode_end rest)); [done|]. destruct (validateJudgeRequest req); [done|].
  destruct (language_Resolve _); [done|]. destruct (resolveChecker _ _); [done|].
  destruct (materialize _ _ _ _ _); [done|]. by destruct (executeJudgePlan _ _ _ c s) as [[jr c1] s1].
Qed.

(** ** One request alone *)

(** Nobody holds the semaphore, and no compilation is under way. *)
Definition idle (st : service) : Prop := sv_acquired st = 0 /\ flights (sv_group st) = ∅.

Section Alone.
Context (g : nat) (body : bytes) (handlers : gmap nat handler) (g_free : handlers !! g = None).

(** The handler of [body] at [p], the others at rest. *)
Definition alone (e : S) (a : Z) (grp : group_state) (p : phase) : service :=
  MkService e a grp (<[g := MkHandler body p]> handlers).

Lemma alone_phase e a grp p : at_phase (alone e a grp p) g body p.
Proof. unfold at_phase. simpl. apply lookup_insert_eq. Qed.

Lemma go_alone e a grp p p' : go g body p' (alone e a grp p) = alone e a grp p'.
Proof. unfold go, alone. simpl. by rewrite insert_insert_eq. Qed.

Lemma finish_alone e a grp p resp : finish g body resp (alone e a grp p) = alone e (a - 1) grp (Answered resp).
Proof. unfold finish, go, alone. simpl. by rewrite insert_insert_eq. Qed.

Lemma cache_alone e a grp grp' p : cache_step Sum256 grp grp' -> compiled grp' = compiled grp ->
  dom (callers grp') = dom (callers grp) -> step Work (alone e a grp p) (alone e a grp' p).
Proof. exact (sv_cache Sum256 testlibHeader bundledFS externalFS maxBodyBytes maxConcurrent grp' (alone e a grp p)). Qed.

(** The call of [g] has returned [out], with the cache [c]. *)
Definition returned (source : bytes) (out : GoError + CompileOutput) (c : C) (grp : group_state) : Prop :=
  callers grp !! g = Some (Returned source out) /\ cache grp = c /\ flights grp = ∅.

Lemma land_alone e a grp p source res : callers grp !! g = Some (CheckerCache.Waiting source) ->
  flights grp = {[Sum256 source := Landed source res]} ->
  exists grp', step Work (alone e a grp p) (alone e a grp' p) /\ returned source res (cache grp) grp'.
Proof.
  intros Hc Hf. eexists. split.
  - apply cache_alone; [apply step_land; by rewrite Hf, lookup_singleton_eq|done|simpl; apply dom_fmap_L].
  - unfold returned. simpl. rewrite lookup_fmap, Hc, Hf, delete_singleton_eq. simpl. by rewrite decide_True.
Qed.

(** The call of the flight's function, and its delivery. *)
Lemma flight_alone e a grp p source out c s : callers grp !! g = Some (CheckerCache.Waiting source) ->
  flights grp = {[Sum256 source := Started source]} ->
  do_compile Sum256 testlibHeader source (cache grp) e = (out, c, s) ->
  exists grp', work (alone e a grp p) (alone s a grp' p) /\ returned source out c grp'.
Proof.
  intros Hc Hf. assert (Hk : flights grp !! Sum256 source = Some (Started source)) by (by rewrite Hf, lookup_singleton_eq).
  unfold do_compile. destruct (lru_get (Sum256 source) (cache grp)) as [[found|] c1] eqn:El.
  - intros [= <- <- <-]. pose proof (step_late_hit Sum256 source found c1 grp Hk El) as K1.
    set (grp1 := MkGroup _ _ _ _) in K1.
    destruct (land_alone e a grp1 p source (inr found)) as (grp' & K2 & Hr); [done|simpl; by rewrite Hf, insert_singleton_eq|].
    exists grp'. split; [|exact Hr]. eapply rtc_l; [by apply (cache_alone e a _ _ p K1)|by apply rtc_once].
  - pose proof (step_compile Sum256 source c1 grp Hk El) as K1.
    destruct (compileUncached testlibHeader source e) as [res s1] eqn:Eu. intros E.
    assert (Er : (out, c, s) = (res, store (Sum256 source) res c1, s1)) by (rewrite <- E; by destruct res).
    injection Er as -> -> ->. clear E.
    set (grp1 := MkGroup c1 (callers grp) (<[Sum256 source := CheckerCache.Compiling source]> (flights grp)) (compiled grp)) in *.
    pose proof (step_compiled Sum256 source res grp1 ltac:(apply lookup_insert_eq)) as K2.
    set (grp2 := MkGroup _ _ _ _) in K2.
    destruct (land_alone s1 a grp2 p source res) as (grp' & K3 & Hr); [done|simpl; by rewrite Hf, !insert_singleton_eq|].
    exists grp'. split; [|exact Hr].
    eapply rtc_l; [by apply (cache_alone e a _ _ p K1)|]. eapply rtc_l; [|by apply rtc_once].
    exact (sv_compiled Sum256 testlibHeader bundledFS externalFS maxBodyBytes maxConcurrent source res s1 _
             (alone e a grp1 p) K2 eq_refl Eu).
Qed.

Lemma compile_alone e a grp p source out c s : callers grp !! g = Some (Called source) -> flights grp = ∅ ->
  compile Sum256 testlibHeader source (cache grp) e = (out, c, s) ->
  exists grp', work (alone e a grp p) (alone s a grp' p) /\ returned source out c grp'.
Proof.
  intros Hc Hf. assert (Hsame : forall (m : gmap nat caller) x, is_Some (m !! g) -> dom (<[g := x]> m) = dom m)
    by (intros m x [y Hy]; by eapply dom_insert_lookup_L).
  unfold compile. destruct (lru_get (Sum256 source) (cache grp)) as [[found|] c1] eqn:El.
  - intros [= <- <- <-]. eexists. split.
    + apply rtc_once, cache_alone; [by eapply step_hit|done|simpl; apply Hsame; by rewrite Hc].
    + unfold returned. simpl. by rewrite lookup_insert_eq.
  - intros Ed. pose proof (step_miss Sum256 g source c1 grp Hc El) as K1.
    set (grp1 := MkGroup c1 _ _ _) in K1.
    pose proof (step_lead Sum256 g source grp1 ltac:(apply lookup_insert_eq) ltac:(simpl; by rewrite Hf)) as K2.
    set (grp2 := MkGroup _ _ _ _) in K2.
    destruct (flight_alone e a grp2 p source out c s) as (grp' & K3 & Hr); [by apply lookup_insert_eq| |exact Ed|].
    { simpl. by rewrite Hf. }
    exists grp'. split; [|exact Hr].
    eapply rtc_l; [apply (cache_alone e a _ _ p K1); [done|simpl; apply Hsame; by rewrite Hc]|].
    eapply rtc_l; [apply (cache_alone e a _ _ p K2); [done|simpl; apply Hsame; by rewrite lookup_insert_eq]|exact K3].
Qed.

(** The cases, one after the other. *)
Lemma judging_alone a grp plan runner cr cc cs cs' :
  rtc (case_step runner (p_cases plan)) cs cs' ->
  work (alone (cs_exec cs) a grp (Judging plan runner cr cc (cs_threads cs) (cs_results cs)))
       (alone (cs_exec cs') a grp (Judging plan runner cr cc (cs_threads cs') (cs_results cs'))).
Proof.
  induction 1 as [cs|cs cs1 cs2 Hs _ IH]; [apply rtc_refl|]. eapply rtc_l; [|exact IH].
  pose proof (sv_case Sum256 testlibHeader bundledFS externalFS maxBodyBytes maxConcurrent g body plan runner cr cc
    (cs_threads cs) (cs_results cs) cs1 _ (alone_phase (cs_exec cs) a grp _)) as K.
  change (with_exec (cs_exec cs1) (alone ?e a grp ?p)) with (alone (cs_exec cs1) a grp p) in K.
  rewrite go_alone in K. apply K. by destruct cs.
Qed.

(** From the semaphore to the answer. *)
Lemma plan_alone e a grp plan jr c s : callers grp !! g = None -> flights grp = ∅ ->
  executeJudgePlan Sum256 testlibHeader plan (cache grp) e = (jr, c, s) ->
  exists grp', work (alone e a grp (Planned plan)) (alone s (a - 1) grp' (Answered (writeJSON StatusOK (ResultData jr))))
    /\ cache grp' = c /\ flights grp' = ∅.
Proof.
  intros Hn Hf. rewrite executeJudgePlan_phases.
  destruct (language_Compile (p_compiler plan) (p_sourceCode plan) e) as [compiled s1] eqn:Ec.
  pose proof (sv_compile Sum256 testlibHeader bundledFS externalFS maxBodyBytes maxConcurrent g body plan compiled s1
    _ (alone_phase e a grp (Planned plan)) Ec) as K1.
  change (with_exec s1 (alone e a grp (Planned plan))) with (alone s1 a grp (Planned plan)) in K1.
  destruct (after_compile compiled) as [r|[program cr]].
  { unfold finish_result in K1. rewrite finish_alone in K1. intros [= <- <- <-]. exists grp. split; [by apply rtc_once|done]. }
  rewrite go_alone in K1.
  pose proof (sv_prepare Sum256 testlibHeader bundledFS externalFS maxBodyBytes maxConcurrent g body plan program cr
    _ (alone_phase s1 a grp (Built plan program cr)) Hn) as K2. cbv zeta in K2.
  set (grp1 := MkGroup _ _ _ _) in K2.
  change (with_group grp1 _) with (alone s1 a grp1 (Built plan program cr)) in K2. rewrite go_alone in K2.
  destruct (compile Sum256 testlibHeader (p_checker plan) (cache grp) s1) as [[out c1] s2] eqn:Ep.
  destruct (compile_alone s1 a grp1 (Preparing plan program cr) (p_checker plan) out c1 s2)
    as (grp2 & K3 & Hr & Hc & Hf2); [by apply lookup_insert_eq|done|exact Ep|].
  pose proof (sv_prepared Sum256 testlibHeader bundledFS externalFS maxBodyBytes maxConcurrent g body plan program cr
    (p_checker plan) out _ (alone_phase s2 a grp2 (Preparing plan program cr)) Hr) as K4.
  assert (K : work (alone e a grp (Planned plan)) (alone s2 a grp2 (Preparing plan program cr)))
    by (eapply rtc_l; [exact K1|]; eapply rtc_l; [exact K2|exact K3]).
  destruct (after_prepare plan program cr out) as [r|[runner cc]].
  { unfold finish_result in K4. rewrite finish_alone in K4. intros [= <- <- <-]. exists grp2.
    split; [by eapply rtc_r|done]. }
  cbv zeta in K4. rewrite go_alone in K4.
  destruct (runAllCases runner (p_cases plan) s2) as [results s3] eqn:Er. intros [= <- <- <-]. exists grp2.
  split; [|done]. destruct (cases_alone runner _ _ _ _ Er) as (threads & Hs & Hall).
  etransitivity; [exact K|]. eapply rtc_l; [exact K4|].
  eapply rtc_r; [exact (judging_alone a grp2 plan runner cr cc _ _ Hs)|].
  pose proof (sv_judged Sum256 testlibHeader bundledFS externalFS maxBodyBytes maxConcurrent g body plan runner cr cc
    threads results _ (alone_phase s3 a grp2 _) Hall) as K5.
  unfold finish_result in K5. by rewrite finish_alone in K5.
Qed.

Lemma handle_alone e grp resp c s : 0 < maxConcurrent -> callers grp !! g = None -> flights grp = ∅ ->
  handle body (cache grp) e = (resp, c, s) ->
  exists grp', work (alone e 0 grp Received) (alone s 0 grp' (Answered resp)) /\ cache grp' = c /\ flights grp' = ∅.
Proof.
  intros Hm Hn Hf. rewrite handleExecute_phases.
  pose proof (sv_receive Sum256 testlibHeader bundledFS externalFS maxBodyBytes maxConcurrent g body
    _ (alone_phase e 0 grp Received)) as K1. rewrite go_alone in K1.
  destruct (receive maxBodyBytes body) as [r|[[req compiler] choice]].
  { intros [= <- <- <-]. exists grp. split; [by apply rtc_once|done]. }
  pose proof (sv_acquire Sum256 testlibHeader bundledFS externalFS maxBodyBytes maxConcurrent g body req compiler choice
    _ (alone_phase e 0 grp (Queued req compiler choice)) Hm) as K2.
  change (acquire _) with (alone e 1 grp (Queued req compiler choice)) in K2. rewrite go_alone in K2.
  pose proof (sv_materialize Sum256 testlibHeader bundledFS externalFS maxBodyBytes maxConcurrent g body req compiler choice
    _ (alone_phase e 1 grp (Acquired req compiler choice))) as K3.
  destruct (materialize _ _ _ _ _) as [err|plan].
  - rewrite finish_alone in K3. intros [= <- <- <-]. exists grp. split; [|done].
    eapply rtc_l; [exact K1|]. eapply rtc_l; [exact K2|]. by apply rtc_once.
  - rewrite go_alone in K3. destruct (executeJudgePlan _ _ plan _ e) as [[jr c1] s1] eqn:E. intros [= <- <- <-].
    destruct (plan_alone e 1 grp plan jr c1 s1 Hn Hf E) as (grp' & K4 & Hr). exists grp'. split; [|exact Hr].
    eapply rtc_l; [exact K1|]. eapply rtc_l; [exact K2|]. eapply rtc_l; [exact K3|]. exact K4.
Qed.
End Alone.
End Sequential.
