(* ===== verification/EndToEnd.v ===== *)
(** * From an output to a verdict

    The Go judge and the C++ checkers together: when the executor runs the
    process of a bundled checker, the exit code that testlib computes from the
    three files becomes the verdict of the test case.  For the default checker
    the verdict is the comparison of the normalized lines. *)

From S2P Require Import Prelude Text GoText Model World Register Checkers StreamSpec ProcessSpec RegisterSpec TokenSpec CheckersSpec LinesSpec.
From S2P Require Import Sandbox Execution Language Checker Judge.

(** What the checker's process finds: the files of its workspace, which is
    mounted read-only, an empty standard input and no terminal. *)
Definition checker_env (req : RunRequest) : Env :=
  MkEnv (list_to_map (map (fun f => (FileName f, Content f)) (RFiles req)))
        (fun _ => false) (fun _ => true) (RStdin req) false.

(** The process of a checker with this [main] on the three files. *)
Definition checker_process (main : option bytes -> list bytes -> M unit) (artifact : Artifact)
    (input output answer : bytes) : halted :=
  let req := checker_request artifact input output answer in
  run_program (main (head (RCommand req)) (tail (RCommand req))) (checker_env req).

(** A result that a sandbox may give for this process, when no limit is hit:
    its exit code, and the verdict the code calls for. *)
Definition ran_as (h : halted) (r : RunResult) : Prop :=
  match h with
  | HExit code w =>
      RExitCode r = code /\ RStderr r = w_stderr w /\ RStdout r = w_stdout w
      /\ RVerdict r = (if code =? 0 then Model.VerdictOK else Model.VerdictRE)
  | HStuck => RVerdict r = Model.VerdictRE /\ RExitCode r <> 0 /\ RExitCode r <> 1 /\ RExitCode r <> 2
  end.

(** The verdict of a case whose checker ended with this exit code. *)
Definition verdict_of_exit (userChecker : bool) (code : option Z) : Model.Verdict :=
  match code with
  | Some 0 => Model.VerdictOK
  | Some 1 | Some 2 => VerdictWA
  | _ => if userChecker then VerdictCheckerExecutionError else Model.VerdictUKE
  end.

Section EndToEnd.
Context `{UnicodeTables}.
Context {S : Type} `{Executor S}.
Context (main : option bytes -> list bytes -> M unit) (artifact : Artifact).

(** The executor runs this artifact as the process of [main]. *)
Definition runs_checker : Prop := forall input output answer s, exists r s',
  Execution.Run (checker_request artifact input output answer) s = (inr r, s')
  /\ ran_as (checker_process main artifact input output answer) r.

Lemma checker_outcome_verdict user h r : ran_as h r ->
  checker_verdict user (Outcome (checker_result r)) = verdict_of_exit user (exit_code h).
Proof.
  unfold ran_as, checker_result. destruct h as [code w|]; simpl.
  - intros (-> & _ & _ & ->). destruct (Z.eqb_spec code 0) as [->|N0]; [done|].
    rewrite bool_decide_false, bool_decide_true by done. simpl.
    destruct (Z.eqb_spec code 1) as [->|N1]; [done|].
    destruct (Z.eqb_spec code 2) as [->|N2]; [done|]. simpl.
    destruct code as [|[[]|[]|]|]; done.
  - intros (-> & N0 & N1 & N2). rewrite bool_decide_false, bool_decide_true by done. simpl.
    by rewrite (proj2 (Z.eqb_neq _ 1)), (proj2 (Z.eqb_neq _ 2)).
Qed.

Lemma runCase_verdict r tc s rr s1 : runs_checker -> r_checker r = artifact ->
  program_Run (r_program r) (c_input tc) (r_timeLimit r) (r_memLimit r) s = (inr rr, s1) ->
  RVerdict rr = Model.VerdictOK ->
  CaseVerdict (runCase r tc s).1
  = verdict_of_exit (r_userChecker r)
      (exit_code (checker_process main artifact (c_input tc) (RStdout rr) (c_expectedOutput tc)))
  /\ CaseStdout (runCase r tc s).1 = RStdout rr.
Proof.
  intros Hc Ha Hr Hv. unfold runCase. rewrite Hr. unfold after_run. rewrite Hv, bool_decide_true by done.
  simpl. unfold Check. rewrite Ha.
  destruct (Hc (c_input tc) (RStdout rr) (c_expectedOutput tc) s1) as (cr & s2 & E & R).
  rewrite E. simpl. split; [by apply checker_outcome_verdict | done].
Qed.

(** C18: for any checker program the executor runs faithfully, the verdict of a
    case whose program ended normally is determined by the exit code of
    testlib: 0 accepts, 1 and 2 (wrong answer and presentation error) are a
    wrong answer, and any other code, a crash included, is the failure of the
    system's or of the request's checker; the program's output is reported
    unchanged. *)
Theorem exit_code_verdict (r : caseRunner) (tc : caseData) (s : S) (rr : RunResult) (s1 : S) :
  runs_checker -> r_checker r = artifact ->
  program_Run (r_program r) (c_input tc) (r_timeLimit r) (r_memLimit r) s = (inr rr, s1) ->
  RVerdict rr = Model.VerdictOK ->
  CaseVerdict (runCase r tc s).1
  = verdict_of_exit (r_userChecker r)
      (exit_code (checker_process main artifact (c_input tc) (RStdout rr) (c_expectedOutput tc)))
  /\ CaseStdout (runCase r tc s).1 = RStdout rr.
Proof. apply runCase_verdict. Qed.

(** The three files of a case are what [registerTestlibCmd] opens. *)
Lemma checker_env_run input output answer :
  zlen input <= FILE_LIMIT -> zlen output <= TOKEN_LIMIT -> zlen answer <= TOKEN_LIMIT ->
  checker_run (checker_env (checker_request artifact input output answer))
    checkerInputFileName checkerOutputFileName checkerAnswerFileName output answer.
Proof.
  intros Hi Ho Ha. constructor; try done.
  - repeat constructor; by vm_compute.
  - intros t [= <-]. done.
Qed.
End EndToEnd.

(** A case judged by the bundled default checker is accepted exactly when
    the normalized lines of the program's output are those of the expected
    output, and is a wrong answer otherwise; for a program output within the
    sandbox's output limit and files within testlib's limits. *)
Theorem default_verdict `{UnicodeTables} {S : Type} `{Executor S} (artifact : Artifact)
    (r : caseRunner) (tc : caseData) (s : S) (rr : RunResult) (s1 : S) :
  runs_checker Default.main artifact -> r_checker r = artifact ->
  program_Run (r_program r) (c_input tc) (r_timeLimit r) (r_memLimit r) s = (inr rr, s1) ->
  RVerdict rr = Model.VerdictOK ->
  zlen (c_input tc) <= FILE_LIMIT -> zlen (RStdout rr) <= DefaultRunOutputLimitBytes ->
  zlen (c_expectedOutput tc) <= TOKEN_LIMIT ->
  CaseVerdict (runCase r tc s).1
  = if bool_decide (norm_lines (c_expectedOutput tc) = norm_lines (strip_bom (RStdout rr)))
    then Model.VerdictOK else VerdictWA.
Proof.
  intros Hc Ha Hr Hv Hi Ho He.
  destruct (runCase_verdict Default.main artifact r tc s rr s1 Hc Ha Hr Hv) as [Hverdict _].
  rewrite Hverdict. clear Hverdict.
  assert (DefaultRunOutputLimitBytes <= TOKEN_LIMIT) by (vm_compute; discriminate).
  pose proof (checker_env_run artifact (c_input tc) (RStdout rr) (c_expectedOutput tc) Hi
                ltac:(lia) He) as Hrun.
  apply (default_main_code _ ($"./" ++ ArtName artifact)) in Hrun.
  unfold checker_process. cbn [RCommand checker_request head tail]. rewrite Hrun. by destruct (bool_decide _).
Qed.

(** ** A concrete system *)

(** An executor whose programs answer with their input, and whose checker is
    the default checker. *)
Definition echo_run (req : RunRequest) : RunResult :=
  if bool_decide (RFiles req = [])
  then MkRunResult Model.VerdictOK 0 (RStdin req) [] 7 3 []
  else match run_program (Default.main (head (RCommand req)) (tail (RCommand req)))
                         (checker_env req) with
       | HExit code w => MkRunResult (if code =? 0 then Model.VerdictOK else Model.VerdictRE) code
                           (w_stdout w) (w_stderr w) 7 3 []
       | HStuck => MkRunResult Model.VerdictRE 134 [] [] 7 3 []
       end.

#[export] Instance echo_Executor : Executor unit := {|
  Execution.Compile req s :=
    (inr (MkCompileOutput [] (Some (MkArtifact (ArtifactName req) ($"ELF") 493))), s);
  Execution.Run req s := (inr (echo_run req), s) |}.

Definition echo_program : compiledProgram :=
  MkProgram LanguageC (prof_Run cProfile) (MkArtifact ($"program") ($"ELF") 493).

Definition echo_runner : caseRunner :=
  MkRunner echo_program (MkArtifact checkerArtifactName ($"ELF") 493) false 1000 64.

Lemma echo_runs : runs_checker Default.main (MkArtifact checkerArtifactName ($"ELF") 493).
Proof.
  intros input output answer s. eexists _, s. split; [reflexivity|].
  unfold echo_run, checker_process. rewrite bool_decide_false by done.
  by destruct (run_program _ _).
Qed.

Lemma default_verdict_witness :
  CaseVerdict (@runCase ascii_tables unit echo_Executor echo_runner
                 (MkCase ($"1 2 ") ($"1 2")) tt).1 = Model.VerdictOK
  /\ CaseVerdict (@runCase ascii_tables unit echo_Executor echo_runner
                 (MkCase ($"1  2") ($"1 2")) tt).1 = VerdictWA.
Proof.
  split; (etransitivity; [eapply (@default_verdict ascii_tables unit echo_Executor
    (MkArtifact checkerArtifactName ($"ELF") 493) echo_runner);
    [exact echo_runs | reflexivity | reflexivity | reflexivity | discriminate..] | reflexivity]).
Defined.

Lemma exit_code_verdict_witness :
  CaseVerdict (@runCase ascii_tables unit echo_Executor echo_runner
                 (MkCase ($"1 2 ") ($"1 2")) tt).1 = Model.VerdictOK.
Proof.
  etransitivity; [eapply (proj1 (@exit_code_verdict ascii_tables unit echo_Executor Default.main
    (MkArtifact checkerArtifactName ($"ELF") 493) echo_runner (MkCase ($"1 2 ") ($"1 2")) tt
    _ tt echo_runs eq_refl eq_refl eq_refl)) | vm_compute; reflexivity].
Defined.
