(* ===== verification/ServiceSpec.v ===== *)
(** * The service as a whole

    A sequence of HTTP requests to a service that started, from the empty
    checker cache: what a client is answered for a program judged by the
    bundled default checker.  The theorem joins the start of the server, its
    resources, the handler, the judge, the checker cache, the compilation of
    the checker, the C++ process it runs and testlib. *)

From S2P Require Import Prelude Text GoText Model World Register Checkers StreamSpec ProcessSpec RegisterSpec TokenSpec CheckersSpec LinesSpec.
From S2P Require Import Sandbox Execution Language Checker CheckerCache CacheSpec Judge JudgeSpec Container Resource ResourceSpec Settings Startup StartupSpec Transport TransportSpec EndToEnd.

(** ** The bundled checker *)

(** What the service relies on for the source of a bundled checker: an
    artifact that the compiler makes of it runs as [main], and no program's
    output is longer than the limit it was run with. *)
Record faithful `{UnicodeTables} {S : Type} `{Executor S} (testlibHeader : bytes)
    (source : bytes) (main : option bytes -> list bytes -> M unit) : Prop := {
  bundled_builds s out s' artifact :
    Execution.Compile (checker_compile_request testlibHeader source) s = (inr out, s') ->
    CArtifact out = Some artifact -> runs_checker main artifact;
  bundled_output req s r s' : RFiles req = [] -> 0 <= OutputBytes (RLimits req) -> Execution.Run req s = (inr r, s') ->
    zlen (RStdout r) <= OutputBytes (RLimits req) }.

Section Service.
Context `{UnicodeTables} {S : Type} `{Executor S} `{JSONDecoder}.
Context (Sum256 : bytes -> bytes).
Context {C : Type} {L : LRU bytes CompileOutput C} `{!LRULaws bytes CompileOutput C}.
Context (testlibHeader : bytes) (bundledFS : FS) (externalFS : option FS).
Context (name source : bytes) (main : option bytes -> list bytes -> M unit).
Context (Hsrc : bundledFS (builtinCheckerPath name) = inr source).
Context (Hb : faithful testlibHeader source main).
(** The hash tells its source from others. *)
Context (Hhash : forall x, Sum256 x = Sum256 source -> x = source).

Abbreviation cached k c := (fst (@lru_get bytes CompileOutput C L k c)).
Abbreviation prepare_checker := (prepare Sum256 testlibHeader).

(** ** The cache between requests *)

(** What the cache holds for the checker runs as [main]. *)
Definition sound (c : C) : Prop := forall out artifact,
  cached (Sum256 source) c = Some out -> CArtifact out = Some artifact -> runs_checker main artifact.

Lemma sound_new : sound (lru_new checkerCacheEntries).
Proof. intros out a. by rewrite get_new. Qed.

Lemma sound_refresh k c r c' : lru_get k c = (r, c') -> sound c -> sound c'.
Proof.
  intros E Hs out a Ho. apply Hs. rewrite <- (get_refresh (Sum256 source) k c). by rewrite E.
Qed.

(** An entry is added for what was compiled from its source. *)
Lemma sound_add x s out s' c : Execution.Compile (checker_compile_request testlibHeader x) s = (inr out, s') ->
  sound c -> sound (lru_add (Sum256 x) out c).
Proof.
  intros E Hs o a Ho Ha. destruct (decide (Sum256 x = Sum256 source)) as [Ex|Hne].
  - pose proof (Hhash x Ex) as ->. rewrite get_added in Ho. injection Ho as <-.
    by eapply (bundled_builds _ _ _ Hb).
  - apply get_kept in Ho; [|done]. by eapply Hs.
Qed.

Lemma do_compile_sound x c s res c' s' : sound c -> do_compile Sum256 testlibHeader x c s = (res, c', s') ->
  sound c' /\ forall out artifact, res = inr out -> CArtifact out = Some artifact -> x = source ->
    runs_checker main artifact.
Proof.
  intros Hs. unfold do_compile. destruct (lru_get (Sum256 x) c) as [[found|] c1] eqn:E.
  - intros [= <- <- <-]. split; [by eapply sound_refresh|]. intros out a [= <-] Ha ->. eapply Hs; [|done]. by rewrite E.
  - apply (sound_refresh _ _ _ _ E) in Hs. unfold compileUncached.
    destruct (Execution.Compile _ s) as [[err|out] s1] eqn:Ec; [by intros [= <- <- <-]|].
    intros [= <- <- <-]. split.
    + destruct (CArtifact out); [by eapply sound_add|done].
    + intros o a [= <-] Ha ->. by eapply (bundled_builds _ _ _ Hb).
Qed.

Lemma prepare_sound x c s res c' s' : sound c -> prepare_checker x c s = (res, c', s') ->
  sound c' /\ forall artifact compiled, res = inr (Some artifact, compiled) -> x = source ->
    runs_checker main artifact.
Proof.
  intros Hs. unfold prepare, compile. destruct (lru_get (Sum256 x) c) as [[found|] c1] eqn:E.
  - intros [= <- <- <-]. split; [by eapply sound_refresh|]. intros a r [= Ha _] ->. eapply Hs; [|exact Ha]. by rewrite E.
  - apply (sound_refresh _ _ _ _ E) in Hs. destruct (do_compile _ _ x c1 s) as [[[err|out] c2] s2] eqn:Ed;
      apply do_compile_sound in Ed as [Hs2 Hr]; try done; intros [= <- <- <-]; (split; [done|]); [done|].
    intros a r [= Ha _] ->. by eapply Hr.
Qed.

(** ** One request *)

(** The verdict of a case whose program ran with [out]: the program's own
    failure, or the checker's exit code on what it printed. *)
Definition case_verdict (artifact : Artifact) (tc : caseData) (out : GoError + RunResult) : Model.Verdict :=
  match out with
  | inl _ => Model.VerdictUKE
  | inr rr =>
      if bool_decide (RVerdict rr = Model.VerdictOK)
      then verdict_of_exit false
             (exit_code (checker_process main artifact (c_input tc) (RStdout rr) (c_expectedOutput tc)))
      else RVerdict rr
  end.

Definition printed (out : GoError + RunResult) : bytes := match out with inr rr => RStdout rr | inl _ => [] end.

(** The result of a case is that of a run of the program on its input. *)
Definition case_judged (program : compiledProgram) (req : JudgeRequest) (artifact : Artifact)
    (tc : caseData) (res : JudgeCaseResult) : Prop :=
  exists s out s', program_Run program (c_input tc) (TimeLimit req) (MemoryLimit req) s = (out, s')
    /\ CaseVerdict res = case_verdict artifact tc out /\ CaseStdout res = printed out
    /\ zlen (printed out) <= DefaultRunOutputLimitBytes.

Lemma printed_bounded p input t m s out s' : program_Run p input t m s = (out, s') ->
  zlen (printed out) <= DefaultRunOutputLimitBytes.
Proof.
  unfold program_Run. destruct (Execution.Run _ s) as [[err|o] s1] eqn:E; intros [= <- <-]; [vm_compute; discriminate|].
  apply (bundled_output _ _ _ Hb) in E; [|done|vm_compute; discriminate]. simpl. unfold normalizeLanguageRunResult.
  by destruct (_ && _).
Qed.

Lemma outcome_judged program req artifact tc res :
  runs_checker main artifact ->
  case_outcome (MkRunner program artifact false (TimeLimit req) (MemoryLimit req)) tc res ->
  case_judged program req artifact tc res.
Proof.
  intros Hc (s1 & out & s2 & Hrun & Hout). exists s1, out, s2. split; [done|].
  pose proof (printed_bounded _ _ _ _ _ _ _ Hrun) as Hp. unfold case_verdict, after_run in *.
  destruct out as [err|rr]; [by subst res|].
  destruct (bool_decide (RVerdict rr = Model.VerdictOK)); simpl negb in Hout; cbv iota in Hout; [|by subst res].
  destruct Hout as (s3 & o & s4 & Hcheck & ->). unfold Check in Hcheck. simpl r_checker in Hcheck.
  destruct (Hc (c_input tc) (RStdout rr) (c_expectedOutput tc) s3) as (cr & s5 & E & R).
  rewrite E in Hcheck. injection Hcheck as <- <-. split_and!; [|done..].
  by apply (checker_outcome_verdict false).
Qed.

(** What an answer to a request that chose this checker says about its
    cases. *)
Definition answer_judged (req : JudgeRequest) (jr : JudgeResult) : Prop :=
  exists compiler cases, language_Resolve (ReqLanguage req) = inr compiler
    /\ materialize_cases externalFS 0 (TestCases req) = inr cases
    /\ (Cases jr = [] \/ exists program artifact s compiled s',
          language_Compile compiler (SourceCode req) s = (inr (Some program, compiled), s')
          /\ Forall2 (case_judged program req artifact) cases (Cases jr)).

(** The request names this bundled checker. *)
Definition chooses (req : JudgeRequest) : Prop :=
  resolveChecker (Model.Checker req) (CheckerSourceCode req) = inr (MkChoice checkerBuiltin name).

Lemma executeJudgePlan_sound plan c s jr c' s' : sound c ->
  executeJudgePlan Sum256 testlibHeader plan c s = (jr, c', s') ->
  sound c' /\ (p_checker plan = source -> p_checkerProvidedByRequest plan = false ->
    Cases jr = [] \/ exists program artifact s compiled s',
      language_Compile (p_compiler plan) (p_sourceCode plan) s = (inr (Some program, compiled), s')
      /\ Forall2 (case_outcome (MkRunner program artifact false (p_timeLimit plan) (p_memoryLimit plan)))
                 (p_cases plan) (Cases jr)
      /\ runs_checker main artifact).
Proof.
  intros Hs. unfold executeJudgePlan.
  destruct (language_Compile _ _ s) as [[err|[[program|] compileResult]] s1] eqn:EC.
  1, 3: intros [= <- <- <-]; by auto.
  destruct (prepare _ _ _ c s1) as [[res c1] s2] eqn:EP. apply prepare_sound in EP as [Hs1 Hr]; [|done].
  destruct res as [err|[[artifact|] checkerCompile]]; [by intros [= <- <- <-]; auto| |by intros [= <- <- <-]; auto].
  set (runner := MkRunner _ _ _ _ _). pose proof (runAllCases_outcome runner (p_cases plan) s2) as F.
  destruct (runAllCases runner (p_cases plan) s2) as [results s3]. intros [= <- <- <-]. split; [done|].
  intros Esrc Eown. right. exists program, artifact, s, compileResult, s1. split; [done|].
  unfold runner in F. rewrite Eown in F. split; [exact F|by eapply Hr].
Qed.

Lemma Judge_sound req c s jr c' s' : sound c ->
  Judge Sum256 testlibHeader bundledFS externalFS None req c s = (jr, c', s') ->
  sound c' /\ forall r, jr = inr r -> chooses req -> answer_judged req r.
Proof.
  intros Hs. unfold Judge, chooses, answer_judged.
  destruct (validateJudgeRequest req); [by intros [= <- <- <-]|].
  destruct (language_Resolve _) as [err|compiler]; [by intros [= <- <- <-]|].
  destruct (resolveChecker _ _) as [err|choice]; [by intros [= <- <- <-]|].
  destruct (materialize _ _ _ _ _) as [err|plan] eqn:M; [by intros [= <- <- <-]|].
  destruct (executeJudgePlan _ _ _ c s) as [[r c1] s1] eqn:E.
  apply executeJudgePlan_sound in E as [Hs1 Hr]; [|done]. intros [= <- <- <-]. split; [done|].
  intros r' [= <-] [= ->]. unfold materialize, readSource in M. simpl in M.
  rewrite Hsrc in M.
  destruct (materialize_cases externalFS 0 (TestCases req)) as [err|cases]; [done|]. injection M as <-.
  exists compiler, cases. split; [done|]. split; [done|]. simpl in Hr.
  destruct (Hr eq_refl eq_refl) as [?|(program & artifact & s2 & compiled & s3 & Hcomp & F & Hrun)]; [by left|].
  right. exists program, artifact, s2, compiled, s3. split; [done|].
  eapply Forall2_impl; [|exact F]. intros tc res. by apply outcome_judged.
Qed.

(** ** A sequence of requests *)

Fixpoint serve (maxBodyBytes : Z) (bodies : list bytes) (c : C) (s : S) : list response * C * S :=
  match bodies with
  | [] => ([], c, s)
  | body :: bodies =>
      let '(resp, c, s) := handleExecute Sum256 testlibHeader bundledFS externalFS maxBodyBytes body c s in
      let '(resps, c, s) := serve maxBodyBytes bodies c s in
      (resp :: resps, c, s)
  end.

Definition answered (maxBodyBytes : Z) (body : bytes) (resp : response) : Prop :=
  forall jr, Data resp = ResultData jr ->
  exists req, sole_request maxBodyBytes body = Some req /\ (chooses req -> answer_judged req jr).

Lemma handle_sound max body c s resp c' s' : sound c ->
  handleExecute Sum256 testlibHeader bundledFS externalFS max body c s = (resp, c', s') ->
  sound c' /\ answered max body resp.
Proof.
  intros Hs. unfold handleExecute, answered, sole_request.
  destruct (decode_request _) as [err|[req rest]]; [by intros [= <- <- <-]|].
  destruct (decode_end rest); [|by intros [= <- <- <-]]. cbn [negb].
  destruct (Judge _ _ _ _ _ req c s) as [[[err|jr] c1] s1] eqn:E; apply Judge_sound in E as [Hs1 Hr]; try done;
    intros [= <- <- <-]; (split; [done|]); intros r; [done|]. intros [= <-]. exists req. split; [done|]. by apply Hr.
Qed.

Lemma serve_sound max bodies c s resps c' s' : sound c ->
  serve max bodies c s = (resps, c', s') -> Forall2 (answered max) bodies resps.
Proof.
  revert c s resps. induction bodies as [|body bodies IH]; intros c s resps Hs; simpl; [by intros [= <- <- <-]|].
  destruct (handleExecute _ _ _ _ _ body c s) as [[resp c1] s1] eqn:E. apply handle_sound in E as [Hs1 Ha]; [|done].
  destruct (serve max bodies c1 s1) as [[rs c2] s2] eqn:E2. intros [= <- <- <-]. constructor; [done|]. by eapply IH.
Qed.
End Service.

(** ** The default checker *)

(** The verdict of a case under the default checker: that of its program, or
    whether the program printed the expected lines. *)
Definition lines_verdict (expected : bytes) (out : GoError + RunResult) : Model.Verdict :=
  match out with
  | inl _ => Model.VerdictUKE
  | inr rr =>
      if bool_decide (RVerdict rr = Model.VerdictOK)
      then if bool_decide (norm_lines expected = norm_lines (strip_bom (RStdout rr)))
           then Model.VerdictOK else VerdictWA
      else RVerdict rr
  end.

Definition lines_judged `{UnicodeTables} {S : Type} `{Executor S} (program : compiledProgram)
    (req : JudgeRequest) (tc : caseData) (res : JudgeCaseResult) : Prop :=
  zlen (c_input tc) <= FILE_LIMIT -> zlen (c_expectedOutput tc) <= TOKEN_LIMIT ->
  exists s out s', program_Run program (c_input tc) (TimeLimit req) (MemoryLimit req) s = (out, s')
    /\ CaseVerdict res = lines_verdict (c_expectedOutput tc) out /\ CaseStdout res = printed out.

Lemma judged_by_lines `{UnicodeTables} {S : Type} `{Executor S} program req artifact tc res :
  case_judged Default.main program req artifact tc res -> lines_judged program req tc res.
Proof.
  intros (s & out & s' & Hrun & Hv & Hp & Hz) Hi He. exists s, out, s'. split; [done|]. split; [|done].
  rewrite Hv. unfold case_verdict, lines_verdict. destruct out as [err|rr]; [done|].
  destruct (bool_decide (RVerdict rr = Model.VerdictOK)); [|done].
  assert (DefaultRunOutputLimitBytes <= TOKEN_LIMIT) by (vm_compute; discriminate).
  pose proof (checker_env_run artifact (c_input tc) (RStdout rr) (c_expectedOutput tc) Hi
                ltac:(simpl in Hz; lia) He) as Hc.
  apply (default_main_code _ ($"./" ++ ArtName artifact)) in Hc.
  unfold checker_process. cbn [RCommand checker_request head tail]. rewrite Hc. by destruct (bool_decide _).
Qed.

(** ** A service that started *)

(** The external files of the service. *)
Definition service_external (h : host_answers) (parts : service_parts) : option FS :=
  external_FS (Startup.files h) <$> s_external parts.

Lemma default_source `{UnicodeTables} h parts cfg : ready h cfg parts -> NewBundled (embedded h) = inr (s_bundle parts) ->
  exists source, embedded h !! $"support/checkers/default.cpp" = Some source
    /\ fs_ReadFile (s_bundle parts) (builtinCheckerPath defaultCheckerName) = inr source.
Proof.
  intros [] Hb. destruct ready_checker as [source Hs]. exists source. split.
  - exact (readSource_source (Startup.files h) [] _ _ [] [] (MkChoice checkerBuiltin defaultCheckerName) source
             Hb eq_refl (Hs _)).
  - specialize (Hs None). unfold readSource in Hs. cbn [kind choice_value] in Hs.
    destruct (fs_ReadFile (s_bundle parts) (builtinCheckerPath _)); [discriminate Hs|exact Hs].
Qed.

(** When the server started, from the empty cache and for any sequence of
    request bodies, if its default checker is compiled faithfully: every answer
    with a result is the answer to the only request of its body, and when that
    request uses the default checker, the cases of the answer were either not
    run, or were run with the program compiled from the request's source, on
    the request's texts or files of the external root: the verdict of each is
    the program's own failure, or whether the lines it printed are the expected
    ones. *)
Theorem service_verdicts `{UnicodeTables} {S : Type} `{Executor S} `{JSONDecoder}
    (Sum256 : bytes -> bytes) {C : Type} {L : LRU bytes CompileOutput C} `{!LRULaws bytes CompileOutput C}
    (h : host_answers) (cfg : settings) (parts : service_parts) (max : Z) (bodies : list bytes)
    (s s' : S) (resps : list response) (c' : C) :
  initializeServer h cfg = Some (inr parts) ->
  (forall source, embedded h !! $"support/checkers/default.cpp" = Some source ->
     faithful (engineHeader (s_engine parts)) source Default.main
     /\ forall x, Sum256 x = Sum256 source -> x = source) ->
  serve Sum256 (engineHeader (s_engine parts)) (fs_ReadFile (s_bundle parts)) (service_external h parts)
    max bodies (lru_new checkerCacheEntries) s = (resps, c', s') ->
  Forall2 (fun body resp => forall jr, Data resp = ResultData jr ->
    exists req, sole_request max body = Some req
      /\ (chooses defaultCheckerName req ->
          exists compiler cases, language_Resolve (ReqLanguage req) = inr compiler
            /\ materialize_cases (service_external h parts) 0 (TestCases req) = inr cases
            /\ (Cases jr = [] \/ exists program s1 compiled s2,
                  language_Compile compiler (SourceCode req) s1 = (inr (Some program, compiled), s2)
                  /\ Forall2 (lines_judged program req) cases (Cases jr)))) bodies resps.
Proof.
  intros Hi Hf E. destruct (default_source h parts cfg) as (source & Hsrc & Hread);
    [by apply initialize_ready|by eapply initialize_bundle|].
  destruct (Hf source Hsrc) as [Hb Hhash].
  eapply serve_sound in E; [|exact _|exact Hread|exact Hb|exact Hhash|apply sound_new].
  eapply Forall2_impl; [|exact E]. intros body resp Ha jr Hd. destruct (Ha jr Hd) as (req & Hr & Hj).
  exists req. split; [done|]. intros Hc. destruct (Hj Hc) as (compiler & cases & E1 & E2 & E3).
  exists compiler, cases. split; [done|]. split; [done|].
  destruct E3 as [?|(program & artifact & s1 & compiled & s2 & Hcomp & F)]; [by left|].
  right. exists program, s1, compiled, s2. split; [done|].
  eapply Forall2_impl; [|exact F]. intros tc res. by apply judged_by_lines.
  Unshelve. exact _.
Qed.

(** ** A concrete service *)

(** The system of [EndToEnd]; the output of a program is cut at its limit. *)
Definition cut_run (req : RunRequest) : RunResult :=
  if bool_decide (RFiles req = [])
  then MkRunResult Model.VerdictOK 0 (ztake (Z.max 0 (OutputBytes (RLimits req))) (RStdin req)) [] 7 3 []
  else echo_run req.

#[local] Instance cut_Executor : Executor unit := {|
  Execution.Compile req s :=
    (inr (MkCompileOutput [] (Some (MkArtifact (ArtifactName req) ($"ELF") 493))), s);
  Execution.Run req s := (inr (cut_run req), s) |}.

(** A host with two CPUs and no external root, a bundle with the header and
    the default checker, and the server started on it. *)
Definition sample_machine : host_answers :=
  MkHostAnswers (inr (fun cpu => cpu <? 2))
    (<[ $"support/testlib.h" := $"h" ]> {[ $"support/checkers/default.cpp" := $"int main" ]})
    (MkHostFiles (fun _ => inl (errors_New ($"no file"))) (fun _ _ => inl (errors_New ($"no file"))))
    true (fun _ => None) (fun _ => None).

Definition sample_settings : settings :=
  MkSettings ($":8080") ($"/run/containerd/containerd.sock") 8 4 [] 0.

Definition sample_parts : service_parts :=
  MkParts ($":8080") (MkSandbox ($"/run/containerd/containerd.sock") containerdNamespace (Container.MkPool 2 [0; 1]))
    (MkBundle (sub_ReadFile (embedded sample_machine) bundledSupportDirName)
              (sub_Stat (embedded sample_machine) bundledSupportDirName))
    None 8 (MkEngine 4 ($"h")).

Lemma sample_started : initializeServer sample_machine sample_settings = Some (inr sample_parts).
Proof.
  assert (Esb : sandbox_New sample_machine (containerdSocket sample_settings) containerdNamespace
                = Some (inr (s_sandbox sample_parts))) by (vm_compute; reflexivity).
  assert (Ee : NewJudgeEngine (s_bundle sample_parts) 4 = inr (s_engine sample_parts)) by (vm_compute; reflexivity).
  unfold initializeServer. rewrite Esb. unfold initialize_parts.
  change (NewBundled (embedded sample_machine)) with (inr (A := GoError) (s_bundle sample_parts)).
  cbv beta iota. change (open_external sample_machine sample_settings) with (inr (A := GoError) (B := option bytes) None).
  cbv beta iota. change (maxConcurrentJudges sample_settings) with 4. by rewrite Ee.
Qed.

Lemma sample_faithful source : embedded sample_machine !! $"support/checkers/default.cpp" = Some source ->
  @faithful ascii_tables unit cut_Executor ($"h") source Default.main.
Proof.
  intros Hs. constructor.
  - intros s out s' artifact [= <- _] [= <-] input output answer s1.
    eexists _, s1. split; [reflexivity|]. unfold cut_run, echo_run, checker_process.
    rewrite !bool_decide_false by done. by destruct (run_program _ _).
  - intros req s r s' Hf Ho [= <- _]. unfold cut_run. rewrite bool_decide_true by done. simpl.
    rewrite zlen_ztake by lia. lia.
Qed.

(** A decoder for which a body is one request, its input and expected output. *)
Definition body_request (input expected : bytes) : JudgeRequest :=
  MkJudgeRequest ($"int main;") ($" default ") [] LanguageC 1000 64 [MkTestCase input expected [] []].

#[local] Instance body_decoder : JSONDecoder := {|
  decode_request b := inr (body_request (available b) ($"1 2"), MkBody [] false);
  decode_end b := bool_decide (available b = []) |}.

Definition serve_two : list response * assoc_lru * unit :=
  @serve ascii_tables unit cut_Executor body_decoder id assoc_lru _ (engineHeader (s_engine sample_parts))
    (fs_ReadFile (s_bundle sample_parts)) (service_external sample_machine sample_parts)
    maxRequestBodyBytes [$"1  2"; $"1 2 "] (lru_new checkerCacheEntries) tt.

(** The verdicts of two requests, the second of which finds the checker in the
    cache. *)
Definition verdicts_of (r : response) : list Model.Verdict :=
  match Data r with ResultData jr => CaseVerdict <$> Cases jr | ErrorData _ => [] end.

Lemma serve_two_second : exists jr, serve_two.1.1 !! 1%nat = Some (writeJSON StatusOK (ResultData jr))
  /\ (CaseVerdict <$> Cases jr) = [Model.VerdictOK].
Proof. eexists. split; vm_compute; reflexivity. Qed.

Lemma service_verdicts_witness :
  map verdicts_of serve_two.1.1 = [[VerdictWA]; [Model.VerdictOK]]
  /\ exists program jr, serve_two.1.1 !! 1%nat = Some (writeJSON StatusOK (ResultData jr))
       /\ Forall2 (@lines_judged ascii_tables unit cut_Executor program (body_request ($"1 2 ") ($"1 2")))
            [MkCase ($"1 2 ") ($"1 2")] (Cases jr).
Proof.
  split; [vm_compute; reflexivity|]. destruct serve_two_second as (jr & Hr & Hc).
  assert (Ep : serve_two = (serve_two.1.1, serve_two.1.2, serve_two.2)) by (by destruct serve_two as [[? ?] ?]).
  pose proof (@service_verdicts ascii_tables unit cut_Executor body_decoder id assoc_lru _ _ sample_machine
    sample_settings sample_parts maxRequestBodyBytes [$"1  2"; $"1 2 "] tt serve_two.2 serve_two.1.1 serve_two.1.2
    sample_started (fun source Hs => conj (sample_faithful source Hs) (fun x E => E)) Ep) as F.
  destruct (Forall2_lookup_lr _ _ _ 1%nat ($"1 2 ") _ F eq_refl Hr jr eq_refl) as (req & Hreq & Hj).
  injection Hreq as <-. destruct (Hj eq_refl) as (compiler & cases & _ & Hm & [Hn|(program & s1 & o & s2 & _ & Hf)]).
  { rewrite Hn in Hc. discriminate Hc. }
  injection Hm as <-. exists program, jr. split; [exact Hr|exact Hf].
Defined.
