(* ===== verification/ConcurrentSpec.v ===== *)
(** * The service under concurrent requests

    What the invariant and the progress of the concurrent service say of the
    service that started, for every interleaving of its requests: the verdicts
    of the answers, that there are answers, and that they are those of the
    sequential handler. *)

From S2P Require Import Prelude Text GoText Model World Checkers LinesSpec.
From S2P Require Import Sandbox Brackets Execution ExecutionSpec Language Checker CheckerCache CacheSpec Judge JudgeSpec OutputLimiter OutputSpec SandboxSpec Container Resource Settings Startup StartupSpec Transport TransportSpec Server ServerSpec Service StackSpec ServiceInv ServiceExec ServiceWork ServiceSeq EndToEnd ServiceSpec.

(** ** Verdicts *)

Section Verdicts.
Context `{UnicodeTables} {S : Type} `{Executor S} `{JSONDecoder}.
Context (Sum256 : bytes -> bytes).
Context (testlibHeader : bytes) (bundledFS : FS) (externalFS : option FS) (maxBodyBytes : Z).

Abbreviation answers := (answers Sum256 testlibHeader bundledFS externalFS maxBodyBytes).
Abbreviation planned := (planned bundledFS externalFS maxBodyBytes).

Lemma receive_request body req compiler choice : receive maxBodyBytes body = inr (req, compiler, choice) ->
  sole_request maxBodyBytes body = Some req /\ language_Resolve (ReqLanguage req) = inr compiler
  /\ resolveChecker (Model.Checker req) (CheckerSourceCode req) = inr choice.
Proof.
  unfold receive, sole_request. destruct (decode_request _) as [err|[q rest]]; [done|].
  destruct (decode_end rest); [|done]. simpl. destruct (validateJudgeRequest q); [done|].
  destruct (language_Resolve _) eqn:El; [done|]. destruct (resolveChecker _ _) eqn:Ec; [done|].
  intros [= <- <- <-]. done.
Qed.

(** The answers with a result are to a request that had a plan. *)
Lemma answers_planned A body resp jr : answers A body resp -> Data resp = ResultData jr ->
  exists plan, planned body plan
    /\ (Cases jr = [] \/ exists program compileResult out runner checkerCompile,
          built plan program compileResult
          /\ checker_compiled Sum256 testlibHeader A (p_checker plan) out
          /\ after_prepare plan program compileResult out = inr (runner, checkerCompile)
          /\ Forall2 (case_outcome runner) (p_cases plan) (Cases jr)).
Proof.
  intros [r Hr | req compiler choice err Hr Hm | plan compiled s s' r Hp Hc Ha | plan program cr out r Hp Hb Hc Ha
    | plan program cr out runner cc results Hp Hb Hc Ha Hf].
  - apply receive_refused in Hr as [d ->]. done.
  - done.
  - intros [= <-]. exists plan. split; [done|]. left.
    unfold after_compile in Ha. by destruct compiled as [err|[[program|] cr]]; try done; injection Ha as <-.
  - intros [= <-]. exists plan. split; [done|]. left.
    unfold after_prepare in Ha. destruct out as [err|o]; [by injection Ha as <-|].
    destruct (CArtifact o); [done|by injection Ha as <-].
  - intros [= <-]. exists plan. split; [done|]. right. by exists program, cr, out, runner, cc.
Qed.

Context (name source : bytes) (main : option bytes -> list bytes -> M unit).
Context (Hsrc : bundledFS (builtinCheckerPath name) = inr source).
Context (Hb : faithful testlibHeader source main).

Lemma compiled_runs s out s' artifact : compileUncached testlibHeader source s = (inr out, s') ->
  CArtifact out = Some artifact -> runs_checker main artifact.
Proof.
  unfold compileUncached. destruct (Execution.Compile _ s) as [[err|o] s1] eqn:E; [done|].
  intros [= <- <-]. by eapply (bundled_builds _ _ _ Hb).
Qed.

Lemma answers_judged A body resp jr : (forall x, A x -> Sum256 x = Sum256 source -> x = source) ->
  answers A body resp -> Data resp = ResultData jr ->
  exists req, sole_request maxBodyBytes body = Some req
    /\ (chooses name req -> answer_judged externalFS main req jr).
Proof.
  intros HA Ha Hd. destruct (answers_planned A body resp jr Ha Hd) as (plan & (req & compiler & choice & Hr & M) & Hj).
  apply receive_request in Hr as (Hr & El & Ec). exists req. split; [done|]. intros Hch.
  unfold chooses in Hch. rewrite Hch in Ec. injection Ec as <-. unfold materialize, readSource in M. simpl in M.
  rewrite Hsrc in M. destruct (materialize_cases externalFS 0 (TestCases req)) as [err|cases] eqn:Em; [done|].
  injection M as <-. exists compiler, cases. split; [done|]. split; [done|].
  destruct Hj as [?|(program & cr & out & runner & cc & (s & s' & Hc) & (x & s1 & s2 & Hx & Ex & Hu) & Hp & F)]; [by left|].
  right. apply (HA x Hx) in Ex as ->. unfold after_prepare in Hp. destruct out as [err|o]; [done|].
  destruct (CArtifact o) as [artifact|] eqn:Eo; [|done]. injection Hp as <- _.
  exists program, artifact, s, cr, s'. split; [exact Hc|]. simpl in F.
  eapply Forall2_impl; [|exact F]. intros tc res. apply (outcome_judged testlibHeader source main Hb).
  by eapply compiled_runs.
Qed.
End Verdicts.

(** ** Answers *)

Section Answers.
Context `{UnicodeTables} {S : Type} `{Executor S} `{JSONDecoder}.
Context (Sum256 : bytes -> bytes).
Context {C : Type} {L : LRU bytes CompileOutput C} `{!LRULaws bytes CompileOutput C}.
Context (testlibHeader : bytes) (bundledFS : FS) (externalFS : option FS) (maxBodyBytes : Z).
(** The executor answers a request always the same. *)
Context (comp : CompileRequest -> GoError + CompileOutput) (run : RunRequest -> GoError + RunResult).
Context (Hcomp : forall req s, (Execution.Compile req s).1 = comp req).
Context (Hrun : forall req s, (Execution.Run req s).1 = run req).

Lemma language_Compile_same compiler source s s' :
  (language_Compile compiler source s).1 = (language_Compile compiler source s').1.
Proof.
  unfold language_Compile. destruct (Execution.Compile _ s) as [a ?] eqn:E1, (Execution.Compile _ s') as [b ?] eqn:E2.
  apply (f_equal fst) in E1, E2. rewrite Hcomp in E1, E2. simpl in E1, E2. subst a b. by destruct (comp _).
Qed.

Lemma compileUncached_same source s s' :
  (compileUncached testlibHeader source s).1 = (compileUncached testlibHeader source s').1.
Proof.
  unfold compileUncached. destruct (Execution.Compile _ s) as [a ?] eqn:E1, (Execution.Compile _ s') as [b ?] eqn:E2.
  apply (f_equal fst) in E1, E2. rewrite Hcomp in E1, E2. simpl in E1, E2. by subst a b.
Qed.

(** From an empty cache, a checker is compiled. *)
Lemma compile_fresh source n s :
  (compile Sum256 testlibHeader source (lru_new n) s).1.1 = (compileUncached testlibHeader source s).1.
Proof.
  unfold compile, do_compile. pose proof (get_new (C := C) (V := CompileOutput) (Sum256 source) n) as E1.
  pose proof (get_refresh (V := CompileOutput) (Sum256 source) (Sum256 source) (lru_new n : C)) as E2. rewrite E1 in E2.
  destruct (lru_get (Sum256 source) (lru_new n)) as [r c1]. simpl in E1, E2. subst r.
  destruct (lru_get (Sum256 source) c1) as [r c2]. simpl in E2. subst r.
  destruct (compileUncached _ source s) as [[err|out] s1]; done.
Qed.

Lemma outcomes_same runner cases results s : Forall2 (case_outcome runner) cases results ->
  results = (runAllCases runner cases s).1.
Proof.
  intros F. eapply outcomes_unique; [exact Hrun|exact F|apply runAllCases_outcome].
Qed.

(** What a body can be answered with is one answer. *)
Lemma answers_same A body resp n s :
  (forall x plan, A x -> planned bundledFS externalFS maxBodyBytes body plan ->
     Sum256 x = Sum256 (p_checker plan) -> x = p_checker plan) ->
  answers Sum256 testlibHeader bundledFS externalFS maxBodyBytes A body resp ->
  resp = (handleExecute Sum256 testlibHeader bundledFS externalFS maxBodyBytes body (lru_new n) s).1.1.
Proof.
  intros HA Ha. rewrite handleExecute_phases. destruct Ha as
    [r Hr | req compiler choice err Hr Hm | plan compiled e e' r Hp Hc Ha
    | plan program cr out r Hp Hc (x & e1 & e2 & Hx & Ex & Hu) Ha
    | plan program cr out runner cc results Hp Hc (x & e1 & e2 & Hx & Ex & Hu) Ha Hf].
  1, 2: by rewrite Hr, ?Hm.
  all: try (apply (HA x plan Hx Hp) in Ex as ->); destruct Hp as (req & compiler & choice & Hr & Hm); rewrite Hr, Hm;
    rewrite executeJudgePlan_phases; try (destruct Hc as (e & e' & Hc));
    pose proof (language_Compile_same (p_compiler plan) (p_sourceCode plan) e s) as Ec; rewrite Hc in Ec; simpl in Ec;
    destruct (language_Compile (p_compiler plan) (p_sourceCode plan) s) as [comp' s1]; simpl in Ec; subst comp'.
  - by rewrite Ha.
  - cbn [after_compile].
    pose proof (compile_fresh (p_checker plan) n s1) as Ep. rewrite (compileUncached_same _ s1 e1), Hu in Ep.
    destruct (compile _ _ (p_checker plan) (lru_new n) s1) as [[o c1] s2]. simpl in Ep. subst o. by rewrite Ha.
  - cbn [after_compile].
    pose proof (compile_fresh (p_checker plan) n s1) as Ep. rewrite (compileUncached_same _ s1 e1), Hu in Ep.
    destruct (compile _ _ (p_checker plan) (lru_new n) s1) as [[o c1] s2]. simpl in Ep. subst o. rewrite Ha.
    rewrite (outcomes_same _ _ _ s2 Hf). by destruct (runAllCases _ _ s2).
Qed.
End Answers.

(** ** One request after the other *)

Section Sequence.
Context `{UnicodeTables} {S : Type} `{Executor S} `{JSONDecoder}.
Context (Sum256 : bytes -> bytes).
Context {C : Type} {L : LRU bytes CompileOutput C} `{!LRULaws bytes CompileOutput C}.
Context (testlibHeader : bytes) (bundledFS : FS) (externalFS : option FS).
Context (maxBodyBytes maxConcurrent : Z) (Hmax : 0 < maxConcurrent).

Abbreviation step := (service_step Sum256 testlibHeader bundledFS externalFS maxBodyBytes maxConcurrent).
Abbreviation runs := (service_runs Sum256 testlibHeader bundledFS externalFS maxBodyBytes maxConcurrent).

Lemma runs_extend s events st st' : runs s events st -> rtc (step Work) st st' -> exists events', runs s events' st'.
Proof.
  intros Hr Hw. revert events Hr. induction Hw as [st|st st1 st2 Hs _ IH]; intros events Hr; [by exists events|].
  by eapply IH, service_next.
Qed.

(** Serving requests in sequence is an execution of the service. *)
Lemma serve_schedule bodies s events (st : @service S C) n resps c s' : runs s events st -> idle st ->
  (forall g, (n <= g)%nat -> sv_handlers st !! g = None) ->
  serve Sum256 testlibHeader bundledFS externalFS maxBodyBytes bodies (cache (sv_group st)) (sv_exec st) = (resps, c, s') ->
  exists events' st', runs s events' st' /\ cache (sv_group st') = c /\ sv_exec st' = s'
    /\ (forall g, (g < n)%nat -> sv_handlers st' !! g = sv_handlers st !! g)
    /\ forall i body resp, bodies !! i = Some body -> resps !! i = Some resp ->
         at_phase st' (n + i) body (Answered resp).
Proof.
  revert events st n resps. induction bodies as [|body bodies IH]; intros events st n resps Hr [Ha Hf] Hfree; simpl.
  { intros [= <- <- <-]. by exists events, st. }
  destruct (handleExecute _ _ _ _ _ body _ _) as [[resp c1] s1] eqn:E1.
  destruct (serve _ _ _ _ _ bodies c1 s1) as [[rs c2] s2] eqn:E2.
  intros [= <- <- <-]. pose proof (Hfree n (le_n n)) as Hn.
  assert (I : service_inv Sum256 testlibHeader bundledFS externalFS maxBodyBytes maxConcurrent st)
    by (eapply service_runs_inv; [exact _|lia|exact Hr]).
  destruct (handle_alone Sum256 testlibHeader bundledFS externalFS maxBodyBytes maxConcurrent n body (sv_handlers st)
    (sv_exec st) (sv_group st) resp c1 s1 Hmax (si_fresh _ _ _ _ _ _ _ I n Hn) Hf E1) as (grp & Hw & Hc & Hf').
  set (st1 := alone n body (sv_handlers st) s1 0 grp (Answered resp)) in Hw.
  assert (Hr1 : runs s (events ++ [Arrival]) (alone n body (sv_handlers st) (sv_exec st) 0 (sv_group st) Received)).
  { eapply service_next; [exact Hr|]. unfold alone. rewrite <- Ha. by apply sv_arrive. }
  destruct (runs_extend _ _ _ _ Hr1 Hw) as [events1 Hr2].
  destruct (IH events1 st1 (Datatypes.S n) rs) as (events2 & st2 & Hr3 & Hc3 & Hs3 & Hold & Hans); [exact Hr2|done| | |].
  { intros g Hg. simpl. rewrite lookup_insert_ne by lia. apply Hfree. lia. }
  { simpl. by rewrite Hc. }
  exists events2, st2. split_and!; [done..| |].
  - intros g Hg. rewrite Hold by lia. simpl. by rewrite lookup_insert_ne by lia.
  - intros [|i] b r; simpl.
    + intros [= <-] [= <-]. unfold at_phase. rewrite Nat.add_0_r, Hold by lia. simpl. by rewrite lookup_insert_eq.
    + intros Hb Hi. rewrite Nat.add_succ_r. by apply (Hans i).
Qed.
End Sequence.

(** ** The service that started *)

(** The executions of the service with the parts of [initializeServer]. *)
Definition started_runs `{UnicodeTables} {S : Type} `{Executor S} `{JSONDecoder} (Sum256 : bytes -> bytes)
    {C : Type} {L : LRU bytes CompileOutput C} (h : host_answers) (parts : service_parts) (max : Z)
    : S -> list server_event -> @service S C -> Prop :=
  service_runs Sum256 (engineHeader (s_engine parts)) (fs_ReadFile (s_bundle parts)) (service_external h parts)
    max (concurrencySem (s_engine parts)).

(** C1: when the server started and its default checker is compiled faithfully:
    under every interleaving of any number of concurrent requests, at most
    MAX_CONCURRENT_JUDGES of them are being judged at any moment, and every
    answer with a result is the answer to the only request of its body; when
    that request uses the default checker, and no source of another request
    has its SHA-256, the cases of the answer were either not run, or were run
    with the program compiled from the request's source, on the request's texts
    or files of the external root: the verdict of each is the program's own
    failure, or whether the lines it printed are the expected ones. *)
Theorem concurrent_verdicts `{UnicodeTables} {S : Type} `{Executor S} `{JSONDecoder}
    (Sum256 : bytes -> bytes) {C : Type} {L : LRU bytes CompileOutput C} `{!LRULaws bytes CompileOutput C}
    (h : host_answers) (cfg : settings) (parts : service_parts) (max : Z)
    (s : S) (events : list server_event) (st : @service S C) :
  initializeServer h cfg = Some (inr parts) ->
  started_runs Sum256 h parts max s events st ->
  (forall source, embedded h !! $"support/checkers/default.cpp" = Some source ->
     faithful (engineHeader (s_engine parts)) source Default.main
     /\ forall x, asked (fs_ReadFile (s_bundle parts)) (service_external h parts) max st x ->
          Sum256 x = Sum256 source -> x = source) ->
  Z.of_nat (msum holder (sv_handlers st)) <= maxConcurrentJudges cfg
  /\ forall g body resp jr, at_phase st g body (Answered resp) -> Data resp = ResultData jr ->
     exists req, sole_request max body = Some req
      /\ (chooses defaultCheckerName req ->
          exists compiler cases, language_Resolve (ReqLanguage req) = inr compiler
            /\ materialize_cases (service_external h parts) 0 (TestCases req) = inr cases
            /\ (Cases jr = [] \/ exists program s1 compiled s2,
                  language_Compile compiler (SourceCode req) s1 = (inr (Some program, compiled), s2)
                  /\ Forall2 (lines_judged program req) cases (Cases jr))).
Proof.
  intros Hi Hr Hf. pose proof (initialize_ready h cfg parts Hi) as R. destruct (ready_judges _ _ _ R) as [Hpos Hj].
  assert (I : service_inv Sum256 (engineHeader (s_engine parts)) (fs_ReadFile (s_bundle parts))
                (service_external h parts) max (concurrencySem (s_engine parts)) st)
    by (eapply service_runs_inv; [exact _|lia|exact Hr]).
  split; [pose proof (si_acquired _ _ _ _ _ _ _ I); pose proof (si_size _ _ _ _ _ _ _ I); lia|].
  intros g body resp jr Hp Hd. pose proof (si_handler _ _ _ _ _ _ _ I g body _ Hp) as Ha. simpl in Ha.
  destruct (default_source h parts cfg R) as (source & Hsrc & Hread); [by eapply initialize_bundle|].
  destruct (Hf source Hsrc) as [Hb Hhash].
  destruct (answers_judged _ _ _ _ _ _ source Default.main Hread Hb _ _ _ _ Hhash Ha Hd) as (req & Hreq & Hans).
  exists req. split; [done|]. intros Hc. destruct (Hans Hc) as (compiler & cases & E1 & E2 & E3).
  exists compiler, cases. split; [done|]. split; [done|].
  destruct E3 as [?|(program & artifact & s1 & compiled & s2 & Hcomp & F)]; [by left|].
  right. exists program, s1, compiled, s2. split; [done|].
  eapply Forall2_impl; [|exact F]. intros tc res. by apply judged_by_lines.
Qed.

(** C3: every request is answered: under every interleaving the requests take
    no more than 141 steps each, all together, and as long as one of them is not
    answered some handler, flight or case can go on; in particular the semaphore
    and the shared compilations never block each other. *)
Theorem service_answers `{UnicodeTables} {S : Type} `{Executor S} `{JSONDecoder}
    (Sum256 : bytes -> bytes) {C : Type} {L : LRU bytes CompileOutput C} `{!LRULaws bytes CompileOutput C}
    (h : host_answers) (cfg : settings) (parts : service_parts) (max : Z)
    (s : S) (events : list server_event) (st : @service S C) :
  initializeServer h cfg = Some (inr parts) ->
  started_runs Sum256 h parts max s events st ->
  (works events <= 141 * arrivals events)%nat
  /\ (unanswered st -> exists st', started_runs Sum256 h parts max s (events ++ [Work]) st').
Proof.
  intros Hi Hr. destruct (ready_judges _ _ _ (initialize_ready h cfg parts Hi)) as [Hpos _].
  apply Z.lt_le_incl in Hpos as Hle.
  split; [pose proof (runs_bounded _ _ _ _ _ _ s events st Hle Hr); lia|].
  intros Hu. edestruct (service_progress Sum256 (engineHeader (s_engine parts)) (fs_ReadFile (s_bundle parts))
    (service_external h parts) max (concurrencySem (s_engine parts)) st) as [st' Hs]; [|done|done|].
  - eapply service_runs_inv; [exact _|lia|exact Hr].
  - exists st'. by eapply service_next.
Qed.

(** C2: when the executor answers a request always the same, concurrency is
    not observable: if no two sources in play have the same SHA-256, then
    whatever the interleaving, what the cache kept or evicted and which request
    compiled for which, the answer to every body is the one the sequential
    handler gives it with an empty cache. *)
Theorem concurrent_sequential `{UnicodeTables} {S : Type} `{Executor S} `{JSONDecoder}
    (Sum256 : bytes -> bytes) {C : Type} {L : LRU bytes CompileOutput C} `{!LRULaws bytes CompileOutput C}
    (h : host_answers) (cfg : settings) (parts : service_parts) (max : Z)
    (comp : CompileRequest -> GoError + CompileOutput) (run : RunRequest -> GoError + RunResult)
    (s s' : S) (events : list server_event) (st : @service S C) (g : nat) (body : bytes) (resp : response) :
  initializeServer h cfg = Some (inr parts) ->
  (forall req s, (Execution.Compile req s).1 = comp req) -> (forall req s, (Execution.Run req s).1 = run req) ->
  started_runs Sum256 h parts max s events st ->
  (forall x y, asked (fs_ReadFile (s_bundle parts)) (service_external h parts) max st x ->
     asked (fs_ReadFile (s_bundle parts)) (service_external h parts) max st y -> Sum256 x = Sum256 y -> x = y) ->
  at_phase st g body (Answered resp) ->
  resp = (handleExecute Sum256 (engineHeader (s_engine parts)) (fs_ReadFile (s_bundle parts))
            (service_external h parts) max body (lru_new checkerCacheEntries) s').1.1.
Proof.
  intros Hi Hc Hrun Hr Hinj Hp. destruct (ready_judges _ _ _ (initialize_ready h cfg parts Hi)) as [Hpos _].
  assert (I : service_inv Sum256 (engineHeader (s_engine parts)) (fs_ReadFile (s_bundle parts))
                (service_external h parts) max (concurrencySem (s_engine parts)) st)
    by (eapply service_runs_inv; [exact _|lia|exact Hr]).
  pose proof (si_handler _ _ _ _ _ _ _ I g body _ Hp) as Ha. simpl in Ha.
  eapply answers_same; [exact _|exact Hc|exact Hrun| |exact Ha].
  intros x plan Hx Hpl. apply Hinj; [done|]. by exists g, (MkHandler body (Answered resp)), plan.
Qed.

(** C4: on the executor of the repository and whatever its hosts answer: under
    every interleaving of concurrent requests, every call of the executor gave
    its slot and its workspace back and started at most one container, for one
    of four reasons: to compile the source of a request that arrived, or its
    checker; to run a program compiled from such a source on a case of the
    request under its limits; or to run the compiled checker on that case and
    an output.  Every container has a read-only root, no capability, no new
    privileges, bounded memory and processes, and sees nothing of the host but
    its own workspace; a program or a checker moreover cannot write there, and
    is denied the blocked system calls. *)
Theorem service_isolated `{UnicodeTables} `{JSONDecoder}
    (Sum256 : bytes -> bytes) {C : Type} {L : LRU bytes CompileOutput C} `{!LRULaws bytes CompileOutput C}
    (h : host_answers) (cfg : settings) (parts : service_parts) (max : Z)
    (hosts : nat -> HostScript) (events : list server_event) (st : @service executor C) :
  initializeServer h cfg = Some (inr parts) ->
  started_runs Sum256 h parts max (MkExecutor hosts 0 []) events st ->
  Forall (accounted
            (calls_compile (engineHeader (s_engine parts)) (fs_ReadFile (s_bundle parts)) (service_external h parts) max
               (arrived st))
            (calls_run (S := executor) Sum256 (engineHeader (s_engine parts)) (fs_ReadFile (s_bundle parts))
               (service_external h parts) max
               (arrived st)))
         (log (sv_exec st)).
Proof.
  intros Hi Hr. destruct (ready_judges _ _ _ (initialize_ready h cfg parts Hi)) as [Hpos _].
  set (P := calls_compile _ _ _ _). set (Q := calls_run (S := executor) _ _ _ _ _).
  apply (runs_exec Sum256 (engineHeader (s_engine parts)) (fs_ReadFile (s_bundle parts)) (service_external h parts)
           max (concurrencySem (s_engine parts)) (fun B (e : executor) => Forall (accounted (P B) (Q B)) (log e))
           (MkExecutor hosts 0 []) events st); [lia| | |done|exact Hr].
  - intros A B e HAB. apply Forall_impl. intros trace.
    unfold P, Q. apply accounted_mono; intros req; [by eapply calls_compile_mono|by eapply calls_run_mono].
  - intros B e e' [|req e1 Hreq|req e1 Hreq] Hf; [done| |]; simpl.
    + destruct (executor_Compile _ req) as [res trace] eqn:E. apply Forall_app. split; [done|].
      apply Forall_singleton. eapply Compile_accounted; [exact E|exact Hreq].
    + destruct (executor_Run _ req) as [res trace] eqn:E. apply Forall_app. split; [done|].
      apply Forall_singleton. eapply Run_accounted; [exact E|exact Hreq].
Qed.

(** C5: on the executor and the sandbox of the repository, under every
    interleaving of concurrent requests and whatever containerd, the clock and
    the programs do: an answer with a result has no cases, or one result for
    each case of the request that was its body, in order.  The program was
    compiled from the request's source, in its language, and the checker from
    the one that it names or brings, or from a source with the same hash; both
    compilations are calls of the executor.  The result of a case is that of a
    call of the executor that ran the program on the case's input under the
    request's limits: if the call failed, because something that it asked of
    the host did or its container, that is reported; otherwise the output, the
    time, the memory and the exit code are those of the container of that call.
    The output is what the writers kept, the time and the memory what the
    cgroup said.  If the container did not end well, the verdict is the
    container's, Java's failure to allocate memory apart, and what was reached
    was reached there: with a runtime error the program exited by itself with a
    code other than 0 and all its output within the budget, at a limit of time,
    memory or output the clock, the cgroup or the writers said so.  If it did,
    the verdict is from the container of a call of the checker on the input,
    that output and the expected one: accepted for the exit code 0, wrong for 1
    or 2, and a failure of the checker for all the rest. *)
Theorem verdicts_justified `{UnicodeTables} `{JSONDecoder}
    (Sum256 : bytes -> bytes) {C : Type} {L : LRU bytes CompileOutput C} `{!LRULaws bytes CompileOutput C}
    (h : host_answers) (cfg : settings) (parts : service_parts) (max : Z)
    (containers : nat -> call_container) (hosts : nat -> HostScript)
    (events : list server_event) (st : @service executor C)
    (g : nat) (body : bytes) (resp : response) (jr : JudgeResult) :
  initializeServer h cfg = Some (inr parts) ->
  (forall n, on_sandbox (containers n) (hosts n)) ->
  started_runs Sum256 h parts max (MkExecutor hosts 0 []) events st ->
  at_phase st g body (Answered resp) -> Data resp = ResultData jr ->
  exists req, sole_request max body = Some req
    /\ (Cases jr = [] \/ exists compiler choice source cases artifact checker,
         language_Resolve (ReqLanguage req) = inr compiler
         /\ resolveChecker (Model.Checker req) (CheckerSourceCode req) = inr choice
         /\ readSource (fs_ReadFile (s_bundle parts)) (service_external h parts) choice = inr source
         /\ materialize_cases (service_external h parts) 0 (TestCases req) = inr cases
         /\ compiled_in hosts (log (sv_exec st)) (language_request compiler (SourceCode req)) artifact
         /\ (exists x, Sum256 x = Sum256 source
              /\ compiled_in hosts (log (sv_exec st))
                   (checker_compile_request (engineHeader (s_engine parts)) x) checker)
         /\ Forall2 (reported containers hosts (log (sv_exec st))
               (MkRunner (MkProgram (ReqLanguage req) (prof_Run (res_profile compiler)) artifact) checker
                  (providedByRequest choice) (TimeLimit req) (MemoryLimit req)))
              cases (Cases jr)).
Proof.
  intros Hi Hh Hr Hp Hd. destruct (ready_judges _ _ _ (initialize_ready h cfg parts Hi)) as [Hpos _].
  assert (Hcount : counted hosts (sv_exec st)).
  { apply (runs_exec Sum256 (engineHeader (s_engine parts)) (fs_ReadFile (s_bundle parts)) (service_external h parts)
             max (concurrencySem (s_engine parts)) (fun _ => counted hosts) (MkExecutor hosts 0 []) events st);
      [lia|done| |done|exact Hr].
    intros B e e' [|req e1 _|req e1 _] Hc; [done|by apply compile_counted|by apply run_counted]. }
  assert (HV : forall c, records hosts (sv_exec st) c -> logged hosts (log (sv_exec st)) c)
    by (intros c Hc; apply Hc; apply Hcount).
  pose proof (runs_seen Sum256 (engineHeader (s_engine parts)) (fs_ReadFile (s_bundle parts)) (service_external h parts)
    max (concurrencySem (s_engine parts)) (records hosts) (records_compile hosts) (records_run hosts)
    (records_after_compile hosts) (records_after_run hosts) _ events st ltac:(lia) Hr) as K.
  destruct (seen_phase _ _ _ _ _ _ _ K g body _ Hp jr Hd) as (plan & (req & compiler & choice & Hreq & M) & Hj).
  apply receive_request in Hreq as (Hreq & El & Ec). exists req. split; [done|].
  destruct Hj as [?|(runner & Hrun & F)]; [by left|]. right. exists compiler, choice. revert M. unfold materialize.
  destruct (readSource _ _ choice) as [err|source] eqn:Es; [done|].
  destruct (materialize_cases _ 0 _) as [err|cases] eqn:Em; [done|]. intros [= <-].
  destruct runner as [[lang profile artifact] checker user t m].
  destruct Hrun as ((out & Ho & Ha & Hlang & Hprof) & (x & ck & Hx & Hck & Hca) & Eu & Et & Emem). simpl in *. subst.
  exists source, cases, artifact, checker. apply HV in Ho, Hck. destruct Ho as (n & tr & Hn & E), Hck as (n' & tr' & Hn' & E').
  assert (El' : res_language compiler = ReqLanguage req)
    by (unfold language_Resolve in El; destruct (profileForLanguage _); [done|by injection El as <-]).
  split_and!; try done; [by exists n, tr, out|exists x; split; [done|by exists n', tr', ck]|].
  rewrite <- El'. eapply Forall2_impl; [|exact F]. intros tc res.
  apply (case_reported containers hosts (log (sv_exec st)) Hh (records hosts)); [exact HV|].
  exact (executor_Compile_name _ _ _ _ _ E' Hca).
Qed.

(** ** A concrete execution *)

Abbreviation sample_executes := (@started_runs ascii_tables unit cut_Executor body_decoder id assoc_lru _
  sample_machine sample_parts maxRequestBodyBytes).

(** The two requests of [ServiceSpec.serve_two] as goroutines 0 and 1. *)
Lemma sample_execution : exists events st, sample_executes tt events st
  /\ exists jr0 jr1, at_phase st 0 ($"1  2") (Answered (writeJSON StatusOK (ResultData jr0)))
       /\ at_phase st 1 ($"1 2 ") (Answered (writeJSON StatusOK (ResultData jr1)))
       /\ (CaseVerdict <$> Cases jr0) = [VerdictWA] /\ (CaseVerdict <$> Cases jr1) = [Model.VerdictOK].
Proof.
  assert (Ep : serve_two = (serve_two.1.1, serve_two.1.2, serve_two.2)) by (by destruct serve_two as [[? ?] ?]).
  pose proof (@serve_schedule ascii_tables unit cut_Executor body_decoder id assoc_lru _ _
    (engineHeader (s_engine sample_parts)) (fs_ReadFile (s_bundle sample_parts))
    (service_external sample_machine sample_parts) maxRequestBodyBytes 4 eq_refl
    [$"1  2"; $"1 2 "] tt [] (new_service tt) 0%nat serve_two.1.1 serve_two.1.2 serve_two.2
    (service_new _ _ _ _ _ _ tt) (conj eq_refl eq_refl) (fun g _ => lookup_empty g) Ep) as K.
  destruct K as (events & st & Hr & _ & _ & _ & Hans).
  exists events, st. split; [exact Hr|].
  assert (H0 : exists jr, serve_two.1.1 !! 0%nat = Some (writeJSON StatusOK (ResultData jr))
            /\ (CaseVerdict <$> Cases jr) = [VerdictWA]) by (eexists; split; vm_compute; reflexivity).
  destruct H0 as (jr0 & H0 & V0), serve_two_second as (jr1 & H1 & V1). exists jr0, jr1.
  split; [exact (Hans 0%nat _ _ eq_refl H0)|]. split; [exact (Hans 1%nat _ _ eq_refl H1)|]. exact (conj V0 V1).
Qed.

Lemma concurrent_verdicts_witness : exists events st, sample_executes tt events st
  /\ Z.of_nat (msum holder (sv_handlers st)) <= 4
  /\ exists program jr, at_phase st 1 ($"1 2 ") (Answered (writeJSON StatusOK (ResultData jr)))
       /\ (CaseVerdict <$> Cases jr) = [Model.VerdictOK]
       /\ Forall2 (@lines_judged ascii_tables unit cut_Executor program (body_request ($"1 2 ") ($"1 2")))
            [MkCase ($"1 2 ") ($"1 2")] (Cases jr).
Proof.
  destruct sample_execution as (events & st & Hr & jr0 & jr & _ & Hp & _ & Hc). exists events, st. split; [exact Hr|].
  destruct (@concurrent_verdicts ascii_tables unit cut_Executor body_decoder id assoc_lru _ _ sample_machine
    sample_settings sample_parts maxRequestBodyBytes tt events st sample_started Hr
    (fun source Hs => conj (sample_faithful source Hs) (fun x _ E => E))) as [Hm F].
  split; [exact Hm|]. destruct (F 1%nat _ _ jr Hp eq_refl) as (req & Hreq & Hj).
  injection Hreq as <-. destruct (Hj eq_refl) as (compiler & cases & _ & Hcs & [Hn|(program & s1 & o & s2 & _ & Hf)]).
  { rewrite Hn in Hc. discriminate Hc. }
  injection Hcs as <-. exists program, jr. split; [exact Hp|]. split; [exact Hc|exact Hf].
Defined.

Lemma service_answers_witness : exists events st, sample_executes tt events st
  /\ unanswered st /\ exists st', sample_executes tt (events ++ [Work]) st'.
Proof.
  assert (Hr : sample_executes tt [Arrival] (go 0%nat ($"1  2") Received (new_service tt)))
    by (apply (service_next _ _ _ _ _ _ tt [] Arrival (new_service tt)); [apply service_new|by apply sv_arrive]).
  assert (Hu : @unanswered unit assoc_lru (go 0%nat ($"1  2") Received (new_service tt)))
    by (exists 0%nat, ($"1  2"), Received; done).
  exists [Arrival], (go 0%nat ($"1  2") Received (new_service tt)). split; [exact Hr|]. split; [exact Hu|].
  exact (proj2 (@service_answers ascii_tables unit cut_Executor body_decoder id assoc_lru _ _ sample_machine
    sample_settings sample_parts maxRequestBodyBytes tt [Arrival] _ sample_started Hr) Hu).
Defined.

Lemma concurrent_sequential_witness : exists events st jr, sample_executes tt events st
  /\ at_phase st 1 ($"1 2 ") (Answered (writeJSON StatusOK (ResultData jr)))
  /\ writeJSON StatusOK (ResultData jr)
     = (@handleExecute ascii_tables unit cut_Executor body_decoder id assoc_lru _ (engineHeader (s_engine sample_parts))
          (fs_ReadFile (s_bundle sample_parts)) (service_external sample_machine sample_parts) maxRequestBodyBytes
          ($"1 2 ") (lru_new checkerCacheEntries) tt).1.1.
Proof.
  destruct sample_execution as (events & st & Hr & jr0 & jr & _ & Hp & _). exists events, st, jr.
  split; [exact Hr|]. split; [exact Hp|].
  exact (@concurrent_sequential ascii_tables unit cut_Executor body_decoder id assoc_lru _ _ sample_machine
    sample_settings sample_parts maxRequestBodyBytes (fun req => (@Execution.Compile unit cut_Executor req tt).1)
    (fun req => inr (cut_run req)) tt tt events st 1%nat _ _ sample_started (fun _ _ => eq_refl) (fun _ _ => eq_refl) Hr
    (fun x y _ _ E => E) Hp).
Defined.

(** A host whose compilers leave a program and a checker, and whose containers
    print 42. *)
Definition compiling_host : HostScript :=
  MkHost None None None None ($"/tmp/w") (fun _ => None)
    (fun req d => (inr (sample_result ($"42")),
                   match MountDir req with
                   | Some m => if ReadOnly m then d
                               else <[$"program" := MkEntry ($"ELF") 493 true]>
                                      (<[$"checker" := MkEntry ($"ELF") 493 true]> d)
                   | None => d
                   end))
    (fun _ => false) (fun _ => errors_New ($"no such file")) (fun _ => None) None 18.

Definition sample_executor : executor := MkExecutor (fun _ => compiling_host) 0 [].

Definition serve_one : list response * assoc_lru * executor :=
  @serve ascii_tables executor (@executor_Executor ascii_tables) body_decoder id assoc_lru _
    (engineHeader (s_engine sample_parts))
    (fs_ReadFile (s_bundle sample_parts)) (service_external sample_machine sample_parts)
    maxRequestBodyBytes [$"1  2"] (lru_new checkerCacheEntries) sample_executor.

(** One request: two compilations, a run of the program and one of the
    checker. *)
Lemma service_isolated_witness : exists events (st : @service executor assoc_lru),
  @started_runs ascii_tables executor (@executor_Executor ascii_tables) body_decoder id assoc_lru _
    sample_machine sample_parts maxRequestBodyBytes sample_executor events st
  /\ (length ∘ noted <$> log (sv_exec st)) = [1; 1; 1; 1]%nat /\ Forall bracketed (log (sv_exec st)).
Proof.
  assert (Ep : serve_one = (serve_one.1.1, serve_one.1.2, serve_one.2)) by (by destruct serve_one as [[? ?] ?]).
  pose proof (@serve_schedule ascii_tables executor (@executor_Executor ascii_tables) body_decoder id assoc_lru _ _
    (engineHeader (s_engine sample_parts)) (fs_ReadFile (s_bundle sample_parts))
    (service_external sample_machine sample_parts) maxRequestBodyBytes 4 eq_refl
    [$"1  2"] sample_executor [] (new_service sample_executor) 0%nat serve_one.1.1 serve_one.1.2 serve_one.2
    (service_new _ _ _ _ _ _ sample_executor) (conj eq_refl eq_refl) (fun g _ => lookup_empty g) Ep) as K.
  destruct K as (events & st & Hr & _ & Hs & _). exists events, st. split; [exact Hr|].
  assert (Hl : (length ∘ noted <$> log serve_one.2) = [1; 1; 1; 1]%nat) by (vm_compute; reflexivity).
  split; [rewrite Hs; exact Hl|].
  pose proof (@service_isolated ascii_tables body_decoder id assoc_lru _ _ sample_machine sample_settings sample_parts
    maxRequestBodyBytes (fun _ => compiling_host) events st sample_started Hr) as F.
  exact (Forall_impl _ (fun trace A => proj1 A) F).
Defined.

Definition quick_executor : executor := MkExecutor (fun _ => quick_host) 0 [].

Definition serve_quick : list response * assoc_lru * executor :=
  @serve ascii_tables executor (@executor_Executor ascii_tables) body_decoder id assoc_lru _
    (engineHeader (s_engine sample_parts)) (fs_ReadFile (s_bundle sample_parts))
    (service_external sample_machine sample_parts) maxRequestBodyBytes [$"1  2"] (lru_new checkerCacheEntries)
    quick_executor.

(** One case of a program that ran for seven milliseconds. *)
Lemma verdicts_justified_witness : exists events (st : @service executor assoc_lru) res cr cc,
  @started_runs ascii_tables executor (@executor_Executor ascii_tables) body_decoder id assoc_lru _
    sample_machine sample_parts maxRequestBodyBytes quick_executor events st
  /\ at_phase st 0 ($"1  2")
       (Answered (writeJSON StatusOK (ResultData (MkJudgeResult JudgeStatusOK cr cc [res]))))
  /\ CaseVerdict res = Model.VerdictOK /\ TimeUsed res = 7
  /\ exists runner tc, prog_language (r_program runner) = LanguageC /\ r_timeLimit runner = 1000
     /\ @reported ascii_tables (fun _ req _ => quick_container req) (fun _ => quick_host) (log (sv_exec st))
          runner tc res.
Proof.
  assert (Ep : serve_quick = (serve_quick.1.1, serve_quick.1.2, serve_quick.2))
    by (by destruct serve_quick as [[? ?] ?]).
  pose proof (@serve_schedule ascii_tables executor (@executor_Executor ascii_tables) body_decoder id assoc_lru _ _
    (engineHeader (s_engine sample_parts)) (fs_ReadFile (s_bundle sample_parts))
    (service_external sample_machine sample_parts) maxRequestBodyBytes 4 eq_refl
    [$"1  2"] quick_executor [] (new_service quick_executor) 0%nat serve_quick.1.1 serve_quick.1.2
    serve_quick.2 (service_new _ _ _ _ _ _ quick_executor) (conj eq_refl eq_refl) (fun g _ => lookup_empty g) Ep) as K.
  destruct K as (events & st & Hr & _ & _ & _ & Hans).
  assert (Hj : exists res cr cc, serve_quick.1.1 !! 0%nat
            = Some (writeJSON StatusOK (ResultData (MkJudgeResult JudgeStatusOK cr cc [res])))
            /\ CaseVerdict res = Model.VerdictOK /\ TimeUsed res = 7)
    by (eexists _, _, _; split; [vm_compute; reflexivity|split; reflexivity]).
  destruct Hj as (res & cr & cc & Hl & Hv & Ht). exists events, st, res, cr, cc.
  pose proof (Hans 0%nat _ _ eq_refl Hl) as Hp.
  destruct (@verdicts_justified ascii_tables body_decoder id assoc_lru _ _ sample_machine sample_settings sample_parts
    maxRequestBodyBytes (fun _ req _ => quick_container req) (fun _ => quick_host) events st 0%nat ($"1  2") _ _
    sample_started (fun _ => quick_on_sandbox) Hr Hp eq_refl)
    as (req & Hreq & [Hn|(compiler & choice & source & cases & artifact & checker & _ & _ & _ & _ & _ & _ & F)]);
    [discriminate Hn|].
  injection Hreq as <-. split; [exact Hr|]. split; [exact Hp|]. split; [exact Hv|]. split; [exact Ht|].
  apply Forall2_cons_inv_r in F as (tc & ? & Hrep & _ & _).
  eexists _, tc. split; [|split; [|exact Hrep]]; reflexivity.
Defined.
